(* ===== verification/_CoqProject ===== *)
-Q . S2P
Prelude.v
Prog.v
Doubles.v
Keys.v
RateBudget.v
Throttling.v
Concurrency.v
Ports.v
Ledger.v
Detectors.v
DomainSync.v
DomainSyncInvariants.v
DomainSyncSafety.v
DomainSyncSettles.v
DomainSyncIdempotence.v
ApplyDeletion.v
ApplyOnLedger.v
Verification.v
VerificationLedger.v
Reindex.v
PermissionMap.v
ShareQueue.v
SetupSteps.v
Cutover.v
CutoverJobs.v
DavCanonical.v
Dav.v
DavText.v
DavWriter.v
CollectionWriter.v
WebdavWriter.v
WebdavWalk.v
SampleServer.v
MessageId.v
ImapText.v
ImapTarget.v
ImapSource.v
DavSync.v
DavSamples.v
WebdavSource.v
WebdavSourceSamples.v
MailSync.v
SampleMail.v
MailSamples.v
Decisions.v
MailboxDrift.v
GroupDiscovery.v
Schedules.v
Lifecycle.v
Offboarding.v
