(* ===== verification/Prelude.v ===== *)
(** * Ownpace: a verification library

    Ownpace copies a mailbox, its calendars, contacts and files from one
    provider to another, keeps the copy in step for as long as the owner wants,
    and ends with a cutover.  Three promises carry the program: a pass may be
    run any number of times and never duplicates (hard rule 1 of the
    repository), nothing on the target is overwritten or removed without a
    licence (hard rule 2), and nothing that failed is reported as done (hard
    rule 9).  This library models the code that keeps them and proves that it
    does, or shows where it does not.

    ** The program's parts and the files that model them

    - [Prelude] (this file): record update as TypeScript's object spread, the
      readings of [??] and [||], JavaScript's insertion-ordered [Map] and [Set]
      as lists, comparators for [ORDER BY], the case-analysis tactics.
    - [Prog]: asynchronous code.  An [async] function is a sequence of atomic
      steps over a shared world ([prog]); between two [await]s it is alone.
      [run] executes it undisturbed, [run_trace] collects the worlds a crash
      may leave, [rg] is a rely-guarantee logic for the rest, with the two
      judgements the clients use: [keeps] (an invariant kept by every step
      whatever the others do) and [triple] (a postcondition that survives
      them), and [calls] interleaves any number of calls statement by statement,
      each possibly cut off, and proves what every one of them accounts for.
    - [RateBudget] is the three token buckets
      ([packages/shared/src/throttling.ts], [packages/shared/src/rate-budget.ts],
      [packages/ledger/src/pg-rate-budget.ts]), [Throttling] the limiter around
      them.  Proved: a bound on what a bucket grants in any window, for all three
      through one interface ([Metered]); that whoever waits at a bucket is
      served; the accounts of the limiter's slots, which show that retries lose
      slots until nobody is served; what a mapping's merged limits are.
    - [Concurrency] is [packages/shared/src/concurrency.ts]:
      [mapWithConcurrency] as a pool of runners driven by a schedule, any list
      of runner indices.  Proved: at most [limit] items in flight, no schedule
      runs for ever and none gets stuck, one runner is the sequential loop, the
      rule that lifts a worker's [rg] triple to the pool, and the accounts of a
      pool whose workers each book what they do once.
    - [Ports] is [packages/shared/src/ports.ts]: the records the parts
      exchange, and the [Ledger] port as a class with its laws
      ([LedgerLaws]).  Everything above the ledger is proved against the laws.
    - [Ledger] is the item table and the audit log of
      [packages/ledger/src/ledger.ts] ([PgLedger]): a finite map from (tenant,
      mapping, natural key hash) to the columns, each SQL statement one atomic
      function.  Proved: the table's invariant under every statement, the
      idempotent insert, the licences of the two removals, consent that does
      not outlive its move, orders of the queues, and the laws of the port; and
      that only the deletion of a mapping or the erasure of a tenant takes rows
      away.
    - [Detectors], [DomainSync] are [packages/core/src/domain-sync.ts]: one
      pass over one domain.  [DomainSync.runDomainSync] takes the source, the
      target and the per-domain functions as the fields of [DomainSyncDeps],
      as the code does; its world holds the ledger, the outside, the cursors
      and the variables the closures share ([PassState]); each folder's items
      go through the pool under a schedule of their own.  [Detectors] holds the
      three detectors that run after the folders and the merging of what they
      report.
    - [DomainSyncInvariants], [DomainSyncSafety], [DomainSyncSettles],
      [DomainSyncIdempotence]: the theorems about a whole pass, for every
      interleaving - what a pass may never touch, what a pass without failures
      achieves, and that the next one then does nothing.
    - [ApplyDeletion], [ApplyOnLedger] are
      [packages/core/src/apply-deletion.ts]: removing a target copy, by hand or
      unattended.  Proved against the port's laws: every gate holds when a copy
      is removed, the removal precedes its record in every world a crash may
      leave, the evaluations shown to the owner predict the outcome, a mass
      event stops everything, the unattended pass keeps its cap.  Against
      [Ledger] itself: what the gates let through the SQL records, once.
    - [Keys] is [packages/shared/src/hash.ts] (natural keys), [Doubles] the
      rounding of JavaScript's numbers where the code divides.
    - [DavCanonical] is [packages/shared/src/dav-canonical.ts], what is compared
      of an event or a contact after a server rewrote it.  Proved: folding, line
      ends, escapes, parameters and order do not matter, and the meaning of the
      compared values does, where none of them has a line break.
    - [Dav] is what the DAV writers of [packages/engines/src] share with a
      server ([dav-retry.ts], [dav-target-version.ts], [dav-remove.ts]): requests,
      retries, ETags, removal.  The server is any state with a step per request;
      [HttpServer] lists the sentences of the RFCs the theorems rely on.
      Proved: everything a removal says and makes of the answers ([converses],
      with others at the server between two requests).
    - [DavText] is [dav-multistatus.ts] and [dav-collection-path.ts], the
      regular expressions as scanners.  Proved: escaping comes back.
    - [DavWriter] holds what the writers have in common, [CollectionWriter] is
      [caldav-target-writer.ts] and [carddav-target-writer.ts], one text up to a
      [Flavour], [WebdavWriter] is [webdav-target-writer.ts], whole.  Proved:
      what an upload that is not a rewrite may change (nothing that is there),
      what a refused write is reported as.  [WebdavWalk]: the shared walk over
      the target ends, misses no file, and what it finds is adopted.
    - [MessageId] is [packages/shared/src/generated-message-id.ts], [ImapText]
      the text IMAP is spoken in ([imap-conventions.ts]): reading a Message-ID
      out of a message, writing one into a message without, cursors, flags and
      special uses.  Proved: the id written is the id read, unless the message
      begins with a blank.
    - [ImapTarget] and [ImapSource] are
      [packages/connectors/src/imapflow-dav-target.ts] and
      [packages/connectors/src/imapflow-source.ts] over the calls of the IMAP
      library ([ImapClient], [ImapReader]) and the sentences of RFC 3501, 4315
      and 6851 the theorems rely on ([ImapServer], [ImapReaderServer]).  Proved:
      an upload only appends, a removal on a server with MOVE or UIDPLUS touches
      the one message it names and says so only if it is gone, a stale handle
      removes nothing, no message falls between two cursors.
    - [MailSync] is [packages/core/src/reconcile.ts]: the engine with the mail
      source and the IMAP target.  Proved for every interleaving: a pass only
      appends to the target, a second one changes nothing, and with the ledger
      lost nothing is copied twice.  [SampleMail] is a server that keeps the
      promises, [MailSamples] runs whole passes on it: witnesses, and what goes
      wrong.
    - [DavSync] is [packages/core/src/dav-sync.ts]: the engine with a source and
      a writer.  Proved over any server that keeps the rules of [HttpServer]: no
      pass changes the bytes of an item the owner keeps, and a second pass
      changes nothing.  [SampleServer] is one such server, and [DavSamples]
      runs whole passes on it: witnesses, and what goes wrong.
    - [WebdavSource] is [packages/connectors/src/webdav-source.ts] and
      [webdav-trashbin.ts], the files of the other end: a multi-status read by
      the connector's own expressions, cursors, the bin, as the [FileSource] of
      [DavSync].  Proved: no change is missed between two listings, a file has
      one path in the listing and in the bin, a quiet folder is listed whole
      every other time.  [WebdavSourceSamples] runs passes from such a source:
      what lies two directories down is never copied.
    - [Verification] is [packages/core/src/verification.ts], the gate before a
      cutover; [VerificationLedger] its reads, from
      [packages/core/src/verification-implementations.ts] and
      [packages/ledger/src/verification-queries.ts], over [Ledger].  Proved:
      what a report always says whatever changed between its reads, what
      exactly lets a cutover proceed, and, over a ledger and targets that hold
      still, that the gate answers, that its counts are exact, and what a clean
      pass means for every data type the ledger expects something of.
    - [Reindex] is [packages/core/src/reindex.ts]: the ledger rebuilt from the
      target.  Proved where the listing ends and no other data type holds a key of
      it: the very rows it writes and its counts.  They are keyed as mail, so for
      the other data types a second theorem shows the gate that then refuses.
    - [Cutover] is [packages/core/src/cutover-state.ts] and
      [packages/ledger/src/cutover-store.ts]; [CutoverJobs] the preparation and
      rollback jobs and the command line of [apps/worker/src].  Proved with the
      calls interleaved statement by statement and cut off anywhere: every event
      is a listed transition from a state the audit trail arrived at, and a
      mapping found COMPLETED has an approval, a cutover and a grace period in
      its trail; what each job and command does to each state.  Two calls at
      once may log two events from one state.
    - [PermissionMap], [ShareQueue] are [packages/core/src/permission-map.ts],
      [packages/core/src/share-queue.ts] and the [share_grant] table of
      [PgLedger]: the rights found on the source as a checklist.  Proved under
      any interleaving with other sessions: no invitation without a licence, a
      settled row stays settled, a rescan takes no decision back.  [SetupSteps]
      is the [setup_step] table and its progress.
    - [Decisions] is the decision queue ([packages/shared/src/decisions.ts],
      [packages/ledger/src/decision-store.ts], [policy-preset-store.ts]):
      questions that drift raises, at most one open per subject, answers that
      are final under any statements until their mapping is deleted or their
      tenant erased.  [MailboxDrift] is the detector of
      mailboxes nobody migrates
      ([packages/core/src/detect-new-mailboxes.ts], [mapping-coverage.ts],
      [run-new-mailbox-detection.ts]), [GroupDiscovery] the recording of shared
      addresses ([run-group-discovery.ts], [classify-shared-address.ts],
      [mapping-pattern.ts], [packages/ledger/src/group-def-store.ts]) and the
      answer to the question about them.  Proved: what exactly is asked, that
      asking converges, that discovery records what it read, leaves every decision
      as it is and takes back nothing done on the target; and two places where
      an answer is lost.
    - [Schedules] is what decides that a pass starts: schedules and their checks
      ([packages/shared/src/cron-schedule.ts]), the slot of a mapping without one
      and whether it is due ([packages/orchestration/src/sync-due.ts],
      [enabled-domains.ts]), and the tick
      ([apps/worker/src/jobs/managed-sync-tick.ts]) over the pool of
      [Concurrency].  Proved: the slot is FNV-1a, its schedule is four minutes of
      every hour and is accepted; the calls a tick sends are one for each due
      mapping with a selected domain, and its summary counts them.
    - [Lifecycle] is [packages/shared/src/lifecycle.ts], [quiesce.ts] and
      [packages/scheduler/src/single-flight.ts]: starting and finishing a
      mapping, what an erasure waits for, one pass of a mapping at a time.
    - [Offboarding] is [packages/managed/src/offboarding.ts],
      [packages/shared/src/erasure-timeline.ts] and the hourly job
      ([apps/worker/src/jobs/managed-purge-closed.ts]): closing, reopening and
      erasing an account, over rows with foreign keys and what [ON DELETE] says
      of each.  Proved: an erasure takes all the tenant's rows but the invoices
      and nothing of anybody else's, or fails and changes nothing, which it
      does for ever once a verification was recorded; a pass that may be running
      puts it off.

    ** How the parts meet

    A pass reads and writes the ledger only through the port; the writers of
    the target are programs over ledger and outside, and what is asked of them
    is stated as hypotheses ([static_calls], [calls_keep], [listings_keep]),
    which [DavSync] proves of the three DAV writers, from the frame of each
    ([steps_upsertItem], [steps_upsertFile]): every step lies in a relation on
    the ledger and one on the server.  [MailSync] proves the same hypotheses of
    the IMAP target, whose only effect on a mailbox is to append or to move one
    message away.  The detectors write to the decision queue as sequences of its
    statements ([queue_steps]), so what the queue promises holds while they run.
    The cutover jobs see a pass and
    the verification gate as calls that answer, the gate with the report of
    [Verification].  The gate reads the ledger through a reader with laws
    ([ReaderLaws]), which the SQL of [VerificationLedger] meets.

    ** Bounds, numbers, time

    Some loops run on fuel.  The scanner of a multi-status has the length of the
    text, and every match consumes a character.  Whoever awaits the shared walk
    takes [turns] turns; [walk_finds_everything] says that as many as the target
    has directories are enough.  A schedule string is split with one round per
    character and one to end, and the minutes of an hour are listed with sixty.
    A cascade of deletions has a round per row; [cascade_complete] says that
    this takes everything that goes along.  A
    schedule of turns that stops before a folder is done makes
    [runDomainSync] answer [None], and [mapWithConcurrency_terminates] says
    that every schedule can be extended to one that does not.  Counters,
    sizes and instants are [Z]: the code's values stay far below the 2^53 a
    double represents exactly.  The comparison of the mass-deletion share with
    its decimal is made by cross-multiplication, which agrees with the double
    comparison; the ratios of the verification gate are rationals rounded as
    binary64 rounds after every operation.  Instants are milliseconds; clocks are
    fields of the worlds that only the environment moves.  A [SELECT] without
    [ORDER BY] answers in an order that is a parameter.

    ** What is not modelled

    The connectors other than IMAP and WebDAV (the JMAP, Graph, Google, Dropbox,
    Box, CalDAV and CardDAV sources and the JMAP targets): they translate a provider's network
    protocol, and the engine sees them through the port, as its parameters.
    What a DAV or IMAP server does with a request beyond the promises listed;
    timers, and when a schedule fires next, which a library keeps; SQL migrations
    (but the foreign keys an erasure meets), row level security, the user
    interface, deployment, billing and the rest of the managed edition; log lines and timing metrics.  SHA-256, Unicode case
    mapping and the parsing of URLs are parameters. *)

From stdpp Require Export base numbers strings gmap list sorting.

(** ** Record update

    [x <| f := v |>] is TypeScript's [{ ...x, f: v }].  A record opts in by
    giving its eta expansion once; the setter of a field is computed from it. *)

Class Eta (R : Type) := eta : R -> R.

Class Setter {R T : Type} (getter : R -> T) := field_update : (T -> T) -> R -> R.

Ltac solve_setter :=
  lazymatch goal with
  | |- @Setter ?R ?T ?getter =>
    let inst := constr:(_ : Eta R) in
    let inst := eval unfold Eta in inst in
    let inst := eval hnf in inst in
    exact (fun (upd : T -> T) (r : R) => ltac:(
      let body := eval cbv beta in (inst r) in
      lazymatch body with
      | context C [getter r] => let b := context C [upd (getter r)] in exact b
      end))
  end.

#[global] Hint Extern 1 (Setter _) => solve_setter : typeclass_instances.

Arguments field_update {R T} getter {_} _ _ /.

Declare Scope record_update_scope.
Delimit Scope record_update_scope with rec.
Open Scope record_update_scope.

Notation "r '<|' f := v '|>'" := (field_update f (fun _ => v) r)
  (at level 8, f at level 7, v at level 200, left associativity,
   format "r  <|  f  :=  v  |>") : record_update_scope.
Notation "r '<|' f '::=' g '|>'" := (field_update f g r)
  (at level 8, f at level 7, g at level 200, left associativity,
   format "r  <|  f  ::=  g  |>") : record_update_scope.

(** ** Optional values as TypeScript spells them *)

(** [x ?? d]. *)
Definition nullish {A} (o : option A) (d : A) : A := default d o.

(** [s ? { f: s } : {}] on an optional string: the empty string is falsy. *)
Definition truthy (o : option string) : option string :=
  match o with
  | Some s => if decide (s = ""%string) then None else Some s
  | None => None
  end.

(** [x !== undefined]. *)
Definition defined {A} (o : option A) : bool :=
  match o with Some _ => true | None => false end.

Lemma defined_true {A} (o : option A) : defined o = true <-> is_Some o.
Proof. destruct o; simpl; split; intros H; try done; eauto. Qed.

Lemma defined_false {A} (o : option A) : defined o = false <-> o = None.
Proof. by destruct o. Qed.

Lemma truthy_Some o s : truthy o = Some s <-> o = Some s /\ s <> ""%string.
Proof. destruct o as [t|]; simpl; [case_decide|]; naive_solver. Qed.

Lemma truthy_None o : truthy o = None <-> o = None \/ o = Some ""%string.
Proof. destruct o as [t|]; simpl; [case_decide|]; naive_solver. Qed.

(** ** Lists as JavaScript collections *)

(** [new Set(l)] iterated: the first occurrence of each value, in order. *)
Fixpoint js_dedup_from {A} `{EqDecision A} (seen : list A) (l : list A) : list A :=
  match l with
  | [] => []
  | x :: l' => if decide (x ∈ seen) then js_dedup_from seen l'
               else x :: js_dedup_from (x :: seen) l'
  end.

Definition js_dedup {A} `{EqDecision A} (l : list A) : list A := js_dedup_from [] l.

Lemma elem_of_js_dedup_from {A} `{EqDecision A} (l seen : list A) x :
  x ∈ js_dedup_from seen l <-> x ∈ l /\ x ∉ seen.
Proof.
  revert seen; induction l as [|y l IH]; intros seen; simpl; [set_solver|].
  case_decide; rewrite ?elem_of_cons, ?IH; [set_solver|].
  destruct (decide (x = y)); set_solver.
Qed.

Lemma elem_of_js_dedup {A} `{EqDecision A} (l : list A) x : x ∈ js_dedup l <-> x ∈ l.
Proof. unfold js_dedup. rewrite elem_of_js_dedup_from. set_solver. Qed.

Lemma NoDup_js_dedup_from {A} `{EqDecision A} (l seen : list A) :
  NoDup (js_dedup_from seen l).
Proof.
  revert seen; induction l as [|y l IH]; intros seen; simpl; [constructor|].
  case_decide; [done|]. constructor; [|done].
  rewrite elem_of_js_dedup_from. set_solver.
Qed.

Lemma NoDup_js_dedup {A} `{EqDecision A} (l : list A) : NoDup (js_dedup l).
Proof. apply NoDup_js_dedup_from. Qed.

(** [m.set(k, v)] on a JavaScript [Map]: a key already present keeps its
    place in the iteration order. *)
Fixpoint js_map_set {K V} `{EqDecision K} (k : K) (v : V) (m : list (K * V)) : list (K * V) :=
  match m with
  | [] => [(k, v)]
  | (k', v') :: m' => if decide (k' = k) then (k', v) :: m' else (k', v') :: js_map_set k v m'
  end.

Fixpoint js_map_get {K V} `{EqDecision K} (k : K) (m : list (K * V)) : option V :=
  match m with
  | [] => None
  | (k', v') :: m' => if decide (k' = k) then Some v' else js_map_get k m'
  end.

Section js_map.
Context {K V : Type} `{EqDecision K}.
Implicit Types m : list (K * V).

Lemma js_map_get_set_eq k (v : V) m : js_map_get k (js_map_set k v m) = Some v.
Proof.
  induction m as [|[k' v'] m IH]; simpl; repeat (case_decide; simpl); done.
Qed.

Lemma js_map_get_set_ne k k' (v : V) m :
  k <> k' -> js_map_get k' (js_map_set k v m) = js_map_get k' m.
Proof.
  intros Hne. induction m as [|[k0 v0] m IH]; simpl; repeat (case_decide; simpl); congruence.
Qed.

Lemma js_map_set_keys_in k (v : V) m x :
  x ∈ (js_map_set k v m).*1 <-> x = k \/ x ∈ m.*1.
Proof.
  induction m as [|[k' v'] m IH]; simpl; [set_solver|].
  case_decide; simpl; set_solver.
Qed.

Lemma NoDup_js_map_set k (v : V) m : NoDup m.*1 -> NoDup (js_map_set k v m).*1.
Proof.
  induction m as [|[k' v'] m IH]; simpl.
  - intros _. constructor; [set_solver|constructor].
  - intros [Hnin Hnd]%NoDup_cons. case_decide; simpl; constructor; auto.
    intros [->|Hin]%js_map_set_keys_in; done.
Qed.

Lemma js_map_get_elem_of m k v : NoDup m.*1 -> ((k, v) ∈ m <-> js_map_get k m = Some v).
Proof.
  induction m as [|[k' v'] m IH]; simpl; [set_solver|].
  intros [Hnin Hnd]%NoDup_cons. specialize (IH Hnd). rewrite elem_of_cons.
  case_decide; subst; split.
  - intros [[=]|Hin]; [by subst|].
    exfalso. apply Hnin. apply list_elem_of_fmap. by exists (k, v).
  - naive_solver.
  - intros [[=]|Hin]; [by subst|tauto].
  - tauto.
Qed.
End js_map.

(** ** Three-way comparisons, as [ORDER BY] chains them *)

Class Comparator {A} (c : A -> A -> comparison) := {
  cmp_opp a b : c b a = CompOpp (c a b);
  cmp_trans x a b d : c a b = x -> c b d = x -> c a d = x
}.

Arguments cmp_opp {A} c {_} a b.
Arguments cmp_trans {A} c {_} x a b d.

Definition then_by (c c' : comparison) : comparison := match c with Eq => c' | _ => c end.

Definition not_after (c : comparison) : Prop := c <> Gt.

#[export] Instance not_after_dec c : Decision (not_after c).
Proof. unfold not_after. destruct c; [left|left|right]; congruence. Defined.

Section comparators.
Context {A : Type}.
Implicit Types c : A -> A -> comparison.

Lemma cmp_eq_l c `{!Comparator c} a b d : c a b = Eq -> c a d = c b d.
Proof.
  intros Hab. assert (Hba : c b a = Eq) by (rewrite (cmp_opp c a b), Hab; done).
  destruct (c a d) eqn:Had; symmetry.
  - by apply (cmp_trans c _ _ a).
  - destruct (c b d) eqn:Hbd; [|done|].
    + rewrite <- Had. symmetry. by apply (cmp_trans c _ _ b).
    + assert (c d b = Lt) by (rewrite (cmp_opp c b d), Hbd; done).
      assert (c a b = Lt) by (by apply (cmp_trans c _ _ d)). congruence.
  - destruct (c b d) eqn:Hbd; [| |done].
    + rewrite <- Had. symmetry. by apply (cmp_trans c _ _ b).
    + assert (c d a = Lt) by (rewrite (cmp_opp c a d), Had; done).
      assert (c b a = Lt) by (by apply (cmp_trans c _ _ d)). congruence.
Qed.

Lemma cmp_eq_r c `{!Comparator c} a b d : c b d = Eq -> c a b = c a d.
Proof.
  intros H. rewrite (cmp_opp c b a), (cmp_opp c d a). by rewrite (cmp_eq_l c b d a).
Qed.

#[export] Instance then_by_comparator c c' `{!Comparator c, !Comparator c'} :
  Comparator (fun a b => then_by (c a b) (c' a b)).
Proof.
  split.
  - intros a b. rewrite (cmp_opp c a b). destruct (c a b); simpl; [apply (cmp_opp c')|done..].
  - intros x a b d H1 H2. unfold then_by in *.
    destruct (c a b) eqn:Hab.
    + rewrite (cmp_eq_l c a b d Hab). destruct (c b d); [by apply (cmp_trans c' _ _ b)|done..].
    + destruct (c b d) eqn:Hbd.
      * rewrite <- (cmp_eq_r c a b d Hbd). by rewrite Hab.
      * by rewrite (cmp_trans c Lt a b d).
      * congruence.
    + destruct (c b d) eqn:Hbd.
      * rewrite <- (cmp_eq_r c a b d Hbd). by rewrite Hab.
      * congruence.
      * by rewrite (cmp_trans c Gt a b d).
Qed.

Lemma cmp_total c `{!Comparator c} : Total (fun a b => not_after (c a b)).
Proof. intros a b. unfold not_after. rewrite (cmp_opp c a b). destruct (c a b); naive_solver. Qed.

Lemma cmp_transitive c `{!Comparator c} : Transitive (fun a b => not_after (c a b)).
Proof.
  intros a b d H1 H2. unfold not_after in *. destruct (c a b) eqn:Hab; [| |done].
  - by rewrite (cmp_eq_l c a b d Hab).
  - destruct (c b d) eqn:Hbd; [| |done].
    + rewrite <- (cmp_eq_r c a b d Hbd). congruence.
    + rewrite (cmp_trans c Lt a b d); done.
Qed.

Lemma cmp_antisym c `{!Comparator c} a b :
  not_after (c a b) -> not_after (c b a) -> c a b = Eq.
Proof. unfold not_after. rewrite (cmp_opp c a b). by destruct (c a b). Qed.
End comparators.

#[export] Instance comparator_on {A B} (f : B -> A) (c : A -> A -> comparison) :
  Comparator c -> Comparator (fun a b => c (f a) (f b)).
Proof. intros [Ho Ht]. split; [intros; apply Ho|intros x a b d; apply Ht]. Qed.

#[export] Instance comparator_flip {A} (c : A -> A -> comparison) :
  Comparator c -> Comparator (fun a b => c b a).
Proof. intros [Ho Ht]. split; [intros; apply Ho|]. intros x a b d H1 H2. by apply (Ht x d b a). Qed.

#[export] Instance Z_comparator : Comparator Z.compare.
Proof.
  split; [apply Z.compare_antisym|]. intros [] a b d;
    rewrite ?Z.compare_eq_iff, ?Z.compare_lt_iff, ?Z.compare_gt_iff; lia.
Qed.

#[export] Instance N_comparator : Comparator N.compare.
Proof.
  split; [apply N.compare_antisym|]. intros [] a b d;
    rewrite ?N.compare_eq_iff, ?N.compare_lt_iff, ?N.compare_gt_iff; lia.
Qed.

(** Strings compare byte by byte. *)
Fixpoint string_compare (a b : string) : comparison :=
  match a, b with
  | EmptyString, EmptyString => Eq
  | EmptyString, String _ _ => Lt
  | String _ _, EmptyString => Gt
  | String x a', String y b' =>
      then_by (N.compare (Ascii.N_of_ascii x) (Ascii.N_of_ascii y)) (string_compare a' b')
  end.

#[export] Instance string_comparator : Comparator string_compare.
Proof.
  split.
  - induction a as [|x a IH]; intros [|y b]; simpl; try done.
    rewrite (N.compare_antisym (Ascii.N_of_ascii x)), IH. by destruct (N.compare _ _).
  - intros r a. induction a as [|x a IH]; intros [|y b] [|z d]; simpl; try congruence.
    intros H1 H2. unfold then_by in *.
    destruct (N.compare (Ascii.N_of_ascii x) (Ascii.N_of_ascii y)) eqn:Hxy.
    + rewrite (cmp_eq_l N.compare _ _ (Ascii.N_of_ascii z) Hxy).
      destruct (N.compare (Ascii.N_of_ascii y) (Ascii.N_of_ascii z)); [by eapply IH|done..].
    + destruct (N.compare (Ascii.N_of_ascii y) (Ascii.N_of_ascii z)) eqn:Hyz.
      * rewrite <- (cmp_eq_r N.compare _ _ _ Hyz). by rewrite Hxy.
      * by rewrite (cmp_trans N.compare Lt _ _ _ Hxy Hyz).
      * congruence.
    + destruct (N.compare (Ascii.N_of_ascii y) (Ascii.N_of_ascii z)) eqn:Hyz.
      * rewrite <- (cmp_eq_r N.compare _ _ _ Hyz). by rewrite Hxy.
      * congruence.
      * by rewrite (cmp_trans N.compare Gt _ _ _ Hxy Hyz).
Qed.

Lemma string_compare_eq a b : string_compare a b = Eq -> a = b.
Proof.
  revert b; induction a as [|x a IH]; intros [|y b]; simpl; try done.
  unfold then_by. destruct (N.compare _ _) eqn:Hxy; try done. intros H.
  apply N.compare_eq in Hxy. f_equal; [|auto].
  rewrite <- (Ascii.ascii_N_embedding x), <- (Ascii.ascii_N_embedding y). by rewrite Hxy.
Qed.

(** ** [Array.prototype.sort] with a comparator: stable. *)
Section stable_sort.
Context {A : Type} (c : A -> A -> comparison).

Fixpoint insert_sorted (x : A) (l : list A) : list A :=
  match l with
  | [] => [x]
  | y :: l' => if decide (not_after (c x y)) then x :: y :: l' else y :: insert_sorted x l'
  end.

Definition stable_sort (l : list A) : list A := foldr insert_sorted [] l.

Lemma insert_sorted_perm x l : insert_sorted x l ≡ₚ x :: l.
Proof.
  induction l as [|y l IH]; simpl; [done|]. case_decide; [done|]. rewrite IH. apply Permutation_swap.
Qed.

Lemma stable_sort_perm l : stable_sort l ≡ₚ l.
Proof. induction l as [|x l IH]; simpl; [done|]. by rewrite insert_sorted_perm, IH. Qed.

Lemma stable_sort_sorted `{!Comparator c} l : StronglySorted (fun a b => not_after (c a b)) (stable_sort l).
Proof.
  induction l as [|x l IH]; [constructor|]. simpl. induction IH as [|y l' Hs IHs Hall]; simpl; [repeat constructor|].
  case_decide as Hxy.
  - constructor; [by constructor|]. constructor; [done|]. eapply Forall_impl; [exact Hall|].
    intros z Hz. by apply (cmp_transitive c _ y).
  - constructor; [done|]. rewrite insert_sorted_perm. constructor; [|done].
    by destruct (cmp_total c y x).
Qed.

(** The order of the input does not show when equal elements are the same. *)
Lemma stable_sort_unique `{!Comparator c} l l' : (forall a b, c a b = Eq -> a = b) ->
  l ≡ₚ l' -> stable_sort l = stable_sort l'.
Proof.
  intros Heq Hl. apply (StronglySorted_unique_strong (fun a b => not_after (c a b))).
  - intros a b _ _ Hab Hba. by apply Heq, (cmp_antisym c).
  - apply stable_sort_sorted.
  - apply stable_sort_sorted.
  - by rewrite !stable_sort_perm.
Qed.
End stable_sort.

(** [array.slice(0, n)]: a negative [n] counts from the end. *)
Definition js_take {A} (n : Z) (l : list A) : list A :=
  take (Z.to_nat (if (n <? 0)%Z then n + Z.of_nat (length l) else n)%Z) l.

Definition zsum {A} (f : A -> Z) (l : list A) : Z := foldr (fun x s => (f x + s)%Z) 0%Z l.

Lemma zsum_insert {A} (f : A -> Z) l i x y :
  l !! i = Some x -> zsum f (<[i := y]> l) = (zsum f l - f x + f y)%Z.
Proof.
  revert i; induction l as [|z l IH]; intros [|i] H; simplify_eq/=; [lia|].
  rewrite (IH i H); lia.
Qed.

Lemma zsum_add {A} (f g : A -> Z) l : zsum (fun x => f x + g x)%Z l = (zsum f l + zsum g l)%Z.
Proof. unfold zsum; induction l; simpl; lia. Qed.

Lemma zsum_nonneg {A} (f : A -> Z) l : Forall (fun x => 0 <= f x)%Z l -> (0 <= zsum f l)%Z.
Proof. unfold zsum; induction 1; simpl; lia. Qed.

Lemma zsum_ge_lookup {A} (f : A -> Z) l i x :
  Forall (fun x => 0 <= f x)%Z l -> l !! i = Some x -> (f x <= zsum f l)%Z.
Proof.
  intros H; revert i; induction H as [|y l Hy H IH]; intros [|i] E; simplify_eq/=.
  - pose proof (zsum_nonneg f l H); lia.
  - specialize (IH i E); lia.
Qed.

Lemma zsum_zero {A} (f : A -> Z) l : Forall (fun x => f x = 0)%Z l -> zsum f l = 0%Z.
Proof. unfold zsum; induction 1; simpl; lia. Qed.

(** ** Tactics *)

(** Split every [match]/[if] of the goal or of a hypothesis. *)
Ltac dm :=
  repeat match goal with
  | |- context [match ?x with _ => _ end] => destruct x eqn:?
  | H : context [match ?x with _ => _ end] |- _ => destruct x eqn:?
  end.

(** One level of the same, without descending into scrutinees that are
    themselves matches. *)
Ltac dm1 :=
  match goal with
  | |- context [match ?x with _ => _ end] =>
      lazymatch x with context [match _ with _ => _ end] => fail | _ => destruct x eqn:? end
  | H : context [match ?x with _ => _ end] |- _ =>
      lazymatch x with context [match _ with _ => _ end] => fail | _ => destruct x eqn:? end
  end.

Create HintDb ownpace discriminated.
#[export] Hint Resolve NoDup_js_dedup NoDup_js_map_set : ownpace.
#[export] Hint Rewrite @elem_of_js_dedup @js_map_get_set_eq : ownpace.
