(* ===== verification/Prog.v ===== *)
(** * Asynchronous code as resumptions, and a rely-guarantee logic for it

    An [async] function of the source is a sequence of atomic steps separated
    by its [await]s: between two awaits nothing else of the process runs, at an
    await any other pending function may.  [prog W E A] is that sequence over a
    shared world [W]: [Act f k] performs one atomic step and continues with its
    answer, [Ret] and [Throw] are the two ways an async function settles. *)

From S2P Require Import Prelude.

Inductive prog (W E A : Type) : Type :=
| Ret (a : A)
| Throw (e : E)
| Act (B : Type) (f : W -> B * W) (k : B -> prog W E A).

Arguments Ret {W E A} a.
Arguments Throw {W E A} e.
Arguments Act {W E A B} f k.

Section combinators.
Context {W E : Type}.

Fixpoint pbind {A B} (p : prog W E A) (q : A -> prog W E B) : prog W E B :=
  match p with
  | Ret a => q a
  | Throw e => Throw e
  | Act f k => Act f (fun b => pbind (k b) q)
  end.

(** [try { p } catch (e) { h(e) }] *)
Fixpoint pcatch {A} (p : prog W E A) (h : E -> prog W E A) : prog W E A :=
  match p with
  | Ret a => Ret a
  | Throw e => h e
  | Act f k => Act f (fun b => pcatch (k b) h)
  end.

(** One atomic step that cannot fail. *)
Definition act {A} (f : W -> A * W) : prog W E A := Act f Ret.

(** A synchronous update of the shared world. *)
Definition upd (f : W -> W) : prog W E unit := Act (fun w => (tt, f w)) (fun _ => Ret tt).

(** One atomic step that may reject. *)
Definition try_act {A} (f : W -> (E + A) * W) : prog W E A :=
  Act f (fun r => match r with inl e => Throw e | inr a => Ret a end).

(** [for (const x of l) await body(x)] *)
Fixpoint pfor {A} (body : A -> prog W E unit) (l : list A) : prog W E unit :=
  match l with
  | [] => Ret tt
  | x :: l' => pbind (body x) (fun _ => pfor body l')
  end.

(** The run in which no other function is scheduled. *)
Fixpoint run {A} (p : prog W E A) (w : W) : (E + A) * W :=
  match p with
  | Ret a => (inr a, w)
  | Throw e => (inl e, w)
  | Act f k => let '(b, w') := f w in run (k b) w'
  end.

(** The worlds a run passes through: what a crash of the process between two
    steps leaves behind. *)
Fixpoint run_trace {A} (p : prog W E A) (w : W) : list W :=
  match p with
  | Ret _ | Throw _ => [w]
  | Act f k => w :: (let '(b, w') := f w in run_trace (k b) w')
  end.
End combinators.

Declare Scope prog_scope.
Delimit Scope prog_scope with prog.
Notation "'let!' x ':=' p 'in' q" := (pbind p (fun x => q))
  (at level 10, x pattern, p at level 100, q at level 200) : prog_scope.
Notation "p ';;;' q" := (pbind p (fun _ => q))
  (at level 100, q at level 200, right associativity) : prog_scope.
Open Scope prog_scope.

(** A program over one part of a larger world. *)
Fixpoint plift {V W E A} (get : W -> V) (put : V -> W -> W) (p : prog V E A) : prog W E A :=
  match p with
  | Ret a => Ret a
  | Throw e => Throw e
  | Act f k => Act (fun w => let '(b, v) := f (get w) in (b, put v w))
                   (fun b => plift get put (k b))
  end.

Lemma run_plift {V W E A} (get : W -> V) (put : V -> W -> W) (p : prog V E A) w :
  (forall v w, get (put v w) = v) -> (forall v v' w, put v (put v' w) = put v w) ->
  (forall w, put (get w) w = w) ->
  run (plift get put p) w = ((run p (get w)).1, put (run p (get w)).2 w).
Proof.
  intros Hgp Hpp Hpg. revert w; induction p as [a|e|X f k IH]; intros w; simpl; [by rewrite Hpg..|].
  destruct (f (get w)) as [b v]. by rewrite IH, Hgp, Hpp.
Qed.

Section run_lemmas.
Context {W E : Type}.

Lemma run_bind {A B} (p : prog W E A) (q : A -> prog W E B) w :
  run (pbind p q) w =
  match run p w with
  | (inl e, w') => (inl e, w')
  | (inr a, w') => run (q a) w'
  end.
Proof. revert w; induction p as [a|e|X f k IH]; intros w; simpl; [done..|]. destruct (f w). apply IH. Qed.

Lemma run_catch {A} (p : prog W E A) (h : E -> prog W E A) w :
  run (pcatch p h) w =
  match run p w with
  | (inl e, w') => run (h e) w'
  | (inr a, w') => (inr a, w')
  end.
Proof. revert w; induction p as [a|e|X f k IH]; intros w; simpl; [done..|]. destruct (f w). apply IH. Qed.

Lemma pbind_assoc_run {A B C} (p : prog W E A) (q : A -> prog W E B) (r : B -> prog W E C) w :
  run (pbind (pbind p q) r) w = run (pbind p (fun a => pbind (q a) r)) w.
Proof.
  rewrite !run_bind. destruct (run p w) as [[e|a] w']; [done|]. by rewrite run_bind.
Qed.

Lemma run_trace_bind {A B} (P : W -> Prop) (p : prog W E A) (q : A -> prog W E B) w :
  Forall P (run_trace p w) ->
  (forall a w', run p w = (inr a, w') -> Forall P (run_trace (q a) w')) ->
  Forall P (run_trace (pbind p q) w).
Proof.
  revert w; induction p as [a|e|X f k IH]; intros w; simpl; [by eauto|done|].
  rewrite !Forall_cons. intros [Hw Hk] Hq. split; [done|]. destruct (f w) as [b w']. by apply IH.
Qed.

Lemma run_in_trace {A} (p : prog W E A) w : (run p w).2 ∈ run_trace p w.
Proof.
  revert w; induction p as [a|e|X f k IH]; intros w; simpl; [set_solver..|].
  apply elem_of_cons. right. destruct (f w) as [b w']. apply IH.
Qed.
End run_lemmas.

(** ** Rely-guarantee triples

    [rg R G p Q X w]: started in [w], with the environment taking steps of [R]
    between any two steps of [p], every step of [p] is a step of [G], and [p]
    settles with [Q] (value) or [X] (error) whatever the environment did. *)
Section rely_guarantee.
Context {W E : Type} (R G : W -> W -> Prop).

Fixpoint rg {A} (p : prog W E A) (Q : A -> W -> Prop) (X : E -> W -> Prop) (w : W) : Prop :=
  match p with
  | Ret a => forall w', R w w' -> Q a w'
  | Throw e => forall w', R w w' -> X e w'
  | Act f k => forall w', R w w' ->
      let '(b, w'') := f w' in G w' w'' /\ rg (k b) Q X w''
  end.

Context {HR : PreOrder R}.

(** Environment steps before the start change nothing. *)
Lemma rg_stable {A} (p : prog W E A) Q X w w' :
  R w w' -> rg p Q X w -> rg p Q X w'.
Proof. destruct p; simpl; intros Hw H w'' Hw''; apply H; by etrans. Qed.

Lemma rg_mono {A} (p : prog W E A) (Q Q' : A -> W -> Prop) (X X' : E -> W -> Prop) w :
  rg p Q X w ->
  (forall a w', Q a w' -> Q' a w') -> (forall e w', X e w' -> X' e w') ->
  rg p Q' X' w.
Proof.
  revert w; induction p as [a|e|B f k IH]; simpl; intros w H HQ HX w' Hw'; auto.
  specialize (H w' Hw'). destruct (f w') as [b w'']. destruct H; split; eauto.
Qed.

Lemma rg_bind {A B} (p : prog W E A) (q : A -> prog W E B) Q X w :
  rg p (fun a w' => rg (q a) Q X w') X w -> rg (pbind p q) Q X w.
Proof.
  revert w; induction p as [a|e|C f k IH]; simpl; intros w H.
  - apply H. reflexivity.
  - done.
  - intros w' Hw'. specialize (H w' Hw'). destruct (f w') as [b w'']. naive_solver.
Qed.

Lemma rg_catch {A} (p : prog W E A) (h : E -> prog W E A) Q X w :
  rg p Q (fun e w' => rg (h e) Q X w') w -> rg (pcatch p h) Q X w.
Proof.
  revert w; induction p as [a|e|C f k IH]; simpl; intros w H.
  - done.
  - apply H. reflexivity.
  - intros w' Hw'. specialize (H w' Hw'). destruct (f w') as [b w'']. naive_solver.
Qed.

Lemma rg_act {A} (f : W -> A * W) (Q : A -> W -> Prop) X w :
  (forall w' a w'', R w w' -> f w' = (a, w'') ->
     G w' w'' /\ forall w3, R w'' w3 -> Q a w3) ->
  rg (act f) Q X w.
Proof. simpl. intros H w' Hw'. destruct (f w') as [a w''] eqn:Hf. eauto. Qed.

Lemma rg_upd (f : W -> W) (Q : unit -> W -> Prop) (X : E -> W -> Prop) w :
  (forall w', R w w' -> G w' (f w') /\ forall w3, R (f w') w3 -> Q tt w3) ->
  rg (upd f) Q X w.
Proof. simpl. eauto. Qed.

Lemma rg_try {A} (f : W -> (E + A) * W) (Q : A -> W -> Prop) (X : E -> W -> Prop) w :
  (forall w' r w'', R w w' -> f w' = (r, w'') ->
     G w' w'' /\ forall w3, R w'' w3 -> match r with inl e => X e w3 | inr a => Q a w3 end) ->
  rg (try_act f) Q X w.
Proof.
  simpl. intros H w' Hw'. destruct (f w') as [r w''] eqn:Hf.
  destruct (H _ _ _ Hw' Hf) as [HG HQ]. split; [done|]. by destruct r.
Qed.

Lemma rg_for {A} (body : A -> prog W E unit) (Inv : list A -> W -> Prop) X l w :
  (forall l1 x l2 w', l = l1 ++ x :: l2 -> Inv l1 w' ->
     rg (body x) (fun _ w'' => Inv (l1 ++ [x]) w'') X w') ->
  (forall l1 w1 w2, Inv l1 w1 -> R w1 w2 -> Inv l1 w2) ->
  Inv [] w ->
  rg (pfor body l) (fun _ w' => Inv l w') X w.
Proof.
  intros Hbody Hst. cut (forall l2 l1 w', l = l1 ++ l2 -> Inv l1 w' ->
    rg (pfor body l2) (fun _ w'' => Inv l w'') X w').
  { intros H H0. by apply (H l []). }
  induction l2 as [|x l2 IH]; intros l1 w' -> HI; simpl.
  - intros w'' Hw''. rewrite app_nil_r. eauto.
  - apply rg_bind. eapply rg_mono; [by eapply Hbody| |done].
    intros [] w'' HI''. apply (IH (l1 ++ [x])); [by rewrite <- app_assoc|done].
Qed.
End rely_guarantee.

(** A triple whose rely admits only stuttering describes the sequential run. *)
Lemma rg_run {W E A} (G : W -> W -> Prop) `{!PreOrder G} (p : prog W E A) Q X w :
  rg eq G p Q X w ->
  match run p w with
  | (inr a, w') => Q a w' /\ G w w'
  | (inl e, w') => X e w' /\ G w w'
  end.
Proof.
  revert w; induction p as [a|e|B f k IH]; simpl; intros w H.
  - split; [by apply H|reflexivity].
  - split; [by apply H|reflexivity].
  - specialize (H w eq_refl). destruct (f w) as [b w']. destruct H as [HG H].
    specialize (IH b w' H). destruct (run (k b) w') as [[] ?];
      (destruct IH; split; [done|]; by etrans).
Qed.

(** Every world a sequential run passes through is reached by guaranteed steps. *)
Lemma rg_run_trace {W E A} (G : W -> W -> Prop) `{!PreOrder G} (p : prog W E A) Q X w :
  rg eq G p Q X w -> Forall (G w) (run_trace p w).
Proof.
  revert w; induction p as [a|e|B f k IH]; simpl; intros w H.
  - by repeat constructor.
  - by repeat constructor.
  - specialize (H w eq_refl). constructor; [reflexivity|].
    destruct (f w) as [b w']. destruct H as [HG H].
    eapply Forall_impl; [by apply IH|]. intros w'' Hw''. by etrans.
Qed.

(** ** Invariants

    [keeps J p Q]: every step [p] ever takes keeps [J], in whatever world
    satisfying [J] the other functions left it, and a value it settles with
    satisfies [Q].  Interference is any step keeping [J], so the judgement is
    about all interleavings at once. *)
Section invariants.
Context {W E : Type} (J : W -> Prop).

Fixpoint keeps {A} (p : prog W E A) (Q : A -> Prop) : Prop :=
  match p with
  | Ret a => Q a
  | Throw _ => True
  | Act f k => forall w, J w -> J (snd (f w)) /\ keeps (k (fst (f w))) Q
  end.

Lemma keeps_mono {A} (p : prog W E A) (Q Q' : A -> Prop) :
  keeps p Q -> (forall a, Q a -> Q' a) -> keeps p Q'.
Proof.
  induction p as [a|e|B f k IH]; simpl; intros H HQ; [auto..|].
  intros w Hw. destruct (H w Hw). split; [done|]. by apply IH.
Qed.

Lemma keeps_bind {A B} (p : prog W E A) (q : A -> prog W E B) (P : A -> Prop) Q :
  keeps p P -> (forall a, P a -> keeps (q a) Q) -> keeps (pbind p q) Q.
Proof.
  induction p as [a|e|C f k IH]; simpl; intros H HQ; [auto..|].
  intros w Hw. destruct (H w Hw). split; [done|]. by apply IH.
Qed.

Lemma keeps_catch {A} (p : prog W E A) (h : E -> prog W E A) Q :
  keeps p Q -> (forall e, keeps (h e) Q) -> keeps (pcatch p h) Q.
Proof.
  induction p as [a|e|C f k IH]; simpl; intros H HQ; [auto..|].
  intros w Hw. destruct (H w Hw). split; [done|]. by apply IH.
Qed.

Lemma keeps_act {A} (f : W -> A * W) (Q : A -> Prop) :
  (forall w, J w -> J (snd (f w)) /\ Q (fst (f w))) -> keeps (act f) Q.
Proof. done. Qed.

Lemma keeps_upd (f : W -> W) (Q : unit -> Prop) :
  (forall w, J w -> J (f w)) -> Q tt -> keeps (upd f) Q.
Proof. simpl. eauto. Qed.

Lemma keeps_try {A} (f : W -> (E + A) * W) (Q : A -> Prop) :
  (forall w, J w -> J (snd (f w)) /\ match fst (f w) with inr a => Q a | inl _ => True end) ->
  keeps (try_act f) Q.
Proof. simpl. intros H w Hw. destruct (H w Hw) as [? HQ]. split; [done|]. by destruct (fst (f w)). Qed.

(** In the sequential run. *)
Lemma keeps_run {A} (p : prog W E A) Q w r w' :
  keeps p Q -> J w -> run p w = (r, w') ->
  J w' /\ match r with inr a => Q a | inl _ => True end.
Proof.
  revert w; induction p as [a|e|B f k IH]; simpl; intros w H Hw Hr; [by simplify_eq..|].
  destruct (H w Hw) as [Hf Hk]. destruct (f w) as [b w1]. by eapply IH.
Qed.

(** As a rely-guarantee triple. *)
Definition preserves (w w' : W) : Prop := J w -> J w'.

#[export] Instance preserves_preorder : PreOrder preserves.
Proof. split; unfold preserves; [intros w Hw; exact Hw|intros w1 w2 w3 H1 H2 Hw; auto]. Qed.

Lemma keeps_rg {A} (p : prog W E A) Q w :
  keeps p Q -> J w -> rg preserves preserves p (fun a w' => Q a /\ J w') (fun _ w' => J w') w.
Proof.
  revert w; induction p as [a|e|B f k IH]; simpl; intros w H Hw w' Hw';
    specialize (Hw' Hw); [done..|]. destruct (H w' Hw') as [Hf Hk].
  destruct (f w') as [b w1]. simpl in *. split; [by intros _|]. by apply IH.
Qed.
End invariants.

(** ** Triples over one guarantee

    [triple G A p Q]: started where [A] holds, with the others taking steps of
    [G], every step of [p] is a step of [G] too, and [Q] holds when it settles
    with a value. *)
Section triples.
Context {W E : Type} (G : W -> W -> Prop) `{!PreOrder G}.

Definition stable (A : W -> Prop) : Prop := forall w w', A w -> G w w' -> A w'.

Definition triple {X} (A : W -> Prop) (p : prog W E X) (Q : X -> W -> Prop) : Prop :=
  forall w, A w -> rg G G p Q (fun _ _ => True) w.

Lemma stable_pure (P : Prop) : stable (fun _ => P).
Proof. by intros w w' HP _. Qed.

Lemma stable_and A B : stable A -> stable B -> stable (fun w => A w /\ B w).
Proof. intros HA HB w w' [? ?] ?. split; [by eapply HA|by eapply HB]. Qed.

Lemma triple_ret {X} (A : W -> Prop) (a : X) (Q : X -> W -> Prop) :
  stable (Q a) -> (forall w, A w -> Q a w) -> triple A (Ret a) Q.
Proof. intros HS HQ w Hw w' Hw'. eauto. Qed.

Lemma triple_throw {X} A e (Q : X -> W -> Prop) : triple A (Throw e) Q.
Proof. by intros w Hw w' Hw'. Qed.

Lemma triple_weaken {X} (A A' : W -> Prop) (p : prog W E X) (Q Q' : X -> W -> Prop) :
  triple A' p Q' -> (forall w, A w -> A' w) -> (forall a w, Q' a w -> Q a w) -> triple A p Q.
Proof. intros Hp HA HQ w Hw. eapply rg_mono; [by apply Hp, HA|done|done]. Qed.

Lemma triple_pure {X} (P : Prop) (A : W -> Prop) (p : prog W E X) (Q : X -> W -> Prop) :
  (P -> triple A p Q) -> triple (fun w => P /\ A w) p Q.
Proof. intros Hp w [HP HA]. by apply Hp. Qed.

(** What is stable and holds at the start holds at the end, however it ends. *)
Lemma rg_frame {X} (F : W -> Prop) (p : prog W E X) (Q : X -> W -> Prop) (Z : E -> W -> Prop) w :
  stable F -> F w -> rg G G p Q Z w ->
  rg G G p (fun a w => Q a w /\ F w) (fun e w => Z e w /\ F w) w.
Proof.
  intros HF. revert w; induction p as [a|e|B f k IH]; simpl; intros w HFw Hp w' Hw'; [eauto..|].
  specialize (Hp w' Hw'). assert (HF' : F w') by eauto. destruct (f w') as [b w''] eqn:Hf.
  destruct Hp as [Hg Hp]. split; [done|]. apply IH; [by eapply HF|done].
Qed.

Lemma triple_frame {X} (A F : W -> Prop) (p : prog W E X) (Q : X -> W -> Prop) :
  stable F -> triple A p Q -> triple (fun w => A w /\ F w) p (fun a w => Q a w /\ F w).
Proof.
  intros HF Hp w [Hw HFw]. eapply rg_mono; [apply rg_frame; [exact HF|done|by apply Hp]|done|done].
Qed.

Lemma triple_bind {X Y} (A : W -> Prop) (p : prog W E X) (q : X -> prog W E Y) B Q :
  triple A p B -> (forall a, triple (B a) (q a) Q) -> triple A (pbind p q) Q.
Proof.
  intros Hp Hq w Hw. apply rg_bind; [done|]. eapply rg_mono; [by apply Hp| |done].
  intros a w' HB. by apply Hq.
Qed.

(** Sequencing, with what holds before still known after. *)
Lemma triple_seq {X Y} (A : W -> Prop) (p : prog W E X) (q : X -> prog W E Y) B Q :
  stable A -> triple A p B -> (forall a, triple (fun w => B a w /\ A w) (q a) Q) ->
  triple A (pbind p q) Q.
Proof.
  intros HA Hp Hq. eapply triple_bind; [|exact Hq].
  eapply triple_weaken; [apply triple_frame; [exact HA|exact Hp]|by intros w Hw|by intros a w HQ].
Qed.

(** The handler starts in whatever world the failure left: only what is stable
    is still known there. *)
Lemma triple_catch {X} (A F : W -> Prop) (p : prog W E X) (h : E -> prog W E X) Q :
  stable F -> (forall w, A w -> F w) ->
  triple A p Q -> (forall e, triple F (h e) Q) -> triple A (pcatch p h) Q.
Proof.
  intros HF HAF Hp Hh w Hw. apply rg_catch; [done|].
  eapply rg_mono; [apply (rg_frame F); [done|by apply HAF|by apply Hp]|by intros a w' [? _]|].
  intros e w' [_ HFw]. by apply Hh.
Qed.

Lemma triple_act {X} (A : W -> Prop) (f : W -> X * W) (Q : X -> W -> Prop) :
  stable A -> (forall x, stable (Q x)) ->
  (forall w, A w -> G w (snd (f w)) /\ Q (fst (f w)) (snd (f w))) -> triple A (act f) Q.
Proof.
  intros HA HQ Hf w Hw. apply rg_act. intros w1 a w2 Hw1 Hfw.
  destruct (Hf w1 (HA _ _ Hw Hw1)) as [HG Hq]. rewrite Hfw in *. split; [done|].
  intros w3 Hw3. by eapply HQ.
Qed.

Lemma triple_upd (A : W -> Prop) (f : W -> W) (Q : unit -> W -> Prop) :
  stable A -> stable (Q tt) -> (forall w, A w -> G w (f w) /\ Q tt (f w)) ->
  triple A (upd f) Q.
Proof.
  intros HA HQ Hf w Hw. apply rg_upd. intros w1 Hw1.
  destruct (Hf w1 (HA _ _ Hw Hw1)) as [HG Hq]. split; [done|].
  intros w3 Hw3. by eapply HQ.
Qed.

Lemma triple_try {X} (A : W -> Prop) (f : W -> (E + X) * W) (Q : X -> W -> Prop) :
  stable A -> (forall x, stable (Q x)) ->
  (forall w, A w -> G w (snd (f w)) /\
     match fst (f w) with inr a => Q a (snd (f w)) | inl _ => True end) ->
  triple A (try_act f) Q.
Proof.
  intros HA HQ Hf w Hw. apply rg_try. intros w1 r w2 Hw1 Hfw.
  destruct (Hf w1 (HA _ _ Hw Hw1)) as [HG Hq]. rewrite Hfw in *. split; [done|].
  intros w3 Hw3. destruct r as [e|a]; [done|]. simpl in *. by eapply HQ.
Qed.

(** Every step is a step of [G], whatever world it is taken in. *)
Fixpoint steps_in {X} (p : prog W E X) : Prop :=
  match p with
  | Ret _ | Throw _ => True
  | Act f k => forall w, G w (snd (f w)) /\ steps_in (k (fst (f w)))
  end.

Lemma triple_steps {X} A (p : prog W E X) : steps_in p -> triple A p (fun _ _ => True).
Proof.
  intros Hp w _. revert w; induction p as [a|e|B f k IH]; simpl; intros w w' _; [done..|].
  destruct (Hp w') as [Hg Hk]. destruct (f w') as [b w'']. split; [done|]. by apply IH.
Qed.

Lemma steps_in_run {X} (p : prog W E X) w : steps_in p -> G w (snd (run p w)).
Proof.
  revert w; induction p as [a|e|B f k IH]; simpl; intros w Hp; [reflexivity..|].
  destruct (Hp w) as [Hg Hk]. destruct (f w) as [b w']. etrans; [exact Hg|]. by apply IH.
Qed.

(** The sequential run under a triple. *)
Lemma triple_run {X} (A : W -> Prop) (p : prog W E X) Q w r w' :
  triple A p Q -> A w -> run p w = (r, w') ->
  G w w' /\ match r with inr a => Q a w' | inl _ => True end.
Proof.
  intros Hp Hw. specialize (Hp w Hw). clear Hw.
  revert w Hp; induction p as [a|e|B f k IH]; simpl; intros w Hp.
  - intros [= <- <-]. split; [reflexivity|]. apply Hp. reflexivity.
  - intros [= <- <-]. split; [reflexivity|done].
  - specialize (Hp w ltac:(reflexivity)). destruct (f w) as [b w1]. destruct Hp as [Hg Hp].
    intros Hr. apply IH in Hr as [Hg' HQ]; [|done]. split; [by etrans|done].
Qed.
End triples.

(** ** Programs whose steps all lie in a relation

    The frame of a program: what its steps may change, wherever the others
    have brought the world. *)
Section steps.
Context {W E : Type}.
Implicit Types (G : W -> W -> Prop) (J : W -> Prop).

Lemma steps_in_bind {A B} G (p : prog W E A) (q : A -> prog W E B) :
  steps_in G p -> (forall a, steps_in G (q a)) -> steps_in G (pbind p q).
Proof.
  intros Hp Hq. induction p as [a|e|C f k IH]; simpl in *; [done..|].
  intros w. destruct (Hp w) as [Hg Hk]. split; [done|]. by apply IH.
Qed.

Lemma steps_in_catch {A} G (p : prog W E A) (h : E -> prog W E A) :
  steps_in G p -> (forall e, steps_in G (h e)) -> steps_in G (pcatch p h).
Proof.
  intros Hp Hh. induction p as [a|e|C f k IH]; simpl in *; [done..|].
  intros w. destruct (Hp w) as [Hg Hk]. split; [done|]. by apply IH.
Qed.

Lemma steps_in_mono {A} G G' (p : prog W E A) :
  (forall w w', G w w' -> G' w w') -> steps_in G p -> steps_in G' p.
Proof.
  intros HG Hp. induction p as [a|e|C f k IH]; simpl in *; [done..|].
  intros w. destruct (Hp w) as [Hg Hk]. split; [by apply HG|]. by apply IH.
Qed.

Lemma steps_in_act {A} G (f : W -> A * W) :
  (forall w, G w (snd (f w))) -> steps_in (E:=E) G (act f).
Proof. intros Hf w. by split. Qed.

Lemma steps_in_upd G (f : W -> W) : (forall w, G w (f w)) -> steps_in (E:=E) G (upd f).
Proof. intros Hf w. by split. Qed.

Lemma steps_in_try {A} G (f : W -> (E + A) * W) : (forall w, G w (snd (f w))) -> steps_in G (try_act f).
Proof. intros Hf w. split; [done|]. by destruct (fst (f w)). Qed.

Lemma steps_in_keeps {A} G J (p : prog W E A) :
  (forall w w', J w -> G w w' -> J w') -> steps_in G p -> keeps J p (fun _ => True).
Proof.
  intros HG Hp. induction p as [a|e|C f k IH]; simpl in *; [done..|].
  intros w Hw. destruct (Hp w) as [Hg Hk]. split; [by eapply HG|]. by apply IH.
Qed.
End steps.

(** Such a program under interference: its steps are guaranteed, and nothing is
    said of its end. *)
Lemma rg_steps {W E A} (R G : W -> W -> Prop) (p : prog W E A) w :
  steps_in G p -> rg R G p (fun _ _ => True) (fun _ _ => True) w.
Proof.
  intros Hp. revert w; induction p as [a|e|B f k IH]; simpl in *; intros w w' _; [done..|].
  destruct (Hp w') as [Hg Hk]. destruct (f w') as [b w'']. split; [done|]. by apply IH.
Qed.

Lemma rg_guarantee {W E A} (R G G' : W -> W -> Prop) (p : prog W E A) Q X w :
  (forall w1 w2, G w1 w2 -> G' w1 w2) -> rg R G p Q X w -> rg R G' p Q X w.
Proof.
  intros HG. revert w; induction p as [a|e|B f k IH]; simpl; intros w Hp; [done..|]. intros w' Hw'. specialize (Hp w' Hw').
  destruct (f w') as [b w'']. destruct Hp. split; [by apply HG|by apply IH].
Qed.

Lemma steps_in_plift {V W E A} (get : W -> V) (put : V -> W -> W) G (G' : W -> W -> Prop) (p : prog V E A) :
  (forall w v, G (get w) v -> G' w (put v w)) -> steps_in G p -> steps_in G' (plift get put p).
Proof.
  intros HG Hp. induction p as [a|e|C f k IH]; simpl in *; [done..|].
  intros w. destruct (Hp (get w)) as [Hg Hk]. destruct (f (get w)) as [b v]. simpl in *.
  split; [by apply HG|]. by apply IH.
Qed.

(** ** Any number of calls at once

    What several processes make of one world: calls begin whenever they like,
    any of them may move on by one of its steps, any may be gone before its
    next step (it settled, or its process died), and what is not a call moves
    the world by [others]. *)
Section calls.
Context {W E : Type}.
Variable issued : prog W E unit -> Prop.
Variable others : W -> W -> Prop.

Inductive calls_step : list (prog W E unit) * W -> list (prog W E unit) * W -> Prop :=
| call_begins p ps w : issued p -> calls_step (ps, w) (p :: ps, w)
| call_moves X (f : W -> X * W) k ps1 ps2 w :
    calls_step (ps1 ++ Act f k :: ps2, w) (ps1 ++ k (fst (f w)) :: ps2, snd (f w))
| call_ends p ps1 ps2 w : calls_step (ps1 ++ p :: ps2, w) (ps1 ++ ps2, w)
| others_move ps w w' : others w w' -> calls_step (ps, w) (ps, w').

Variable G : W -> W -> Prop.
Context `{!PreOrder G}.
Variable J : W -> Prop.
Hypothesis J_stable : forall w w', J w -> G w w' -> J w'.
Hypothesis others_G : forall w w', others w w' -> G w w'.
Hypothesis issued_ok : forall p w, issued p -> J w -> rg G G p (fun _ _ => True) (fun _ _ => True) w.

Definition call_ok (w : W) (p : prog W E unit) : Prop := rg G G p (fun _ _ => True) (fun _ _ => True) w.

Lemma calls_stable ps w w' : G w w' -> Forall (call_ok w) ps -> Forall (call_ok w') ps.
Proof. intros Hg Hps. eapply Forall_impl; [exact Hps|]. intros p Hp. by eapply rg_stable. Qed.

(** Calls that each tolerate and guarantee [G] together do nothing else. *)
Lemma calls_sound c c' :
  rtc calls_step c c' -> J c.2 -> Forall (call_ok c.2) c.1 ->
  G c.2 c'.2 /\ J c'.2 /\ Forall (call_ok c'.2) c'.1.
Proof.
  intros Hr; induction Hr as [c|c1 c2 c3 Hs _ IH]; intros HJ Hok; [done|].
  assert (Hg : G c1.2 c2.2 /\ Forall (call_ok c2.2) c2.1).
  { destruct Hs as [p ps w Hp|X f k ps1 ps2 w|p ps1 ps2 w|ps w w' Ho]; simpl in *.
    - split; [done|]. constructor; [by apply issued_ok|done].
    - apply Forall_app in Hok as [H1 [Hp H2]%Forall_cons]. unfold call_ok in Hp. simpl in Hp.
      specialize (Hp w ltac:(reflexivity)). destruct (f w) as [b w']. destruct Hp as [Hg Hp]. split; [done|].
      apply Forall_app. split; [by eapply calls_stable|]. constructor; [done|by eapply calls_stable].
    - split; [done|]. apply Forall_app in Hok as [H1 [_ H2]%Forall_cons]. by apply Forall_app.
    - apply others_G in Ho. split; [done|by eapply calls_stable]. }
  destruct Hg as [Hg Hok']. destruct IH as (Hg' & HJ' & Hok''); [by eapply J_stable|done|].
  split; [by etrans|done].
Qed.
End calls.
