(* ===== verification/Doubles.v ===== *)
(** * JavaScript's numbers, where the code divides

    Counters are [Z] in this library because the code's stay exact.  Where the
    code divides or multiplies by a decimal, the number is a rational [Q] and
    every operation rounds: [fl] is IEEE 754 binary64 rounding (to nearest,
    ties to even, 53 significant bits, subnormals below 2^-1022).  Overflow to
    infinity is left out: the code's operands are counters and ratios.  A
    decimal literal is the rounding of its value. *)

From S2P Require Import Prelude.
From Stdlib Require Import QArith Qround Lqa Qpower.

Open Scope Z_scope.

(** [q] to the nearest integer, ties to even. *)
Definition rint (q : Q) : Z :=
  let f := Qfloor q in
  match Qcompare (q - inject_Z f) (1 # 2) with
  | Lt => f
  | Gt => f + 1
  | Eq => if Z.even f then f else f + 1
  end.

(** The exponent of the leading bit of a positive [q]. *)
Definition ilog2 (q : Q) : Z :=
  let k := Z.log2 (Qnum q) - Z.log2 (Zpos (Qden q)) in
  if Qle_bool (Qpower 2 k) q then k else k - 1.

(** The weight of the last bit kept. *)
Definition ulp_exp (q : Q) : Z := Z.max (ilog2 q - 52) (-1074).

Definition fl_pos (q : Q) : Q := (inject_Z (rint (q / Qpower 2 (ulp_exp q))) * Qpower 2 (ulp_exp q))%Q.

Definition fl (q : Q) : Q :=
  Qred (match Qcompare q 0 with
        | Eq => 0
        | Gt => fl_pos q
        | Lt => - fl_pos (- q)
        end)%Q.

Definition fadd (a b : Q) : Q := fl (a + b)%Q.
Definition fmul (a b : Q) : Q := fl (a * b)%Q.
Definition fdiv (a b : Q) : Q := fl (a / b)%Q.

(** [a < b] *)
Definition flt (a b : Q) : bool := negb (Qle_bool b a).

Example decimal_sum : (fadd (fl (1 # 10)) (fl (2 # 10)) == fl (3 # 10))%Q -> False.
Proof. vm_compute. discriminate. Qed.

Lemma flt_true a b : flt a b = true <-> (a < b)%Q.
Proof.
  unfold flt. rewrite negb_true_iff, <- not_true_iff_false, Qle_bool_iff.
  split; [apply Qnot_le_lt|apply Qlt_not_le].
Qed.

Lemma flt_false a b : flt a b = false <-> (b <= a)%Q.
Proof. unfold flt. by rewrite negb_false_iff, Qle_bool_iff. Qed.

(** ** Rounding to an integer *)

Lemma Qfloor_frac q : (0 <= q - inject_Z (Qfloor q))%Q /\ (q - inject_Z (Qfloor q) < 1)%Q.
Proof.
  pose proof (Qfloor_le q). pose proof (Qlt_floor q). rewrite inject_Z_plus in H0.
  change (inject_Z 1) with 1%Q in H0. split; lra.
Qed.

Lemma rint_cases q : rint q = Qfloor q \/ rint q = Qfloor q + 1.
Proof. unfold rint. destruct (Qcompare _ _); [destruct (Z.even _)|..]; auto. Qed.

Lemma rint_mono p q : (p <= q)%Q -> rint p <= rint q.
Proof.
  intros H. pose proof (Qfloor_resp_le _ _ H) as Hf.
  destruct (decide (Qfloor p = Qfloor q)) as [He|He].
  - unfold rint. rewrite He.
    destruct (Qcompare_spec (p - inject_Z (Qfloor q)) (1 # 2)) as [Hp|Hp|Hp];
    destruct (Qcompare_spec (q - inject_Z (Qfloor q)) (1 # 2)) as [Hq|Hq|Hq];
    try (destruct (Z.even _)); try lia; exfalso; lra.
  - destruct (rint_cases p), (rint_cases q); lia.
Qed.

Lemma rint_int z : rint (inject_Z z) = z.
Proof.
  unfold rint. rewrite Qfloor_Z.
  destruct (Qcompare_spec (inject_Z z - inject_Z z) (1 # 2)) as [H|H|H]; [lra|done|lra].
Qed.

Lemma rint_comp p q : (p == q)%Q -> rint p = rint q.
Proof. intros H. apply Z.le_antisymm; apply rint_mono; rewrite H; apply Qle_refl. Qed.

Lemma rint_le q z : (q <= inject_Z z)%Q -> rint q <= z.
Proof. intros H%rint_mono. by rewrite rint_int in H. Qed.

Lemma rint_ge q z : (inject_Z z <= q)%Q -> z <= rint q.
Proof. intros H%rint_mono. by rewrite rint_int in H. Qed.

(** ** Powers of two *)

Lemma pow2_pos k : (0 < Qpower 2 k)%Q.
Proof. apply Qpower_0_lt. reflexivity. Qed.

Lemma pow2_nz k : ~ (2 ^ k == 0)%Q.
Proof. pose proof (pow2_pos k). lra. Qed.

Lemma pow2_plus j k : (2 ^ (j + k) == 2 ^ j * 2 ^ k)%Q.
Proof. apply Qpower_plus. discriminate. Qed.

Lemma pow2_int k : 0 <= k -> (2 ^ k == inject_Z (2 ^ k))%Q.
Proof. intros H. symmetry. by apply (Zpower_Qpower 2). Qed.

Lemma pow2_le j k : j <= k -> (2 ^ j <= 2 ^ k)%Q.
Proof. intros H. apply Qpower_le_compat_l; [done|discriminate]. Qed.

Lemma pow2_lt_inv j k : (2 ^ j < 2 ^ k)%Q -> j < k.
Proof. intros H. destruct (Z.lt_ge_cases j k) as [|Hk]; [done|]. apply pow2_le in Hk. lra. Qed.

Lemma pow2_below k n : 0 <= k -> 2 ^ k <= n -> (2 ^ k <= inject_Z n)%Q.
Proof. intros Hk H. rewrite (pow2_int k Hk). by rewrite <- Zle_Qle. Qed.

Lemma pow2_above k n : 0 <= k -> n < 2 ^ k -> (inject_Z n < 2 ^ k)%Q.
Proof. intros Hk H. rewrite (pow2_int k Hk). by rewrite <- Zlt_Qlt. Qed.

Lemma ilog2_spec q : (0 < q)%Q -> (2 ^ ilog2 q <= q)%Q /\ (q < 2 ^ (ilog2 q + 1))%Q.
Proof.
  destruct q as [n d]. intros Hq. assert (Hn : 0 < n) by (unfold Qlt in Hq; simpl in Hq; lia).
  unfold ilog2. simpl Qnum. simpl Qden.
  destruct (Z.log2_spec n Hn) as [Hn1 Hn2].
  destruct (Z.log2_spec (Z.pos d) ltac:(lia)) as [Hd1 Hd2].
  set (a := Z.log2 n) in *. set (b := Z.log2 (Z.pos d)) in *.
  assert (Ha : 0 <= a) by apply Z.log2_nonneg. assert (Hb : 0 <= b) by apply Z.log2_nonneg.
  assert (Hnd : (n # d == inject_Z n / inject_Z (Z.pos d))%Q) by apply Qmake_Qdiv.
  assert (Hdp : (0 < inject_Z (Z.pos d))%Q) by reflexivity.
  apply pow2_below in Hn1, Hd1; [|done..].
  apply pow2_above in Hn2, Hd2; [|lia..].
  unfold Z.succ in Hn2, Hd2. rewrite !pow2_plus in Hn2, Hd2. change (2 ^ 1)%Q with 2%Q in *.
  assert (Hab : (2 ^ a == 2 ^ (a - b) * 2 ^ b)%Q) by (rewrite <- pow2_plus; by replace (a - b + b) with a by lia).
  pose proof (pow2_pos b). pose proof (pow2_pos (a - b)).
  assert (Hhalf : (2 ^ (a - b) == 2 * 2 ^ (a - b - 1))%Q).
  { replace (a - b) with (1 + (a - b - 1)) at 1 by lia. by rewrite pow2_plus. }
  assert (Hdbl : (2 ^ (a - b + 1) == 2 ^ (a - b) * 2)%Q) by by rewrite pow2_plus.
  assert (Hup : (n # d < 2 ^ (a - b + 1))%Q).
  { rewrite Hnd. apply Qlt_shift_div_r; [done|]. rewrite Hdbl. nra. }
  destruct (Qle_bool _ _) eqn:Hle.
  - split; [by apply Qle_bool_iff|done].
  - replace (a - b - 1 + 1) with (a - b) by lia. split.
    + rewrite Hnd. apply Qle_shift_div_l; [done|]. pose proof (pow2_pos (a - b - 1)). nra.
    + apply Qnot_le_lt. intros Hc%Qle_bool_iff. congruence.
Qed.

Lemma ilog2_mono p q : (0 < p)%Q -> (p <= q)%Q -> ilog2 p <= ilog2 q.
Proof.
  intros Hp Hpq. destruct (ilog2_spec p Hp) as [H1 _]. destruct (ilog2_spec q) as [_ H2]; [lra|].
  enough (ilog2 p < ilog2 q + 1) by lia. apply pow2_lt_inv. lra.
Qed.

(** ** Rounding *)

Lemma fl_pos_ge q z : (0 < q)%Q -> (inject_Z z * 2 ^ ulp_exp q <= q)%Q ->
  (inject_Z z * 2 ^ ulp_exp q <= fl_pos q)%Q.
Proof.
  intros Hq Hz. pose proof (pow2_pos (ulp_exp q)). unfold fl_pos. apply Qmult_le_compat_r; [|lra].
  rewrite <- Zle_Qle. apply rint_ge. by apply Qle_shift_div_l.
Qed.

Lemma fl_pos_le q z : (0 < q)%Q -> (q <= inject_Z z * 2 ^ ulp_exp q)%Q ->
  (fl_pos q <= inject_Z z * 2 ^ ulp_exp q)%Q.
Proof.
  intros Hq Hz. pose proof (pow2_pos (ulp_exp q)). unfold fl_pos. apply Qmult_le_compat_r; [|lra].
  rewrite <- Zle_Qle. apply rint_le. by apply Qle_shift_div_r.
Qed.

Lemma fl_pos_exact q z : (0 < q)%Q -> (q == inject_Z z * 2 ^ ulp_exp q)%Q -> (fl_pos q == q)%Q.
Proof.
  intros Hq Hz. pose proof (fl_pos_le q z Hq ltac:(lra)). pose proof (fl_pos_ge q z Hq ltac:(lra)).
  apply Qle_antisym; lra.
Qed.

Lemma fl_pos_mono p q : (0 < p)%Q -> (p <= q)%Q -> (fl_pos p <= fl_pos q)%Q.
Proof.
  intros Hp Hpq. assert (Hq : (0 < q)%Q) by lra.
  pose proof (ilog2_mono p q Hp Hpq) as Hl.
  destruct (decide (ulp_exp p = ulp_exp q)) as [He|He].
  - unfold fl_pos. rewrite He. pose proof (pow2_pos (ulp_exp q)). apply Qmult_le_compat_r; [|lra].
    rewrite <- Zle_Qle. apply rint_mono. apply Qmult_le_compat_r; [done|].
    apply Qinv_le_0_compat. lra.
  - assert (Hu : ulp_exp p < ulp_exp q) by (unfold ulp_exp in *; lia).
    assert (Hk : ulp_exp q = ilog2 q - 52) by (unfold ulp_exp in *; lia).
    destruct (ilog2_spec p Hp) as [_ Hp2]. destruct (ilog2_spec q Hq) as [Hq1 _].
    assert (Hmid : forall e, e <= ilog2 q -> (2 ^ ilog2 q == inject_Z (2 ^ (ilog2 q - e)) * 2 ^ e)%Q).
    { intros e He'. rewrite <- (pow2_int (ilog2 q - e)) by lia. rewrite <- pow2_plus. by replace (ilog2 q - e + e) with (ilog2 q) by lia. }
    apply Qle_trans with (2 ^ ilog2 q)%Q.
    + rewrite (Hmid (ulp_exp p)) by lia. apply fl_pos_le; [done|]. rewrite <- Hmid by lia.
      apply Qle_trans with (2 ^ (ilog2 p + 1))%Q; [lra|]. apply pow2_le. unfold ulp_exp in *; lia.
    + rewrite (Hmid (ulp_exp q)) by lia. apply fl_pos_ge; [done|]. by rewrite <- Hmid by lia.
Qed.

Lemma fl_pos_nonneg q : (0 < q)%Q -> (0 <= fl_pos q)%Q.
Proof.
  intros Hq. pose proof (fl_pos_ge q 0 Hq) as H. rewrite Qmult_0_l in H. apply H. lra.
Qed.

Lemma fl_mono p q : (p <= q)%Q -> (fl p <= fl q)%Q.
Proof.
  intros H. unfold fl. rewrite !Qred_correct.
  destruct (Qcompare_spec p 0) as [Hp|Hp|Hp]; destruct (Qcompare_spec q 0) as [Hq|Hq|Hq];
    try (exfalso; lra); try lra.
  - by apply fl_pos_nonneg.
  - pose proof (fl_pos_nonneg (- p) ltac:(lra)). lra.
  - pose proof (fl_pos_mono (- q) (- p) ltac:(lra) ltac:(lra)). lra.
  - pose proof (fl_pos_nonneg (- p) ltac:(lra)). pose proof (fl_pos_nonneg q ltac:(lra)). lra.
  - by apply fl_pos_mono.
Qed.

Lemma fl_comp p q : (p == q)%Q -> fl p = fl q.
Proof.
  intros H. assert (Heq : (fl p == fl q)%Q) by (apply Qle_antisym; apply fl_mono; rewrite H; apply Qle_refl).
  unfold fl in *. rewrite !Qred_correct in Heq. by apply Qred_complete.
Qed.

#[export] Instance fl_proper : Proper (Qeq ==> eq) fl.
Proof. intros p q. apply fl_comp. Qed.

Lemma fl_int n : 0 <= n < 2 ^ 53 -> (fl (inject_Z n) == inject_Z n)%Q.
Proof.
  intros [Hn0 Hn]. unfold fl. rewrite Qred_correct.
  destruct (Qcompare_spec (inject_Z n) 0) as [H|H|H]; [by rewrite H|rewrite Zle_Qle in Hn0; change (inject_Z 0) with 0%Q in Hn0; lra|].
  destruct (ilog2_spec (inject_Z n) H) as [Hl _].
  assert (He : ulp_exp (inject_Z n) <= 0).
  { apply pow2_above in Hn; [|done].
    assert (ilog2 (inject_Z n) < 53) by (apply pow2_lt_inv; lra). unfold ulp_exp; lia. }
  apply (fl_pos_exact _ (n * 2 ^ (- ulp_exp (inject_Z n)))); [done|].
  rewrite inject_Z_mult, <- (pow2_int (- _)), <- Qmult_assoc, <- pow2_plus by lia.
  replace (- _ + _) with 0 by lia. by rewrite Qmult_1_r.
Qed.

Lemma fl_0 : fl 0 = 0%Q.
Proof. done. Qed.

Lemma fl_1 : fl 1 = 1%Q.
Proof. by vm_compute. Qed.

Lemma fl_nonneg q : (0 <= q)%Q -> (0 <= fl q)%Q.
Proof. intros H. rewrite <- fl_0. by apply fl_mono. Qed.

(** A bound that is itself a double survives rounding. *)
Lemma fl_le_int q n : 0 <= n < 2 ^ 53 -> (q <= inject_Z n)%Q -> (fl q <= inject_Z n)%Q.
Proof. intros Hn H%fl_mono. by rewrite fl_int in H. Qed.

(** ** Ratios of counters *)

Lemma inject_pos b : 0 < b -> (0 < inject_Z b)%Q.
Proof. change 0%Q with (inject_Z 0). by rewrite <- Zlt_Qlt. Qed.

Lemma fratio_le_1 a b : a <= b -> 0 < b -> (fdiv (inject_Z a) (inject_Z b) <= 1)%Q.
Proof.
  intros Hab Hb%inject_pos. rewrite Zle_Qle in Hab. rewrite <- fl_1. apply fl_mono.
  apply Qle_shift_div_r; lra.
Qed.

Lemma fratio_nonneg a b : 0 <= a -> 0 < b -> (0 <= fdiv (inject_Z a) (inject_Z b))%Q.
Proof.
  intros Ha Hb%inject_pos. rewrite Zle_Qle in Ha. change (inject_Z 0) with 0%Q in Ha.
  apply fl_nonneg. apply Qle_shift_div_l; lra.
Qed.

Lemma fadd_mono a a' b b' : (a <= a')%Q -> (b <= b')%Q -> (fadd a b <= fadd a' b')%Q.
Proof. intros. apply fl_mono. lra. Qed.

Lemma fmul_mono_l a a' b : (0 <= b)%Q -> (a <= a')%Q -> (fmul a b <= fmul a' b)%Q.
Proof. intros. apply fl_mono. by apply Qmult_le_compat_r. Qed.

Lemma fdiv_mono_l a a' b : 0 < b -> (a <= a')%Q -> (fdiv a (inject_Z b) <= fdiv a' (inject_Z b))%Q.
Proof.
  intros Hb%inject_pos Ha. apply fl_mono. apply Qmult_le_compat_r; [done|].
  apply Qinv_le_0_compat. lra.
Qed.

Lemma fratio_full a : 0 < a -> fdiv (inject_Z a) (inject_Z a) = 1%Q.
Proof.
  intros Ha. unfold fdiv. rewrite <- fl_1. apply fl_comp. apply Qmult_inv_r.
  change 0%Q with (inject_Z 0). rewrite inject_Z_injective. lia.
Qed.

(** ** How far rounding goes

    Half a unit in the last place: a relative 2^-53 for anything but
    subnormals. *)
Definition ulp : Q := Eval vm_compute in 1 # (2 ^ 53).

Definition normal (q : Q) : Prop := (q == 0)%Q \/ (1 # (2 ^ 1000) <= q)%Q.

Lemma rint_near q : (q - (1 # 2) <= inject_Z (rint q))%Q /\ (inject_Z (rint q) <= q + (1 # 2))%Q.
Proof.
  destruct (Qfloor_frac q) as [H0 H1]. unfold rint.
  destruct (Qcompare_spec (q - inject_Z (Qfloor q)) (1 # 2)) as [H|H|H];
    [destruct (Z.even _)|..]; rewrite ?inject_Z_plus; change (inject_Z 1) with 1%Q; split; lra.
Qed.

Lemma fl_pos_near q : (0 < q)%Q ->
  (q - (1 # 2) * 2 ^ ulp_exp q <= fl_pos q)%Q /\ (fl_pos q <= q + (1 # 2) * 2 ^ ulp_exp q)%Q.
Proof.
  intros Hq. pose proof (pow2_pos (ulp_exp q)) as Hp. unfold fl_pos.
  destruct (rint_near (q / 2 ^ ulp_exp q)) as [H1 H2].
  assert (Hdiv : (q / 2 ^ ulp_exp q * 2 ^ ulp_exp q == q)%Q) by (field; apply pow2_nz).
  apply (Qmult_le_compat_r _ _ (2 ^ ulp_exp q)) in H1; [|lra].
  apply (Qmult_le_compat_r _ _ (2 ^ ulp_exp q)) in H2; [|lra].
  revert H1 H2 Hdiv Hp. generalize (q / 2 ^ ulp_exp q)%Q (2 ^ ulp_exp q)%Q (inject_Z (rint (q / 2 ^ ulp_exp q))).
  intros x p r H1 H2 Hdiv Hp. split; lra.
Qed.

Lemma fl_near q : normal q -> (q * (1 - ulp) <= fl q)%Q /\ (fl q <= q * (1 + ulp))%Q.
Proof.
  intros [H0|Hn].
  - rewrite (fl_comp q 0 H0), fl_0. split; rewrite H0; by apply Qle_bool_iff.
  - assert (Hq : (0 < q)%Q) by (eapply Qlt_le_trans; [|exact Hn]; done).
    unfold fl. rewrite Qred_correct.
    destruct (Qcompare_spec q 0) as [H|H|H]; [lra..|].
    destruct (ilog2_spec q Hq) as [Hl1 Hl2]. destruct (fl_pos_near q Hq) as [H1 H2].
    assert (Hexp : ulp_exp q = ilog2 q - 52).
    { assert (-1001 < ilog2 q); [|unfold ulp_exp; lia].
      enough (-1000 < ilog2 q + 1) by lia. apply pow2_lt_inv.
      eapply Qle_lt_trans; [|exact Hl2]. eapply Qle_trans; [|exact Hn]. by apply Qle_bool_iff. }
    assert (Hhalf : ((1 # 2) * 2 ^ ulp_exp q <= q * ulp)%Q).
    { rewrite Hexp. replace (ilog2 q - 52) with (ilog2 q + -52) by lia. rewrite pow2_plus.
      assert (Heq : ((1 # 2) * (2 ^ ilog2 q * 2 ^ (-52)) == 2 ^ ilog2 q * ulp)%Q)
        by (change (2 ^ (-52))%Q with (1 # 4503599627370496); change ulp with (1 # 9007199254740992); ring).
      rewrite Heq. by apply Qmult_le_compat_r. }
    clear Hn Hl1 Hl2. lra.
Qed.

(** The same without the case of subnormals, at the price of an absolute term. *)
Definition tiny : Q := Eval vm_compute in 1 # (2 ^ 100).

Lemma fl_within q : (0 <= q)%Q -> (q * (1 - ulp) - tiny <= fl q)%Q /\ (fl q <= q * (1 + ulp) + tiny)%Q.
Proof.
  intros Hq. destruct (Qlt_le_dec q (1 # (2 ^ 101))) as [Hs|Hb].
  - pose proof (fl_nonneg q Hq) as H0. assert (H1 : (fl q <= fl (1 # (2 ^ 101)))%Q) by (apply fl_mono; lra).
    assert (H2 : (fl (1 # (2 ^ 101)) <= tiny)%Q) by (apply Qle_bool_iff; by vm_compute).
    assert (H3 : (1 # (2 ^ 101) <= tiny)%Q) by done.
    assert (Hu : (0 <= q * ulp)%Q) by (by apply Qmult_le_0_compat). split; lra.
  - assert (Hn : normal q) by (right; eapply Qle_trans; [|exact Hb]; by apply Qle_bool_iff).
    destruct (fl_near q Hn). assert (0 <= tiny)%Q by done. split; lra.
Qed.

(** [Math.min] *)
Definition fmin (a b : Q) : Q := if Qle_bool a b then a else b.

Lemma fmin_spec a b : (fmin a b <= a)%Q /\ (fmin a b <= b)%Q /\ (fmin a b = a \/ fmin a b = b).
Proof.
  unfold fmin. destruct (Qle_bool a b) eqn:H.
  - apply Qle_bool_iff in H. split_and!; [lra|done|by left].
  - assert (Hlt : (b < a)%Q) by (apply flt_true; unfold flt; by rewrite H).
    split_and!; [lra|lra|by right].
Qed.

Lemma fmin_ge a b c : (c <= a)%Q -> (c <= b)%Q -> (c <= fmin a b)%Q.
Proof. intros Ha Hb. by destruct (fmin_spec a b) as (_ & _ & [-> | ->]). Qed.

Lemma fmin_mono a b b' : (b <= b')%Q -> (fmin a b <= fmin a b')%Q.
Proof. intros H. destruct (fmin_spec a b) as (H1 & H2 & _). apply fmin_ge; lra. Qed.

(** The largest double below one. *)
Lemma fl_below_1 x : (fl x < 1)%Q -> (fl x <= 1 - ulp)%Q.
Proof.
  intros H. destruct (Qlt_le_dec x (1 # 2)) as [Hs|Hb].
  - eapply Qle_trans; [apply fl_mono, Qlt_le_weak, Hs|]. apply Qle_bool_iff. by vm_compute.
  - assert (Hx1 : (x < 1)%Q).
    { apply Qnot_le_lt. intros Hc%fl_mono. rewrite fl_1 in Hc. lra. }
    assert (Hx : (0 < x)%Q) by (eapply Qlt_le_trans; [|exact Hb]; done).
    destruct (ilog2_spec x Hx) as [Hl1 Hl2].
    assert (Hi : ilog2 x = -1).
    { assert (ilog2 x < 0) by (apply pow2_lt_inv; eapply Qle_lt_trans; [exact Hl1|done]).
      assert (-1 < ilog2 x + 1) by (apply pow2_lt_inv; eapply Qle_lt_trans; [exact Hb|done]). lia. }
    unfold fl in *. rewrite Qred_correct in *.
    destruct (Qcompare_spec x 0) as [H0|H0|H0]; [lra..|].
    unfold fl_pos in *. replace (ulp_exp x) with (-53) in * by (unfold ulp_exp; lia).
    change (2 ^ (-53))%Q with ulp in *. set (z := rint (x / ulp)) in *.
    assert (Hz : z <= 2 ^ 53 - 1).
    { enough (z < 2 ^ 53) by lia. rewrite Zlt_Qlt. apply Qnot_le_lt. intros Hc.
      apply (Qmult_le_compat_r _ _ ulp) in Hc; [|done].
      assert (He : (inject_Z (2 ^ 53) * ulp == 1)%Q) by done. lra. }
    rewrite Zle_Qle in Hz. apply (Qmult_le_compat_r _ _ ulp) in Hz; [|done].
    assert (He : (inject_Z (2 ^ 53 - 1) * ulp == 1 - ulp)%Q) by done. lra.
Qed.
