(* ===== verification/Keys.v ===== *)
(** * Natural keys ([packages/shared/src/hash.ts])

    What makes two items the same item: a domain prefix and the item's own id,
    hashed.  A string is its UTF-8 bytes.  SHA-256 and [String.toLowerCase]
    (which needs the Unicode tables) are parameters; [trim], the regular
    expressions and the prefixes are written out.  [versionOf] is the version
    tag of a content fingerprint ([dav-canonical.ts]). *)

From S2P Require Import Prelude.
From Stdlib Require Import Ascii.

#[local] Open Scope string_scope.

Definition bytes (l : list N) : string := String.string_of_list_ascii (Ascii.ascii_of_N <$> l).

(** The characters [String.prototype.trim] removes: the white space and line
    terminators of ECMAScript. *)
Definition js_spaces : list string :=
  bytes <$> [[9]; [10]; [11]; [12]; [13]; [32]; [194; 160]; [225; 154; 128];
             [226; 128; 128]; [226; 128; 129]; [226; 128; 130]; [226; 128; 131]; [226; 128; 132];
             [226; 128; 133]; [226; 128; 134]; [226; 128; 135]; [226; 128; 136]; [226; 128; 137];
             [226; 128; 138]; [226; 128; 168]; [226; 128; 169]; [226; 128; 175]; [226; 129; 159];
             [227; 128; 128]; [239; 187; 191]]%N.

Fixpoint strip_prefix (p s : string) : option string :=
  match p, s with
  | "", _ => Some s
  | String a p', String b s' => if decide (a = b) then strip_prefix p' s' else None
  | String _ _, "" => None
  end.

Fixpoint strip_any (ps : list string) (s : string) : option string :=
  match ps with
  | [] => None
  | p :: ps' => match strip_prefix p s with Some s' => Some s' | None => strip_any ps' s end
  end.

(** Strip while something can be stripped.  Every space has at least one byte,
    so [String.length s] rounds are enough. *)
Fixpoint strip_many (n : nat) (ps : list string) (s : string) : string :=
  match n with
  | O => s
  | S n' => match strip_any ps s with Some s' => strip_many n' ps s' | None => s end
  end.

Definition trimStart (s : string) : string := strip_many (String.length s) js_spaces s.

Definition trimEnd (s : string) : string :=
  String.rev (strip_many (String.length s) (String.rev <$> js_spaces) (String.rev s)).

Definition trim (s : string) : string := trimEnd (trimStart s).

(** Bytes of a line terminator, which [.] does not match. *)
Definition line_terminators : list string :=
  [bytes [10%N]; bytes [13%N]; bytes [226; 128; 168]%N; bytes [226; 128; 169]%N].

Definition one_line (s : string) : bool :=
  forallb (fun p => match String.index 0 p s with None => true | Some _ => false end) line_terminators.

(** The [replace] that strips one pair of angle brackets around a text
    without line terminators. *)
Definition unbracket (s : string) : string :=
  match s with
  | String "<"%char rest =>
      match String.rev rest with
      | String ">"%char middle_rev =>
          let middle := String.rev middle_rev in if one_line middle then middle else s
      | _ => s
      end
  | _ => s
  end.

Definition normalizeMessageId (messageId : string) : string := trim (unbracket (trim messageId)).

Example normalizes : normalizeMessageId (bytes [32; 194; 160]%N ++ "< abc@example.com >" ++ bytes [10%N])
                     = "abc@example.com".
Proof. by vm_compute. Qed.

(** Only one pair of brackets is removed. *)
Example normalizes_once : normalizeMessageId "<<a@x>>" = "<a@x>".
Proof. by vm_compute. Qed.

(** Two functions of the runtime: the hex digest of a string's UTF-8 bytes,
    and Unicode lower case. *)
Record Runtime := mkRuntime {
  sha256Hex : string -> string;
  toLowerCase : string -> string
}.

Section keys.
Variable rt : Runtime.

Definition hash_naturalKeyHash (messageId : string) : string :=
  sha256Hex rt ("mid:" ++ normalizeMessageId messageId).

Definition calendarNaturalKeyHash (uid : string) : string :=
  sha256Hex rt ("cal:" ++ toLowerCase rt uid).

Definition naturalKeyForCalendar (uid : string) (recurrenceId : option string) : string :=
  calendarNaturalKeyHash
    (match truthy recurrenceId with Some rid => uid ++ "|" ++ rid | None => uid end).

Definition contactNaturalKeyHash (uid : string) : string := sha256Hex rt ("card:" ++ uid).

Definition fileNaturalKeyHash (path : string) : string := sha256Hex rt ("file:" ++ path).

End keys.

Definition is_alnum (a : Ascii.ascii) : bool :=
  let n := Ascii.N_of_ascii a in
  ((48 <=? n) && (n <=? 57) || (65 <=? n) && (n <=? 90) || (97 <=? n) && (n <=? 122))%N.

(** [/^([a-z0-9]+):/i.exec(fingerprint)?.[1]]: [acc] is the match so far,
    reversed. *)
Fixpoint versionOf_from (acc s : string) : option string :=
  match s with
  | String ":"%char _ => match acc with "" => None | _ => Some (String.rev acc) end
  | String a s' => if is_alnum a then versionOf_from (String a acc) s' else None
  | "" => None
  end.

Definition versionOf (fingerprint : string) : option string := versionOf_from "" fingerprint.

Definition sameFingerprintVersion (a b : string) : bool := bool_decide (versionOf a = versionOf b).

Example versions : versionOf "cal1:00ff" = Some "cal1" /\ versionOf "00ff" = None /\ versionOf ":x" = None.
Proof. by vm_compute. Qed.

(** Two prefixes of the same length that differ keep the strings apart. *)
Lemma prefix_apart p q x y : String.length p = String.length q -> p <> q -> p ++ x <> q ++ y.
Proof.
  revert q; induction p as [|a p IH]; intros [|b q]; simpl; try done.
  intros Hl Hne [= -> Hr]. injection Hl as Hl. apply (IH q Hl); [|done]. congruence.
Qed.
