(* ===== verification/RateBudget.v ===== *)
(** * Rate budgets

    The three token buckets of the program: [TokenBucket]
    ([packages/shared/src/throttling.ts]), [InProcessRateBudget]
    ([packages/shared/src/rate-budget.ts]) and [PgRateBudget]
    ([packages/ledger/src/pg-rate-budget.ts]), whose bucket is a row all
    processes share.  A bucket is in doubles, its clock in milliseconds, the
    database's in microseconds.  [acquire] loops until it gets a token; what it
    loops over is [take], and when its timers fire is for the environment to
    say. *)

From S2P Require Import Prelude Doubles.
From Stdlib Require Import QArith Qround Lqa.

Open Scope Z_scope.

(** [Math.min(burst, tokens + seconds * rate)] *)
Definition refilled (burst rate tokens seconds : Q) : Q := fmin burst (fadd tokens (fmul seconds rate)).

(** [(now - before) / 1000] *)
Definition seconds_since (now before : Z) : Q := fdiv (inject_Z (now - before)) (inject_Z 1000).

(** ** [TokenBucket] *)

Record TokenBucket := mkTokenBucket {
  tokens : Q;
  lastRefill : Z;
  capacity : Q;
  refillRate : Q
}.

Definition newTokenBucket (cap rate : Q) (now : Z) : TokenBucket := mkTokenBucket cap now cap rate.

Definition refill (b : TokenBucket) (now : Z) : TokenBucket :=
  mkTokenBucket (refilled (capacity b) (refillRate b) (tokens b) (seconds_since now (lastRefill b))) now
    (capacity b) (refillRate b).

Definition tryConsume (b : TokenBucket) (now : Z) : bool * TokenBucket :=
  let b := refill b now in
  if Qle_bool 1 (tokens b)
  then (true, mkTokenBucket (fl (tokens b - 1)) (lastRefill b) (capacity b) (refillRate b))
  else (false, b).

(** Milliseconds. *)
Definition getTimeUntilToken (b : TokenBucket) : Z :=
  let tokensNeeded := fl (1 - tokens b) in
  let secondsNeeded := fdiv tokensNeeded (refillRate b) in
  Qceiling (fmul secondsNeeded (inject_Z 1000)).

(** The loop of [acquire], woken at the given instants: the bucket it leaves,
    or [None] while it has not got its token. *)
Fixpoint acquire (b : TokenBucket) (wakes : list Z) : option TokenBucket :=
  match wakes with
  | [] => None
  | now :: wakes' => let '(got, b') := tryConsume b now in if got then Some b' else acquire b' wakes'
  end.

(** A timer does not fire before its time. *)
Fixpoint timely (b : TokenBucket) (earliest : Z) (wakes : list Z) : Prop :=
  match wakes with
  | [] => True
  | now :: wakes' =>
      earliest <= now /\
      let '(got, b') := tryConsume b now in
      if got then True else timely b' (now + getTimeUntilToken b') wakes'
  end.

(** ** [InProcessRateBudget] *)

Record RateBudgetConfig := mkRateBudgetConfig {
  requestsPerSecond : Q;
  burst : option Q
}.

Definition burst_of (c : RateBudgetConfig) : Q := nullish (burst c) (requestsPerSecond c).

Record Bucket := mkBucket { b_tokens : Q; b_at : Z }.

Definition budget_key (tenantId provider : string) : string := (tenantId ++ ":" ++ provider)%string.

(** The answer is the time to wait; zero grants. *)
Definition take (c : RateBudgetConfig) (key : string) (at_ : Z) (m : list (string * Bucket))
    : Z * list (string * Bucket) :=
  let bucket := nullish (js_map_get key m) (mkBucket (burst_of c) at_) in
  let r := refilled (burst_of c) (requestsPerSecond c) (b_tokens bucket) (seconds_since at_ (b_at bucket)) in
  if Qle_bool 1 r then (0, js_map_set key (mkBucket (fl (r - 1)) at_) m)
  else (Qceiling (fmul (fdiv (fl (1 - r)) (requestsPerSecond c)) (inject_Z 1000)),
        js_map_set key (mkBucket r at_) m).

(** ** [PgRateBudget] *)

Definition FALLBACK_WAIT_MS : Z := 50.
Definition MAX_WAIT_MS : Z := 2000.

(** [GREATEST(0, q)] *)
Definition fmax0 (q : Q) : Q := if Qle_bool 0 q then q else 0%Q.

Abbreviation rate_table := (gmap (string * string) Bucket) (only parsing).

(** [EXTRACT(EPOCH FROM (clock_timestamp() - refilled_at))] as a double. *)
Definition epoch_since (now before : Z) : Q := fdiv (inject_Z (now - before)) (inject_Z 1000000).

Definition row_refilled (c : RateBudgetConfig) (b : Bucket) (now : Z) : Q :=
  refilled (burst_of c) (requestsPerSecond c) (b_tokens b) (epoch_since now (b_at b)).

(** The statement of [take].  [clock_timestamp()] is read three times: by the
    WHERE, by the new balance, and for [refilled_at].  The answer says whether
    a row came back. *)
Definition pg_take (c : RateBudgetConfig) (k : string * string) (c1 c2 c3 : Z) (t : rate_table)
    : bool * rate_table :=
  match t !! k with
  | None => (true, <[k := mkBucket (fl (burst_of c - 1)) c3]> t)
  | Some b =>
      if Qle_bool 1 (row_refilled c b c1)
      then (true, <[k := mkBucket (fl (row_refilled c b c2 - 1)) c3]> t)
      else (false, t)
  end.

(** The statement of [deficit], in milliseconds. *)
Definition pg_deficit (c : RateBudgetConfig) (k : string * string) (now : Z) (t : rate_table) : option Z :=
  (fun b => let ms := fmul (fmax0 (fdiv (fl (1 - row_refilled c b now)) (requestsPerSecond c))) (inject_Z 1000) in
            Z.max 1 (Qceiling ms)) <$> t !! k.

(** [take] as its caller sees it: the statement, and a second one when it
    answered no row. *)
Definition PgRateBudget_take (c : RateBudgetConfig) (k : string * string) (c1 c2 c3 now : Z) (t : rate_table)
    : Z * rate_table :=
  let '(granted, t') := pg_take c k c1 c2 c3 t in
  if granted then (0, t') else (nullish (pg_deficit c k now t') FALLBACK_WAIT_MS, t').

(** How long [acquire] sleeps. *)
Definition sleep_of (wait : Z) : Z := Z.min wait MAX_WAIT_MS.

(** ** One refill *)

(** What rounding may add: a relative 2^-50. *)
Definition leeway : Q := Eval vm_compute in 1 # (2 ^ 50).

Section refill.
Context (burst rate : Q) (Hburst : (1 <= burst)%Q) (Hdouble : (fl burst == burst)%Q) (Hrate : (1 <= rate)%Q).

Lemma refilled_bounds t s : (0 <= t)%Q -> (0 <= s)%Q ->
  (0 <= refilled burst rate t s)%Q /\ (refilled burst rate t s <= burst)%Q.
Proof using Hburst Hrate.
  intros Ht Hs. unfold refilled. destruct (fmin_spec burst (fadd t (fmul s rate))) as (H1 & _ & _).
  split; [|done]. apply fmin_ge; [lra|]. apply fl_nonneg.
  assert (0 <= fmul s rate)%Q; [|lra]. apply fl_nonneg. apply Qmult_le_0_compat; lra.
Qed.

(** Milliseconds or microseconds, as seconds. *)
Lemma elapsed_bounds d k : 0 <= d -> 0 < k ->
  (0 <= fdiv (inject_Z d) (inject_Z k))%Q /\
  (fdiv (inject_Z d) (inject_Z k) <= inject_Z d / inject_Z k * (1 + ulp) + tiny)%Q /\
  (inject_Z d / inject_Z k * (1 - ulp) - tiny <= fdiv (inject_Z d) (inject_Z k))%Q.
Proof.
  intros Hd Hk%inject_pos. rewrite Zle_Qle in Hd. change (inject_Z 0) with 0%Q in Hd.
  assert (H : (0 <= inject_Z d / inject_Z k)%Q) by (apply Qle_shift_div_l; lra).
  destruct (fl_within _ H). split_and!; [by apply fl_nonneg|done..].
Qed.

Lemma refilled_cost t s x : (0 <= t)%Q -> (t <= burst)%Q -> (0 <= s)%Q -> (0 <= x)%Q ->
  (s <= x * (1 + ulp) + tiny)%Q ->
  (refilled burst rate t s <= t + x * rate * (1 + leeway) + (burst + rate) * leeway)%Q.
Proof using Hburst Hrate.
  intros Ht Htb Hs Hx Hsx. unfold refilled.
  destruct (fmin_spec burst (fadd t (fmul s rate))) as (_ & H & _). eapply Qle_trans; [exact H|]. clear H.
  assert (Hsr : (0 <= s * rate)%Q) by (apply Qmult_le_0_compat; lra).
  destruct (fl_within (s * rate) Hsr) as [_ H1]. fold (fmul s rate) in H1.
  assert (Hm : (0 <= fmul s rate)%Q) by (by apply fl_nonneg).
  destruct (fl_within (t + fmul s rate) ltac:(lra)) as [_ H2]. fold (fadd t (fmul s rate)) in H2.
  assert (Hsr2 : (s * rate <= (x * (1 + ulp) + tiny) * rate)%Q) by (apply Qmult_le_compat_r; lra).
  assert (Hxr : (0 <= x * rate)%Q) by (apply Qmult_le_0_compat; lra).
  revert Hm H1 H2 Hsr2 Hxr. generalize (fadd t (fmul s rate)) (fmul s rate).
  unfold ulp, tiny, leeway. intros. lra.
Qed.

Lemma spend_cost r : (1 <= r)%Q -> (r <= burst)%Q ->
  (0 <= fl (r - 1))%Q /\ (fl (r - 1) <= burst)%Q /\ (fl (r - 1) + 1 <= r + burst * leeway)%Q.
Proof using Hburst Hdouble.
  intros H1 Hr. destruct (fl_within (r - 1) ltac:(lra)) as [_ H2]. split_and!.
  - apply fl_nonneg. lra.
  - rewrite <- Hdouble. apply fl_mono. lra.
  - revert H2. generalize (fl (r - 1)). unfold ulp, tiny, leeway. intros. lra.
Qed.
End refill.

(** ** The bound every bucket keeps

    A family of buckets under keys, served by [serve]: an event is one [take],
    begun and ended at instants of a clock that ticks [unit_] times a second.
    [level] is what a bucket may hold at an instant, rounding allowed for. *)
Definition per_unit (unit_ : Z) (rate : Q) (d : Z) : Q :=
  (inject_Z d / inject_Z unit_ * rate * (1 + leeway))%Q.

Definition slack (burst rate : Q) : Q := (2 * (burst + rate) * leeway)%Q.

Definition level (unit_ : Z) (burst rate : Q) (b : Bucket) (at_ : Z) : Q :=
  fmin burst (b_tokens b + per_unit unit_ rate (at_ - b_at b))%Q.

Definition one_if (granted : bool) : Q := if granted then 1%Q else 0%Q.

Definition held (burst : Q) (b : Bucket) : Prop := (0 <= b_tokens b)%Q /\ (b_tokens b <= burst)%Q.

Class Metered {S K E : Type} (serve : E -> S -> bool * S) (key : E -> K) (row : S -> K -> option Bucket)
    (began ended : E -> Z) (unit_ : Z) (burst rate : Q) := {
  metered_other e s k : k <> key e -> row (serve e s).2 k = row s k;
  metered_absent e s : row s (key e) = None -> began e <= ended e ->
    exists b, row (serve e s).2 (key e) = Some b /\ b_at b <= ended e /\ held burst b /\
      (level unit_ burst rate b (ended e) + one_if (serve e s).1 <= burst + slack burst rate)%Q;
  metered_present e s b0 : row s (key e) = Some b0 -> b_at b0 <= began e -> began e <= ended e -> held burst b0 ->
    exists b, row (serve e s).2 (key e) = Some b /\ b_at b <= ended e /\ held burst b /\
      (level unit_ burst rate b (ended e) + one_if (serve e s).1
         <= level unit_ burst rate b0 (began e) + per_unit unit_ rate (ended e - began e) + slack burst rate)%Q
}.

Section metered.
Context {S K E : Type} `{EqDecision K} (serve : E -> S -> bool * S) (key : E -> K)
        (row : S -> K -> option Bucket) (began ended : E -> Z) (unit_ : Z) (burst rate : Q).

(** How many takes on [k] were granted, and how many there were. *)
Fixpoint grants (k : K) (l : list E) (s : S) : Z :=
  match l with
  | [] => 0
  | e :: l' => (if decide (key e = k) then if (serve e s).1 then 1 else 0 else 0)
               + grants k l' (serve e s).2
  end.

Definition takes (k : K) (l : list E) : Z := Z.of_nat (length (base.filter (fun e => key e = k) l)).

Fixpoint chronological (from : Z) (l : list E) (until : Z) : Prop :=
  match l with
  | [] => from <= until
  | e :: l' => from <= began e /\ began e <= ended e /\ chronological (ended e) l' until
  end.

Lemma chronological_le from l until : chronological from l until -> from <= until.
Proof. revert from; induction l as [|e l IH]; simpl; intros from; [done|]. intros (? & ? & ?%IH). lia. Qed.

Context `{!Metered serve key row began ended unit_ burst rate}.
Context (Hunit : 0 < unit_) (Hrate : (1 <= rate)%Q).

Abbreviation pu := (per_unit unit_ rate).

Lemma per_unit_mono a b : a <= b -> (pu a <= pu b)%Q.
Proof using Hunit Hrate.
  intros H. apply Qmult_le_compat_r; [|done]. apply Qmult_le_compat_r; [|lra].
  apply Qmult_le_compat_r; [by rewrite <- Zle_Qle|]. apply Qinv_le_0_compat.
  pose proof (inject_pos _ Hunit). lra.
Qed.

Lemma per_unit_0 : (pu 0 == 0)%Q.
Proof. unfold per_unit, Qdiv. change (inject_Z 0) with 0%Q. ring. Qed.

Lemma per_unit_nonneg d : 0 <= d -> (0 <= pu d)%Q.
Proof using Hunit Hrate. intros H. rewrite <- per_unit_0. by apply per_unit_mono. Qed.

Lemma per_unit_plus a b : (pu (a + b) == pu a + pu b)%Q.
Proof. unfold per_unit, Qdiv. rewrite inject_Z_plus. ring. Qed.

Lemma per_unit_split a b c : (pu (c - a) == pu (b - a) + pu (c - b))%Q.
Proof. rewrite <- per_unit_plus. by replace (b - a + (c - b)) with (c - a) by lia. Qed.

(** A level grows no faster than the rate. *)
Lemma level_later b x y : x <= y ->
  (level unit_ burst rate b y <= level unit_ burst rate b x + pu (y - x))%Q.
Proof using Hunit Hrate.
  intros H. pose proof (per_unit_nonneg (y - x) ltac:(lia)) as Hn. pose proof (per_unit_split (b_at b) x y) as Hs.
  unfold level. destruct (fmin_spec burst (b_tokens b + pu (y - b_at b))) as (H1 & H2 & _).
  destruct (fmin_spec burst (b_tokens b + pu (x - b_at b))) as (_ & _ & [-> | ->]); lra.
Qed.

Definition held_at (k : K) (from : Z) (s : S) : Prop :=
  forall b, row s k = Some b -> b_at b <= from /\ held burst b.

Definition level_of (o : option Bucket) (at_ : Z) : Q :=
  match o with Some b => level unit_ burst rate b at_ | None => burst end.

Lemma level_of_later o x y : x <= y -> (level_of o y <= level_of o x + pu (y - x))%Q.
Proof using Hunit Hrate.
  intros H. destruct o as [b|]; simpl; [by apply level_later|].
  pose proof (per_unit_nonneg (y - x) ltac:(lia)). lra.
Qed.

Context (Hburst : (1 <= burst)%Q).

Lemma level_of_nonneg s k at_ : held_at k at_ s -> (0 <= level_of (row s k) at_)%Q.
Proof using Hunit Hrate Hburst.
  intros Hh. destruct (row s k) as [b|] eqn:Hb; simpl; [|lra].
  destruct (Hh b Hb) as (Hat & H0 & H1). pose proof (per_unit_nonneg (at_ - b_at b) ltac:(lia)).
  unfold level. apply fmin_ge; lra.
Qed.

Lemma grants_level k l : forall s from until,
  chronological from l until -> held_at k from s ->
  (inject_Z (grants k l s)
     <= level_of (row s k) from + pu (until - from) + inject_Z (takes k l) * slack burst rate)%Q.
Proof using All.
  induction l as [|e l IH]; intros s from until Hc Hh.
  - pose proof (per_unit_nonneg (until - from) ltac:(simpl in Hc; lia)).
    pose proof (level_of_nonneg s k from Hh).
    change (inject_Z (takes k [])) with 0%Q. change (inject_Z (grants k [] s)) with 0%Q. lra.
  - destruct Hc as (Hf & Hbe & Hc). unfold takes. cbn [grants]. rewrite filter_cons.
    pose proof (per_unit_split from (ended e) until) as Hs1.
    pose proof (per_unit_split from (began e) (ended e)) as Hs2.
    destruct (decide (key e = k)) as [Hk|Hk].
    + assert (Hserve : exists b, row (serve e s).2 k = Some b /\ b_at b <= ended e /\ held burst b /\
        (level unit_ burst rate b (ended e) + one_if (serve e s).1
           <= level_of (row s k) from + pu (ended e - from) + slack burst rate)%Q).
      { subst k. destruct (row s (key e)) as [b0|] eqn:Hb.
        - destruct (Hh b0 Hb) as (Hat & H01). assert (Hle : b_at b0 <= began e) by lia.
          destruct (metered_present e s b0 Hb Hle Hbe H01) as (b & Hb' & Hatb & Hb01 & Hcost).
          exists b. split_and!; try done. pose proof (level_later b0 from (began e) Hf). simpl. lra.
        - destruct (metered_absent e s Hb Hbe) as (b & Hb' & Hatb & Hb01 & Hcost).
          exists b. split_and!; try done. pose proof (per_unit_nonneg (ended e - from) ltac:(lia)). simpl. lra. }
      destruct Hserve as (b & Hb & Hat & Hh01 & Hcost).
      assert (Hh' : held_at k (ended e) (serve e s).2) by (intros b' Hb'; rewrite Hb in Hb'; by simplify_eq).
      specialize (IH _ _ _ Hc Hh'). rewrite Hb in IH. simpl in IH.
      simpl length. rewrite Nat2Z.inj_succ. unfold Z.succ. rewrite !inject_Z_plus.
      change (inject_Z 1) with 1%Q. fold (takes k l). unfold one_if in Hcost.
      destruct ((serve e s).1); change (inject_Z 1) with 1%Q; change (inject_Z 0) with 0%Q; lra.
    + assert (Hrow : row (serve e s).2 k = row s k) by (by apply metered_other).
      assert (Hh' : held_at k (ended e) (serve e s).2).
      { intros b Hb. rewrite Hrow in Hb. destruct (Hh b Hb). split; [lia|done]. }
      specialize (IH _ _ _ Hc Hh'). rewrite Hrow in IH. rewrite Z.add_0_l. fold (takes k l).
      pose proof (level_of_later (row s k) from (ended e) ltac:(lia)). lra.
Qed.

(** Whatever came before, a window of time grants a burst and what the rate
    refills, rounding aside. *)
Lemma grants_bounded k l s from until :
  chronological from l until -> held_at k from s ->
  (inject_Z (grants k l s) <= burst + pu (until - from) + inject_Z (takes k l) * slack burst rate)%Q.
Proof using All.
  intros Hc Hh. eapply Qle_trans; [by apply grants_level|].
  assert (level_of (row s k) from <= burst)%Q; [|lra].
  destruct (row s k) as [b|]; simpl; [apply fmin_spec|lra].
Qed.
End metered.

(** ** The three buckets keep it *)

Section serve.
Context (unit_ : Z) (burst rate : Q) (Hunit : 0 < unit_).
Context (Hburst : (1 <= burst)%Q) (Hdouble : (fl burst == burst)%Q) (Hrate : (1 <= rate)%Q).

Abbreviation seconds d := (fdiv (inject_Z d) (inject_Z unit_)).
Abbreviation lvl := (level unit_ burst rate).

Lemma level_now b : (lvl b (b_at b) <= b_tokens b)%Q.
Proof.
  unfold level. destruct (fmin_spec burst (b_tokens b + per_unit unit_ rate (b_at b - b_at b))) as (_ & H & _).
  pose proof (per_unit_0 unit_ rate) as H0. rewrite Z.sub_diag in *. lra.
Qed.

Lemma refilled_level b now : held burst b -> b_at b <= now ->
  let r := refilled burst rate (b_tokens b) (seconds (now - b_at b)) in
  (0 <= r)%Q /\ (r <= burst)%Q /\ (r <= lvl b now + (burst + rate) * leeway)%Q.
Proof using Hunit Hburst Hrate.
  intros [H0 H1] Hat r. destruct (elapsed_bounds (now - b_at b) unit_ ltac:(lia) Hunit) as (Hs & Hs1 & _).
  destruct (refilled_bounds burst rate Hburst Hrate (b_tokens b) _ H0 Hs) as [Hr0 Hr1]. split_and!; [done..|].
  assert (Hx : (0 <= inject_Z (now - b_at b) / inject_Z unit_)%Q).
  { apply Qle_shift_div_l; [by apply inject_pos|]. rewrite Qmult_0_l. change 0%Q with (inject_Z 0).
    rewrite <- Zle_Qle. lia. }
  pose proof (refilled_cost burst rate Hburst Hrate (b_tokens b) _ _ H0 H1 Hs Hx Hs1) as Hc. fold r in Hc, Hr1.
  assert (Hl : (0 <= leeway)%Q) by done.
  assert (Hpos : (0 <= (burst + rate) * leeway)%Q) by (apply Qmult_le_0_compat; lra).
  unfold level, per_unit. destruct (fmin_spec burst (b_tokens b + inject_Z (now - b_at b) / inject_Z unit_ * rate * (1 + leeway)))
    as (_ & _ & [-> | ->]); lra.
Qed.

(** A take that is granted at [c2] and written at [c3]. *)
Lemma granted_level b c2 c3 : held burst b -> b_at b <= c2 ->
  let r := refilled burst rate (b_tokens b) (seconds (c2 - b_at b)) in
  (1 <= r)%Q ->
  let b' := mkBucket (fl (r - 1)) c3 in
  held burst b' /\ (lvl b' c3 + 1 <= lvl b c2 + slack burst rate)%Q.
Proof using Hunit Hburst Hdouble Hrate.
  intros Hb Hat r Hr b'. destruct (refilled_level b c2 Hb Hat) as (_ & H1 & H2). fold r in H1, H2.
  destruct (spend_cost burst Hburst Hdouble r Hr H1) as (Hs0 & Hs1 & Hs2). split; [done|].
  pose proof (level_now b') as Hn. simpl in Hn.
  assert (Hp : (0 <= rate * leeway)%Q) by (apply Qmult_le_0_compat; [lra|done]).
  unfold slack. lra.
Qed.

(** A refusal that writes the refill down. *)
Lemma refused_level b now : held burst b -> b_at b <= now ->
  let b' := mkBucket (refilled burst rate (b_tokens b) (seconds (now - b_at b))) now in
  held burst b' /\ (lvl b' now <= lvl b now + slack burst rate)%Q.
Proof using Hunit Hburst Hrate.
  intros Hb Hat b'. destruct (refilled_level b now Hb Hat) as (H0 & H1 & H2). split; [done|].
  pose proof (level_now b') as Hn. simpl in Hn.
  assert (Hp : (0 <= (burst + rate) * leeway)%Q) by (apply Qmult_le_0_compat; [lra|done]).
  unfold slack. lra.
Qed.

Lemma slack_nonneg : (0 <= slack burst rate)%Q.
Proof using Hburst Hrate. unfold slack. apply Qmult_le_0_compat; [lra|done]. Qed.
End serve.

(** *** In one process *)

Definition tb_serve (burst rate : Q) (now : Z) (b : Bucket) : bool * Bucket :=
  let '(granted, b') := tryConsume (mkTokenBucket (b_tokens b) (b_at b) burst rate) now in
  (granted, mkBucket (tokens b') (lastRefill b')).

(** One [take]: the key and the instant. *)
Definition ip_serve (c : RateBudgetConfig) (e : string * Z) (m : list (string * Bucket))
    : bool * list (string * Bucket) :=
  let '(wait, m') := take c e.1 e.2 m in (Z.leb wait 0, m').

(** The pause for a missing [n] of a token, in milliseconds, is positive. *)
Lemma pause_positive n rate : (ulp <= n)%Q -> (1 <= rate)%Q -> (rate <= inject_Z (2 ^ 53))%Q ->
  (0 < fmul (fdiv (fl n) rate) (inject_Z 1000))%Q.
Proof.
  intros Hn Hrate Hfinite.
  assert (H1 : (ulp <= fl n)%Q) by (eapply Qle_trans; [|by apply fl_mono]; by apply Qle_bool_iff; vm_compute).
  assert (H2 : (1 # (2 ^ 106) <= fdiv (fl n) rate)%Q).
  { eapply Qle_trans; [|apply (fl_mono (1 # (2 ^ 106)))]; [apply Qle_bool_iff; by vm_compute|].
    apply Qle_shift_div_l; [lra|]. eapply Qle_trans; [|exact H1].
    eapply Qle_trans; [apply Qmult_le_l; [done|exact Hfinite]|]. by apply Qle_bool_iff. }
  eapply Qlt_le_trans; [|apply (fl_mono (1 # (2 ^ 106)))]; [apply flt_true; by vm_compute|].
  eapply Qle_trans; [exact H2|]. assert (Hp : (0 <= fdiv (fl n) rate)%Q) by (eapply Qle_trans; [|exact H2]; done).
  change (inject_Z 1000) with 1000%Q. lra.
Qed.

Section in_process.
Context (c : RateBudgetConfig).
Abbreviation B := (burst_of c).
Abbreviation R := (requestsPerSecond c).
Context (Hburst : (1 <= B)%Q) (Hdouble : (fl B == B)%Q) (Hrate : (1 <= R)%Q).
Context (Hfinite : (R <= inject_Z (2 ^ 53))%Q).

#[export] Instance tb_metered : Metered (tb_serve B R) (fun _ => tt) (fun b _ => Some b) id id 1000 B R.
Proof using Hburst Hdouble Hrate.
  split; [by intros e s [] ?|done|].
  unfold id, tb_serve, tryConsume, refill, seconds_since. simpl.
  intros now s b0 [= ->] Hat _ Hb0. destruct (Qle_bool 1 _) eqn:Hg; simpl; eexists; (split; [done|]); split; try done.
  - apply Qle_bool_iff in Hg. pose proof (per_unit_0 1000 R) as Hp. rewrite Z.sub_diag.
    destruct (granted_level 1000 B R eq_refl Hburst Hdouble Hrate b0 now now Hb0 Hat Hg). split; [done|lra].
  - pose proof (per_unit_0 1000 R) as Hp. rewrite Z.sub_diag.
    destruct (refused_level 1000 B R eq_refl Hburst Hrate b0 now Hb0 Hat). split; [done|lra].
Qed.

(** A refusal never reads as a grant: its wait is positive. *)
Lemma refused_wait_positive t s :
  let r := refilled B R t s in
  Qle_bool 1 r = false -> (0 <= r)%Q -> 0 < Qceiling (fmul (fdiv (fl (1 - r)) R) (inject_Z 1000)).
Proof using Hburst Hrate Hfinite.
  intros r Hr Hr0. assert (Hlt : (r < 1)%Q) by (apply flt_true; unfold flt; by rewrite Hr).
  assert (Hle : (r <= 1 - ulp)%Q).
  { unfold r, refilled in *. destruct (fmin_spec B (fadd t (fmul s R))) as (_ & _ & [He|He]);
      rewrite He in *; [lra|by apply fl_below_1]. }
  pose proof (pause_positive (1 - r) R ltac:(lra) Hrate Hfinite) as H3.
  rewrite Zlt_Qlt. eapply Qlt_le_trans; [exact H3|apply Qle_ceiling].
Qed.

Lemma ip_serve_granted e m : (ip_serve c e m).1 =
  Qle_bool 1 (refilled B R (b_tokens (nullish (js_map_get e.1 m) (mkBucket B e.2)))
                (seconds_since e.2 (b_at (nullish (js_map_get e.1 m) (mkBucket B e.2))))) \/
  ~ (0 <= refilled B R (b_tokens (nullish (js_map_get e.1 m) (mkBucket B e.2)))
                (seconds_since e.2 (b_at (nullish (js_map_get e.1 m) (mkBucket B e.2)))))%Q.
Proof using Hburst Hrate Hfinite.
  unfold ip_serve, take. set (b := nullish _ _). set (r := refilled _ _ _ _).
  destruct (Qle_bool 1 r) eqn:Hr; simpl; [by left|].
  destruct (Qlt_le_dec r 0) as [Hneg|Hpos]; [right; lra|left].
  apply Z.leb_gt. by apply refused_wait_positive.
Qed.

(** The bucket the loop starts from. *)
Lemma ip_serve_row e m :
  let b0 := nullish (js_map_get e.1 m) (mkBucket B e.2) in
  let r := refilled B R (b_tokens b0) (seconds_since e.2 (b_at b0)) in
  js_map_get e.1 (ip_serve c e m).2 = Some (if Qle_bool 1 r then mkBucket (fl (r - 1)) e.2 else mkBucket r e.2).
Proof.
  intros b0 r. unfold ip_serve, take. fold b0 r. destruct (Qle_bool 1 r); simpl; apply js_map_get_set_eq.
Qed.

Lemma ip_serve_level e m b0 : nullish (js_map_get e.1 m) (mkBucket B e.2) = b0 -> held B b0 -> b_at b0 <= e.2 ->
  exists b, js_map_get e.1 (ip_serve c e m).2 = Some b /\ b_at b <= e.2 /\ held B b /\
    (level 1000 B R b e.2 + one_if (ip_serve c e m).1 <= level 1000 B R b0 e.2 + slack B R)%Q.
Proof using All.
  intros Hb0 Hh Hat. pose proof (ip_serve_row e m) as Hrow. pose proof (ip_serve_granted e m) as Hg.
  rewrite Hb0 in *. simpl in Hrow. unfold seconds_since in *.
  destruct (refilled_level 1000 B R eq_refl Hburst Hrate b0 e.2 Hh Hat) as (Hr0 & _ & _).
  destruct Hg as [Hg|Hg]; [|done]. rewrite Hg.
  eexists. split; [exact Hrow|]. destruct (Qle_bool 1 _) eqn:Hq; simpl.
  - split; [done|]. apply Qle_bool_iff in Hq. by apply granted_level.
  - split; [done|]. destruct (refused_level 1000 B R eq_refl Hburst Hrate b0 e.2 Hh Hat). split; [done|lra].
Qed.

#[export] Instance ip_metered : Metered (ip_serve c) fst (fun m k => js_map_get k m) snd snd 1000 B R.
Proof using All.
  split.
  - intros e m k Hk. unfold ip_serve, take. destruct (Qle_bool 1 _); simpl; by apply js_map_get_set_ne.
  - intros e m Habs _. destruct (ip_serve_level e m (mkBucket B e.2)) as (b & Hb & Hat & Hh & Hl).
    + by rewrite Habs.
    + split; simpl; lra.
    + simpl. lia.
    + exists b. split_and!; try done. pose proof (level_now 1000 B R (mkBucket B e.2)) as Hn. simpl in Hn. lra.
  - intros e m b0 Hb0 Hat _ Hh. destruct (ip_serve_level e m b0) as (b & Hb & Hat' & Hh' & Hl); try done.
    { by rewrite Hb0. }
    exists b. split_and!; try done. pose proof (per_unit_0 1000 R). rewrite Z.sub_diag. lra.
Qed.
End in_process.

(** *** In the database *)

(** One statement of [take]: its key, the instant its WHERE is evaluated (the
    row is locked by then), and how many microseconds later the new balance
    and [refilled_at] are. *)
Record PgTake := mkPgTake {
  pt_key : string * string;
  pt_where : Z;
  pt_set : nat;
  pt_store : nat
}.

Definition pt_end (e : PgTake) : Z := pt_where e + Z.of_nat (pt_set e) + Z.of_nat (pt_store e).

Definition pg_serve (c : RateBudgetConfig) (e : PgTake) (t : rate_table) : bool * rate_table :=
  pg_take c (pt_key e) (pt_where e) (pt_where e + Z.of_nat (pt_set e)) (pt_end e) t.

Section in_database.
Context (c : RateBudgetConfig).
Abbreviation B := (burst_of c).
Abbreviation R := (requestsPerSecond c).
Context (Hburst : (1 <= B)%Q) (Hdouble : (fl B == B)%Q) (Hrate : (1 <= R)%Q).

(** Balances only grow with time. *)
Lemma row_refilled_mono b x y : x <= y -> (row_refilled c b x <= row_refilled c b y)%Q.
Proof using Hrate.
  intros H. unfold row_refilled, refilled. apply fmin_mono. apply fadd_mono; [lra|].
  apply fmul_mono_l; [lra|]. apply fdiv_mono_l; [done|]. rewrite <- Zle_Qle. lia.
Qed.

#[export] Instance pg_metered :
  Metered (pg_serve c) pt_key (fun t k => t !! k) pt_where pt_end 1000000 B R.
Proof using Hburst Hdouble Hrate.
  split.
  - intros e t k Hk. unfold pg_serve, pg_take.
    destruct (t !! pt_key e); [destruct (Qle_bool 1 _)|]; simpl; by rewrite ?lookup_insert_ne by congruence.
  - intros e t Habs _. unfold pg_serve, pg_take. rewrite Habs. simpl. rewrite lookup_insert_eq.
    eexists. split; [done|]. simpl. split; [done|].
    destruct (spend_cost B Hburst Hdouble B Hburst (Qle_refl B)) as (H0 & H1 & H2). split; [done|].
    pose proof (level_now 1000000 B R (mkBucket (fl (B - 1)) (pt_end e))) as Hn. simpl in Hn.
    assert (Hp : (0 <= (B + R) * leeway)%Q) by (apply Qmult_le_0_compat; [lra|done]).
    assert (Hp2 : (0 <= R * leeway)%Q) by (apply Qmult_le_0_compat; [lra|done]).
    unfold slack. lra.
  - intros e t b0 Hb0 Hat _ Hh. unfold pg_serve, pg_take. rewrite Hb0.
    destruct (Qle_bool 1 (row_refilled c b0 (pt_where e))) eqn:Hq; simpl.
    + rewrite lookup_insert_eq. eexists. split; [done|]. simpl. split; [done|].
      apply Qle_bool_iff in Hq.
      pose proof (row_refilled_mono b0 (pt_where e) (pt_where e + Z.of_nat (pt_set e)) ltac:(lia)) as Hm.
      destruct (granted_level 1000000 B R eq_refl Hburst Hdouble Hrate b0 (pt_where e + Z.of_nat (pt_set e)) (pt_end e))
        as [Hh' Hl]; [done|lia|unfold row_refilled, epoch_since in *; lra|]. split; [done|].
      pose proof (level_later 1000000 B R eq_refl Hrate b0 (pt_where e) (pt_where e + Z.of_nat (pt_set e)) ltac:(lia)).
      pose proof (per_unit_mono 1000000 R eq_refl Hrate (pt_where e + Z.of_nat (pt_set e) - pt_where e)
                    (pt_end e - pt_where e) ltac:(unfold pt_end; lia)).
      unfold row_refilled, epoch_since. lra.
    + exists b0. split; [done|]. split; [unfold pt_end; lia|]. split; [done|].
      pose proof (level_later 1000000 B R eq_refl Hrate b0 (pt_where e) (pt_end e) ltac:(unfold pt_end; lia)).
      pose proof (slack_nonneg B R Hburst Hrate). lra.
Qed.

(** C36: the budget a whole service shares.  However many processes take from
    the table, in whatever order the database serves them and whatever other
    keys they take, in every window of time one (tenant, provider) is granted
    at most a burst and what the rate refills in the window - up to the
    rounding of doubles, a relative 2^-50 and 2^-49 of burst and rate per
    attempt. *)
Theorem pg_budget_bound k l t from until :
  chronological pt_where pt_end from l until ->
  (forall b, t !! k = Some b -> b_at b <= from /\ held B b) ->
  (inject_Z (grants (pg_serve c) pt_key k l t)
     <= B + inject_Z (until - from) / inject_Z 1000000 * R * (1 + leeway)
        + inject_Z (takes pt_key k l) * (2 * (B + R) * leeway))%Q.
Proof using All.
  apply (grants_bounded (pg_serve c) pt_key (fun t k => t !! k) pt_where pt_end 1000000 B R eq_refl Hrate Hburst).
Qed.
End in_database.

(** ** Whoever waits is served *)

Section waiting.
Context (cap rate : Q) (Hcap : (1 <= cap)%Q) (Hrate : (1 <= rate)%Q) (Hfinite : (rate <= inject_Z (2 ^ 20))%Q).

Definition bucket_of (b : TokenBucket) : Prop :=
  capacity b = cap /\ refillRate b = rate /\ (0 <= tokens b)%Q /\ (tokens b <= cap)%Q.

(** The bucket a refusal leaves. *)
Lemma refused b now : bucket_of b -> lastRefill b <= now -> (tryConsume b now).1 = false ->
  let b' := (tryConsume b now).2 in
  bucket_of b' /\ lastRefill b' = now /\ (tokens b' <= 1 - ulp)%Q /\
  tokens b' = refilled cap rate (tokens b) (seconds_since now (lastRefill b)).
Proof using Hcap Hrate.
  destruct b as [t at_ c r]. intros (Hc & Hr & H0 & H1) Hat. simpl in *. subst c r.
  unfold tryConsume, refill. simpl.
  destruct (elapsed_bounds (now - at_) 1000 ltac:(lia) eq_refl) as (Hs & _ & _).
  fold (seconds_since now at_) in Hs.
  destruct (refilled_bounds cap rate Hcap Hrate t _ H0 Hs) as [Hr0 Hr1].
  destruct (Qle_bool 1 (refilled _ _ _ _)) eqn:Hq; [done|]. simpl. intros _.
  split; [by split_and!|]. split; [done|]. split; [|done].
  assert (Hlt : (refilled cap rate t (seconds_since now at_) < 1)%Q) by (apply flt_true; unfold flt; by rewrite Hq).
  unfold refilled in *. destruct (fmin_spec cap (fadd t (fmul (seconds_since now at_) rate))) as (_ & _ & [He|He]);
    rewrite He in *; [lra|by apply fl_below_1].
Qed.

(** What a pause of [d] milliseconds gives back, up to a token. *)
Lemma refilled_after t d x : (0 <= t)%Q -> (t <= 1)%Q -> 0 <= d -> (0 <= x)%Q -> (t + x <= 1)%Q ->
  (x <= inject_Z d / inject_Z 1000 * rate)%Q ->
  (t + x - leeway <= refilled cap rate t (fdiv (inject_Z d) (inject_Z 1000)))%Q.
Proof using Hcap Hrate Hfinite.
  intros Ht Ht1 Hd Hx Htx Hxd. assert (Hlee : (0 <= leeway)%Q) by done. set (q := (inject_Z d / inject_Z 1000)%Q) in *.
  destruct (elapsed_bounds d 1000 Hd eq_refl) as (Hs0 & _ & Hs). fold q in Hs.
  set (s := fdiv (inject_Z d) (inject_Z 1000)) in *. unfold refilled. apply fmin_ge; [lra|].
  (* enough seconds for the part asked for *)
  destruct (Qlt_le_dec 1 (fmul s rate)) as [Hbig|Hsmall].
  - assert (H : (fl (t + x) <= fadd t (fmul s rate))%Q) by (apply fl_mono; lra).
    destruct (fl_within (t + x) ltac:(lra)) as [Hl _]. unfold ulp, tiny, leeway in *. lra.
  - assert (Hsr0 : (0 <= s * rate)%Q) by (apply Qmult_le_0_compat; lra).
    destruct (fl_within (s * rate) Hsr0) as [Hm _]. fold (fmul s rate) in Hm.
    assert (Hm0 : (0 <= fmul s rate)%Q) by (by apply fl_nonneg).
    destruct (fl_within (t + fmul s rate) ltac:(lra)) as [Hl _]. fold (fadd t (fmul s rate)) in Hl.
    assert (Hsr : (q * rate * (1 - ulp) - tiny * rate <= s * rate)%Q).
    { apply (Qmult_le_compat_r _ _ rate) in Hs; [|lra]. lra. }
    change (inject_Z (2 ^ 20)) with 1048576%Q in Hfinite.
    revert Hsmall Hm Hm0 Hl Hsr Hsr0. generalize (fadd t (fmul s rate)) (fmul s rate) (s * rate)%Q.
    revert Hxd. generalize (q * rate)%Q. unfold ulp, tiny, leeway. intros. lra.
Qed.

(** The pause [getTimeUntilToken] asks for is positive, and brings what is
    missing. *)
Lemma wait_enough b : bucket_of b -> (tokens b <= 1 - ulp)%Q ->
  1 <= getTimeUntilToken b /\
  forall d, getTimeUntilToken b <= d ->
    exists x, (0 <= x)%Q /\ (tokens b + x <= 1)%Q /\ (1 - leeway <= tokens b + x)%Q /\
      (x <= inject_Z d / inject_Z 1000 * rate)%Q.
Proof using Hcap Hrate Hfinite.
  intros (_ & Hr & H0 & _) Ht. unfold getTimeUntilToken. rewrite Hr. set (n := (1 - tokens b)%Q).
  assert (Hn : (ulp <= n)%Q) by (unfold n; lra). assert (Hu : (0 <= ulp)%Q) by done.
  assert (Hfin : (rate <= inject_Z (2 ^ 53))%Q) by (eapply Qle_trans; [exact Hfinite|done]).
  pose proof (pause_positive n rate Hn Hrate Hfin) as Hpos.
  set (n1 := fl n) in *. set (n2 := fdiv n1 rate) in *. set (n3 := fmul n2 (inject_Z 1000)) in *.
  pose proof (Qle_ceiling n3) as Hceil. split.
  { assert (0 < Qceiling n3); [|lia]. rewrite Zlt_Qlt. eapply Qlt_le_trans; [exact Hpos|done]. }
  intros d Hd. rewrite Zle_Qle in Hd. set (q := (inject_Z d / inject_Z 1000)%Q).
  assert (Hq : (n3 * (1 # 1000) <= q)%Q).
  { unfold q. apply Qle_shift_div_l; [done|]. change (inject_Z 1000) with 1000%Q. lra. }
  assert (Hqr : (0 < q * rate)%Q) by (apply Qmult_lt_0_compat; lra).
  destruct (Qlt_le_dec n (q * rate)) as [Hbig|Hsmall].
  - exists n. assert (0 <= leeway)%Q by done. unfold n in *. split_and!; lra.
  - exists (q * rate)%Q. split_and!; [lra|unfold n in *; lra| |lra].
    destruct (fl_within n ltac:(lra)) as [H1 _]. fold n1 in H1.
    assert (Hn1 : (0 <= n1)%Q) by (apply fl_nonneg; lra).
    assert (Hdiv : (0 <= n1 / rate)%Q) by (apply Qle_shift_div_l; lra).
    destruct (fl_within _ Hdiv) as [H2 _]. fold (fdiv n1 rate) in H2. fold n2 in H2.
    apply (Qmult_le_compat_r _ _ rate) in H2; [|lra].
    assert (Hcancel : (n1 / rate * rate == n1)%Q) by (field; lra).
    assert (Hn2 : (0 <= n2)%Q) by (by apply fl_nonneg).
    destruct (fl_within (n2 * inject_Z 1000)) as [H3 _]; [apply Qmult_le_0_compat; [done|by vm_compute]|].
    fold (fmul n2 (inject_Z 1000)) in H3. fold n3 in H3. change (inject_Z 1000) with 1000%Q in H3.
    apply (Qmult_le_compat_r _ _ rate) in H3; [|lra]. apply (Qmult_le_compat_r _ _ rate) in Hq; [|lra].
    change (inject_Z (2 ^ 20)) with 1048576%Q in Hfinite.
    clear Hpos Hceil Hd Hdiv Hfin. unfold n in *.
    revert H1 H2 H3 Hq Hcancel Hsmall Hn1. generalize (n1 / rate)%Q. intros z H1 H2 H3 Hq Hcancel Hsmall Hn1.
    unfold ulp, tiny, leeway in *. lra.
Qed.

(** Whoever waits is served.  A caller alone at a bucket that can hold a
    token (between one and a million a second) gets one at its third try at
    the latest, if its timers do not fire early: the pause it computes brings
    the token, and when rounding falls short a second pause of at least a
    millisecond makes up for it. *)
Theorem acquire_is_served b earliest wakes :
  bucket_of b -> lastRefill b <= earliest -> timely b earliest wakes -> (3 <= length wakes)%nat ->
  is_Some (acquire b wakes).
Proof using Hcap Hrate Hfinite.
  destruct wakes as [|now0 [|now1 [|now2 wakes]]]; simpl; try lia.
  intros Hb Hat (H0 & Htimely) _.
  destruct (tryConsume b now0) as [g0 b0] eqn:E0. destruct g0; [by eexists|].
  destruct (refused b now0 Hb ltac:(lia)) as (Hb0 & Hat0 & Hlt0 & _); [by rewrite E0|]. rewrite E0 in *. simpl in *.
  destruct (wait_enough b0 Hb0 Hlt0) as [Hw0 Hx0]. destruct Htimely as (H1 & Htimely).
  destruct (tryConsume b0 now1) as [g1 b1] eqn:E1. destruct g1; [by eexists|].
  destruct (refused b0 now1 Hb0 ltac:(lia)) as (Hb1 & Hat1 & Hlt1 & Ht1); [by rewrite E1|]. rewrite E1 in *. simpl in *.
  destruct (wait_enough b1 Hb1 Hlt1) as [Hw1 _]. destruct Htimely as (H2 & _).
  assert (Hlo : (1 - 2 * leeway <= tokens b1)%Q).
  { destruct (Hx0 (now1 - lastRefill b0) ltac:(lia)) as (x & Hx & Htx & Hlow & Hxd).
    destruct Hb0 as (_ & _ & Hz & _).
    pose proof (refilled_after (tokens b0) (now1 - lastRefill b0) x Hz ltac:(unfold ulp in *; lra) ltac:(lia) Hx Htx Hxd).
    rewrite Ht1. unfold seconds_since. lra. }
  destruct (tryConsume b1 now2) as [g2 b2] eqn:E2. destruct g2; [by eexists|exfalso].
  destruct (refused b1 now2 Hb1 ltac:(lia)) as (_ & _ & Hlt2 & Ht2); [by rewrite E2|]. rewrite E2 in *. simpl in *.
  assert (Hone : (1 <= refilled cap rate (tokens b1) (seconds_since now2 (lastRefill b1)))%Q).
  { unfold refilled. apply fmin_ge; [done|]. rewrite <- fl_1. apply fl_mono.
    assert (Hsec : (fdiv 1 1000 <= seconds_since now2 (lastRefill b1))%Q).
    { apply (fdiv_mono_l 1 _ 1000); [done|]. change 1%Q with (inject_Z 1). rewrite <- Zle_Qle. lia. }
    assert (Hmul : (fmul (fdiv 1 1000) 1 <= fmul (seconds_since now2 (lastRefill b1)) rate)%Q).
    { apply fl_mono. by apply Qmult_le_compat_nonneg. }
    assert (Hval : (2 * leeway <= fmul (fdiv 1 1000) 1)%Q) by (apply Qle_bool_iff; by vm_compute).
    lra. }
  rewrite <- Ht2 in Hone. assert (0 < ulp)%Q by done. lra.
Qed.
End waiting.

(** A bucket that cannot hold one token never gives one. *)
Lemma starved b wakes : (capacity b < 1)%Q -> acquire b wakes = None.
Proof.
  revert b; induction wakes as [|now wakes IH]; intros b Hc; simpl; [done|].
  unfold tryConsume. destruct (Qle_bool 1 (tokens (refill b now))) eqn:Hq; [exfalso|by apply IH].
  apply Qle_bool_iff in Hq. unfold refill, refilled in Hq. simpl in Hq.
  destruct (fmin_spec (capacity b) (fadd (tokens b) (fmul (seconds_since now (lastRefill b)) (refillRate b)))) as (H & _ & _).
  lra.
Qed.

(** ** Samples *)

Definition sample_bucket : TokenBucket := mkTokenBucket 0 0 10 10.

Lemma acquire_is_served_witness :
  acquire sample_bucket [0; 100; 200] = Some (mkTokenBucket 0 100 10 10) /\
  is_Some (acquire sample_bucket [0; 100; 200]).
Proof.
  split; [vm_compute; reflexivity|].
  apply (acquire_is_served 10 10) with (earliest := 0).
  - apply Qle_bool_iff. reflexivity.
  - apply Qle_bool_iff. reflexivity.
  - apply Qle_bool_iff. reflexivity.
  - repeat split; apply Qle_bool_iff; reflexivity.
  - apply Z.leb_le. reflexivity.
  - vm_compute. repeat split; discriminate.
  - apply Nat.leb_le. reflexivity.
Defined.

Definition sample_budget : RateBudgetConfig := mkRateBudgetConfig 2 None.

(** Three processes within a second and a half: the first two spend the burst,
    the third waits, a fourth attempt gets the refill. *)
Definition sample_history : list PgTake :=
  [mkPgTake ("t", "graph") 0 0 0; mkPgTake ("t", "graph") 1000 0 0; mkPgTake ("t", "graph") 2000 0 0;
   mkPgTake ("t", "graph") 1500000 0 0]%string.

Lemma pg_budget_bound_witness :
  grants (pg_serve sample_budget) pt_key ("t", "graph")%string sample_history ∅ = 3 /\
  (inject_Z (grants (pg_serve sample_budget) pt_key ("t", "graph")%string sample_history ∅)
     <= 2 + inject_Z 1500000 / inject_Z 1000000 * 2 * (1 + leeway) + inject_Z 4 * (2 * (2 + 2) * leeway))%Q.
Proof.
  split; [vm_compute; reflexivity|].
  apply (pg_budget_bound sample_budget) with (k := ("t", "graph")%string) (from := 0) (until := 1500000).
  - apply Qle_bool_iff. reflexivity.
  - vm_compute. reflexivity.
  - apply Qle_bool_iff. reflexivity.
  - vm_compute. repeat split; discriminate.
  - intros b Hb. discriminate Hb.
Defined.
