(* ===== verification/Throttling.v ===== *)
(** * The throttle limiter ([packages/shared/src/throttling.ts])

    [ThrottleLimiter] as a machine: the limiter's state, any number of calls of
    [executeWithThrottling] in flight, and events.  An event lets one call take
    the step from one [await] to the next; what the awaited promise answered,
    the instant and the random draw come with the event.  When a timer fires is
    the environment's choice, so nothing below depends on the length of a
    pause. *)

From stdpp Require Import pretty.
From S2P Require Import Prelude Keys Doubles RateBudget.
From Stdlib Require Import QArith Lqa Ascii.

Open Scope Z_scope.

Record ThrottleConfig := mkThrottleConfig {
  maxConcurrent : Z;
  tc_requestsPerSecond : Q;
  maxRetries : Z;
  baseBackoffMs : Z;
  maxBackoffMs : Z;
  jitterMs : Z
}.

#[export] Instance eta_ThrottleConfig : Eta ThrottleConfig := fun c =>
  mkThrottleConfig (maxConcurrent c) (tc_requestsPerSecond c) (maxRetries c) (baseBackoffMs c)
    (maxBackoffMs c) (jitterMs c).

Definition DEFAULT_THROTTLE_CONFIG : ThrottleConfig := mkThrottleConfig 4 10 5 1000 60000 500.

Record ThrottleStats := mkThrottleStats {
  throttleEvents : Z;
  retryAttempts : Z;
  totalWaitTimeMs : Q;
  exceededMaxRetries : Z
}.

#[export] Instance eta_ThrottleStats : Eta ThrottleStats := fun s =>
  mkThrottleStats (throttleEvents s) (retryAttempts s) (totalWaitTimeMs s) (exceededMaxRetries s).

Definition no_stats : ThrottleStats := mkThrottleStats 0 0 0 0.

(** ** [Retry-After] *)

Definition digit (a : Ascii.ascii) : option Z :=
  let n := Z.of_N (Ascii.N_of_ascii a) in
  if (48 <=? n) && (n <=? 57) then Some (n - 48) else None.

(** The longest run of digits, after the digits read so far. *)
Fixpoint read_digits (acc : option Z) (s : string) : option Z :=
  match s with
  | String a s' => match digit a with
                   | Some d => read_digits (Some (10 * nullish acc 0 + d)) s'
                   | None => acc
                   end
  | EmptyString => acc
  end.

(** [parseInt(s, 10)]; [None] is NaN. *)
Definition parseInt10 (s : string) : option Z :=
  match trimStart s with
  | String a s' =>
      if bool_decide (a = "-"%char) then Z.opp <$> read_digits None s'
      else if bool_decide (a = "+"%char) then read_digits None s'
      else read_digits None (String a s')
  | EmptyString => None
  end.

Section throttling.
(** The runtime: [toLowerCase], and [Date.parse] in milliseconds ([None] is
    an invalid date). *)
Variables (rt : Runtime) (parseDate : string -> option Z).

Definition parseRetryAfterMs (headerValue : string) (now : Z) : Z :=
  match parseInt10 headerValue with
  | Some seconds => seconds * 1000
  | None => match parseDate headerValue with
            | Some t => Z.max 0 (t - now)
            | None => 60000
            end
  end.

(** ** The limiter *)

Record Limiter := mkLimiter {
  lm_config : ThrottleConfig;
  lm_shared : bool;
  lm_buckets : list (string * TokenBucket);
  lm_stats : ThrottleStats;
  activeRequests : Z
}.

#[export] Instance eta_Limiter : Eta Limiter := fun l =>
  mkLimiter (lm_config l) (lm_shared l) (lm_buckets l) (lm_stats l) (activeRequests l).

Definition newLimiter (config : ThrottleConfig) (shared : bool) : Limiter :=
  mkLimiter config shared [] no_stats 0.

Definition getBucket (tenantId provider : string) (now : Z) (l : Limiter) : TokenBucket :=
  nullish (js_map_get (budget_key tenantId provider) (lm_buckets l))
    (newTokenBucket (tc_requestsPerSecond (lm_config l)) (tc_requestsPerSecond (lm_config l)) now).

Definition releaseSlot (l : Limiter) : Limiter := l <| activeRequests ::= Z.pred |>.

Definition resetStats (l : Limiter) : Limiter := l <| lm_stats := no_stats |>.

(** [draw] is [Math.random()]. *)
Definition calculateBackoff (attempt : Z) (draw : Q) (c : ThrottleConfig) : Q :=
  let exponentialBackoff := fmul (inject_Z (baseBackoffMs c)) (Qpower 2 attempt) in
  let jitter := fmul draw (inject_Z (jitterMs c)) in
  fmin (fadd exponentialBackoff jitter) (inject_Z (maxBackoffMs c)).

(** An [Error] with its message, or something else that was thrown, with what
    [String] makes of it. *)
Record Thrown := mkThrown { th_isError : bool; th_message : string }.

Definition includes (s needle : string) : bool :=
  match String.index 0 needle s with Some _ => true | None => false end.

Definition isTransientError (message : string) : bool :=
  let m := toLowerCase rt message in
  existsb (includes m) ["timeout"; "network"; "connection"; "ECONN"; "ETIMEDOUT"; "EPIPE"]%string.

Record Response := mkResponse {
  rs_status : Z;
  rs_headers : list (string * string);
  rs_body : string
}.

(** ** One call of [executeWithThrottling] *)

(** Where it awaits: before its first step, in the slot loop, with a slot in
    hand waiting for a token, for the shared budget, for the response, in the
    pause a response asked for or the one after an error; or how it settled. *)
Inductive Phase :=
| Ph_start
| Ph_slot
| Ph_token (waitTime : Z)
| Ph_shared
| Ph_sent
| Ph_retryAfter (waitTime : Q)
| Ph_backoff (backoff : Q)
| Ph_done (r : Response)
| Ph_failed (e : option Thrown).

Record Request := mkRequest {
  rq_tenantId : string;
  rq_provider : string;
  rq_attempt : Z;
  rq_lastError : option Thrown;
  rq_phase : Phase
}.

#[export] Instance eta_Request : Eta Request := fun r =>
  mkRequest (rq_tenantId r) (rq_provider r) (rq_attempt r) (rq_lastError r) (rq_phase r).

Definition newRequest (tenantId provider : string) : Request := mkRequest tenantId provider 0 None Ph_start.

(** What the awaited promise did. *)
Inductive Answer :=
| timer
| budget_granted
| budget_rejected (e : Thrown)
| responded (r : Response)
| rejected (e : Thrown).

(** [await bucket.acquire()], from one try to the next. *)
Definition pollToken (now : Z) (rq : Request) (l : Limiter) : Request * Limiter :=
  let key := budget_key (rq_tenantId rq) (rq_provider rq) in
  let '(got, b) := tryConsume (getBucket (rq_tenantId rq) (rq_provider rq) now l) now in
  let l := l <| lm_buckets ::= js_map_set key b |> in
  (rq <| rq_phase := if got then if lm_shared l then Ph_shared else Ph_sent
                     else Ph_token (getTimeUntilToken b) |>, l).

(** The slot loop of [waitForSlot]. *)
Definition pollSlot (now : Z) (rq : Request) (l : Limiter) : Request * Limiter :=
  if maxConcurrent (lm_config l) <=? activeRequests l then (rq <| rq_phase := Ph_slot |>, l)
  else pollToken now rq (l <| activeRequests ::= Z.succ |>).

(** The head of the [while] loop, and what follows it. *)
Definition loopHead (now : Z) (rq : Request) (l : Limiter) : Request * Limiter :=
  if rq_attempt rq <=? maxRetries (lm_config l) then pollSlot now rq l
  else (rq <| rq_phase := Ph_failed (rq_lastError rq) |>, releaseSlot l).

Definition addWait (wait : Q) (l : Limiter) : Limiter :=
  l <| lm_stats ::= fun s => s <| totalWaitTimeMs ::= fun t => fadd t wait |> |>.

(** The [catch] block. *)
Definition catchError (draw : Q) (e : Thrown) (rq : Request) (l : Limiter) : Request * Limiter :=
  let lastError := if th_isError e then e else mkThrown true (th_message e) in
  let rq := rq <| rq_lastError := Some lastError |> in
  if th_isError e && negb (isTransientError (th_message e)) then
    (rq <| rq_phase := Ph_failed (Some e) |>, releaseSlot l)
  else
    let rq := rq <| rq_attempt ::= Z.succ |> in
    if maxRetries (lm_config l) <? rq_attempt rq then
      (rq <| rq_phase := Ph_failed (Some lastError) |>,
       releaseSlot (l <| lm_stats ::= fun s => s <| exceededMaxRetries ::= Z.succ |> |>))
    else
      let backoff := calculateBackoff (rq_attempt rq - 1) draw (lm_config l) in
      (rq <| rq_phase := Ph_backoff backoff |>,
       (addWait backoff l) <| lm_stats ::= fun s => s <| retryAttempts ::= Z.succ |> |>).

(** [handleRateLimited] *)
Definition handleRateLimited (retryAfterHeader : option string) (now : Z) (draw : Q) (l : Limiter) : Q * Limiter :=
  (match truthy retryAfterHeader with
   | Some h => inject_Z (parseRetryAfterMs h now)
   | None => calculateBackoff 0 draw (lm_config l)
   end,
   l <| lm_stats ::= fun s => s <| throttleEvents ::= Z.succ |> |>).

Definition is_rate_limited (status : Z) : bool := (status =? 429) || (status =? 503).

(** The rest of the [try] block once a response is there. *)
Definition onResponse (now : Z) (draw : Q) (r : Response) (rq : Request) (l : Limiter) : Request * Limiter :=
  if is_rate_limited (rs_status r) then
    let l := l <| lm_stats ::= fun s => s <| retryAttempts ::= Z.succ |> |> in
    let '(waitTime, l) := handleRateLimited (js_map_get "retry-after"%string (rs_headers r)) now draw l in
    let l := addWait waitTime l in
    if rq_attempt rq <? maxRetries (lm_config l) then
      (rq <| rq_phase := Ph_retryAfter waitTime |>, l)
    else
      let l := l <| lm_stats ::= fun s => s <| exceededMaxRetries ::= Z.succ |> |> in
      catchError draw
        (mkThrown true ("Rate limited after " ++ pretty (maxRetries (lm_config l)) ++ " retries. Status: "
                        ++ pretty (rs_status r))%string) rq l
  else (rq <| rq_phase := Ph_done r |>, releaseSlot l).

(** One step of one call; an answer it does not await changes nothing. *)
Definition advance (now : Z) (draw : Q) (a : Answer) (rq : Request) (l : Limiter) : Request * Limiter :=
  match rq_phase rq, a with
  | Ph_start, timer => loopHead now rq l
  | Ph_slot, timer => pollSlot now rq l
  | Ph_token _, timer => pollToken now rq l
  | Ph_shared, budget_granted => (rq <| rq_phase := Ph_sent |>, l)
  | Ph_shared, budget_rejected e => catchError draw e rq (releaseSlot l)
  | Ph_sent, responded r => onResponse now draw r rq l
  | Ph_sent, rejected e => catchError draw e rq l
  | Ph_retryAfter _, timer => loopHead now (rq <| rq_attempt ::= Z.succ |>) l
  | Ph_backoff _, timer => loopHead now rq l
  | _, _ => (rq, l)
  end.

Record Event := mkEvent { ev_call : nat; ev_now : Z; ev_draw : Q; ev_answer : Answer }.

Record World := mkWorld { w_limiter : Limiter; w_calls : list Request }.

Definition step (w : World) (e : Event) : World :=
  match w_calls w !! ev_call e with
  | Some rq =>
      let '(rq', l') := advance (ev_now e) (ev_draw e) (ev_answer e) rq (w_limiter w) in
      mkWorld l' (<[ev_call e := rq']> (w_calls w))
  | None => w
  end.

Definition run_events (w : World) (l : list Event) : World := foldl step w l.

(** Calls that have begun nothing yet. *)
Definition fresh_world (config : ThrottleConfig) (shared : bool) (calls : list (string * string)) : World :=
  mkWorld (newLimiter config shared) ((fun tp => newRequest tp.1 tp.2) <$> calls).

(** ** The accounts of the slots *)

(** The slot a call has and uses. *)
Definition holds_slot (rq : Request) : Z :=
  match rq_phase rq with Ph_token _ | Ph_shared | Ph_sent => 1 | _ => 0 end.

(** The slots it took for earlier attempts: each retry takes a fresh one, and
    nothing gives the earlier ones back. *)
Definition retries_made (maxR : Z) (rq : Request) : Z :=
  Z.min maxR (match rq_phase rq with Ph_retryAfter _ => rq_attempt rq + 1 | _ => rq_attempt rq end).

Definition in_flight (w : World) : Z := zsum holds_slot (w_calls w).

Definition slots_lost (w : World) : Z := zsum (retries_made (maxRetries (lm_config (w_limiter w)))) (w_calls w).

Definition settled (rq : Request) : bool :=
  match rq_phase rq with Ph_done _ | Ph_failed _ => true | _ => false end.

Definition is_rejection (a : Answer) : bool := match a with budget_rejected _ => true | _ => false end.

(** How far a call can have counted. *)
Definition counted (maxR : Z) (rq : Request) : Prop :=
  0 <= rq_attempt rq
  /\ rq_attempt rq <= match rq_phase rq with
                      | Ph_failed _ => maxR + 1
                      | Ph_retryAfter _ => maxR - 1
                      | _ => maxR
                      end.

Definition taken (maxR : Z) (rq : Request) : Z := holds_slot rq + retries_made maxR rq.

(** What one step does to the accounts. *)
Definition balanced (rq : Request) (l : Limiter) (out : Request * Limiter) : Prop :=
  counted (maxRetries (lm_config l)) out.1
  /\ lm_config out.2 = lm_config l
  /\ activeRequests out.2 - activeRequests l
     = taken (maxRetries (lm_config l)) out.1 - taken (maxRetries (lm_config l)) rq
  /\ (activeRequests out.2 <= activeRequests l
      \/ activeRequests out.2 <= maxConcurrent (lm_config l)).

Ltac accounts :=
  unfold balanced, counted, taken, holds_slot, retries_made in *; cbn in *; repeat split; cbn; try lia.

Lemma pollToken_balanced now rq l : (exists t, rq_phase rq = Ph_token t) ->
  counted (maxRetries (lm_config l)) rq -> balanced rq l (pollToken now rq l).
Proof.
  intros [t Ht] Hc. unfold pollToken. destruct (tryConsume _ _) as [got b].
  destruct rq as [tn pv att le ph]; cbn in *; subst ph. destruct got, (lm_shared l); accounts.
Qed.

Lemma pollSlot_balanced now rq l : holds_slot rq = 0 -> settled rq = false ->
  0 <= rq_attempt rq <= maxRetries (lm_config l) -> 
  balanced (rq <| rq_phase := Ph_slot |>) l (pollSlot now rq l).
Proof.
  intros Hh Hs Hc. unfold pollSlot. destruct (_ <=? _) eqn:E.
  - accounts.
  - apply Z.leb_gt in E.
    unfold pollToken. destruct (tryConsume _ _) as [got b].
    destruct rq as [tn pv att le ph]. destruct got; cbn; destruct (lm_shared l); accounts.
Qed.

Lemma catchError_balanced draw e rq l : rq_phase rq = Ph_sent -> counted (maxRetries (lm_config l)) rq ->
  balanced rq l (catchError draw e rq l).
Proof.
  intros Hp Hc. destruct rq as [tn pv att le ph]; cbn in *; subst ph. unfold catchError; cbn.
  destruct (th_isError e && _); [accounts|].
  destruct (maxRetries (lm_config l) <? Z.succ att) eqn:E.
  - apply Z.ltb_lt in E. accounts.
  - apply Z.ltb_ge in E. accounts.
Qed.

Lemma loopHead_balanced now rq l : holds_slot rq = 0 -> settled rq = false ->
  0 <= rq_attempt rq <= maxRetries (lm_config l) ->
  balanced (rq <| rq_phase := Ph_slot |>) l (loopHead now rq l).
Proof.
  intros Hh Hs Hc. unfold loopHead. rewrite (proj2 (Z.leb_le _ _)) by lia.
  by apply pollSlot_balanced.
Qed.

Lemma onResponse_balanced now draw r rq l : rq_phase rq = Ph_sent -> counted (maxRetries (lm_config l)) rq ->
  balanced rq l (onResponse now draw r rq l).
Proof.
  intros Hp Hc. unfold onResponse, handleRateLimited.
  destruct (is_rate_limited _); [|destruct rq as [tn pv att le ph]; cbn in *; subst ph; accounts].
  cbn -[catchError]. destruct (rq_attempt rq <? _) eqn:E.
  - apply Z.ltb_lt in E. destruct rq as [tn pv att le ph]; cbn in *; subst ph. accounts.
  - match goal with |- balanced _ _ (catchError _ ?e _ ?l') =>
      exact (catchError_balanced draw e rq l' Hp Hc) end.
Qed.

Lemma advance_balanced now draw a rq l : is_rejection a = false -> 0 <= maxRetries (lm_config l) ->
  counted (maxRetries (lm_config l)) rq -> balanced rq l (advance now draw a rq l).
Proof.
  intros Ha Hm Hc. pose proof Hc as [H1 H2]. unfold advance.
  destruct rq as [tn pv att le ph]; destruct ph; cbn in H1, H2; cbn [rq_phase];
    destruct a; try discriminate Ha;
    try (split_and!; [exact Hc|done|cbn; lia|cbn; lia]);
    try (by apply onResponse_balanced); try (by apply catchError_balanced);
    try (apply pollToken_balanced; cbn; eauto; done).
  - exact (loopHead_balanced now (mkRequest tn pv att le Ph_start) l eq_refl eq_refl (conj H1 H2)).
  - exact (pollSlot_balanced now (mkRequest tn pv att le Ph_slot) l eq_refl eq_refl (conj H1 H2)).
  - accounts.
  - assert (H3 : 0 <= Z.succ att <= maxRetries (lm_config l)) by lia.
    pose proof (loopHead_balanced now (mkRequest tn pv (Z.succ att) le (Ph_retryAfter waitTime)) l eq_refl eq_refl H3)
      as H. unfold balanced, taken, holds_slot, retries_made in *; cbn -[loopHead] in *.
    replace (att + 1) with (Z.succ att) by lia. exact H.
  - exact (loopHead_balanced now (mkRequest tn pv att le (Ph_backoff backoff)) l eq_refl eq_refl (conj H1 H2)).
Qed.

(** What holds of every world the events can reach. *)
Definition in_order (config : ThrottleConfig) (w : World) : Prop :=
  lm_config (w_limiter w) = config
  /\ Forall (counted (maxRetries config)) (w_calls w)
  /\ activeRequests (w_limiter w) = in_flight w + slots_lost w
  /\ activeRequests (w_limiter w) <= Z.max 0 (maxConcurrent config).

Lemma slots_taken w : in_flight w + slots_lost w
  = zsum (taken (maxRetries (lm_config (w_limiter w)))) (w_calls w).
Proof. symmetry. apply zsum_add. Qed.

Lemma in_order_step config w e : 0 <= maxRetries config -> is_rejection (ev_answer e) = false ->
  in_order config w -> in_order config (step w e).
Proof.
  intros Hm He (Hcfg & Hcount & Hact & Hcap). unfold step.
  destruct (w_calls w !! ev_call e) as [rq|] eqn:E; [|done].
  pose proof (Forall_lookup_1 _ _ _ _ Hcount E) as Hrq. rewrite <- Hcfg in Hm, Hrq.
  pose proof (advance_balanced (ev_now e) (ev_draw e) (ev_answer e) rq (w_limiter w) He Hm Hrq) as Hb.
  destruct (advance _ _ _ _ _) as [rq' l']. destruct Hb as (Hc' & Hcfg' & Hbal & Hcap'). cbn in *.
  rewrite Hcfg in *. split_and!; [done| |..].
  - cbn [w_calls]. by apply Forall_insert.
  - rewrite slots_taken in *. cbn [w_limiter w_calls]. rewrite Hcfg', (zsum_insert _ _ _ _ _ E).
    rewrite Hcfg in Hact. lia.
  - cbn [w_limiter]. lia.
Qed.

Lemma in_order_fresh config shared calls : 0 <= maxRetries config ->
  in_order config (fresh_world config shared calls).
Proof.
  intros Hm. split_and!; [done| | |cbn; lia].
  - apply Forall_fmap, Forall_true. intros tp. accounts.
  - rewrite slots_taken, zsum_zero; [done|].
    apply Forall_fmap, Forall_true. intros tp. accounts.
Qed.

Lemma in_order_run config w l : 0 <= maxRetries config ->
  Forall (fun e => is_rejection (ev_answer e) = false) l ->
  in_order config w -> in_order config (run_events w l).
Proof.
  intros Hm H; revert w; induction H as [|e l He H IH]; intros w Hw; [done|].
  by apply IH, in_order_step.
Qed.

(** ** What the limiter guarantees, and what it loses *)

(** The concurrency cap holds, and retried requests eat into it for good.
    As long as the shared budget rejects nothing, after any events the limiter's
    count is the calls in flight plus one slot for every retry any call ever
    made, settled calls included: a retry goes back through [waitForSlot], and
    only the slot of the last attempt is given back.  So no more calls are in
    flight than [maxConcurrent], less the retries so far. *)
Theorem slots_accounted config shared calls l w :
  0 <= maxRetries config -> Forall (fun e => is_rejection (ev_answer e) = false) l ->
  run_events (fresh_world config shared calls) l = w ->
  activeRequests (w_limiter w) = in_flight w + slots_lost w
  /\ in_flight w + slots_lost w <= Z.max 0 (maxConcurrent config).
Proof.
  intros Hm Hl <-.
  destruct (in_order_run config _ l Hm Hl (in_order_fresh config shared calls Hm)) as (_ & _ & Ha & Hc). lia.
Qed.

(** A call that has no slot keeps having none when every slot is lost. *)
Definition stuck (w : World) : Prop :=
  maxConcurrent (lm_config (w_limiter w)) <= activeRequests (w_limiter w)
  /\ Forall (fun rq => holds_slot rq = 0 /\ (settled rq = true \/ counted (maxRetries (lm_config (w_limiter w))) rq))
       (w_calls w).

Definition waiting (w : World) (i : nat) : Prop :=
  exists rq, w_calls w !! i = Some rq /\ settled rq = false.

Lemma stuck_advance now draw a rq l : maxConcurrent (lm_config l) <= activeRequests l ->
  holds_slot rq = 0 -> (settled rq = true \/ counted (maxRetries (lm_config l)) rq) ->
  (advance now draw a rq l).2 = l /\ settled (advance now draw a rq l).1 = settled rq
  /\ holds_slot (advance now draw a rq l).1 = 0
  /\ (settled rq = true \/ counted (maxRetries (lm_config l)) (advance now draw a rq l).1).
Proof.
  intros Hfull Hh Hc. unfold advance.
  destruct rq as [tn pv att le ph]; destruct ph; cbn in Hh; try discriminate Hh; destruct a; try done;
    unfold loopHead, pollSlot; cbn -[Z.leb]; destruct Hc as [Hs|Hc]; try discriminate Hs;
    unfold counted in Hc; cbn in Hc;
    repeat rewrite (proj2 (Z.leb_le _ _)) by lia;
    (split_and!; [done..|right; unfold counted; cbn; lia]).
Qed.

Lemma stuck_step w e : stuck w -> stuck (step w e) /\ forall i, waiting w i -> waiting (step w e) i.
Proof.
  intros [Hfull Hall]. unfold step. destruct (w_calls w !! ev_call e) as [rq|] eqn:E; [|done].
  destruct (Forall_lookup_1 _ _ _ _ Hall E) as [Hh Hc].
  destruct (stuck_advance (ev_now e) (ev_draw e) (ev_answer e) rq _ Hfull Hh Hc) as (Hl & Hs & Hh' & Hc').
  destruct (advance _ _ _ _ _) as [rq' l']; cbn [fst snd] in *; subst l'. split.
  - split; [done|]. apply Forall_insert; [done|]. split; [done|]. rewrite Hs. exact Hc'.
  - intros i (rq0 & E0 & Hs0). unfold waiting; cbn [w_calls].
    destruct (decide (ev_call e = i)) as [<-|Hne].
    + exists rq'. rewrite list_lookup_insert_eq by (by eapply lookup_lt_Some). split; [done|congruence].
    + exists rq0. by rewrite list_lookup_insert_ne.
Qed.

(** Once the retries have eaten every slot, the limiter is dead.  With
    [maxConcurrent] retries made, by one call or by many, no call that has not
    settled yet ever settles or sends a request again, whatever answers and
    timers follow: each waits for a slot that nobody will release. *)
Theorem lost_slots_starve_all config shared calls l w l' i :
  0 <= maxRetries config -> Forall (fun e => is_rejection (ev_answer e) = false) l ->
  run_events (fresh_world config shared calls) l = w ->
  maxConcurrent config <= slots_lost w -> waiting w i ->
  waiting (run_events w l') i /\ in_flight (run_events w l') = 0.
Proof.
  intros Hm Hl Hw Hlost Hi.
  pose proof (in_order_run config _ l Hm Hl (in_order_fresh config shared calls Hm)) as (Hcfg & Hcount & Ha & Hc).
  rewrite Hw in *.
  assert (Hnn : Forall (fun rq => 0 <= holds_slot rq) (w_calls w)).
  { apply Forall_true. intros rq. unfold holds_slot. by destruct (rq_phase rq). }
  assert (Hlost' : 0 <= slots_lost w).
  { apply zsum_nonneg. eapply Forall_impl; [exact Hcount|]. rewrite Hcfg. unfold counted, retries_made.
    intros rq. destruct (rq_phase rq); lia. }
  assert (Hflight : in_flight w = 0) by (pose proof (zsum_nonneg _ _ Hnn); unfold in_flight in *; lia).
  assert (Hst : stuck w).
  { split; [rewrite Hcfg; lia|]. apply Forall_lookup_2. intros j rq E. split.
    - pose proof (zsum_ge_lookup _ _ _ _ Hnn E). fold (in_flight w) in *.
      pose proof (Forall_lookup_1 _ _ _ _ Hnn E). cbn in *. lia.
    - right. rewrite Hcfg. by eapply Forall_lookup_1. }
  clear - Hst Hi. revert w Hst Hi. induction l' as [|e l' IH]; intros w Hst Hi; cbn.
  - split; [done|]. apply zsum_zero. eapply Forall_impl; [apply Hst|]. by intros rq [].
  - apply IH; apply stuck_step; done.
Qed.
End throttling.

(** ** Instances *)

Definition sample_rt : Runtime := mkRuntime (fun s => s) (fun s => s).

Definition answered (status : Z) : Answer := responded (mkResponse status [] "").

(** One call on the default configuration, answered 429 [n] times. *)
Definition busy_service (n : nat) : list Event :=
  concat (replicate n [mkEvent 0 0 0 timer; mkEvent 0 0 0 (answered 429)]).

Definition default_world : World := fresh_world DEFAULT_THROTTLE_CONFIG false [("t", "p")]%string.

Lemma slots_accounted_witness :
  exists w, activeRequests (w_limiter w) = in_flight w + slots_lost w
  /\ in_flight w + slots_lost w <= Z.max 0 (maxConcurrent DEFAULT_THROTTLE_CONFIG).
Proof.
  eexists.
  refine (slots_accounted sample_rt (fun _ => None) DEFAULT_THROTTLE_CONFIG true [("t", "p")]%string
           [mkEvent 0 0 0 timer; mkEvent 0 0 0 budget_granted] _ _ _ eq_refl).
  - vm_compute; discriminate.
  - repeat constructor.
Defined.

(** The default configuration, a single request, four 429 answers: the call has
    a retry left and waits for ever. *)
Lemma lost_slots_starve_all_witness :
  let later := run_events sample_rt (fun _ => None)
                 (run_events sample_rt (fun _ => None) default_world (busy_service 4)) (busy_service 100) in
  waiting later 0 /\ in_flight later = 0.
Proof.
  refine (lost_slots_starve_all sample_rt (fun _ => None) DEFAULT_THROTTLE_CONFIG false [("t", "p")]%string
            (busy_service 4) _ (busy_service 100) 0 _ _ eq_refl _ _).
  - vm_compute; discriminate.
  - repeat constructor.
  - vm_compute; discriminate.
  - eexists. split; [vm_compute; reflexivity|reflexivity].
Defined.

(** The shared budget rejects one of two calls: both the slot's owner and the
    [catch] block of its caller give the slot back. *)
Example rejected_budget_releases_twice :
  let w := run_events sample_rt (fun _ => None)
             (fresh_world DEFAULT_THROTTLE_CONFIG true [("t", "p")]%string)
             [mkEvent 0 0 0 timer; mkEvent 0 0 0 (budget_rejected (mkThrown true "no such tenant"))] in
  activeRequests (w_limiter w) = -1 /\ in_flight w = 0.
Proof. split; vm_compute; reflexivity. Qed.

(** The upper-case needles are looked for in a lower-case message. *)
Example refused_connection_is_not_transient :
  isTransientError (mkRuntime (fun s => s) (fun _ => "connect econnrefused 127.0.0.1:443"%string))
    "connect ECONNREFUSED 127.0.0.1:443" = false.
Proof. reflexivity. Qed.

(** ** [createThrottleLimiterFromMapping] *)

(** [Partial<ThrottleConfig>]: [None] is a property that is not there. *)
Record PartialConfig := mkPartialConfig {
  p_maxConcurrent : option Z;
  p_requestsPerSecond : option Q;
  p_maxRetries : option Z;
  p_baseBackoffMs : option Z;
  p_maxBackoffMs : option Z;
  p_jitterMs : option Z
}.

(** [{ ...c, ...p }] *)
Definition spread (c : ThrottleConfig) (p : PartialConfig) : ThrottleConfig :=
  mkThrottleConfig (nullish (p_maxConcurrent p) (maxConcurrent c))
    (nullish (p_requestsPerSecond p) (tc_requestsPerSecond c)) (nullish (p_maxRetries p) (maxRetries c))
    (nullish (p_baseBackoffMs p) (baseBackoffMs c)) (nullish (p_maxBackoffMs p) (maxBackoffMs c))
    (nullish (p_jitterMs p) (jitterMs c)).

(** A domain's value, where it is there, truthy and the smaller one. *)
Definition tighter {A} (zero : A -> bool) (lt : A -> A -> bool) (o : option A) (z : A) : A :=
  match o with Some x => if negb (zero x) && lt x z then x else z | None => z end.

Definition Z_zero (z : Z) : bool := z =? 0.

Definition Q_zero (q : Q) : bool := Qeq_bool q 0.

Definition Q_lt (x y : Q) : bool := negb (Qle_bool y x).

Definition mergeDomain (c : ThrottleConfig) (d : PartialConfig) : ThrottleConfig :=
  mkThrottleConfig (tighter Z_zero Z.ltb (p_maxConcurrent d) (maxConcurrent c))
    (tighter Q_zero Q_lt (p_requestsPerSecond d) (tc_requestsPerSecond c)) (nullish (p_maxRetries d) (maxRetries c))
    (nullish (p_baseBackoffMs d) (baseBackoffMs c)) (nullish (p_maxBackoffMs d) (maxBackoffMs c))
    (nullish (p_jitterMs d) (jitterMs c)).

(** [blocks] is [Object.values(mapping)]. *)
Definition mergedConfig (blocks : list PartialConfig) (defaultConfig : PartialConfig) : ThrottleConfig :=
  foldl mergeDomain (spread DEFAULT_THROTTLE_CONFIG defaultConfig) blocks.

Definition createThrottleLimiterFromMapping (blocks : list PartialConfig) (defaultConfig : PartialConfig)
    (shared : bool) : Limiter := newLimiter (mergedConfig blocks defaultConfig) shared.

Lemma last_block_wins (get : ThrottleConfig -> Z) (pget : PartialConfig -> option Z) c blocks :
  (forall c d, get (mergeDomain c d) = nullish (pget d) (get c)) ->
  get (foldl mergeDomain c blocks) = nullish (last (omap pget blocks)) (get c).
Proof.
  intros Hg. induction blocks as [|d blocks IH] using rev_ind; [done|].
  rewrite foldl_app; cbn [foldl]. rewrite Hg, IH, omap_app; cbn.
  destruct (pget d) as [z|]; [by rewrite last_snoc|by rewrite app_nil_r].
Qed.

Section tightest.
Context {A} (zero : A -> bool) (lt : A -> A -> bool) (le : A -> A -> Prop) `{!PreOrder le}.
Hypothesis lt_le : forall x y, lt x y = true -> le x y.
Hypothesis ge_le : forall x y, lt x y = false -> le y x.
Context (get : ThrottleConfig -> A) (pget : PartialConfig -> option A).
Hypothesis get_merge : forall c d, get (mergeDomain c d) = tighter zero lt (pget d) (get c).

(** The least of [z] and the blocks' truthy values. *)
Definition tightest (blocks : list PartialConfig) (z r : A) : Prop :=
  le r z
  /\ (forall d x, d ∈ blocks -> pget d = Some x -> zero x = false -> le r x)
  /\ (r = z \/ exists d, d ∈ blocks /\ pget d = Some r /\ zero r = false).

Lemma merged_tightest c blocks : tightest blocks (get c) (get (foldl mergeDomain c blocks)).
Proof using All.
  induction blocks as [|d blocks (H1 & H2 & H3)] using rev_ind; [split_and!; [done|by intros ? ? ?%elem_of_nil|by left]|].
  rewrite foldl_app; cbn [foldl]. set (z := get (foldl mergeDomain c blocks)) in *.
  rewrite get_merge; fold z. split_and!.
  - unfold tighter. repeat case_match; try done. apply andb_true_iff in H0 as [_ H0%lt_le]. by etrans.
  - intros d' x [Hd|Hd%list_elem_of_singleton]%elem_of_app Hx Hz; subst; unfold tighter.
    + specialize (H2 _ _ Hd Hx Hz). repeat case_match; try done.
      apply andb_true_iff in H0 as [_ H0%lt_le]. by etrans.
    + rewrite Hx, Hz. cbn. destruct (lt x z) eqn:E; [done|by apply ge_le].
  - unfold tighter. destruct (pget d) as [x|] eqn:Ex; [destruct (negb (zero x) && lt x z) eqn:E|].
    + right. exists d. apply andb_true_iff in E as [E _]. rewrite elem_of_app, list_elem_of_singleton.
      split_and!; [by right|done|by destruct (zero x)].
    + destruct H3 as [?|(d' & ? & ?)]; [by left|right; exists d'; rewrite elem_of_app; auto].
    + destruct H3 as [?|(d' & ? & ?)]; [by left|right; exists d'; rewrite elem_of_app; auto].
Qed.
End tightest.

(** The limiter made from a mapping of domains is the safe collapse of
    their blocks: its [maxConcurrent] and its [requestsPerSecond] are each the
    least of the default and the domains' values, of which zero and absent
    ones do not count; the other four fields are the last block's that has
    them. *)
Theorem mapping_limiter_is_safest blocks defaultConfig shared :
  let base := spread DEFAULT_THROTTLE_CONFIG defaultConfig in
  let c := lm_config (createThrottleLimiterFromMapping blocks defaultConfig shared) in
  tightest Z_zero Z.le p_maxConcurrent blocks (maxConcurrent base) (maxConcurrent c)
  /\ tightest Q_zero Qle p_requestsPerSecond blocks (tc_requestsPerSecond base) (tc_requestsPerSecond c)
  /\ maxRetries c = nullish (last (omap p_maxRetries blocks)) (maxRetries base)
  /\ baseBackoffMs c = nullish (last (omap p_baseBackoffMs blocks)) (baseBackoffMs base)
  /\ maxBackoffMs c = nullish (last (omap p_maxBackoffMs blocks)) (maxBackoffMs base)
  /\ jitterMs c = nullish (last (omap p_jitterMs blocks)) (jitterMs base).
Proof.
  intros base c. split_and!; try (by apply last_block_wins).
  - refine (merged_tightest Z_zero Z.ltb Z.le _ _ maxConcurrent p_maxConcurrent _ base blocks); [..|done].
    + intros x y H%Z.ltb_lt; lia.
    + intros x y H%Z.ltb_ge; lia.
  - refine (merged_tightest (PreOrder0 := _) Q_zero Q_lt Qle _ _ tc_requestsPerSecond p_requestsPerSecond _ base blocks);
      [split; [exact Qle_refl|exact Qle_trans]|..|done].
    + intros x y H. apply negb_true_iff in H. apply Qlt_le_weak, Qnot_le_lt.
      intros Hle%Qle_bool_iff. congruence.
    + intros x y H. by apply negb_false_iff, Qle_bool_iff in H.
Qed.
