(* ===== verification/Concurrency.v ===== *)
(** * The bounded worker pool ([packages/shared/src/concurrency.ts])

    [mapWithConcurrency] starts [max] runners over one shared index.  Between
    two awaits a runner is atomic, so an execution is a sequence of choices of
    the runner to move: a schedule.  Every schedule is admitted, which is more
    than an event loop produces. *)

From S2P Require Import Prelude Prog.

(** [DEFAULT_CONCURRENCY] *)
Definition DEFAULT_CONCURRENCY : Z := 4.

(** Where one [runner] closure is: before its loop test, inside [worker(item)],
    or returned. *)
Inductive rstate (W E : Type) : Type :=
| Idle
| Busy (i : nat) (p : prog W E unit)
| Returned.

Arguments Idle {W E}.
Arguments Busy {W E} i p.
Arguments Returned {W E}.

(** The variables the runners close over: [next], [hasError]/[firstError], and
    the world the workers act on. *)
Record pool (W E : Type) := Pool {
  pl_world : W;
  pl_next : nat;
  pl_err : option E;
  pl_runners : list (rstate W E)
}.

Arguments Pool {W E}.
Arguments pl_world {W E}.
Arguments pl_next {W E}.
Arguments pl_err {W E}.
Arguments pl_runners {W E}.

#[export] Instance eta_pool {W E} : Eta (pool W E) :=
  fun p => Pool (pl_world p) (pl_next p) (pl_err p) (pl_runners p).

Section pool.
Context {W E T : Type} (items : list T) (worker : T -> nat -> prog W E unit).

(** [Math.max(1, Math.min(Math.floor(limit), n))] *)
Definition runner_count (limit : Z) : nat :=
  Z.to_nat (Z.max 1 (Z.min limit (Z.of_nat (length items)))).

Definition set_runner (j : nat) (r : rstate W E) (pl : pool W E) : pool W E :=
  pl <| pl_runners ::= <[j := r]> |>.

(** One turn of runner [j]. *)
Definition pool_step (j : nat) (pl : pool W E) : pool W E :=
  match pl_runners pl !! j with
  | None | Some Returned => pl
  | Some Idle =>
      match pl_err pl with
      | Some _ => set_runner j Returned pl
      | None =>
          let i := pl_next pl in
          match items !! i with
          | None => set_runner j Returned (pl <| pl_next := S i |>)
          | Some x => set_runner j (Busy i (worker x i)) (pl <| pl_next := S i |>)
          end
      end
  | Some (Busy _ (Ret _)) => set_runner j Idle pl
  | Some (Busy _ (Throw e)) =>
      set_runner j Returned
        (match pl_err pl with Some _ => pl | None => pl <| pl_err := Some e |> end)
  | Some (Busy i (Act f k)) =>
      let '(b, w) := f (pl_world pl) in
      set_runner j (Busy i (k b)) (pl <| pl_world := w |>)
  end.

Definition pool_run (sched : list nat) (pl : pool W E) : pool W E :=
  foldl (fun pl j => pool_step j pl) pl sched.

Definition pool_init (limit : Z) (w : W) : pool W E :=
  Pool w 0 None (replicate (runner_count limit) Idle).

Definition returned (r : rstate W E) : bool := match r with Returned => true | _ => false end.

Definition pool_settled (pl : pool W E) : bool := forallb returned (pl_runners pl).

(** The whole call under one schedule; [None] while [Promise.all] is pending. *)
Definition mapWithConcurrency (limit : Z) (sched : list nat) (w : W) : option ((E + unit) * W) :=
  if Nat.eqb (length items) 0 then Some (inr tt, w)
  else
    let pl := pool_run sched (pool_init limit w) in
    if pool_settled pl
    then Some (match pl_err pl with Some e => inl e | None => inr tt end, pl_world pl)
    else None.

(** The reference: one item after the other, stopping at the first error. *)
Definition map_sequentially (w : W) : (E + unit) * W :=
  run (pfor (fun '(i, x) => worker x i) (imap pair items)) w.

Definition busy (r : rstate W E) : bool := match r with Busy _ _ => true | _ => false end.

Definition in_flight (pl : pool W E) : nat := length (filter (fun r => busy r = true) (pl_runners pl)).

Lemma pool_run_app s1 s2 pl : pool_run (s1 ++ s2) pl = pool_run s2 (pool_run s1 pl).
Proof. apply foldl_app. Qed.

Lemma pool_step_runners j pl : length (pl_runners (pool_step j pl)) = length (pl_runners pl).
Proof. unfold pool_step, set_runner. repeat (dm1; simpl); by rewrite ?length_insert. Qed.

Lemma pool_run_runners s pl : length (pl_runners (pool_run s pl)) = length (pl_runners pl).
Proof.
  revert pl; induction s as [|j s IH]; intros pl; [done|].
  simpl. rewrite IH. apply pool_step_runners.
Qed.

Lemma pool_settled_spec pl :
  pool_settled pl = true <-> forall j r, pl_runners pl !! j = Some r -> r = Returned.
Proof.
  unfold pool_settled. rewrite forallb_forall. setoid_rewrite <- list_elem_of_In.
  setoid_rewrite list_elem_of_lookup. split.
  - intros H j r Hj. specialize (H r). destruct r; naive_solver.
  - intros H r [j Hj]. by rewrite (H j r Hj).
Qed.

Lemma in_flight_le pl : in_flight pl <= length (pl_runners pl).
Proof. apply length_filter. Qed.
End pool.

(** ** Soundness of rely-guarantee reasoning for the pool

    When each worker, started in any world satisfying [P], tolerates the
    guaranteed steps of the others, then whatever the schedule the pool keeps
    to [G], every worker that settled has established its postcondition, and an
    error that stopped the pool satisfies [X]. *)
Section pool_rg.
Context {W E T : Type} (items : list T) (worker : T -> nat -> prog W E unit).
Context (R G : W -> W -> Prop) `{!PreOrder R} `{!PreOrder G}.
Context (P : W -> Prop) (Q : nat -> W -> Prop) (X : E -> W -> Prop).
Hypothesis G_R : forall w w', G w w' -> R w w'.
Hypothesis P_stable : forall w w', P w -> R w w' -> P w'.
Hypothesis worker_ok : forall i x w, items !! i = Some x -> P w ->
  rg R G (worker x i) (fun _ => Q i) X w.

Record pool_ok (w0 : W) (pl : pool W E) : Prop := {
  ok_g : G w0 (pl_world pl);
  ok_p : P (pl_world pl);
  ok_busy : forall j i p, pl_runners pl !! j = Some (Busy i p) ->
    rg R G p (fun _ => Q i) X (pl_world pl);
  ok_done : forall i, i < pl_next pl -> i < length items -> pl_err pl = None ->
    (exists j p, pl_runners pl !! j = Some (Busy i p)) \/
    (forall w', R (pl_world pl) w' -> Q i w');
  ok_err : forall e, pl_err pl = Some e -> forall w', R (pl_world pl) w' -> X e w';
  ok_ret : forall j, pl_err pl = None -> pl_runners pl !! j = Some Returned ->
    length items <= pl_next pl
}.

(** A runner moves while the world makes one guaranteed step. *)
Lemma pool_ok_act w0 pl j i B (f : W -> B * W) k b w :
  pool_ok w0 pl -> pl_runners pl !! j = Some (Busy i (Act f k)) ->
  f (pl_world pl) = (b, w) ->
  pool_ok w0 (set_runner j (Busy i (k b)) (pl <| pl_world := w |>)).
Proof.
  intros [Hg Hp Hb Hd He Hr] Hj Hf.
  assert (Hstep := Hb j i _ Hj). simpl in Hstep. specialize (Hstep (pl_world pl)).
  rewrite Hf in Hstep. destruct (Hstep ltac:(reflexivity)) as [HG Hk].
  assert (HR := G_R _ _ HG).
  assert (Hlt : j < length (pl_runners pl)) by (by eapply lookup_lt_Some).
  split; unfold set_runner; simpl.
  - by etrans.
  - by eapply P_stable.
  - intros j' i' p' [[<- [[= <- <-] _]]|[Hne Hj']]%list_lookup_insert_Some; [done|].
    by eapply rg_stable; [done|exact HR|eauto].
  - intros i' Hi' Hn Hnone. destruct (Hd i' Hi' Hn Hnone) as [(j' & p' & Hj')|HQ].
    + left. destruct (decide (j = j')) as [<-|Hne].
      * rewrite Hj in Hj'. simplify_eq. exists j, (k b). by apply list_lookup_insert_eq.
      * exists j', p'. by rewrite list_lookup_insert_ne.
    + right. intros w' Hw'. apply HQ. by etrans.
  - intros e Hee w' Hw'. apply (He e Hee). by etrans.
  - intros j' Hnone [[<- [[=] _]]|[Hne Hj']]%list_lookup_insert_Some. by eapply Hr.
Qed.

(** A runner changes place without touching the world. *)
Lemma pool_ok_step w0 j pl : pool_ok w0 pl -> pool_ok w0 (pool_step items worker j pl).
Proof.
  intros Hok. unfold pool_step.
  destruct (pl_runners pl !! j) as [[|i [[]|e|B f k]|]|] eqn:Hj; [| | | |done|done].
  - destruct Hok as [Hg Hp Hb Hd He Hr].
    assert (Hlt : j < length (pl_runners pl)) by (by eapply lookup_lt_Some).
    destruct (pl_err pl) as [e|] eqn:Herr; [|destruct (items !! pl_next pl) as [x|] eqn:Hx];
      split; unfold set_runner; simpl; rewrite ?Herr; try done.
    + intros j' i' p' [[<- [[=] _]]|[Hne Hj']]%list_lookup_insert_Some. by eapply Hb.
    + intros j' i' p' [[<- [[= <- <-] _]]|[Hne Hj']]%list_lookup_insert_Some; [|by eapply Hb].
      by apply worker_ok.
    + intros i' Hi' Hn Hnone. destruct (decide (i' = pl_next pl)) as [->|].
      * left. exists j. eexists. by apply list_lookup_insert_eq.
      * destruct (Hd i' ltac:(lia) Hn eq_refl) as [(j' & p' & Hj')|HQ]; [left|by right].
        exists j', p'. rewrite list_lookup_insert_ne; [done|]. congruence.
    + intros j' _ [[<- [[=] _]]|[Hne Hj']]%list_lookup_insert_Some.
      specialize (Hr j' eq_refl Hj'). lia.
    + intros j' i' p' [[<- [[=] _]]|[Hne Hj']]%list_lookup_insert_Some. by eapply Hb.
    + intros i' Hi' Hn Hnone. apply lookup_ge_None in Hx.
      destruct (Hd i' ltac:(lia) Hn eq_refl) as [(j' & p' & Hj')|HQ]; [left|by right].
      exists j', p'. rewrite list_lookup_insert_ne; [done|]. congruence.
    + intros _ _ _. apply lookup_ge_None in Hx. lia.
  - destruct Hok as [Hg Hp Hb Hd He Hr].
    split; unfold set_runner; simpl; try done.
    + intros j' i' p' [[<- [[=] _]]|[Hne Hj']]%list_lookup_insert_Some. by eapply Hb.
    + intros i' Hi' Hn Hnone. destruct (decide (i' = i)) as [->|].
      * right. exact (Hb j i _ Hj).
      * destruct (Hd i' Hi' Hn Hnone) as [(j' & p' & Hj')|HQ]; [left|by right].
        exists j', p'. rewrite list_lookup_insert_ne; [done|]. congruence.
    + intros j' Hnone [[<- [[=] _]]|[Hne Hj']]%list_lookup_insert_Some. by eapply Hr.
  - destruct Hok as [Hg Hp Hb Hd He Hr]. assert (HX := Hb j i _ Hj). simpl in HX.
    destruct (pl_err pl) as [e'|] eqn:Herr; split; unfold set_runner; simpl; rewrite ?Herr; try done.
    + intros j' i' p' [[<- [[=] _]]|[Hne Hj']]%list_lookup_insert_Some. by eapply Hb.
    + intros j' i' p' [[<- [[=] _]]|[Hne Hj']]%list_lookup_insert_Some. by eapply Hb.
    + by intros e' [= <-].
  - destruct (f (pl_world pl)) as [b w] eqn:Hf. by eapply pool_ok_act.
Qed.

Lemma pool_ok_run w0 s pl : pool_ok w0 pl -> pool_ok w0 (pool_run items worker s pl).
Proof.
  revert pl; induction s as [|j s IH]; intros pl Hok; [done|]. simpl. by apply IH, pool_ok_step.
Qed.

Lemma pool_ok_init limit w : P w -> pool_ok w (pool_init items limit w).
Proof.
  intros HP. split; simpl; [reflexivity|done|..].
  - intros j i p [[=] _]%lookup_replicate.
  - lia.
  - done.
  - intros j _ [[=] _]%lookup_replicate.
Qed.

Lemma runner_count_pos limit : 0 < runner_count items limit.
Proof. unfold runner_count. lia. Qed.

(** The rule clients use. *)
Lemma mapWithConcurrency_rg limit s w r w' :
  P w -> mapWithConcurrency items worker limit s w = Some (r, w') ->
  G w w' /\ P w' /\
  match r with
  | inr _ => forall i, i < length items -> Q i w'
  | inl e => X e w'
  end.
Proof.
  intros HP. unfold mapWithConcurrency.
  destruct (Nat.eqb_spec (length items) 0) as [H0|_].
  { intros [= <- <-]. split; [reflexivity|]. split; [done|]. lia. }
  assert (Hok := pool_ok_run w s _ (pool_ok_init limit w HP)).
  destruct (pool_settled _) eqn:Hset; [|done]. rewrite pool_settled_spec in Hset.
  intros [= <- <-]. destruct Hok as [Hg Hp Hb Hd He Hr]. split; [done|]. split; [done|].
  destruct (pl_err _) as [e|] eqn:Herr.
  - apply (He e eq_refl). reflexivity.
  - intros i Hi.
    assert (Hlen := pool_run_runners items worker s (pool_init items limit w)).
    simpl in Hlen. rewrite length_replicate in Hlen.
    assert (Hpos := runner_count_pos limit).
    destruct (pl_runners (pool_run items worker s (pool_init items limit w)) !! 0) as [r0|] eqn:H0;
      [|apply lookup_ge_None in H0; lia].
    assert (r0 = Returned) as -> by (by eapply Hset).
    specialize (Hr 0 eq_refl H0).
    destruct (Hd i ltac:(lia) Hi eq_refl) as [(j & p & Hj)|HQ]; [|by apply HQ; reflexivity].
    by specialize (Hset _ _ Hj).
Qed.
End pool_rg.

(** ** Termination

    Every turn of a runner that has not returned decreases a well-founded
    measure (items left, then the programs themselves), and while a runner is
    left some turn is possible: no schedule is infinite and none gets stuck. *)
Section pool_termination.
Context {W E T : Type} (items : list T) (worker : T -> nat -> prog W E unit).

(** One atomic step deeper into a program. *)
Inductive prog_lt {A} : prog W E A -> prog W E A -> Prop :=
| prog_lt_act B (f : W -> B * W) k b : prog_lt (k b) (Act f k).

Inductive rstate_lt : rstate W E -> rstate W E -> Prop :=
| returned_lt_idle : rstate_lt Returned Idle
| idle_lt_busy i p : rstate_lt Idle (Busy i p)
| returned_lt_busy i p : rstate_lt Returned (Busy i p)
| busy_lt_busy i p p' : prog_lt p' p -> rstate_lt (Busy i p') (Busy i p).

Inductive list_lt : list (rstate W E) -> list (rstate W E) -> Prop :=
| list_lt_here r r' l : rstate_lt r' r -> list_lt (r' :: l) (r :: l)
| list_lt_there r l l' : list_lt l' l -> list_lt (r :: l') (r :: l).

Lemma prog_lt_wf {A} (p : prog W E A) : Acc prog_lt p.
Proof.
  induction p as [a|e|B f k IH]; constructor; intros p' Hp'; [by inversion Hp'..|].
  refine (match Hp' in prog_lt p' q return
    match q with Act _ k => (forall b, Acc prog_lt (k b)) -> Acc prog_lt p' | _ => True end
    with prog_lt_act _ _ k' b => fun H => H b end IH).
Qed.

Lemma rstate_lt_wf r : Acc rstate_lt r.
Proof.
  assert (Hret : Acc rstate_lt Returned) by (constructor; intros r' Hr'; inversion Hr').
  assert (Hidle : Acc rstate_lt Idle) by (constructor; intros r' Hr'; inversion Hr'; by subst).
  destruct r as [|i p|]; [done| |done].
  induction (prog_lt_wf p) as [p _ IH]. constructor. intros r' Hr'.
  inversion Hr'; subst; [done..|]. by apply IH.
Qed.

Lemma list_lt_wf l : Acc list_lt l.
Proof.
  induction l as [|r l IHl]; [constructor; intros l' Hl'; inversion Hl'|].
  revert r. induction IHl as [l _ IHl]. intros r.
  induction (rstate_lt_wf r) as [r _ IHr].
  constructor. intros l' Hl'. inversion Hl'; subst; auto.
Qed.

Lemma list_lt_insert l j r r' :
  l !! j = Some r -> rstate_lt r' r -> list_lt (<[j:=r']> l) l.
Proof.
  revert j; induction l as [|r0 l IH]; intros [|j]; simpl; intros Hj Hlt; simplify_eq;
    constructor; eauto.
Qed.

(** Turns that do something: the runner has not returned. *)
Definition turn (pl' pl : pool W E) : Prop :=
  exists j r, pl_runners pl !! j = Some r /\ r <> Returned /\ pl' = pool_step items worker j pl.

Definition items_left (pl : pool W E) : nat := length items - pl_next pl.

Lemma turn_decreases pl pl' :
  turn pl' pl ->
  items_left pl' < items_left pl \/
  (items_left pl' <= items_left pl /\ list_lt (pl_runners pl') (pl_runners pl)).
Proof.
  intros (j & r & Hj & Hr & ->). unfold pool_step, items_left, set_runner. rewrite Hj.
  destruct r as [|i [[]|e|B f k]|]; [| | | |done].
  - destruct (pl_err pl) as [e|]; simpl.
    { right. split; [done|]. eapply list_lt_insert; [done|constructor]. }
    destruct (items !! pl_next pl) as [x|] eqn:Hx; simpl.
    + left. apply lookup_lt_Some in Hx. lia.
    + right. split; [lia|]. eapply list_lt_insert; [done|constructor].
  - right. split; [done|]. eapply list_lt_insert; [done|constructor].
  - right. destruct (pl_err pl); (split; [done|]; eapply list_lt_insert; [done|constructor]).
  - destruct (f (pl_world pl)) as [b w]. right. split; [done|].
    eapply list_lt_insert; [done|]. by repeat constructor.
Qed.

Lemma turn_wf pl : Acc turn pl.
Proof.
  remember (items_left pl) as n eqn:Hn. revert pl Hn.
  induction (lt_wf n) as [n _ IHn]. intros pl ->.
  remember (pl_runners pl) as l eqn:Hl. revert pl Hl IHn.
  induction (list_lt_wf l) as [l _ IHl]. intros pl -> IHn.
  constructor. intros pl' Hturn.
  destruct (turn_decreases _ _ Hturn) as [Hlt|[Hle Hlt]].
  - by eapply IHn.
  - eapply IHl; [done|done|]. intros m Hm pl'' ->. eapply IHn; [|done]. lia.
Qed.

Lemma not_settled_turn pl : pool_settled pl = false -> exists pl', turn pl' pl.
Proof.
  unfold pool_settled. intros Hf.
  assert (exists j r, pl_runners pl !! j = Some r /\ returned r = false) as (j & r & Hj & Hr).
  { induction (pl_runners pl) as [|r l IH]; [done|]. simpl in Hf.
    destruct (returned r) eqn:Hr; [|by exists 0, r].
    destruct (IH Hf) as (j & r' & ? & ?). by exists (S j), r'. }
  exists (pool_step items worker j pl), j, r. repeat split; try done. by intros ->.
Qed.

Lemma pool_can_settle pl : exists s, pool_settled (pool_run items worker s pl) = true.
Proof.
  induction (turn_wf pl) as [pl _ IH].
  destruct (pool_settled pl) eqn:Hset; [by exists []|].
  destruct (not_settled_turn _ Hset) as [pl' Hturn].
  destruct (IH _ Hturn) as [s Hs]. destruct Hturn as (j & r & _ & _ & ->).
  by exists (j :: s).
Qed.
End pool_termination.

(** ** Accounts

    A quantity [total] of the world to which every worker adds its [share],
    step by step and whatever the others do between the steps: when the pool has
    settled without an error, exactly all shares have been added. *)
Section pool_accounts.
Context {W E T : Type} (items : list T) (worker : T -> nat -> prog W E unit).
Context (total : W -> Z) (share : T -> Z).

(** What a program still has to add. *)
Fixpoint owes (p : prog W E unit) (debt : Z) : Prop :=
  match p with
  | Ret _ | Throw _ => debt = 0%Z
  | Act f k => forall w, owes (k (fst (f w))) (debt - (total (snd (f w)) - total w))
  end.

Hypothesis worker_owes : forall i x, items !! i = Some x -> owes (worker x i) (share x).

Definition runner_owes (r : rstate W E) (debt : Z) : Prop :=
  match r with Busy _ p => owes p debt | _ => debt = 0%Z end.

Record balanced (sum : Z) (pl : pool W E) : Prop := {
  bal_sum : exists debts, Forall2 runner_owes (pl_runners pl) debts /\
    (total (pl_world pl) + zsum id debts + zsum share (drop (pl_next pl) items) = sum)%Z;
  bal_ret : forall j, pl_err pl = None -> pl_runners pl !! j = Some Returned -> length items <= pl_next pl
}.

(** One runner moves on and pays some of its debt, or takes on a new one. *)
Lemma balanced_move sum pl j r r' w n err paid :
  balanced sum pl -> pl_runners pl !! j = Some r -> pl_next pl <= n ->
  (total w - total (pl_world pl) = paid)%Z ->
  (forall debt, runner_owes r debt ->
     runner_owes r' (debt - paid + (zsum share (drop (pl_next pl) items) - zsum share (drop n items)))%Z) ->
  (err = None -> pl_err pl = None) -> (err = None -> r' = Returned -> length items <= n) ->
  balanced sum (Pool w n err (<[j := r']> (pl_runners pl))).
Proof using.
  intros [(debts & Hall & Hsum) Hret] Hj Hn Hpaid Hr' Herr Hdone.
  destruct (Forall2_lookup_l _ _ _ _ _ Hall Hj) as (debt & Hd & Hr). split; simpl.
  - eexists (<[j := _]> debts). split; [apply Forall2_insert; [exact Hall|by apply Hr', Hr]|].
    rewrite (zsum_insert id debts j debt) by done. unfold id in *. lia.
  - intros j' Hnone [[<- [Hre _]]|[Hne Hj']]%list_lookup_insert_Some; [by apply Hdone|].
    pose proof (Hret j' (Herr Hnone) Hj'). lia.
Qed.

Lemma balanced_step sum j pl : balanced sum pl -> balanced sum (pool_step items worker j pl).
Proof using worker_owes.
  intros Hb. unfold pool_step, set_runner.
  destruct (pl_runners pl !! j) as [[|i [[]|e|B f k]|]|] eqn:Hj; [| | | |done|done].
  - destruct (pl_err pl) as [e|] eqn:Herr; [|destruct (items !! pl_next pl) as [x|] eqn:Hx]; simpl; unfold field_update; simpl.
    + eapply (balanced_move sum pl j Idle Returned (pl_world pl) (pl_next pl) _ 0); try done; try lia; try congruence.
      intros debt. simpl. lia.
    + eapply (balanced_move sum pl j Idle _ (pl_world pl) _ _ 0); try done; try lia; try congruence.
      intros debt. simpl. intros ->. rewrite (drop_S _ _ _ Hx). simpl.
      replace (0 - 0 + _)%Z with (share x) by lia. by apply (worker_owes (pl_next pl)).
    + apply lookup_ge_None in Hx.
      eapply (balanced_move sum pl j Idle _ (pl_world pl) _ _ 0); try done; try lia; try congruence.
      intros debt. simpl. intros ->. rewrite !drop_ge by lia. unfold zsum. simpl. lia.
  - eapply (balanced_move sum pl j _ Idle (pl_world pl) (pl_next pl) _ 0); try done; try lia; try congruence.
    intros debt. simpl. lia.
  - destruct (pl_err pl) as [e'|] eqn:Herr; simpl; unfold field_update; simpl;
      eapply (balanced_move sum pl j _ Returned (pl_world pl) (pl_next pl) _ 0); try done; try lia; try congruence; intros debt; simpl; lia.
  - destruct (f (pl_world pl)) as [b w] eqn:Hf. simpl; unfold field_update; simpl.
    eapply (balanced_move sum pl j _ _ w (pl_next pl) _ (total w - total (pl_world pl))); try done; try lia; try congruence.
    intros debt Hd. simpl in *. specialize (Hd (pl_world pl)). rewrite Hf in Hd. simpl in Hd.
    replace (_ - _ + _)%Z with (debt - (total w - total (pl_world pl)))%Z by lia. done.
Qed.

Lemma balanced_init limit w : balanced (total w + zsum share items) (pool_init items limit w).
Proof using.
  split; simpl; [|by intros j _ [[=] _]%lookup_replicate].
  exists (replicate (runner_count items limit) 0%Z). split; [by apply Forall2_replicate|].
  assert (H0 : zsum id (replicate (runner_count items limit) 0%Z) = 0%Z) by (induction (runner_count items limit); done).
  rewrite H0, drop_0. lia.
Qed.

Theorem mapWithConcurrency_accounts limit s w u w' :
  mapWithConcurrency items worker limit s w = Some (inr u, w') -> total w' = (total w + zsum share items)%Z.
Proof using worker_owes.
  unfold mapWithConcurrency. destruct (Nat.eqb_spec (length items) 0) as [H0|_].
  { apply nil_length_inv in H0 as H0'. rewrite H0'. intros [= <- <-]. unfold zsum. simpl. lia. }
  assert (Hb : balanced (total w + zsum share items) (pool_run items worker s (pool_init items limit w))).
  { pose proof (balanced_init limit w) as Hb. revert Hb. generalize (pool_init (E := E) items limit w).
    induction s as [|j s IH]; intros pl Hb; [done|]. simpl. by apply IH, balanced_step. }
  destruct (pool_settled _) eqn:Hset; [|done]. rewrite pool_settled_spec in Hset. intros [= Hu <-].
  destruct Hb as [(debts & Hall & Hsum) Hret].
  destruct (pl_err _) eqn:Herr; [done|].
  assert (Hlen := pool_run_runners items worker s (pool_init items limit w)).
  simpl in Hlen. rewrite length_replicate in Hlen. assert (Hpos := runner_count_pos items limit).
  destruct (pl_runners (pool_run items worker s (pool_init items limit w)) !! 0) as [r0|] eqn:H0;
    [|apply lookup_ge_None in H0; lia].
  assert (r0 = Returned) as -> by (by eapply Hset). specialize (Hret 0 eq_refl H0).
  rewrite drop_ge in Hsum by done.
  assert (Hz : zsum id debts = 0%Z).
  { clear -Hall Hset. assert (Hr : Forall (fun r => r = Returned) (pl_runners (pool_run items worker s (pool_init items limit w)))).
    { apply Forall_lookup. intros j r. apply Hset. }
    clear Hset. revert Hr. induction Hall as [|r d rs ds Hd _ IH]; [done|]. rewrite Forall_cons. intros [-> Hr].
    change (zsum id (d :: ds)) with (d + zsum id ds)%Z. simpl in Hd. rewrite (IH Hr), Hd. done. }
  change (zsum share []) with 0%Z in Hsum. lia.
Qed.
End pool_accounts.

(** ** The pool of one runner is the sequential loop *)
Section pool_sequential.
Context {W E T : Type} (items : list T) (worker : T -> nat -> prog W E unit).

Definition rest_from (n : nat) : prog W E unit :=
  pfor (fun '(i, x) => worker x i) (drop n (imap pair items)).

(** What the call will answer if only this runner ever moves. *)
Definition outcome (pl : pool W E) : (E + unit) * W :=
  match pl_runners pl !! 0, pl_err pl with
  | Some (Busy _ p), None => run (pbind p (fun _ => rest_from (pl_next pl))) (pl_world pl)
  | Some Idle, None => run (rest_from (pl_next pl)) (pl_world pl)
  | _, Some e => (inl e, pl_world pl)
  | _, None => (inr tt, pl_world pl)
  end.

Lemma rest_from_Some n x :
  items !! n = Some x -> rest_from n = pbind (worker x n) (fun _ => rest_from (S n)).
Proof.
  intros Hx. unfold rest_from.
  rewrite (drop_S _ (n, x)); [done|]. by rewrite list_lookup_imap, Hx.
Qed.

Lemma rest_from_None n : items !! n = None -> rest_from n = Ret tt.
Proof.
  intros Hn. unfold rest_from. rewrite drop_ge; [done|].
  rewrite length_imap. by apply lookup_ge_None.
Qed.

(** With a single runner an error is recorded only by the runner that returns. *)
Definition single (pl : pool W E) : Prop :=
  exists r, pl_runners pl = [r] /\ (pl_err pl <> None -> r = Returned).

Lemma pool_step_outcome j pl :
  single pl ->
  single (pool_step items worker j pl) /\ outcome (pool_step items worker j pl) = outcome pl.
Proof.
  destruct pl as [w n err rs]. intros (r & Hr & Herr); simpl in *; subst rs.
  unfold pool_step, single, outcome, set_runner.
  destruct j as [|j]; simpl; [|split; [by exists r|done]].
  destruct err as [e|].
  { rewrite (Herr ltac:(done)); simpl. split; [by exists Returned|done]. }
  destruct r as [|i [[]|e|B f k]|]; simpl; (split; [|try done]); try (by eexists).
  - destruct (items !! n) as [x|] eqn:Hx; simpl; by eexists.
  - destruct (items !! n) as [x|] eqn:Hx; simpl.
    + by rewrite (rest_from_Some _ _ Hx).
    + by rewrite (rest_from_None _ Hx).
  - destruct (f w) as [b w'] eqn:Hf; simpl. by eexists.
  - destruct (f w) as [b w'] eqn:Hf; simpl. by rewrite ?Hf.
Qed.

Lemma pool_run_outcome s pl :
  single pl ->
  single (pool_run items worker s pl) /\ outcome (pool_run items worker s pl) = outcome pl.
Proof.
  revert pl; induction s as [|j s IH]; intros pl Hs; [done|]. simpl.
  destruct (pool_step_outcome j pl Hs) as [Hs' <-]. by apply IH.
Qed.
End pool_sequential.

(** ** The promises of [mapWithConcurrency] *)

(** At most [max(1, limit)] workers are ever between their start and their end. *)
Theorem mapWithConcurrency_in_flight {W E T} (items : list T) (worker : T -> nat -> prog W E unit)
    (limit : Z) (s : list nat) (w : W) :
  (Z.of_nat (in_flight (pool_run items worker s (pool_init items limit w))) <= Z.max 1 limit)%Z.
Proof.
  assert (H := in_flight_le (pool_run items worker s (pool_init items limit w))).
  rewrite pool_run_runners in H. simpl in H. rewrite length_replicate in H.
  unfold runner_count in H. lia.
Qed.

(** No schedule keeps the call pending forever, and none can block it. *)
Theorem mapWithConcurrency_terminates {W E T} (items : list T) (worker : T -> nat -> prog W E unit)
    (limit : Z) (w : W) :
  (forall s, Acc (turn items worker) (pool_run items worker s (pool_init items limit w))) /\
  (forall s, exists s' r, mapWithConcurrency items worker limit (s ++ s') w = Some r).
Proof.
  split; [intros s; apply turn_wf|]. intros s.
  destruct (pool_can_settle items worker (pool_run items worker s (pool_init items limit w))) as [s' Hs'].
  exists s'. unfold mapWithConcurrency. destruct (Nat.eqb (length items) 0); [by eexists|].
  rewrite pool_run_app, Hs'. by eexists.
Qed.

(** With [limit <= 1] the pool computes exactly the fail-fast sequential loop. *)
Theorem mapWithConcurrency_sequential {W E T} (items : list T) (worker : T -> nat -> prog W E unit)
    (limit : Z) (s : list nat) (w : W) r :
  (limit <= 1)%Z ->
  mapWithConcurrency items worker limit s w = Some r -> r = map_sequentially items worker w.
Proof.
  intros Hl. unfold mapWithConcurrency, map_sequentially.
  destruct (Nat.eqb_spec (length items) 0) as [H0|Hn].
  { apply nil_length_inv in H0 as ->. by intros [= <-]. }
  assert (Hrc : runner_count items limit = 1) by (unfold runner_count; lia).
  destruct (pool_settled _) eqn:Hset; [|done]. intros [= <-].
  assert (Hsingle : single (W:=W) (E:=E) (pool_init items limit w)).
  { exists Idle. unfold pool_init. rewrite Hrc. by split. }
  destruct (pool_run_outcome items worker s _ Hsingle) as [(r & Hr & Herr) Hout].
  rewrite pool_settled_spec in Hset. rewrite Hr in Hset. specialize (Hset 0 r eq_refl). subst r.
  assert (Hi : outcome items worker (pool_init items limit w)
    = run (pfor (fun '(i, x) => worker x i) (imap pair items)) w).
  { unfold outcome, pool_init. rewrite Hrc. done. }
  rewrite <- Hi, <- Hout. unfold outcome. rewrite Hr. simpl. by destruct (pl_err _).
Qed.

(** Three items, the second of which rejects: the third never starts. *)
Definition add_or_reject (x : nat) (_ : nat) : prog (list nat) string unit :=
  act (fun w => (tt, w ++ [x])) ;;;
  if Nat.eqb x 2 then Throw "rejected"%string else Ret tt.

Lemma mapWithConcurrency_sequential_witness :
  (inl "rejected"%string, [1; 2]) = map_sequentially [1; 2; 3] add_or_reject [].
Proof.
  apply (mapWithConcurrency_sequential [1; 2; 3] add_or_reject 1 [0; 0; 0; 0; 0; 0; 0; 0; 0]).
  - lia.
  - vm_compute. reflexivity.
Defined.
