(* ===== verification/Ports.v ===== *)
(** * The port types ([packages/shared/src/ports.ts])

    The vocabulary the core, the ledger and the target writers share: ledger
    rows, results of target writes and removals, the operator queues, and the
    [Ledger] port itself as a class with the laws its clients rely on. *)

From S2P Require Import Prelude.

Open Scope Z_scope.

(** Ids and keys are strings; an instant is the number of milliseconds since
    the epoch (the code passes ISO 8601 strings of one fixed shape, whose order
    is the order of the instants). *)
Abbreviation TenantId := string (only parsing).
Abbreviation MappingId := string (only parsing).
Abbreviation instant := Z (only parsing).

Inductive domain := Email | Calendar | Contact | File.

#[export] Instance domain_eq_dec : EqDecision domain.
Proof. solve_decision. Defined.

(** [LedgerRecord['status']] *)
Inductive status :=
| pending | copied | updated | adopted | skipped | failed | left_behind | deleted_source | tombstoned.

#[export] Instance status_eq_dec : EqDecision status.
Proof. solve_decision. Defined.

(** One row of idempotency state. *)
Record LedgerRecord := mkLedgerRecord {
  tenantId : TenantId;
  mappingId : MappingId;
  itemType : domain;
  naturalKeyHash : string;
  contentHash : string;
  targetId : string;
  createdAt : instant;
  sizeBytes : option Z;
  rstatus : option status;
  collection : option string;
  targetVersion : option string;
  sourceRef : option string;
  absentPasses : option Z;
  deletionReportedAt : option instant;
  deletionTrashedAt : option instant;
  deletionAcknowledgedAt : option instant;
  deletionAppliedAt : option instant;
  movedToCollection : option string;
  movedToNaturalKeyHash : option string;
  movedRecordedAt : option instant;
  moveAcknowledgedAt : option instant;
  attemptCount : option Z;
  lastError : option string;
  sourceVersion : option string
}.

#[export] Instance eta_LedgerRecord : Eta LedgerRecord := fun r =>
  mkLedgerRecord (tenantId r) (mappingId r) (itemType r) (naturalKeyHash r) (contentHash r)
    (targetId r) (createdAt r) (sizeBytes r) (rstatus r) (collection r) (targetVersion r)
    (sourceRef r) (absentPasses r) (deletionReportedAt r) (deletionTrashedAt r)
    (deletionAcknowledgedAt r) (deletionAppliedAt r) (movedToCollection r)
    (movedToNaturalKeyHash r) (movedRecordedAt r) (moveAcknowledgedAt r) (attemptCount r)
    (lastError r) (sourceVersion r).

(** Result of upserting one item into a target. *)
Record UpsertResult := mkUpsertResult {
  ur_targetId : string;
  ur_created : bool;
  ur_adopted : bool;
  ur_targetVersion : option string;
  ur_conflicted : bool;
  ur_updated : bool
}.

(** Per-call instructions for a target write. *)
Record UpsertOptions := mkUpsertOptions {
  uo_overwrite : bool;
  uo_sourceVersion : option string;
  uo_collection : option string;
  uo_expectedTargetVersion : option string;
  uo_sourceRef : option string
}.

Inductive RemovalKind := binned | deleted.

(** Outcome of removing one item's copy from the target. *)
Record RemovalResult := mkRemovalResult {
  rr_kind : option RemovalKind;
  rr_conflicted : bool
}.

(** [MAX_ITEM_ATTEMPTS], [DELETION_CONFIRMATIONS] *)
Definition MAX_ITEM_ATTEMPTS : Z := 5.
Definition DELETION_CONFIRMATIONS : Z := 2.

(** Does this ledger status mean the item is on the target? *)
Definition isOnTarget (s : option status) : bool :=
  negb (bool_decide (s = Some failed)) && negb (bool_decide (s = Some left_behind))
    && negb (bool_decide (s = Some tombstoned)).

(** One item found on a target, keyed as the ledger keys it. *)
Record TargetEntry := mkTargetEntry {
  te_naturalKey : string;
  te_targetId : string;
  te_mailboxId : string;
  te_contentHash : option string;
  te_sizeBytes : option Z
}.

(** One item that would not migrate. *)
Record ItemFailure := mkItemFailure {
  if_domain : domain;
  if_naturalKeyHash : string;
  if_collection : option string;
  if_attempts : Z;
  if_lastError : string;
  if_lastAttemptAt : option instant;
  if_needsDecision : bool
}.

(** An item the source lists in another collection than the one we copied it into. *)
Record ItemMove := mkItemMove {
  im_domain : domain;
  im_naturalKeyHash : string;
  im_from : string;
  im_to : string;
  im_toNaturalKeyHash : option string;
  im_recordedAt : option instant;
  im_acknowledgedAt : option instant
}.

Inductive DeletionEvidence := reported | trashed | inferred.

#[export] Instance DeletionEvidence_eq_dec : EqDecision DeletionEvidence.
Proof. solve_decision. Defined.

(** An item the source no longer has, which the target still holds. *)
Record ItemDeletion := mkItemDeletion {
  id_domain : domain;
  id_naturalKeyHash : string;
  id_collection : string;
  id_absentPasses : Z;
  id_confirmed : bool;
  id_evidence : DeletionEvidence;
  id_reportedAt : option instant;
  id_trashedAt : option instant;
  id_acknowledgedAt : option instant
}.

#[export] Instance eta_ItemDeletion : Eta ItemDeletion := fun d =>
  mkItemDeletion (id_domain d) (id_naturalKeyHash d) (id_collection d) (id_absentPasses d)
    (id_confirmed d) (id_evidence d) (id_reportedAt d) (id_trashedAt d) (id_acknowledgedAt d).

Inductive FailureAction := retry | accept.
Inductive DeletionAction := del_keep | del_apply.
Inductive MoveAction := move_keep.

(** What a bin scan answers once paths have become natural keys. *)
Record DiscardedListing := mkDiscardedListing {
  dl_keys : list string;
  dl_unnameable : Z;
  dl_reason : option string
}.

(** The rows [placedItems] answers. *)
Record PlacedItem := mkPlacedItem {
  pi_naturalKeyHash : string;
  pi_contentHash : string;
  pi_collection : string;
  pi_movedToCollection : option string;
  pi_movedToNaturalKeyHash : option string;
  pi_moveAcknowledgedAt : option instant;
  pi_absentPasses : Z;
  pi_deletionAcknowledgedAt : option instant;
  pi_deletionAppliedAt : option instant
}.

(** [discardedScanCursorKey]: a namespace no real collection path can enter. *)
Definition SOH : Ascii.ascii := Ascii.Ascii true false false false false false false false.

Definition discardedScanCursorKey (collectionPath : string) : string :=
  String SOH ("discarded" ++ String SOH collectionPath)%string.

(** An event for [recordAuditEvent]; [detail] keeps the string members of the
    JSON object. *)
Record AuditEvent := mkAuditEvent {
  ae_actor : string;
  ae_action : string;
  ae_entity : option string;
  ae_detail : list (string * string)
}.

(** ** The [Ledger] port *)
Class Ledger (L : Type) := {
  lg_find : TenantId -> MappingId -> domain -> string -> L -> option LedgerRecord;
  lg_findBySourceRef : TenantId -> MappingId -> domain -> string -> L -> option LedgerRecord;
  lg_recordIfAbsent : LedgerRecord -> L -> (string + LedgerRecord) * L;
  lg_recordUpdate : LedgerRecord -> L -> (string + LedgerRecord) * L;
  lg_recordFailure : LedgerRecord -> string -> L -> (string + LedgerRecord) * L;
  lg_placedItems : TenantId -> MappingId -> domain -> L -> list PlacedItem;
  lg_recordMove : TenantId -> MappingId -> domain -> string -> string -> option string -> L -> L;
  lg_clearMove : TenantId -> MappingId -> domain -> string -> L -> L;
  lg_listMoves : TenantId -> MappingId -> option domain -> L -> list ItemMove;
  lg_recordAbsent : TenantId -> MappingId -> domain -> string -> L -> Z * L;
  lg_recordReportedDeletion : TenantId -> MappingId -> domain -> string -> L -> bool * L;
  lg_recordTrashedDeletion : TenantId -> MappingId -> domain -> string -> L -> bool * L;
  lg_clearAbsent : TenantId -> MappingId -> domain -> string -> L -> L;
  lg_listDeletions : TenantId -> MappingId -> option domain -> L -> list ItemDeletion;
  lg_applyDeletion : TenantId -> MappingId -> domain -> string -> L -> bool * L;
  lg_applyRelocation : TenantId -> MappingId -> domain -> string -> L -> bool * L;
  lg_recordAuditEvent : TenantId -> AuditEvent -> L -> L
}.

(** ** What clients may rely on

    The facts of a row that say whether and how its copy is on the target.
    Evidence, moves and acknowledgements are not among them. *)
Record CopyFacts := mkCopyFacts {
  cf_status : option status;
  cf_targetId : string;
  cf_contentHash : string;
  cf_collection : option string;
  cf_sourceVersion : option string;
  cf_targetVersion : option string;
  cf_attemptCount : option Z;
  cf_deletionAppliedAt : option instant
}.

Definition copy_facts (r : LedgerRecord) : CopyFacts :=
  mkCopyFacts (rstatus r) (targetId r) (contentHash r) (collection r) (sourceVersion r)
    (targetVersion r) (attemptCount r) (deletionAppliedAt r).

Definition find_facts `{Ledger L} (t : TenantId) (m : MappingId) (d : domain) (k : string) (l : L)
  : option CopyFacts := copy_facts <$> lg_find t m d k l.

(** An operation that only annotates rows: no row appears, disappears, or
    changes what it says of its copy. *)
Definition annotates `{Ledger L} (l l' : L) : Prop :=
  forall t m d k, find_facts t m d k l' = find_facts t m d k l.

(** Where a row says its item relocated to; a query of its own because only the
    two move operations may change it. *)
Definition find_moved `{Ledger L} (t : TenantId) (m : MappingId) (d : domain) (k : string) (l : L)
  : option (option string) := movedToNaturalKeyHash <$> lg_find t m d k l.

Definition pins `{Ledger L} (l l' : L) : Prop :=
  forall t m d k, find_moved t m d k l' = find_moved t m d k l.

(** An operation confined to one key. *)
Definition only_key `{Ledger L} (t : TenantId) (m : MappingId) (k : string) (l l' : L) : Prop :=
  forall t' m' d' k', (t', m', k') <> (t, m, k) -> lg_find t' m' d' k' l' = lg_find t' m' d' k' l.

Class LedgerLaws (L : Type) `{Ledger L} := {
  law_find_key t m d k (l : L) r : lg_find t m d k l = Some r ->
    tenantId r = t /\ mappingId r = m /\ itemType r = d /\ naturalKeyHash r = k;
  law_findBySourceRef t m d s (l : L) r : lg_findBySourceRef t m d s l = Some r ->
    lg_find t m d (naturalKeyHash r) l = Some r;
  (** [recordIfAbsent] never touches a row that is there, and answers what the
      ledger now holds. *)
  law_recordIfAbsent_keep r (l : L) x l' t m d k : lg_recordIfAbsent r l = (x, l') ->
    is_Some (lg_find t m d k l) -> lg_find t m d k l' = lg_find t m d k l;
  law_recordIfAbsent_other r (l : L) x l' : lg_recordIfAbsent r l = (x, l') ->
    only_key (tenantId r) (mappingId r) (naturalKeyHash r) l l';
  law_recordIfAbsent_ok r (l : L) x l' : lg_recordIfAbsent r l = (inr x, l') ->
    lg_find (tenantId r) (mappingId r) (itemType r) (naturalKeyHash r) l' = Some x;
  law_recordIfAbsent_new r (l : L) x l' : lg_recordIfAbsent r l = (inr x, l') ->
    lg_find (tenantId r) (mappingId r) (itemType r) (naturalKeyHash r) l = None ->
    copy_facts x = mkCopyFacts (Some (nullish (rstatus r) copied)) (targetId r) (contentHash r)
      (truthy (collection r)) (sourceVersion r) (targetVersion r) (Some 0) None /\
    movedToNaturalKeyHash x = None;
  law_recordIfAbsent_err r (l : L) e l' : lg_recordIfAbsent r l = (inl e, l') -> l' = l;
  (** [recordUpdate] never inserts. *)
  law_recordUpdate_other r (l : L) x l' : lg_recordUpdate r l = (x, l') ->
    only_key (tenantId r) (mappingId r) (naturalKeyHash r) l l';
  law_recordUpdate_ok r (l : L) x l' : lg_recordUpdate r l = (inr x, l') ->
    exists old, lg_find (tenantId r) (mappingId r) (itemType r) (naturalKeyHash r) l = Some old /\
    lg_find (tenantId r) (mappingId r) (itemType r) (naturalKeyHash r) l' = Some x /\
    copy_facts x = mkCopyFacts (Some (nullish (rstatus r) updated)) (targetId r) (contentHash r)
      (match collection r with Some c => truthy (Some c) | None => collection old end)
      (sourceVersion r)
      (match targetVersion r with Some v => Some v | None => targetVersion old end)
      (attemptCount old) (deletionAppliedAt old);
  law_recordUpdate_err r (l : L) e l' : lg_recordUpdate r l = (inl e, l') -> l' = l /\
    lg_find (tenantId r) (mappingId r) (itemType r) (naturalKeyHash r) l = None;
  law_recordUpdate_found r (l : L) :
    is_Some (lg_find (tenantId r) (mappingId r) (itemType r) (naturalKeyHash r) l) ->
    exists x l', lg_recordUpdate r l = (inr x, l');
  law_recordUpdate_dom r (l : L) x l' t m d k : lg_recordUpdate r l = (x, l') ->
    (is_Some (lg_find t m d k l') <-> is_Some (lg_find t m d k l));
  (** [recordFailure] counts. *)
  law_recordFailure_other r e (l : L) x l' : lg_recordFailure r e l = (x, l') ->
    only_key (tenantId r) (mappingId r) (naturalKeyHash r) l l';
  law_recordFailure_ok r e (l : L) x l' : lg_recordFailure r e l = (inr x, l') ->
    lg_find (tenantId r) (mappingId r) (itemType r) (naturalKeyHash r) l' = Some x /\
    rstatus x = Some failed /\ lastError x = Some e /\
    attemptCount x = Some (match lg_find (tenantId r) (mappingId r) (itemType r) (naturalKeyHash r) l with
                           | Some old => nullish (attemptCount old) 0 + 1 | None => 1 end);
  law_recordFailure_applied r e (l : L) x l' : lg_recordFailure r e l = (inr x, l') ->
    deletionAppliedAt x = lg_find (tenantId r) (mappingId r) (itemType r) (naturalKeyHash r) l
                            ≫= deletionAppliedAt;
  law_recordFailure_err r e (l : L) x l' : lg_recordFailure r e l = (inl x, l') -> l' = l;
  law_recordFailure_dom r e (l : L) x l' t m d k : lg_recordFailure r e l = (x, l') ->
    is_Some (lg_find t m d k l) -> is_Some (lg_find t m d k l');
  (** The queues only annotate. *)
  law_recordMove t m d k c o (l : L) : annotates l (lg_recordMove t m d k c o l);
  law_clearMove t m d k (l : L) : annotates l (lg_clearMove t m d k l);
  law_recordAbsent t m d k (l : L) : annotates l (snd (lg_recordAbsent t m d k l));
  law_recordReportedDeletion t m d k (l : L) : annotates l (snd (lg_recordReportedDeletion t m d k l));
  law_recordTrashedDeletion t m d k (l : L) : annotates l (snd (lg_recordTrashedDeletion t m d k l));
  law_clearAbsent t m d k (l : L) : annotates l (lg_clearAbsent t m d k l);
  law_recordAuditEvent t e (l : L) : annotates l (lg_recordAuditEvent t e l);
  (** Only the move operations touch the recorded destination, each on its key. *)
  law_recordUpdate_pins r (l : L) : pins l (snd (lg_recordUpdate r l));
  law_recordAbsent_pins t m d k (l : L) : pins l (snd (lg_recordAbsent t m d k l));
  law_recordReportedDeletion_pins t m d k (l : L) : pins l (snd (lg_recordReportedDeletion t m d k l));
  law_recordTrashedDeletion_pins t m d k (l : L) : pins l (snd (lg_recordTrashedDeletion t m d k l));
  law_clearAbsent_pins t m d k (l : L) : pins l (lg_clearAbsent t m d k l);
  law_recordMove_other t m d k c o (l : L) : only_key t m k l (lg_recordMove t m d k c o l);
  law_recordMove_to t m d k c o (l : L) r : lg_find t m d k (lg_recordMove t m d k c o l) = Some r ->
    movedToNaturalKeyHash r = truthy o;
  law_clearMove_other t m d k (l : L) : only_key t m k l (lg_clearMove t m d k l);
  law_clearMove_to t m d k (l : L) r : lg_find t m d k (lg_clearMove t m d k l) = Some r ->
    movedToNaturalKeyHash r = None;
  (** Evidence that was recorded is there. *)
  law_recordReportedDeletion_ok t m d k (l l' : L) : lg_recordReportedDeletion t m d k l = (true, l') ->
    exists r, lg_find t m d k l' = Some r /\ is_Some (deletionReportedAt r);
  law_recordTrashedDeletion_ok t m d k (l l' : L) : lg_recordTrashedDeletion t m d k l = (true, l') ->
    exists r, lg_find t m d k l' = Some r /\ is_Some (deletionTrashedAt r);
  (** [placedItems] answers rows, each once. *)
  law_placedItems t m d (l : L) p : p ∈ lg_placedItems t m d l ->
    exists r, lg_find t m d (pi_naturalKeyHash p) l = Some r /\
      pi_contentHash p = contentHash r /\ collection r = Some (pi_collection p) /\
      pi_movedToNaturalKeyHash p = movedToNaturalKeyHash r /\
      pi_deletionAppliedAt p = deletionAppliedAt r;
  law_placedItems_NoDup t m d (l : L) : NoDup (pi_naturalKeyHash <$> lg_placedItems t m d l)
}.

Lemma isOnTarget_spec s :
  isOnTarget s = true <-> s <> Some failed /\ s <> Some left_behind /\ s <> Some tombstoned.
Proof. unfold isOnTarget. repeat case_bool_decide; simpl; naive_solver. Qed.
