(* ===== verification/Ledger.v ===== *)
(** * The PostgreSQL ledger ([packages/ledger/src/ledger.ts])

    The [item] table is a finite map from its unique key (tenant, mapping,
    natural key hash) to the remaining columns; every statement of [PgLedger]
    is one atomic step on it.  [item_type], the fourth column of the table's
    constraint, is never written by the code and so always has its default: it
    does not distinguish rows.  [now()] reads the database's clock, a field of
    the state only the environment moves.  A [SELECT] without [ORDER BY]
    answers rows in an order the code cannot know: that order is a parameter.
    The file ends with the proof that this implementation meets the [Ledger]
    port's laws. *)

From S2P Require Import Prelude Ports.

Open Scope Z_scope.

(** The columns of one row of [item] that are not its key. *)
Record item_row := mk_item_row {
  row_domain : domain;
  row_collection : string;
  row_contentHash : option string;
  row_sizeBytes : option Z;
  row_targetRef : string;
  row_status : status;
  row_sourceVersion : option string;
  row_targetVersion : option string;
  row_sourceRefHref : option string;
  row_absentPasses : Z;
  row_deletionReportedAt : option instant;
  row_deletionTrashedAt : option instant;
  row_deletionAcknowledgedAt : option instant;
  row_deletionAppliedAt : option instant;
  row_movedToCollection : option string;
  row_movedToNaturalKeyHash : option string;
  row_movedRecordedAt : option instant;
  row_moveAcknowledgedAt : option instant;
  row_attemptCount : Z;
  row_lastError : option string;
  row_firstSeenAt : instant;
  row_lastSyncedAt : option instant;
  row_updatedAt : instant
}.

#[export] Instance eta_item_row : Eta item_row := fun r =>
  mk_item_row (row_domain r) (row_collection r) (row_contentHash r) (row_sizeBytes r)
    (row_targetRef r) (row_status r) (row_sourceVersion r) (row_targetVersion r)
    (row_sourceRefHref r) (row_absentPasses r) (row_deletionReportedAt r) (row_deletionTrashedAt r)
    (row_deletionAcknowledgedAt r) (row_deletionAppliedAt r) (row_movedToCollection r)
    (row_movedToNaturalKeyHash r) (row_movedRecordedAt r) (row_moveAcknowledgedAt r)
    (row_attemptCount r) (row_lastError r) (row_firstSeenAt r) (row_lastSyncedAt r)
    (row_updatedAt r).

Abbreviation item_key := (string * string * string)%type (only parsing).

(** One row of [audit_log]. *)
Record audit_row := mk_audit_row {
  au_tenantId : string;
  au_actor : string;
  au_action : string;
  au_entity : option string;
  au_detail : list (string * string);
  au_at : instant
}.

Record PgState := mkPgState {
  items : gmap item_key item_row;
  auditLog : list audit_row;
  pg_now : instant
}.

#[export] Instance eta_PgState : Eta PgState := fun s =>
  mkPgState (items s) (auditLog s) (pg_now s).

(** ** The statements *)

(** [UPDATE item SET ... WHERE tenant_id AND mapping_id AND natural_key_hash
    AND <cond> RETURNING]. *)
Definition sql_update (k : item_key) (cond : item_row -> bool) (set : item_row -> item_row)
    (s : PgState) : option item_row * PgState :=
  match items s !! k with
  | Some r => if cond r then (Some (set r), s <| items ::= <[k := set r]> |>) else (None, s)
  | None => (None, s)
  end.

(** [INSERT ... ON CONFLICT DO NOTHING RETURNING]. *)
Definition sql_insert (k : item_key) (r : item_row) (s : PgState) : option item_row * PgState :=
  match items s !! k with
  | Some _ => (None, s)
  | None => (Some r, s <| items ::= <[k := r]> |>)
  end.

(** [SELECT ... WHERE <key> AND <cond> LIMIT 1]. *)
Definition sql_select1 (k : item_key) (cond : item_row -> bool) (s : PgState) : option item_row :=
  match items s !! k with
  | Some r => if cond r then Some r else None
  | None => None
  end.

Definition same_domain (d : domain) (r : item_row) : bool := bool_decide (row_domain r = d).

Definition domain_filter (od : option domain) (r : item_row) : bool :=
  match od with Some d => same_domain d r | None => true end.

(** [mapRowToRecord] *)
Definition mapRowToRecord (k : item_key) (row : item_row) : LedgerRecord :=
  let '(t, m, nkh) := k in
  {| tenantId := t; mappingId := m; itemType := row_domain row; naturalKeyHash := nkh;
     contentHash := nullish (row_contentHash row) ""%string;
     targetId := row_targetRef row; createdAt := row_firstSeenAt row;
     sizeBytes := row_sizeBytes row; rstatus := Some (row_status row);
     collection := truthy (Some (row_collection row));
     targetVersion := row_targetVersion row;
     sourceRef := truthy (row_sourceRefHref row);
     absentPasses := Some (row_absentPasses row);
     deletionReportedAt := row_deletionReportedAt row;
     deletionTrashedAt := row_deletionTrashedAt row;
     deletionAcknowledgedAt := row_deletionAcknowledgedAt row;
     deletionAppliedAt := row_deletionAppliedAt row;
     movedToCollection := truthy (row_movedToCollection row);
     movedToNaturalKeyHash := truthy (row_movedToNaturalKeyHash row);
     movedRecordedAt := row_movedRecordedAt row;
     moveAcknowledgedAt := row_moveAcknowledgedAt row;
     attemptCount := Some (row_attemptCount row); lastError := row_lastError row;
     sourceVersion := row_sourceVersion row |}.

Arguments mapRowToRecord : simpl never.

Definition record_key (r : LedgerRecord) : item_key := (tenantId r, mappingId r, naturalKeyHash r).

(** ** The methods of [PgLedger] *)

Definition find (t m : string) (d : domain) (nkh : string) (s : PgState) : option LedgerRecord :=
  mapRowToRecord (t, m, nkh) <$> sql_select1 (t, m, nkh) (same_domain d) s.

(** The row [recordIfAbsent] inserts; columns it does not name get the
    table's defaults. *)
Definition fresh_row (r : LedgerRecord) (now : instant) : item_row :=
  {| row_domain := itemType r; row_collection := nullish (collection r) ""%string;
     row_contentHash := Some (contentHash r); row_sizeBytes := sizeBytes r;
     row_targetRef := targetId r; row_status := nullish (rstatus r) copied;
     row_sourceVersion := sourceVersion r; row_targetVersion := targetVersion r;
     row_sourceRefHref := sourceRef r; row_absentPasses := 0;
     row_deletionReportedAt := None; row_deletionTrashedAt := None;
     row_deletionAcknowledgedAt := None; row_deletionAppliedAt := None;
     row_movedToCollection := None; row_movedToNaturalKeyHash := None;
     row_movedRecordedAt := None; row_moveAcknowledgedAt := None;
     row_attemptCount := 0; row_lastError := None; row_firstSeenAt := now;
     row_lastSyncedAt := None; row_updatedAt := now |}.

Definition recordIfAbsent (r : LedgerRecord) (s : PgState) : (string + LedgerRecord) * PgState :=
  match sql_insert (record_key r) (fresh_row r (pg_now s)) s with
  | (Some row, s') => (inr (mapRowToRecord (record_key r) row), s')
  | (None, s') =>
      match find (tenantId r) (mappingId r) (itemType r) (naturalKeyHash r) s' with
      | None => (inl ("Failed to insert or find record with naturalKeyHash: " ++ naturalKeyHash r)%string, s')
      | Some existing => (inr existing, s')
      end
  end.

(** The [SET] of [recordUpdate]. *)
Definition update_set (r : LedgerRecord) (now : instant) (row : item_row) : item_row :=
  row <| row_contentHash := Some (contentHash r) |>
      <| row_sizeBytes := sizeBytes r |>
      <| row_status := nullish (rstatus r) updated |>
      <| row_targetRef := targetId r |>
      <| row_sourceVersion := sourceVersion r |>
      <| row_targetVersion ::= fun old => if defined (targetVersion r) then targetVersion r else old |>
      <| row_collection ::= fun old => match collection r with Some c => c | None => old end |>
      <| row_sourceRefHref ::= fun old => if defined (sourceRef r) then sourceRef r else old |>
      <| row_lastSyncedAt := Some now |>
      <| row_updatedAt := now |>.

Definition recordUpdate (r : LedgerRecord) (s : PgState) : (string + LedgerRecord) * PgState :=
  match sql_update (record_key r) (same_domain (itemType r)) (update_set r (pg_now s)) s with
  | (None, s') => (inl ("recordUpdate found no row for naturalKeyHash " ++ naturalKeyHash r)%string, s')
  | (Some row, s') => (inr (mapRowToRecord (record_key r) row), s')
  end.

(** [bump] inside [recordFailure]. *)
Definition bump (r : LedgerRecord) (error : string) (s : PgState) : option item_row * PgState :=
  sql_update (record_key r) (same_domain (itemType r))
    (fun row => row <| row_status := failed |>
                    <| row_attemptCount ::= Z.add 1 |>
                    <| row_lastError := Some error |>
                    <| row_updatedAt := pg_now s |>) s.

Definition failure_row (r : LedgerRecord) (error : string) (now : instant) : item_row :=
  (fresh_row r now) <| row_status := failed |> <| row_targetVersion := None |>
    <| row_sourceRefHref := None |> <| row_attemptCount := 1 |> <| row_lastError := Some error |>.

Definition recordFailure (r : LedgerRecord) (error : string) (s : PgState)
    : (string + LedgerRecord) * PgState :=
  match bump r error s with
  | (Some row, s1) => (inr (mapRowToRecord (record_key r) row), s1)
  | (None, s1) =>
      match sql_insert (record_key r) (failure_row r error (pg_now s1)) s1 with
      | (Some row, s2) => (inr (mapRowToRecord (record_key r) row), s2)
      | (None, s2) =>
          match bump r error s2 with
          | (Some row, s3) => (inr (mapRowToRecord (record_key r) row), s3)
          | (None, s3) =>
              (inl ("recordFailure could neither insert nor update the row for naturalKeyHash "
                    ++ naturalKeyHash r)%string, s3)
          end
      end
  end.

Definition resolveFailure (t m nkh : string) (action : FailureAction) (s : PgState) : bool * PgState :=
  let '(r, s') := sql_update (t, m, nkh) (fun row => bool_decide (row_status row = failed))
    (fun row => match action with
                | accept => row <| row_status := left_behind |> <| row_updatedAt := pg_now s |>
                | retry => row <| row_attemptCount := 0 |> <| row_updatedAt := pg_now s |>
                end) s in
  (defined r, s').

Definition recordAuditEvent (t : string) (e : AuditEvent) (s : PgState) : PgState :=
  s <| auditLog ::= fun l => l ++
    [mk_audit_row t (ae_actor e) (ae_action e) (truthy (ae_entity e)) (ae_detail e) (pg_now s)] |>.

Definition audit_matches (t actor action : string) (a : audit_row) : bool :=
  String.eqb (au_tenantId a) t && String.eqb (au_actor a) actor && String.eqb (au_action a) action.

Definition countAuditEvents (t actor action : string) (since : instant) (m : option string)
    (s : PgState) : Z :=
  Z.of_nat (length (base.filter (fun a => Is_true
    (audit_matches t actor action a && (since <=? au_at a) &&
     match truthy m with
     | Some m => bool_decide (js_map_get "mappingId"%string (au_detail a) = Some m)
     | None => true
     end)) (auditLog s))).

Definition latestAuditEventAt (t actor action : string) (s : PgState) : option instant :=
  foldr (fun a acc => match acc with Some x => Some (Z.max (au_at a) x) | None => Some (au_at a) end)
    None (base.filter (fun a => Is_true (audit_matches t actor action a)) (auditLog s)).

(** [IS DISTINCT FROM]: inequality in which NULL equals NULL. *)
Definition distinct_from (a b : option string) : bool := negb (bool_decide (a = b)).

Definition move_changes (c : string) (toKey : option string) (row : item_row) : bool :=
  distinct_from (row_movedToCollection row) (Some c)
  || distinct_from (row_movedToNaturalKeyHash row) toKey.

Definition recordMove (t m : string) (d : domain) (nkh c : string) (toKey : option string)
    (s : PgState) : PgState :=
  snd (sql_update (t, m, nkh) (same_domain d)
    (fun row =>
       row <| row_movedToCollection := Some c |>
           <| row_movedToNaturalKeyHash := toKey |>
           <| row_moveAcknowledgedAt := if move_changes c toKey row then None
                                        else row_moveAcknowledgedAt row |>
           <| row_movedRecordedAt := if move_changes c toKey row then Some (pg_now s)
                                     else Some (nullish (row_movedRecordedAt row) (pg_now s)) |>
           <| row_updatedAt := pg_now s |>) s).

Definition clearMove (t m : string) (d : domain) (nkh : string) (s : PgState) : PgState :=
  snd (sql_update (t, m, nkh) (same_domain d)
    (fun row =>
       row <| row_movedToCollection := None |>
           <| row_movedToNaturalKeyHash := None |>
           <| row_movedRecordedAt := None |>
           <| row_moveAcknowledgedAt := None |>
           <| row_updatedAt := pg_now s |>) s).

Definition resolveMove (t m nkh : string) (action : MoveAction) (s : PgState) : bool * PgState :=
  let '(r, s') := sql_update (t, m, nkh)
    (fun row => defined (row_movedToCollection row) && negb (defined (row_moveAcknowledgedAt row)))
    (fun row => row <| row_moveAcknowledgedAt := Some (pg_now s) |>
                    <| row_updatedAt := pg_now s |>) s in
  (defined r, s').

Definition recordAbsent (t m : string) (d : domain) (nkh : string) (s : PgState) : Z * PgState :=
  let '(r, s') := sql_update (t, m, nkh) (same_domain d)
    (fun row => row <| row_absentPasses ::= Z.add 1 |> <| row_updatedAt := pg_now s |>) s in
  (nullish (row_absentPasses <$> r) 0, s').

Definition recordReportedDeletion (t m : string) (d : domain) (nkh : string) (s : PgState)
    : bool * PgState :=
  let '(r, s') := sql_update (t, m, nkh)
    (fun row => same_domain d row && negb (defined (row_deletionReportedAt row)))
    (fun row => row <| row_deletionReportedAt := Some (pg_now s) |>
                    <| row_updatedAt := pg_now s |>) s in
  if defined r then (true, s')
  else (defined (sql_select1 (t, m, nkh) (same_domain d) s'), s').

Definition recordTrashedDeletion (t m : string) (d : domain) (nkh : string) (s : PgState)
    : bool * PgState :=
  let '(r, s') := sql_update (t, m, nkh)
    (fun row => same_domain d row && negb (defined (row_deletionTrashedAt row)))
    (fun row => row <| row_deletionTrashedAt := Some (pg_now s) |>
                    <| row_updatedAt := pg_now s |>) s in
  if defined r then (true, s')
  else (defined (sql_select1 (t, m, nkh) (same_domain d) s'), s').

Definition clearAbsent (t m : string) (d : domain) (nkh : string) (s : PgState) : PgState :=
  snd (sql_update (t, m, nkh)
    (fun row => same_domain d row &&
      ((0 <? row_absentPasses row) || defined (row_deletionReportedAt row)
       || defined (row_deletionTrashedAt row) || defined (row_deletionAcknowledgedAt row)))
    (fun row =>
       row <| row_absentPasses := 0 |>
           <| row_deletionReportedAt := None |>
           <| row_deletionTrashedAt := None |>
           <| row_deletionAcknowledgedAt := None |>
           <| row_updatedAt := pg_now s |>) s).

Definition resolveDeletion (t m nkh : string) (action : DeletionAction) (s : PgState) : bool * PgState :=
  match action with
  | del_apply => (false, s)
  | del_keep =>
      let '(r, s') := sql_update (t, m, nkh)
        (fun row => ((DELETION_CONFIRMATIONS <=? row_absentPasses row)
                     || defined (row_deletionReportedAt row) || defined (row_deletionTrashedAt row))
                    && negb (defined (row_deletionAcknowledgedAt row)))
        (fun row => row <| row_deletionAcknowledgedAt := Some (pg_now s) |>
                        <| row_updatedAt := pg_now s |>) s in
      (defined r, s')
  end.

(** [status = 'copied' OR status = 'updated'] *)
Definition written_by_us (row : item_row) : bool :=
  bool_decide (row_status row = copied) || bool_decide (row_status row = updated).

Definition applyDeletion (t m : string) (d : domain) (nkh : string) (s : PgState) : bool * PgState :=
  let '(r, s') := sql_update (t, m, nkh)
    (fun row => same_domain d row
      && (defined (row_deletionReportedAt row) || defined (row_deletionTrashedAt row))
      && negb (defined (row_deletionAppliedAt row)) && written_by_us row)
    (fun row =>
       row <| row_status := tombstoned |>
           <| row_deletionAppliedAt := Some (pg_now s) |>
           <| row_deletionAcknowledgedAt := Some (pg_now s) |>
           <| row_updatedAt := pg_now s |>) s in
  (defined r, s').

(** The [EXISTS (SELECT 1 FROM item AS arrival ...)] of [applyRelocation]:
    only the arrival's own row can satisfy it. *)
Definition arrival_exists (t m : string) (d : domain) (nkh : string) (row : item_row) (s : PgState)
    : bool :=
  match row_movedToNaturalKeyHash row with
  | None => false
  | Some toKey =>
      match items s !! (t, m, toKey) with
      | None => false
      | Some arrival =>
          same_domain d arrival && negb (String.eqb toKey nkh) && written_by_us arrival &&
          match row_contentHash arrival with
          | Some h => negb (String.eqb h "") && bool_decide (row_contentHash row = Some h)
          | None => false
          end
      end
  end.

Definition applyRelocation (t m : string) (d : domain) (nkh : string) (s : PgState) : bool * PgState :=
  let '(r, s') := sql_update (t, m, nkh)
    (fun row => same_domain d row && defined (row_movedToNaturalKeyHash row)
      && negb (defined (row_deletionAppliedAt row)) && negb (defined (row_moveAcknowledgedAt row))
      && written_by_us row && arrival_exists t m d nkh row s)
    (fun row =>
       row <| row_status := tombstoned |>
           <| row_deletionAppliedAt := Some (pg_now s) |>
           <| row_moveAcknowledgedAt := Some (pg_now s) |>
           <| row_deletionAcknowledgedAt :=
                if defined (row_deletionReportedAt row) || defined (row_deletionTrashedAt row)
                   || (0 <? row_absentPasses row)
                then Some (pg_now s) else row_deletionAcknowledgedAt row |>
           <| row_updatedAt := pg_now s |>) s in
  (defined r, s').

(** ** Queries over several rows *)
Section scans.
(** The order in which the database answers rows no [ORDER BY] sorts. *)
Context (scan : gmap item_key item_row -> list (item_key * item_row)).

(** [SELECT ... WHERE tenant_id = t AND mapping_id = m AND <cond>] *)
Definition select_rows (t m : string) (cond : item_row -> bool) (s : PgState)
    : list (item_key * item_row) :=
  base.filter (fun kr => Is_true (String.eqb kr.1.1.1 t && String.eqb kr.1.1.2 m && cond kr.2))
    (scan (items s)).

Definition findBySourceRef (t m : string) (d : domain) (sourceRef : string) (s : PgState)
    : option LedgerRecord :=
  if String.eqb sourceRef "" then None
  else
    match select_rows t m (fun row => same_domain d row
            && bool_decide (row_sourceRefHref row = Some sourceRef)) s with
    | (k, row) :: _ => Some (mapRowToRecord k row)
    | [] => None
    end.

Definition placed_row (k : item_key) (row : item_row) : PlacedItem :=
  {| pi_naturalKeyHash := k.2;
     pi_contentHash := nullish (row_contentHash row) ""%string;
     pi_collection := row_collection row;
     pi_movedToCollection := truthy (row_movedToCollection row);
     pi_movedToNaturalKeyHash := truthy (row_movedToNaturalKeyHash row);
     pi_moveAcknowledgedAt := row_moveAcknowledgedAt row;
     pi_absentPasses := row_absentPasses row;
     pi_deletionAcknowledgedAt := row_deletionAcknowledgedAt row;
     pi_deletionAppliedAt := row_deletionAppliedAt row |}.

Definition is_placed (d : domain) (row : item_row) : bool :=
  same_domain d row && negb (bool_decide (row_status row = failed))
  && negb (bool_decide (row_status row = left_behind))
  && negb (String.eqb (row_collection row) "").

Definition placedItems (t m : string) (d : domain) (s : PgState) : list PlacedItem :=
  (fun kr => placed_row kr.1 kr.2) <$> select_rows t m (is_placed d) s.

(** Lexicographic orders for [ORDER BY]. *)
Definition nulls_first (a b : option Z) : comparison :=
  match a, b with
  | None, None => Eq | None, Some _ => Lt | Some _, None => Gt | Some x, Some y => Z.compare x y
  end.

Definition desc_nulls_last (a b : option Z) : comparison :=
  match a, b with
  | None, None => Eq | None, Some _ => Gt | Some _, None => Lt | Some x, Some y => Z.compare y x
  end.

Definition row_le_failures (a b : item_key * item_row) : Prop :=
  not_after (Z.compare (row_updatedAt b.2) (row_updatedAt a.2)).

Definition row_le_moves (a b : item_key * item_row) : Prop :=
  not_after (then_by (nulls_first (row_moveAcknowledgedAt a.2) (row_moveAcknowledgedAt b.2))
                     (string_compare a.1.2 b.1.2)).

Definition row_le_deletions (a b : item_key * item_row) : Prop :=
  not_after
    (then_by (nulls_first (row_deletionAcknowledgedAt a.2) (row_deletionAcknowledgedAt b.2))
    (then_by (desc_nulls_last (row_deletionReportedAt a.2) (row_deletionReportedAt b.2))
    (then_by (desc_nulls_last (row_deletionTrashedAt a.2) (row_deletionTrashedAt b.2))
    (then_by (Z.compare (row_absentPasses b.2) (row_absentPasses a.2))
             (string_compare a.1.2 b.1.2))))).

#[export] Instance row_le_failures_dec : RelDecision row_le_failures.
Proof. intros a b. unfold row_le_failures. apply _. Defined.
#[export] Instance row_le_moves_dec : RelDecision row_le_moves.
Proof. intros a b. unfold row_le_moves. apply _. Defined.
#[export] Instance row_le_deletions_dec : RelDecision row_le_deletions.
Proof. intros a b. unfold row_le_deletions. apply _. Defined.

Definition listFailures (t m : string) (od : option domain) (s : PgState) : list ItemFailure :=
  (fun kr : item_key * item_row =>
     {| if_domain := row_domain kr.2; if_naturalKeyHash := kr.1.2;
        if_collection := truthy (Some (row_collection kr.2));
        if_attempts := row_attemptCount kr.2;
        if_lastError := nullish (row_lastError kr.2) "(no error recorded)"%string;
        if_lastAttemptAt := Some (row_updatedAt kr.2);
        if_needsDecision := MAX_ITEM_ATTEMPTS <=? row_attemptCount kr.2 |})
  <$> merge_sort row_le_failures
        (select_rows t m (fun row => bool_decide (row_status row = failed)
                                     && domain_filter od row) s).

Definition listMoves (t m : string) (od : option domain) (s : PgState) : list ItemMove :=
  (fun kr : item_key * item_row =>
     {| im_domain := row_domain kr.2; im_naturalKeyHash := kr.1.2;
        im_from := row_collection kr.2;
        im_to := nullish (row_movedToCollection kr.2) ""%string;
        im_toNaturalKeyHash := truthy (row_movedToNaturalKeyHash kr.2);
        im_recordedAt := row_movedRecordedAt kr.2;
        im_acknowledgedAt := row_moveAcknowledgedAt kr.2 |})
  <$> merge_sort row_le_moves
        (select_rows t m (fun row => defined (row_movedToCollection row)
                                     && domain_filter od row) s).

Definition has_evidence (row : item_row) : bool :=
  (0 <? row_absentPasses row) || defined (row_deletionReportedAt row)
  || defined (row_deletionTrashedAt row).

Definition deletion_entry (k : item_key) (row : item_row) : ItemDeletion :=
  {| id_domain := row_domain row; id_naturalKeyHash := k.2;
     id_collection := row_collection row; id_absentPasses := row_absentPasses row;
     id_confirmed := defined (row_deletionReportedAt row) || defined (row_deletionTrashedAt row)
                     || (DELETION_CONFIRMATIONS <=? row_absentPasses row);
     id_evidence := if defined (row_deletionReportedAt row) then reported
                    else if defined (row_deletionTrashedAt row) then trashed else inferred;
     id_reportedAt := row_deletionReportedAt row;
     id_trashedAt := row_deletionTrashedAt row;
     id_acknowledgedAt := row_deletionAcknowledgedAt row |}.

Definition listDeletions (t m : string) (od : option domain) (s : PgState) : list ItemDeletion :=
  (fun kr : item_key * item_row => deletion_entry kr.1 kr.2)
  <$> merge_sort row_le_deletions
        (select_rows t m (fun row => has_evidence row && domain_filter od row) s).

(** ** The port *)
#[export] Instance pg_ledger : Ledger PgState := {
  lg_find := find;
  lg_findBySourceRef := findBySourceRef;
  lg_recordIfAbsent := recordIfAbsent;
  lg_recordUpdate := recordUpdate;
  lg_recordFailure := recordFailure;
  lg_placedItems := placedItems;
  lg_recordMove := recordMove;
  lg_clearMove := clearMove;
  lg_listMoves := listMoves;
  lg_recordAbsent := recordAbsent;
  lg_recordReportedDeletion := recordReportedDeletion;
  lg_recordTrashedDeletion := recordTrashedDeletion;
  lg_clearAbsent := clearAbsent;
  lg_listDeletions := listDeletions;
  lg_applyDeletion := applyDeletion;
  lg_applyRelocation := applyRelocation;
  lg_recordAuditEvent := recordAuditEvent
}.
End scans.

(** ** What the table holds over time

    The statements any number of processes may issue, in any order, with the
    database's clock moving between them, while the mappings in [spared] are
    not deleted and their tenants not erased.  Callers never insert or write a
    row as failed or tombstoned: [recordFailure] and the two applies own those. *)
Definition writes_status (r : LedgerRecord) : Prop :=
  rstatus r <> Some failed /\ rstatus r <> Some tombstoned.

(** Deleting a mapping takes its items along. *)
Definition delete_mapping (t m : string) (s : PgState) : PgState :=
  s <| items ::= base.filter (fun kr : item_key * item_row => kr.1.1 <> (t, m)) |>.

(** The erasure of a tenant, table by table. *)
Definition erase_items (t : string) (s : PgState) : PgState :=
  s <| items ::= base.filter (fun kr : item_key * item_row => kr.1.1.1 <> t) |>.

Definition erase_audit (t : string) (s : PgState) : PgState :=
  s <| auditLog ::= base.filter (fun a => au_tenantId a <> t) |>.

Inductive pg_step (spared : string -> string -> Prop) : PgState -> PgState -> Prop :=
| step_tick now s : pg_now s <= now -> pg_step spared s (s <| pg_now := now |>)
| step_recordIfAbsent r s : writes_status r -> pg_step spared s (snd (recordIfAbsent r s))
| step_recordUpdate r s : writes_status r -> pg_step spared s (snd (recordUpdate r s))
| step_recordFailure r e s : pg_step spared s (snd (recordFailure r e s))
| step_resolveFailure t m k a s : pg_step spared s (snd (resolveFailure t m k a s))
| step_recordAuditEvent t e s : pg_step spared s (recordAuditEvent t e s)
| step_recordMove t m d k c o s : pg_step spared s (recordMove t m d k c o s)
| step_clearMove t m d k s : pg_step spared s (clearMove t m d k s)
| step_resolveMove t m k a s : pg_step spared s (snd (resolveMove t m k a s))
| step_recordAbsent t m d k s : pg_step spared s (snd (recordAbsent t m d k s))
| step_recordReportedDeletion t m d k s : pg_step spared s (snd (recordReportedDeletion t m d k s))
| step_recordTrashedDeletion t m d k s : pg_step spared s (snd (recordTrashedDeletion t m d k s))
| step_clearAbsent t m d k s : pg_step spared s (clearAbsent t m d k s)
| step_resolveDeletion t m k a s : pg_step spared s (snd (resolveDeletion t m k a s))
| step_applyDeletion t m d k s : pg_step spared s (snd (applyDeletion t m d k s))
| step_applyRelocation t m d k s : pg_step spared s (snd (applyRelocation t m d k s))
| step_mappingDeleted t m s : ~ spared t m -> pg_step spared s (delete_mapping t m s)
| step_itemsErased t s : (forall m, ~ spared t m) -> pg_step spared s (erase_items t s)
| step_auditErased t s : (forall m, ~ spared t m) -> pg_step spared s (erase_audit t s).

Definition not_later (now : instant) (o : option instant) : Prop :=
  match o with Some x => x <= now | None => True end.

Record row_wf (now : instant) (row : item_row) : Prop := {
  wf_absent : 0 <= row_absentPasses row;
  wf_attempts : 0 <= row_attemptCount row;
  wf_tombstone : row_status row = tombstoned -> is_Some (row_deletionAppliedAt row);
  wf_failed : row_status row = failed -> is_Some (row_lastError row);
  wf_relocated : is_Some (row_movedToNaturalKeyHash row) -> is_Some (row_movedToCollection row);
  wf_moved : is_Some (row_movedRecordedAt row) <-> is_Some (row_movedToCollection row);
  wf_moveAck : is_Some (row_moveAcknowledgedAt row) -> is_Some (row_movedToCollection row);
  wf_updated : row_firstSeenAt row <= row_updatedAt row <= now;
  wf_reported : not_later now (row_deletionReportedAt row);
  wf_trashed : not_later now (row_deletionTrashedAt row);
  wf_acked : not_later now (row_deletionAcknowledgedAt row);
  wf_applied : not_later now (row_deletionAppliedAt row);
  wf_recorded : not_later now (row_movedRecordedAt row);
  wf_moveAcked : not_later now (row_moveAcknowledgedAt row)
}.

Definition ledger_wf (s : PgState) : Prop :=
  forall k row, items s !! k = Some row -> row_wf (pg_now s) row.

Definition audit_of (t : string) (s : PgState) : list audit_row :=
  base.filter (fun a => au_tenantId a = t) (auditLog s).

(** What no sequence of statements takes back from a mapping that is spared:
    its rows stay, keep their domain and the date they were first seen; the
    audit log of its tenant only grows. *)
Definition ledger_extends (spared : string -> string -> Prop) (s s' : PgState) : Prop :=
  pg_now s <= pg_now s' /\
  (forall t m, spared t m -> exists l, audit_of t s' = audit_of t s ++ l) /\
  forall k row, spared k.1.1 k.1.2 -> items s !! k = Some row -> exists row', items s' !! k = Some row' /\
    row_domain row' = row_domain row /\ row_firstSeenAt row' = row_firstSeenAt row.

(** A copy of the bytes [h] that this migration wrote and did not remove. *)
Definition has_copy (t m : string) (d : domain) (h : string) (s : PgState) : Prop :=
  exists k row, items s !! (t, m, k) = Some row /\ row_domain row = d /\
    written_by_us row = true /\ row_contentHash row = Some h.

(** ** How the statements act *)

Lemma sql_update_spec k cond set s o s' :
  sql_update k cond set s = (o, s') ->
  (o = None /\ s' = s /\ forall r, items s !! k = Some r -> cond r = false) \/
  (exists r, items s !! k = Some r /\ cond r = true /\ o = Some (set r) /\
             s' = s <| items ::= <[k := set r]> |>).
Proof.
  unfold sql_update. intros H. repeat case_match; simplify_eq; naive_solver.
Qed.

Lemma sql_insert_spec k r s o s' :
  sql_insert k r s = (o, s') ->
  (o = None /\ s' = s /\ is_Some (items s !! k)) \/
  (o = Some r /\ items s !! k = None /\ s' = s <| items ::= <[k := r]> |>).
Proof. unfold sql_insert. intros H. case_match; simplify_eq; naive_solver. Qed.

Lemma same_domain_true d r : same_domain d r = true <-> row_domain r = d.
Proof. unfold same_domain. apply bool_decide_eq_true. Qed.

Lemma find_Some t m d k s rec :
  find t m d k s = Some rec <->
  exists row, items s !! (t, m, k) = Some row /\ row_domain row = d /\
              rec = mapRowToRecord (t, m, k) row.
Proof.
  unfold find, sql_select1. destruct (items s !! (t, m, k)) as [row|]; simpl;
    [|split; [done|by intros (? & ? & _)]].
  destruct (same_domain d row) eqn:Hd.
  - apply same_domain_true in Hd. simpl. split; [intros [= <-]; eauto|].
    by intros (row' & [= <-] & _ & ->).
  - split; [done|]. intros (row' & [= <-] & Hd' & _). apply same_domain_true in Hd'. congruence.
Qed.

Lemma find_is_Some t m d k s :
  is_Some (find t m d k s) <-> exists row, items s !! (t, m, k) = Some row /\ row_domain row = d.
Proof. unfold is_Some. setoid_rewrite find_Some. naive_solver. Qed.

(** [find] only reads the row of its key. *)
Lemma find_lookup t m d k s s' :
  items s' !! (t, m, k) = items s !! (t, m, k) -> find t m d k s' = find t m d k s.
Proof. unfold find, sql_select1. by intros ->. Qed.

Lemma find_insert_eq t m d k row s :
  row_domain row = d ->
  find t m d k (s <| items ::= <[(t, m, k) := row]> |>) = Some (mapRowToRecord (t, m, k) row).
Proof. intros <-. apply find_Some. exists row. simpl. by rewrite lookup_insert_eq. Qed.

Lemma find_insert_ne t m d k k' row s :
  k' <> (t, m, k) -> find t m d k (s <| items ::= <[k' := row]> |>) = find t m d k s.
Proof. intros Hne. apply find_lookup. simpl. by rewrite lookup_insert_ne. Qed.

(** An update that leaves the columns describing the copy alone annotates. *)
Definition keeps_copy (set : item_row -> item_row) : Prop :=
  forall row k, row_domain (set row) = row_domain row /\
    copy_facts (mapRowToRecord k (set row)) = copy_facts (mapRowToRecord k row).

Lemma sql_update_keeps k cond set s t m d nkh :
  keeps_copy set ->
  copy_facts <$> find t m d nkh (snd (sql_update k cond set s)) = copy_facts <$> find t m d nkh s.
Proof.
  intros Hkeep. destruct (sql_update k cond set s) as [o s'] eqn:Hu. simpl.
  destruct (sql_update_spec _ _ _ _ _ _ Hu) as [(_ & -> & _)|(r & Hr & _ & _ & ->)]; [done|].
  destruct (decide (k = (t, m, nkh))) as [->|Hne]; [|by rewrite find_insert_ne].
  destruct (Hkeep r (t, m, nkh)) as [Hd Hf].
  unfold find, sql_select1. simpl. rewrite lookup_insert_eq, Hr. unfold same_domain. rewrite Hd.
  case_bool_decide; simpl; [by rewrite Hf|done].
Qed.

Lemma sql_update_only k cond set s k' :
  k' <> k -> items (snd (sql_update k cond set s)) !! k' = items s !! k'.
Proof.
  intros Hne. destruct (sql_update k cond set s) as [o s'] eqn:Hu.
  destruct (sql_update_spec _ _ _ _ _ _ Hu) as [(_ & -> & _)|(r & _ & _ & _ & ->)]; [done|].
  simpl. by rewrite lookup_insert_ne.
Qed.

Ltac solve_keeps := let row := fresh in let t := fresh in let m := fresh in let k := fresh in
  intros row [[t m] k]; split; reflexivity.

Section laws.
Context (scan : gmap item_key item_row -> list (item_key * item_row))
        (scan_perm : forall mm, scan mm ≡ₚ map_to_list mm).

#[local] Instance port : Ledger PgState := pg_ledger scan.

Lemma elem_of_select_rows t m cond s k row :
  (k, row) ∈ select_rows scan t m cond s <->
  items s !! k = Some row /\ k.1 = (t, m) /\ cond row = true.
Proof.
  unfold select_rows. rewrite list_elem_of_filter. simpl.
  rewrite scan_perm, elem_of_map_to_list. rewrite Is_true_true, !andb_true_iff, !String.eqb_eq.
  destruct k as [[t' m'] k']; simpl. naive_solver.
Qed.

Lemma findBySourceRef_sound t m d ref s rec :
  findBySourceRef scan t m d ref s = Some rec ->
  ref <> ""%string /\ sourceRef rec = Some ref /\ find t m d (naturalKeyHash rec) s = Some rec.
Proof.
  unfold findBySourceRef. destruct (String.eqb ref "") eqn:He; [done|].
  apply String.eqb_neq in He.
  destruct (select_rows _ _ _ _ _) as [|[k row] l] eqn:Hl; [done|]. intros [= <-].
  assert (Hin : (k, row) ∈ select_rows scan t m (fun row => same_domain d row
            && bool_decide (row_sourceRefHref row = Some ref)) s) by (rewrite Hl; left).
  apply elem_of_select_rows in Hin as (Hrow & Hk & Hc).
  apply andb_true_iff in Hc as [Hd Hs%bool_decide_eq_true]. apply same_domain_true in Hd.
  destruct k as [[t' m'] k']. simplify_eq/=. rewrite Hs. split_and!; [done| |].
  - by apply truthy_Some.
  - apply find_Some. by exists row.
Qed.

Lemma recordIfAbsent_cases r s x s' :
  recordIfAbsent r s = (x, s') ->
  let k := record_key r in
  (exists row, items s !! k = Some row /\ s' = s /\
     x = if same_domain (itemType r) row then inr (mapRowToRecord k row)
         else inl ("Failed to insert or find record with naturalKeyHash: " ++ naturalKeyHash r)%string) \/
  (items s !! k = None /\ s' = s <| items ::= <[k := fresh_row r (pg_now s)]> |> /\
   x = inr (mapRowToRecord k (fresh_row r (pg_now s)))).
Proof.
  unfold recordIfAbsent, record_key, find, sql_select1. simpl. intros H.
  destruct (sql_insert _ _ _) as [o s1] eqn:Hi.
  apply sql_insert_spec in Hi as [(-> & -> & [row Hrow])|(-> & Hn & ->)].
  - left. exists row. rewrite Hrow in H. repeat case_match; by simplify_eq/=.
  - right. by simplify_eq/=.
Qed.

Lemma recordUpdate_cases r s x s' :
  recordUpdate r s = (x, s') ->
  let k := record_key r in
  ((forall row, items s !! k = Some row -> row_domain row <> itemType r) /\ s' = s /\
   x = inl ("recordUpdate found no row for naturalKeyHash " ++ naturalKeyHash r)%string) \/
  (exists row, items s !! k = Some row /\ row_domain row = itemType r /\
     s' = s <| items ::= <[k := update_set r (pg_now s) row]> |> /\
     x = inr (mapRowToRecord k (update_set r (pg_now s) row))).
Proof.
  unfold recordUpdate. simpl. intros H. destruct (sql_update _ _ _ _) as [o s1] eqn:Hu.
  apply sql_update_spec in Hu as [(-> & -> & Hno)|(row & Hrow & Hc & -> & ->)]; simplify_eq/=.
  - left. split_and!; [|done..]. intros row Hrow Hd%same_domain_true. rewrite Hno in Hd; done.
  - right. exists row. apply same_domain_true in Hc. done.
Qed.

(** What [bump] does to the row. *)
Definition bumped (error : string) (now : instant) (row : item_row) : item_row :=
  row <| row_status := failed |> <| row_attemptCount ::= Z.add 1 |>
      <| row_lastError := Some error |> <| row_updatedAt := now |>.

Lemma recordFailure_cases r e s x s' :
  recordFailure r e s = (x, s') ->
  let k := record_key r in
  (exists row, items s !! k = Some row /\ row_domain row = itemType r /\
     s' = s <| items ::= <[k := bumped e (pg_now s) row]> |> /\
     x = inr (mapRowToRecord k (bumped e (pg_now s) row))) \/
  (items s !! k = None /\ s' = s <| items ::= <[k := failure_row r e (pg_now s)]> |> /\
     x = inr (mapRowToRecord k (failure_row r e (pg_now s)))) \/
  (exists row, items s !! k = Some row /\ row_domain row <> itemType r /\ s' = s /\
     x = inl ("recordFailure could neither insert nor update the row for naturalKeyHash "
              ++ naturalKeyHash r)%string).
Proof.
  unfold recordFailure, bump, sql_update, sql_insert. simpl. intros H.
  destruct (items s !! record_key r) as [row|] eqn:Hrow; simpl in H.
  - destruct (same_domain (itemType r) row) eqn:Hd; simpl in H; rewrite ?Hrow in H; simpl in H;
      rewrite ?Hd in H; simplify_eq/=.
    + left. exists row. by apply same_domain_true in Hd.
    + right; right. exists row. split_and!; [done| |done..].
      intros Hd'%same_domain_true. congruence.
  - right; left. rewrite Hrow in H. by simplify_eq/=.
Qed.

Lemma find_key t m d k s r :
  find t m d k s = Some r ->
  tenantId r = t /\ mappingId r = m /\ itemType r = d /\ naturalKeyHash r = k.
Proof. intros (row & _ & <- & ->)%find_Some. done. Qed.

Lemma find_insert_dom t m d k k' row s :
  (forall old, items s !! k' = Some old -> row_domain row = row_domain old) ->
  is_Some (items s !! k') ->
  is_Some (find t m d k (s <| items ::= <[k' := row]> |>)) <-> is_Some (find t m d k s).
Proof.
  intros Hd [old Hold]. specialize (Hd old Hold). rewrite !find_is_Some. simpl.
  destruct (decide (k' = (t, m, k))) as [->|Hne].
  - rewrite lookup_insert_eq, Hold. naive_solver congruence.
  - by rewrite lookup_insert_ne.
Qed.

(** The parts of the laws that only concern one operation. *)
Lemma keeps_annotates k cond set s :
  keeps_copy set -> annotates s (snd (sql_update k cond set s)).
Proof. intros Hk t m d nkh. by apply sql_update_keeps. Qed.

Definition keeps_moved (set : item_row -> item_row) : Prop :=
  forall row, row_domain (set row) = row_domain row /\
    row_movedToNaturalKeyHash (set row) = row_movedToNaturalKeyHash row.

Lemma keeps_pins k cond set s : keeps_moved set -> pins s (snd (sql_update k cond set s)).
Proof.
  intros Hk t m d nkh. unfold find_moved. simpl.
  destruct (sql_update k cond set s) as [o s'] eqn:Hu. simpl.
  destruct (sql_update_spec _ _ _ _ _ _ Hu) as [(_ & -> & _)|(r & Hr & _ & _ & ->)]; [done|].
  destruct (decide (k = (t, m, nkh))) as [->|Hne]; [|by rewrite find_insert_ne].
  destruct (Hk r) as [Hd Hm]. unfold find, sql_select1. simpl.
  rewrite lookup_insert_eq, Hr. unfold same_domain. rewrite Hd.
  case_bool_decide; simpl; [|done]. unfold mapRowToRecord. simpl. by rewrite Hm.
Qed.

Lemma update_only_key t m k cond set s : only_key t m k s (snd (sql_update (t, m, k) cond set s)).
Proof.
  intros t' m' d' k' Hne. apply find_lookup, sql_update_only. congruence.
Qed.

Lemma snd_sql {A} k cond set s (f : option item_row -> A) :
  snd (let '(r, s') := sql_update k cond set s in (f r, s')) = snd (sql_update k cond set s).
Proof. by destruct (sql_update k cond set s). Qed.

Lemma snd_evidence k cond set (g : PgState -> bool) s :
  snd (let '(r, s1) := sql_update k cond set s in if defined r then (true, s1) else (g s1, s1))
  = snd (sql_update k cond set s).
Proof. destruct (sql_update k cond set s) as [o s1]. by destruct (defined o). Qed.

Lemma recordIfAbsent_new r s x s' :
  recordIfAbsent r s = (inr x, s') ->
  find (tenantId r) (mappingId r) (itemType r) (naturalKeyHash r) s = None ->
  copy_facts x = mkCopyFacts (Some (nullish (rstatus r) copied)) (targetId r) (contentHash r)
    (truthy (collection r)) (sourceVersion r) (targetVersion r) (Some 0) None /\
  movedToNaturalKeyHash x = None.
Proof.
  intros H Hnone. apply recordIfAbsent_cases in H as [(row & Hrow & -> & Hx)|(Hn & -> & [= ->])].
  - destruct (same_domain _ row) eqn:Hd; simplify_eq. apply same_domain_true in Hd.
    rewrite (proj2 (find_Some _ _ _ _ _ (mapRowToRecord (record_key r) row))) in Hnone; [done|].
    by exists row.
  - split; [|done]. unfold copy_facts, mapRowToRecord, record_key, fresh_row. simpl.
    by destruct (collection r).
Qed.

Lemma recordUpdate_done r s x s' :
  recordUpdate r s = (inr x, s') ->
  exists old, find (tenantId r) (mappingId r) (itemType r) (naturalKeyHash r) s = Some old /\
  find (tenantId r) (mappingId r) (itemType r) (naturalKeyHash r) s' = Some x /\
  copy_facts x = mkCopyFacts (Some (nullish (rstatus r) updated)) (targetId r) (contentHash r)
    (match collection r with Some c => truthy (Some c) | None => collection old end)
    (sourceVersion r)
    (match targetVersion r with Some v => Some v | None => targetVersion old end)
    (attemptCount old) (deletionAppliedAt old).
Proof.
  intros H. apply recordUpdate_cases in H as [(_ & _ & [=])|(row & Hrow & Hd & -> & [= ->])].
  exists (mapRowToRecord (record_key r) row). split_and!.
  - apply find_Some. by exists row.
  - by apply find_insert_eq.
  - unfold copy_facts, mapRowToRecord, record_key, update_set. simpl.
    destruct (collection r), (targetVersion r); done.
Qed.

Lemma recordFailure_done r e s x s' :
  recordFailure r e s = (inr x, s') ->
  find (tenantId r) (mappingId r) (itemType r) (naturalKeyHash r) s' = Some x /\
  rstatus x = Some failed /\ lastError x = Some e /\
  attemptCount x = Some (match find (tenantId r) (mappingId r) (itemType r) (naturalKeyHash r) s with
                         | Some old => nullish (attemptCount old) 0 + 1 | None => 1 end) /\
  deletionAppliedAt x = find (tenantId r) (mappingId r) (itemType r) (naturalKeyHash r) s
                          ≫= deletionAppliedAt.
Proof.
  intros H. apply recordFailure_cases in H
    as [(row & Hrow & Hd & -> & [= ->])|[(Hn & -> & [= ->])|(? & _ & _ & _ & [=])]].
  - rewrite (proj2 (find_Some _ _ _ _ s (mapRowToRecord (record_key r) row))) by eauto.
    split_and!; [by apply find_insert_eq|done|done| |done].
    unfold mapRowToRecord; simpl. f_equal. lia.
  - destruct (find _ _ _ _ s) as [rec|] eqn:Hf.
    { apply find_Some in Hf as (row & Hrow & _). unfold record_key in Hn. congruence. }
    split_and!; [by apply find_insert_eq|done..].
Qed.

Lemma recordFailure_dom r e s x s' t m d k :
  recordFailure r e s = (x, s') -> is_Some (find t m d k s) -> is_Some (find t m d k s').
Proof.
  intros H Hs.
  apply recordFailure_cases in H as [(row & Hrow & Hd & -> & _)|[(Hn & -> & _)|(? & _ & _ & -> & _)]].
  - apply find_insert_dom; [|done|done]. intros old Hold. by simplify_eq.
  - rewrite find_insert_ne; [done|]. intros Heq.
    apply find_is_Some in Hs as (row & Hrow & _). congruence.
  - done.
Qed.

Lemma moved_to t m d k c o s r :
  find t m d k (recordMove t m d k c o s) = Some r -> movedToNaturalKeyHash r = truthy o.
Proof.
  unfold recordMove. destruct (sql_update _ _ _ s) as [u s'] eqn:Hu. simpl.
  destruct (sql_update_spec _ _ _ _ _ _ Hu) as [(_ & -> & Hno)|(row & Hr & Hc & _ & ->)];
    intros (row' & Hr' & Hd & ->)%find_Some.
  - apply Hno in Hr'. apply same_domain_true in Hd. congruence.
  - simpl in Hr'. rewrite lookup_insert_eq in Hr'. by injection Hr' as <-.
Qed.

Lemma cleared_to t m d k s r :
  find t m d k (clearMove t m d k s) = Some r -> movedToNaturalKeyHash r = None.
Proof.
  unfold clearMove. destruct (sql_update _ _ _ s) as [u s'] eqn:Hu. simpl.
  destruct (sql_update_spec _ _ _ _ _ _ Hu) as [(_ & -> & Hno)|(row & Hr & Hc & _ & ->)];
    intros (row' & Hr' & Hd & ->)%find_Some.
  - apply Hno in Hr'. apply same_domain_true in Hd. congruence.
  - simpl in Hr'. rewrite lookup_insert_eq in Hr'. by injection Hr' as <-.
Qed.

(** Recording evidence on a row that may already carry it. *)
Lemma evidence_recorded t m d k (col : item_row -> option instant) set s b s' :
  (forall row, is_Some (col (set row)) /\ row_domain (set row) = row_domain row) ->
  (let '(r, s1) := sql_update (t, m, k)
       (fun row => same_domain d row && negb (defined (col row))) set s in
   if defined r then (true, s1) else (defined (sql_select1 (t, m, k) (same_domain d) s1), s1)) = (b, s') ->
  b = true -> exists row, items s' !! (t, m, k) = Some row /\ row_domain row = d /\ is_Some (col row).
Proof.
  intros Hset H ->. destruct (sql_update _ _ _ s) as [u s1] eqn:Hu.
  destruct (sql_update_spec _ _ _ _ _ _ Hu) as [(-> & -> & Hno)|(row & Hr & Hc & -> & ->)]; simpl in H.
  - injection H as Hd <-. apply defined_true in Hd as [row Hrow]. unfold sql_select1 in Hrow.
    destruct (items s !! (t, m, k)) as [row'|] eqn:Hr; [|done].
    destruct (same_domain d row') eqn:Hsd; [|done]. simplify_eq. exists row. split; [done|].
    specialize (Hno row eq_refl). rewrite Hsd in Hno. simpl in Hno.
    apply negb_false_iff, defined_true in Hno. by apply same_domain_true in Hsd.
  - injection H as <-. exists (set row). simpl. rewrite lookup_insert_eq.
    apply andb_true_iff in Hc as [Hc%same_domain_true _]. destruct (Hset row) as [? ->]. done.
Qed.

Lemma reported_recorded t m d k s s' :
  recordReportedDeletion t m d k s = (true, s') ->
  exists r, find t m d k s' = Some r /\ is_Some (deletionReportedAt r).
Proof.
  intros H. eapply (evidence_recorded t m d k row_deletionReportedAt) in H
    as (row & Hr & Hd & Hs); [|by split; [eexists|]|done].
  exists (mapRowToRecord (t, m, k) row). split; [apply find_Some; by exists row|done].
Qed.

Lemma trashed_recorded t m d k s s' :
  recordTrashedDeletion t m d k s = (true, s') ->
  exists r, find t m d k s' = Some r /\ is_Some (deletionTrashedAt r).
Proof.
  intros H. eapply (evidence_recorded t m d k row_deletionTrashedAt) in H
    as (row & Hr & Hd & Hs); [|by split; [eexists|]|done].
  exists (mapRowToRecord (t, m, k) row). split; [apply find_Some; by exists row|done].
Qed.

Lemma placedItems_sound t m d s p :
  p ∈ placedItems scan t m d s ->
  exists r, find t m d (pi_naturalKeyHash p) s = Some r /\
    pi_contentHash p = contentHash r /\ collection r = Some (pi_collection p) /\
    pi_movedToNaturalKeyHash p = movedToNaturalKeyHash r /\
    pi_deletionAppliedAt p = deletionAppliedAt r.
Proof.
  unfold placedItems. intros ([k row] & -> & Hin)%list_elem_of_fmap.
  apply elem_of_select_rows in Hin as (Hr & Hk & Hc).
  destruct k as [[t' m'] k']. simpl in Hk. simplify_eq. unfold is_placed in Hc.
  rewrite !andb_true_iff, same_domain_true, !negb_true_iff, String.eqb_neq in Hc.
  destruct Hc as [[[Hd _] _] Hne].
  exists (mapRowToRecord (t, m, k') row). split; [apply find_Some; by exists row|].
  unfold mapRowToRecord. simpl. by rewrite decide_False.
Qed.

Lemma placedItems_NoDup t m d s : NoDup (pi_naturalKeyHash <$> placedItems scan t m d s).
Proof.
  unfold placedItems. rewrite <- list_fmap_compose.
  apply (NoDup_fmap_2_strong (fun kr : item_key * item_row => kr.1.2)).
  - intros [[[t1 m1] k1] r1] [[[t2 m2] k2] r2] H1 H2 Hk. simpl in Hk. subst.
    apply elem_of_select_rows in H1 as (? & ? & _), H2 as (? & ? & _). simpl in *. congruence.
  - unfold select_rows. apply NoDup_filter. rewrite scan_perm. apply NoDup_map_to_list.
Qed.

#[export] Instance pg_ledger_laws : @LedgerLaws PgState (pg_ledger scan).
Proof.
  split; simpl.
  - intros *. apply find_key.
  - intros * Hf. by apply findBySourceRef_sound in Hf as (_ & _ & ?).
  - intros r l x l' t m d k H [rec Hrec].
    apply recordIfAbsent_cases in H as [(row & _ & -> & _)|(Hn & -> & _)]; [done|].
    apply find_insert_ne. intros Heq. apply find_Some in Hrec as (row & Hrow & _).
    unfold record_key in *. congruence.
  - intros r l x l' H t' m' d' k' Hne.
    apply recordIfAbsent_cases in H as [(row & _ & -> & _)|(Hn & -> & _)]; [done|].
    by apply find_insert_ne.
  - intros r l x l' H. apply recordIfAbsent_cases in H as [(row & Hrow & -> & Hx)|(Hn & -> & [= ->])].
    + destruct (same_domain _ row) eqn:Hd; simplify_eq. apply find_Some.
      apply same_domain_true in Hd. by exists row.
    + by apply find_insert_eq.
  - exact recordIfAbsent_new.
  - intros r l e l' H. by apply recordIfAbsent_cases in H as [(row & Hrow & -> & Hx)|(Hn & -> & [=])].
  - intros r l x l' H t' m' d' k' Hne.
    apply recordUpdate_cases in H as [(_ & -> & _)|(row & _ & _ & -> & _)]; [done|].
    by apply find_insert_ne.
  - exact recordUpdate_done.
  - intros r l e l' H. apply recordUpdate_cases in H as [(Hno & -> & _)|(row & _ & _ & _ & [=])].
    split; [done|]. apply eq_None_not_Some. intros [row Hrow]%find_is_Some. naive_solver.
  - intros r l [row [Hrow Hd]]%find_is_Some. destruct (recordUpdate r l) as [x l'] eqn:H.
    apply recordUpdate_cases in H as [(Hno & _)|(row' & _ & _ & _ & ->)]; [|eauto].
    unfold record_key in Hno. naive_solver.
  - intros r l x l' t m d k H.
    apply recordUpdate_cases in H as [(_ & -> & _)|(row & Hrow & _ & -> & _)]; [done|].
    apply find_insert_dom; [|done]. intros old Hold. by simplify_eq.
  - intros r e l x l' H t' m' d' k' Hne.
    apply recordFailure_cases in H as [(? & _ & _ & -> & _)|[(_ & -> & _)|(? & _ & _ & -> & _)]];
      [by apply find_insert_ne..|done].
  - intros * H. apply recordFailure_done in H. tauto.
  - intros * H. apply recordFailure_done in H. tauto.
  - intros * H.
    by apply recordFailure_cases in H as [(row & Hrow & Hd & -> & [=])|[(Hn & -> & [=])|(? & _ & _ & -> & _)]].
  - exact recordFailure_dom.
  - intros *. apply keeps_annotates. solve_keeps.
  - intros *. apply keeps_annotates. solve_keeps.
  - intros *. unfold recordAbsent. rewrite snd_sql. apply keeps_annotates. solve_keeps.
  - intros *. unfold recordReportedDeletion. rewrite snd_evidence. apply keeps_annotates. solve_keeps.
  - intros *. unfold recordTrashedDeletion. rewrite snd_evidence. apply keeps_annotates. solve_keeps.
  - intros *. apply keeps_annotates. solve_keeps.
  - intros t e l t' m' d' k'. reflexivity.
  - intros r l t m d k. unfold recordUpdate.
    destruct (sql_update _ _ _ l) as [o s'] eqn:Hu.
    replace (snd _) with (snd (sql_update (record_key r) (same_domain (itemType r)) (update_set r (pg_now l)) l))
      by (rewrite Hu; by destruct o).
    by apply keeps_pins.
  - intros *. unfold recordAbsent. rewrite snd_sql. by apply keeps_pins.
  - intros *. unfold recordReportedDeletion. rewrite snd_evidence. by apply keeps_pins.
  - intros *. unfold recordTrashedDeletion. rewrite snd_evidence. by apply keeps_pins.
  - intros *. by apply keeps_pins.
  - intros *. apply update_only_key.
  - intros *. apply moved_to.
  - intros *. apply update_only_key.
  - intros *. apply cleared_to.
  - intros *. apply reported_recorded.
  - intros *. apply trashed_recorded.
  - intros *. apply placedItems_sound.
  - intros *. apply placedItems_NoDup.
Qed.
End laws.

(** ** When the applies succeed *)

Lemma defined_or {A B} (a : option A) (b : option B) :
  defined a || defined b = true <-> is_Some a \/ is_Some b.
Proof. by rewrite orb_true_iff, !defined_true. Qed.

Lemma written_by_us_true row :
  written_by_us row = true <-> row_status row = copied \/ row_status row = updated.
Proof. unfold written_by_us. by rewrite orb_true_iff, !bool_decide_eq_true. Qed.

Lemma applyDeletion_succeeds t m d k s row :
  items s !! (t, m, k) = Some row -> row_domain row = d ->
  is_Some (row_deletionReportedAt row) \/ is_Some (row_deletionTrashedAt row) ->
  row_deletionAppliedAt row = None -> row_status row = copied \/ row_status row = updated ->
  exists row', applyDeletion t m d k s = (true, s <| items ::= <[(t, m, k) := row']> |>) /\
    row_domain row' = d /\ row_status row' = tombstoned /\
    row_deletionAppliedAt row' = Some (pg_now s) /\ row_contentHash row' = row_contentHash row.
Proof.
  intros Hrow Hd%same_domain_true Hev%defined_or Happ Hst%written_by_us_true.
  unfold applyDeletion, sql_update. rewrite Hrow. rewrite Hd, Hev, Happ, Hst. simpl.
  eexists. split; [reflexivity|]. simpl. by apply same_domain_true in Hd.
Qed.

Lemma applyRelocation_succeeds t m d k s row toKey arrival h :
  items s !! (t, m, k) = Some row -> row_domain row = d ->
  row_movedToNaturalKeyHash row = Some toKey -> toKey <> k ->
  row_deletionAppliedAt row = None -> row_moveAcknowledgedAt row = None ->
  row_status row = copied \/ row_status row = updated ->
  items s !! (t, m, toKey) = Some arrival -> row_domain arrival = d ->
  row_status arrival = copied \/ row_status arrival = updated ->
  row_contentHash arrival = Some h -> h <> ""%string -> row_contentHash row = Some h ->
  exists row', applyRelocation t m d k s = (true, s <| items ::= <[(t, m, k) := row']> |>) /\
    row_domain row' = d /\ row_status row' = tombstoned /\
    row_deletionAppliedAt row' = Some (pg_now s) /\ row_contentHash row' = Some h.
Proof.
  intros Hrow Hd%same_domain_true Hto Hne Happ Hack Hst%written_by_us_true Harr
    Had%same_domain_true Hast%written_by_us_true Hah Hh Hrh.
  unfold applyRelocation, sql_update. rewrite Hrow. unfold arrival_exists.
  rewrite Hd, Hto, Happ, Hack, Hst, Harr, Had, Hast, Hah, Hrh.
  rewrite (proj2 (String.eqb_neq _ _) Hne), (proj2 (String.eqb_neq _ _) Hh), bool_decide_true by done.
  simpl. eexists. split; [reflexivity|]. simpl. by apply same_domain_true in Hd.
Qed.

(** ** The invariant *)

Lemma not_later_mono now now' o : not_later now o -> now <= now' -> not_later now' o.
Proof. destruct o; simpl; lia. Qed.

Lemma row_wf_mono now now' row : row_wf now row -> now <= now' -> row_wf now' row.
Proof.
  intros H Hn. destruct H. split; try done; try lia; by eapply not_later_mono.
Qed.

Definition set_ok (now : instant) (row row' : item_row) : Prop :=
  row_wf now row' /\ row_domain row' = row_domain row /\ row_firstSeenAt row' = row_firstSeenAt row.

Definition step_ok (spared : string -> string -> Prop) (s s' : PgState) : Prop :=
  ledger_wf s -> ledger_wf s' /\ ledger_extends spared s s'.

Lemma same_audit (spared : string -> string -> Prop) s s' :
  auditLog s' = auditLog s -> forall t m, spared t m -> exists l, audit_of t s' = audit_of t s ++ l.
Proof. intros Ha t m _. exists []. unfold audit_of. by rewrite Ha, app_nil_r. Qed.

Lemma ledger_extends_refl spared s : ledger_extends spared s s.
Proof. split_and!; [done|by apply same_audit|naive_solver]. Qed.

Lemma ledger_extends_trans spared s1 s2 s3 :
  ledger_extends spared s1 s2 -> ledger_extends spared s2 s3 -> ledger_extends spared s1 s3.
Proof.
  intros (H1 & Hl1 & Hr1) (H2 & Hl2 & Hr2). split_and!; [lia| |].
  - intros t m Ht. destruct (Hl1 t m Ht) as [l1 E1], (Hl2 t m Ht) as [l2 E2].
    exists (l1 ++ l2). by rewrite E2, E1, app_assoc.
  - intros k row Hk Hrow. destruct (Hr1 k row Hk Hrow) as (row2 & Hrow2 & ? & ?).
    destruct (Hr2 k row2 Hk Hrow2) as (row3 & ? & ? & ?). exists row3. split_and!; congruence.
Qed.

#[export] Instance ledger_extends_preorder spared : PreOrder (ledger_extends spared).
Proof. split; [exact (ledger_extends_refl spared)|exact (ledger_extends_trans spared)]. Qed.

Section steps.
Context (spared : string -> string -> Prop).
#[local] Abbreviation ok := (step_ok spared).

Lemma insert_ok k row s :
  (forall old, items s !! k = Some old -> row_wf (pg_now s) old -> set_ok (pg_now s) old row) ->
  (items s !! k = None -> row_wf (pg_now s) row) ->
  ok s (s <| items ::= <[k := row]> |>).
Proof.
  intros Hold Hnew Hwf. split.
  - intros k' row'. simpl. rewrite lookup_insert_Some. intros [[<- <-]|[_ Hr]]; [|by eapply Hwf].
    destruct (items s !! k) as [old|] eqn:Ho; [|by apply Hnew]. by apply (Hold old), (Hwf k old).
  - split_and!; [done|by apply same_audit|]. intros k' row' _ Hr. simpl.
    destruct (decide (k' = k)) as [->|Hne]; [|rewrite lookup_insert_ne by done; eauto].
    rewrite lookup_insert_eq. exists row. split; [done|]. by apply (Hold row'), (Hwf k row').
Qed.

Lemma sql_update_ok k cond set s :
  (forall row, cond row = true -> row_wf (pg_now s) row -> set_ok (pg_now s) row (set row)) ->
  ok s (snd (sql_update k cond set s)).
Proof.
  intros Hset. destruct (sql_update k cond set s) as [o s'] eqn:Hu. simpl.
  destruct (sql_update_spec _ _ _ _ _ _ Hu) as [(_ & -> & _)|(r & Hr & Hc & _ & ->)].
  - intros Hwf. split; [done|apply ledger_extends_refl].
  - apply insert_ok; [|congruence]. intros old Hold Hwf. simplify_eq. by apply Hset.
Qed.

(** The side conditions of a [SET]: case analysis on the row's columns. *)
Ltac solve_set_ok :=
  let row := fresh "row" in let Hc := fresh "Hc" in let Hwf := fresh "Hwf" in
  intros row Hc Hwf; destruct Hwf, row; unfold set_ok; simpl in *;
  split_and!; [split; simpl; try done|done|done];
  repeat case_match; try match goal with |- context [nullish ?o _] => destruct o end; simpl in *;
  rewrite ?andb_true_iff, ?orb_true_iff, ?defined_true, ?negb_true_iff, ?defined_false in *;
  try solve [lia | naive_solver].

Lemma nullish_status_ne (o : option status) dflt x : o <> Some x -> dflt <> x -> nullish o dflt <> x.
Proof. destruct o; simpl; congruence. Qed.

Lemma fresh_row_wf now r : writes_status r -> row_wf now (fresh_row r now).
Proof.
  intros [Hf Ht]. split; simpl; try done; try lia; try (by intros [? [=]]).
  - intros H. by apply nullish_status_ne in H.
  - intros H. by apply nullish_status_ne in H.
Qed.

Lemma failure_row_wf now r e : row_wf now (failure_row r e now).
Proof. split; simpl; try done; try lia; by intros [? [=]]. Qed.

Lemma recordIfAbsent_ok r s : writes_status r -> ok s (snd (recordIfAbsent r s)).
Proof.
  intros Hst. destruct (recordIfAbsent r s) as [x s'] eqn:H. simpl.
  apply recordIfAbsent_cases in H as [(row & Hrow & -> & _)|(Hn & -> & _)].
  - intros Hwf. split; [done|reflexivity].
  - apply insert_ok; [congruence|]. intros _. by apply fresh_row_wf.
Qed.

Lemma update_set_ok r now row :
  writes_status r -> row_wf now row -> set_ok now row (update_set r now row).
Proof.
  intros [Hf Ht] Hwf. destruct Hwf, row. unfold set_ok, update_set. simpl in *.
  split_and!; [split; simpl; try done; try lia|done|done].
  - intros H. by apply nullish_status_ne in H.
  - intros H. by apply nullish_status_ne in H.
Qed.

Lemma recordUpdate_ok r s : writes_status r -> ok s (snd (recordUpdate r s)).
Proof.
  intros Hst. destruct (recordUpdate r s) as [x s'] eqn:H. simpl.
  apply recordUpdate_cases in H as [(_ & -> & _)|(row & Hrow & _ & -> & _)].
  - intros Hwf. split; [done|reflexivity].
  - apply insert_ok; [|congruence]. intros old Hold Hwf. simplify_eq. by apply update_set_ok.
Qed.

Lemma bumped_ok e now row : row_wf now row -> set_ok now row (bumped e now row).
Proof. unfold bumped. generalize (eq_refl true : true = true). revert row. solve_set_ok. Qed.

Lemma recordFailure_ok r e s : ok s (snd (recordFailure r e s)).
Proof.
  destruct (recordFailure r e s) as [x s'] eqn:H. simpl.
  apply recordFailure_cases in H as [(row & Hrow & _ & -> & _)|[(Hn & -> & _)|(_ & _ & _ & -> & _)]].
  - apply insert_ok; [|congruence]. intros old Hold Hwf. simplify_eq. by apply bumped_ok.
  - apply insert_ok; [congruence|]. intros _. apply failure_row_wf.
  - intros Hwf. split; [done|reflexivity].
Qed.

Ltac solve_update_ok := apply sql_update_ok; solve_set_ok.

Lemma filter_items_ok (P : item_key -> Prop) `{!forall k, Decision (P k)} s :
  (forall k, spared k.1.1 k.1.2 -> P k) ->
  ok s (s <| items ::= base.filter (fun kr : item_key * item_row => P kr.1) |>).
Proof.
  intros HP Hwf. split.
  - intros k row. simpl. rewrite map_lookup_filter_Some. intros [Hrow _]. by eapply Hwf.
  - split_and!; [done|by apply same_audit|]. intros k row Hk Hrow. exists row. split; [|done]. simpl.
    apply map_lookup_filter_Some. split; [done|]. by apply HP.
Qed.

Lemma pg_step_ok s s' : pg_step spared s s' -> ok s s'.
Proof.
  intros []; [|by apply recordIfAbsent_ok|by apply recordUpdate_ok|by apply recordFailure_ok| ..].
  - intros Hwf. split; [|split_and!; [done|by apply same_audit|naive_solver]].
    intros k row Hrow. eapply row_wf_mono; [by eapply Hwf|done].
  - unfold resolveFailure. rewrite (surjective_pairing (sql_update _ _ _ _)).
    destruct a; solve_update_ok.
  - intros Hwf. split; [done|]. split_and!; [done| |naive_solver].
    intros t' m' _. unfold audit_of. simpl. rewrite filter_app. by eexists.
  - solve_update_ok.
  - solve_update_ok.
  - unfold resolveMove. rewrite (surjective_pairing (sql_update _ _ _ _)). solve_update_ok.
  - unfold recordAbsent. rewrite (surjective_pairing (sql_update _ _ _ _)). solve_update_ok.
  - unfold recordReportedDeletion. rewrite (surjective_pairing (sql_update _ _ _ _)).
    destruct (defined _); solve_update_ok.
  - unfold recordTrashedDeletion. rewrite (surjective_pairing (sql_update _ _ _ _)).
    destruct (defined _); solve_update_ok.
  - solve_update_ok.
  - destruct a; [|by split; [|reflexivity]].
    simpl. rewrite (surjective_pairing (sql_update _ _ _ _)). solve_update_ok.
  - unfold applyDeletion. rewrite (surjective_pairing (sql_update _ _ _ _)). solve_update_ok.
  - unfold applyRelocation. rewrite (surjective_pairing (sql_update _ _ _ _)). solve_update_ok.
  - refine (filter_items_ok (fun k => k.1 <> (t, m)) s0 _). intros [[t' m'] k'] Hs [= -> ->]. by apply H.
  - refine (filter_items_ok (fun k => k.1.1 <> t) s0 _). intros [[t' m'] k'] Hs Heq. simpl in *. subst t'. by apply (H m').
  - intros Hwf. split; [done|]. split_and!; [done| |naive_solver]. intros t' m' Hs. exists [].
    rewrite app_nil_r. unfold audit_of. simpl. rewrite list_filter_filter. apply list_filter_iff.
    intros a. split; [tauto|]. intros Ha. split; [done|]. intros Heq. apply (H m'). congruence.
Qed.
End steps.

(** ** Theorems *)

(** A record to try the operations on. *)
Definition sample_record (t m : string) (d : domain) (k h : string) (st : status) : LedgerRecord :=
  {| tenantId := t; mappingId := m; itemType := d; naturalKeyHash := k; contentHash := h;
     targetId := "target-1"%string; createdAt := 0; sizeBytes := Some 10; rstatus := Some st;
     collection := Some "Docs"%string; targetVersion := None; sourceRef := None; absentPasses := None;
     deletionReportedAt := None; deletionTrashedAt := None; deletionAcknowledgedAt := None;
     deletionAppliedAt := None; movedToCollection := None; movedToNaturalKeyHash := None;
     movedRecordedAt := None; moveAcknowledgedAt := None; attemptCount := None; lastError := None;
     sourceVersion := Some "v1"%string |}.

Definition empty_ledger : PgState := mkPgState ∅ [] 0.

(** C29: the table's invariant holds in every reachable state, whatever
    statements run, in whatever order, deletions of mappings and erasures of
    tenants included; and while a mapping is not deleted and its tenant not
    erased, no row of it disappears, changes its domain or forgets when it was
    first seen, and its tenant's audit log only grows. *)
Theorem ledger_reachable spared s s' :
  rtc (pg_step spared) s s' -> ledger_wf s -> ledger_wf s' /\ ledger_extends spared s s'.
Proof.
  induction 1 as [s|s1 s2 s3 Hstep _ IH]; intros Hwf; [by split; [|reflexivity]|].
  destruct (pg_step_ok spared _ _ Hstep Hwf) as [Hwf2 He]. destruct (IH Hwf2) as [Hwf3 He'].
  split; [done|]. by etrans.
Qed.

(** A rename is recorded in one mapping while the tenant's other one is deleted. *)
Lemma ledger_reachable_witness :
  let spared := fun t m => t = "t"%string /\ m = "m"%string in
  let s1 := snd (recordIfAbsent (sample_record "t" "m" File "k" "h" copied) empty_ledger) in
  let s2 := delete_mapping "t" "old" (recordMove "t" "m" File "k" "Archive" (Some "k2"%string) s1) in
  ledger_wf s2 /\ ledger_extends spared empty_ledger s2.
Proof.
  intros spared s1 s2. apply ledger_reachable.
  - eapply rtc_l; [apply (step_recordIfAbsent spared (sample_record "t" "m" File "k" "h" copied)); split; simpl; discriminate|].
    eapply rtc_l; [apply step_recordMove|]. apply rtc_once.
    apply (step_mappingDeleted spared "t" "old"). vm_compute. intros [_ H]. discriminate H.
  - intros k row H. discriminate H.
Defined.

(** [recordIfAbsent] is the idempotent insert of hard rule 1: no row that
    was there changes, and a second call for the same item - whatever it would
    have written - answers the row the first one left and writes nothing. *)
Theorem recordIfAbsent_idempotent r r' s x s' :
  recordIfAbsent r s = (inr x, s') ->
  record_key r' = record_key r -> itemType r' = itemType r ->
  (forall k row, items s !! k = Some row -> items s' !! k = Some row) /\
  recordIfAbsent r' s' = (inr x, s').
Proof.
  intros H Hk Hd. assert (Hx : exists row, items s' !! record_key r = Some row /\
    same_domain (itemType r) row = true /\ x = mapRowToRecord (record_key r) row /\
    forall k row, items s !! k = Some row -> items s' !! k = Some row).
  { apply recordIfAbsent_cases in H as [(row & Hrow & -> & Hx)|(Hn & -> & [= ->])].
    - destruct (same_domain _ row) eqn:Hsd; simplify_eq. by exists row.
    - eexists. simpl. rewrite lookup_insert_eq. split_and!; [done|by apply same_domain_true|done|].
      intros k row Hrow. rewrite lookup_insert_ne; [done|congruence]. }
  destruct Hx as (row & Hrow & Hsd & -> & Hkeep). split; [done|].
  destruct (recordIfAbsent r' s') as [y s''] eqn:H'.
  apply recordIfAbsent_cases in H' as [(row' & Hrow' & -> & ->)|(Hn & _)]; rewrite Hk in *; [|congruence].
  simplify_eq. by rewrite Hd, Hsd.
Qed.

Lemma recordIfAbsent_idempotent_witness :
  exists x s', recordIfAbsent (sample_record "t" "m" Email "k" "h" copied) empty_ledger = (inr x, s') /\
    recordIfAbsent (sample_record "t" "m" Email "k" "other bytes" adopted) s' = (inr x, s').
Proof.
  eexists _, _. split; [vm_compute; reflexivity|].
  eapply (recordIfAbsent_idempotent (sample_record "t" "m" Email "k" "h" copied) _ empty_ledger);
    vm_compute; reflexivity.
Defined.

(** Failing an item with each error of [es] in turn. *)
Definition fail_all (r : LedgerRecord) (es : list string) (s : PgState) : PgState :=
  fold_left (fun s e => snd (recordFailure r e s)) es s.

Definition attempts_at (k : item_key) (s : PgState) : Z :=
  match items s !! k with Some row => row_attemptCount row | None => 0 end.

Lemma fail_all_row r es s row :
  items s !! record_key r = Some row -> row_domain row = itemType r ->
  exists row', items (fail_all r es s) !! record_key r = Some row' /\
    row_attemptCount row' = row_attemptCount row + Z.of_nat (length es) /\
    row_lastError row' = match last es with Some e => Some e | None => row_lastError row end /\
    (es <> [] -> row_status row' = failed) /\
    row_contentHash row' = row_contentHash row /\ row_sourceVersion row' = row_sourceVersion row /\
    row_targetVersion row' = row_targetVersion row /\ row_targetRef row' = row_targetRef row /\
    row_collection row' = row_collection row.
Proof.
  revert s row. induction es as [|e es IH]; intros s row Hrow Hd; simpl.
  { exists row. split_and!; try done; lia. }
  destruct (recordFailure r e s) as [x s1] eqn:Hf. simpl.
  apply recordFailure_cases in Hf as [(row0 & Hrow0 & _ & -> & _)|[(Hn & _)|(row0 & Hr0 & Hd0 & _)]];
    simplify_eq.
  destruct (IH (s <| items ::= <[record_key r := bumped e (pg_now s) row]> |>) (bumped e (pg_now s) row))
    as (row' & Hrow' & Ha & Hl & Hst & Hrest); [by simpl; rewrite lookup_insert_eq|done|].
  exists row'. split; [done|]. split; [rewrite Ha; simpl; lia|]. split; [|split; [|exact Hrest]].
  - rewrite Hl, last_cons. by destruct (last es).
  - intros _. destruct es as [|e' es]; [|by apply Hst]. simpl in Hrow'.
    rewrite lookup_insert_eq in Hrow'. by injection Hrow' as <-.
Qed.

(** Repeated failures are counted one by one, the last error survives
    verbatim, and what an existing row says of the copy on the target (bytes,
    source version, target version, handle, collection) is left untouched; an
    item never seen before starts counting at one. *)
Theorem recordFailure_counts r e es s :
  (forall row, items s !! record_key r = Some row -> row_domain row = itemType r) ->
  exists row, items (fail_all r (e :: es) s) !! record_key r = Some row /\
    row_status row = failed /\
    row_attemptCount row = attempts_at (record_key r) s + 1 + Z.of_nat (length es) /\
    row_lastError row = last (e :: es) /\
    (forall old, items s !! record_key r = Some old ->
       row_contentHash row = row_contentHash old /\ row_sourceVersion row = row_sourceVersion old /\
       row_targetVersion row = row_targetVersion old /\ row_targetRef row = row_targetRef old /\
       row_collection row = row_collection old).
Proof.
  intros Hd. unfold attempts_at. destruct (items s !! record_key r) as [old|] eqn:Hold.
  - destruct (fail_all_row r (e :: es) s old Hold (Hd old eq_refl)) as (row & Hr & Ha & Hl & Hs & Hrest).
    exists row. split_and!; [done|by apply Hs|rewrite Ha; simpl; lia| |by intros ? [= <-]].
    rewrite Hl, last_cons. by destruct (last es).
  - simpl. destruct (recordFailure r e s) as [x s1] eqn:Hf. simpl.
    apply recordFailure_cases in Hf as [(? & Hr & _)|[(_ & -> & _)|(? & Hr & _)]]; [congruence| |congruence].
    set (row1 := failure_row r e (pg_now s)).
    destruct (fail_all_row r es (s <| items ::= <[record_key r := row1]> |>) row1)
      as (row & Hr & Ha & Hl & Hs & _); [by simpl; rewrite lookup_insert_eq|done|].
    exists row. split_and!; [done| |rewrite Ha; simpl; lia| |done].
    + destruct es as [|e' es]; [|by apply Hs]. simpl in Hr. rewrite lookup_insert_eq in Hr.
      by injection Hr as <-.
    + rewrite Hl, last_cons. by destruct (last es).
Qed.

Lemma recordFailure_counts_witness :
  exists row, items (fail_all (sample_record "t" "m" Email "k" "h" copied)
                      ["429"%string; "500"%string; "timeout"%string] empty_ledger)
                !! ("t", "m", "k")%string = Some row /\ row_attemptCount row = 3 /\
              row_lastError row = Some "timeout"%string.
Proof.
  destruct (recordFailure_counts (sample_record "t" "m" Email "k" "h" copied) "429"
              ["500"; "timeout"]%string empty_ledger) as (row & H1 & _ & H2 & H3 & _).
  - intros row H. discriminate.
  - exists row. split_and!; [exact H1|exact H2|exact H3].
Defined.

(** Re-observing a move the owner has already answered neither reopens it
    nor resets how long it has sat; a move to anywhere else - another folder or
    another key - withdraws the answer and starts the clock again. *)
Theorem recordMove_consent t m d k c o row s :
  items s !! (t, m, k) = Some row -> row_domain row = d ->
  exists row', items (recordMove t m d k c o s) !! (t, m, k) = Some row' /\
    row_movedToCollection row' = Some c /\ row_movedToNaturalKeyHash row' = o /\
    (row_movedToCollection row = Some c -> row_movedToNaturalKeyHash row = o ->
       row_moveAcknowledgedAt row' = row_moveAcknowledgedAt row /\
       row_movedRecordedAt row' = Some (nullish (row_movedRecordedAt row) (pg_now s))) /\
    (row_movedToCollection row <> Some c \/ row_movedToNaturalKeyHash row <> o ->
       row_moveAcknowledgedAt row' = None /\ row_movedRecordedAt row' = Some (pg_now s)).
Proof.
  intros Hrow Hd. unfold recordMove, sql_update. rewrite Hrow. apply same_domain_true in Hd.
  rewrite Hd. simpl. eexists. rewrite lookup_insert_eq. split; [done|]. simpl.
  unfold move_changes, distinct_from. split_and!; [done|done| |].
  - intros Hc Ho. by rewrite !bool_decide_true.
  - intros [Hc|Ho].
    + by rewrite (bool_decide_false _ Hc).
    + by rewrite (bool_decide_false _ Ho), orb_true_r.
Qed.

(** A move recorded at 5, closed by its owner, seen again at 9. *)
Definition acknowledged_move : PgState :=
  (snd (resolveMove "t" "m" "k" move_keep
    (recordMove "t" "m" File "k" "B" None
      ((snd (recordIfAbsent (sample_record "t" "m" File "k" "h" copied) empty_ledger))
         <| pg_now := 5 |>)))) <| pg_now := 9 |>.

Lemma recordMove_consent_witness :
  (exists row', items (recordMove "t" "m" File "k" "B" None acknowledged_move)
                  !! ("t", "m", "k")%string = Some row' /\
     row_moveAcknowledgedAt row' = Some 5 /\ row_movedRecordedAt row' = Some 5) /\
  (exists row', items (recordMove "t" "m" File "k" "B" (Some "k2"%string) acknowledged_move)
                  !! ("t", "m", "k")%string = Some row' /\
     row_moveAcknowledgedAt row' = None /\ row_movedRecordedAt row' = Some 9).
Proof.
  assert (exists row, items acknowledged_move !! ("t", "m", "k")%string = Some row /\
    row_domain row = File /\ row_movedToCollection row = Some "B"%string /\
    row_movedToNaturalKeyHash row = None /\ row_moveAcknowledgedAt row = Some 5 /\
    row_movedRecordedAt row = Some 5) as (row & Hr & Hd & Hc & Ho & Ha & Hm).
  { eexists. split; [vm_compute; reflexivity|]. by vm_compute. }
  split.
  - destruct (recordMove_consent "t" "m" File "k" "B" None row acknowledged_move Hr Hd)
      as (row' & H1 & _ & _ & H2 & _).
    exists row'. split; [exact H1|]. destruct (H2 Hc Ho) as [-> ->]. by rewrite Ha, Hm.
  - destruct (recordMove_consent "t" "m" File "k" "B" (Some "k2"%string) row acknowledged_move Hr Hd)
      as (row' & H1 & _ & _ & _ & H2).
    exists row'. split; [exact H1|]. apply H2. right. by rewrite Ho.
Defined.

(** [applyDeletion] takes exactly the rows it is licensed to: positive
    evidence (a source report or a bin sighting - never absence), a copy this
    migration wrote, not applied before.  It then leaves a tombstone and touches
    no other row; otherwise it changes nothing; and it never succeeds twice. *)
Theorem applyDeletion_licensed t m d k s b s' :
  applyDeletion t m d k s = (b, s') ->
  (b = true <-> exists row, items s !! (t, m, k) = Some row /\ row_domain row = d /\
      (is_Some (row_deletionReportedAt row) \/ is_Some (row_deletionTrashedAt row)) /\
      row_deletionAppliedAt row = None /\ (row_status row = copied \/ row_status row = updated)) /\
  (b = false -> s' = s) /\
  (b = true -> exists row', items s' !! (t, m, k) = Some row' /\ row_status row' = tombstoned /\
      isOnTarget (Some (row_status row')) = false /\ row_deletionAppliedAt row' = Some (pg_now s) /\
      row_deletionAcknowledgedAt row' = Some (pg_now s)) /\
  (forall k', k' <> (t, m, k) -> items s' !! k' = items s !! k') /\
  applyDeletion t m d k s' = (false, s').
Proof.
  unfold applyDeletion. intros H.
  destruct (sql_update _ _ _ s) as [o s1] eqn:Hu. simplify_eq/=.
  destruct (sql_update_spec _ _ _ _ _ _ Hu) as [(-> & -> & Hno)|(row & Hrow & Hc & -> & ->)]; simpl.
  - split_and!; try done.
    + split; [done|]. intros (row & Hrow & Hd & Hev & Happ & Hst).
      apply Hno in Hrow. apply same_domain_true in Hd. apply written_by_us_true in Hst.
      apply defined_or in Hev. by rewrite Hd, Hev, Happ, Hst in Hrow.
    + by rewrite Hu.
  - rewrite !andb_true_iff, defined_or, written_by_us_true, negb_true_iff, defined_false,
      same_domain_true in Hc. destruct Hc as [[[Hd Hev] Happ] Hst].
    split_and!; try done.
    + split; [intros _|done]. by exists row.
    + intros _. eexists. rewrite lookup_insert_eq. split; [reflexivity|]. done.
    + intros k' Hne. by rewrite lookup_insert_ne.
    + unfold sql_update. simpl. rewrite lookup_insert_eq. simpl.
      by rewrite !andb_false_r.
Qed.

Definition reported_ledger : PgState :=
  snd (recordReportedDeletion "t" "m" Calendar "k"
         (snd (recordIfAbsent (sample_record "t" "m" Calendar "k" "h" copied) empty_ledger))).

Lemma applyDeletion_licensed_witness :
  exists s', applyDeletion "t" "m" Calendar "k" reported_ledger = (true, s') /\
    applyDeletion "t" "m" Calendar "k" s' = (false, s').
Proof.
  eexists. split; [vm_compute; reflexivity|].
  eapply (applyDeletion_licensed "t" "m" Calendar "k" reported_ledger true). vm_compute. reflexivity.
Defined.

Lemma arrival_exists_spec t m d k row s :
  arrival_exists t m d k row s = true ->
  exists toKey arrival h, row_movedToNaturalKeyHash row = Some toKey /\ toKey <> k /\
    items s !! (t, m, toKey) = Some arrival /\ row_domain arrival = d /\
    written_by_us arrival = true /\ row_contentHash arrival = Some h /\ h <> ""%string /\
    row_contentHash row = Some h.
Proof.
  unfold arrival_exists. destruct (row_movedToNaturalKeyHash row) as [toKey|]; [|done].
  destruct (items s !! (t, m, toKey)) as [arrival|] eqn:Ha; [|done].
  rewrite !andb_true_iff, same_domain_true, negb_true_iff, String.eqb_neq.
  intros [[[Hd Hne] Hw] Hh]. destruct (row_contentHash arrival) as [h|] eqn:Hch; [|done].
  apply andb_true_iff in Hh as [Hh1 Hh2%bool_decide_eq_true].
  apply negb_true_iff, String.eqb_neq in Hh1. by exists toKey, arrival, h.
Qed.

Lemma applyRelocation_keeps_copy t m d k t' m' d' h s :
  has_copy t' m' d' h s -> has_copy t' m' d' h (snd (applyRelocation t m d k s)).
Proof.
  intros (k' & row' & Hrow' & Hd' & Hw' & Hh'). unfold applyRelocation.
  destruct (sql_update _ _ _ s) as [o s1] eqn:Hu. simpl.
  destruct (sql_update_spec _ _ _ _ _ _ Hu) as [(_ & -> & _)|(row & Hrow & Hc & _ & ->)].
  { by exists k', row'. }
  rewrite !andb_true_iff in Hc. destruct Hc as [[[[[Hd _] _] _] _] Harr].
  destruct (decide ((t', m', k') = (t, m, k))) as [Heq|Hne].
  - simplify_eq. apply same_domain_true in Hd.
    apply arrival_exists_spec in Harr as (toKey & arrival & h' & _ & Hne & Ha & Had & Haw & Hah & _ & Hrh).
    exists toKey, arrival. simpl. rewrite lookup_insert_ne by congruence.
    split_and!; try done; congruence.
  - exists k', row'. simpl. by rewrite lookup_insert_ne.
Qed.

(** No sequence of applied relocations - from any number of operators or
    passes, over any keys, in any order, cycles included - removes the last copy
    this migration holds of any bytes: each needs a live arrival with the same
    bytes in the state it is applied to. *)
Theorem relocations_keep_last_copy reqs t m d h s :
  has_copy t m d h s ->
  has_copy t m d h
    (fold_left (fun s '(t', m', d', k') => snd (applyRelocation t' m' d' k' s)) reqs s).
Proof.
  revert s. induction reqs as [|[[[t' m'] d'] k'] reqs IH]; intros s Hs; [done|].
  apply IH. by apply applyRelocation_keeps_copy.
Qed.

Definition relocated_ledger : PgState :=
  recordMove "t" "m" File "k2" "Docs" (Some "k1"%string)
    (recordMove "t" "m" File "k1" "Docs" (Some "k2"%string)
       (snd (recordIfAbsent (sample_record "t" "m" File "k2" "h" copied)
          (snd (recordIfAbsent (sample_record "t" "m" File "k1" "h" copied) empty_ledger))))).

Lemma relocations_keep_last_copy_witness :
  has_copy "t" "m" File "h"
    (fold_left (fun s '(t', m', d', k') => snd (applyRelocation t' m' d' k' s))
       [("t", "m", File, "k1"); ("t", "m", File, "k2")]%string relocated_ledger).
Proof.
  apply relocations_keep_last_copy. eexists "k1"%string, _.
  split; [vm_compute; reflexivity|]. by vm_compute.
Defined.

(** A row keeps [deletionAppliedAt] when its item is copied again.  So once
    a relocated-away item has come back and been re-copied, its row says
    [updated] and is on the target, yet the removal date stands and every later
    [applyDeletion] - whatever evidence the source gives - answers no. *)
Theorem recopied_row_stays_applied t m d k r x s s1 s2 :
  applyRelocation t m d k s = (true, s1) ->
  record_key r = (t, m, k) -> itemType r = d -> rstatus r = Some updated ->
  recordUpdate r s1 = (x, s2) ->
  exists row, items s2 !! (t, m, k) = Some row /\ isOnTarget (Some (row_status row)) = true /\
    row_deletionAppliedAt row = Some (pg_now s) /\
    fst (applyDeletion t m d k (snd (recordReportedDeletion t m d k s2))) = false.
Proof.
  unfold applyRelocation. intros Ha Hk Hd Hst Hu.
  destruct (sql_update _ _ _ s) as [o s'] eqn:Hs. simplify_eq/=.
  destruct (sql_update_spec _ _ _ _ _ _ Hs) as [(-> & _)|(row & Hrow & Hc & -> & ->)]; [done|].
  rewrite !andb_true_iff in Hc. destruct Hc as [[[[[Hsd _] _] _] _] _]. apply same_domain_true in Hsd.
  apply recordUpdate_cases in Hu as [(Hno & _)|(row1 & Hrow1 & _ & -> & _)]; rewrite Hk in *; simpl in *.
  { exfalso. eapply Hno; [apply lookup_insert_eq|]. done. }
  rewrite lookup_insert_eq in Hrow1. injection Hrow1 as <-.
  eexists. rewrite lookup_insert_eq. split; [reflexivity|]. simpl. rewrite Hst.
  split_and!; [done|done|].
  unfold recordReportedDeletion, applyDeletion, sql_update. simpl. rewrite lookup_insert_eq.
  destruct (same_domain _ _ && _); simpl; rewrite lookup_insert_eq; simpl;
    by rewrite !andb_false_r.
Qed.

Lemma recopied_row_stays_applied_witness :
  let s1 := snd (applyRelocation "t" "m" File "k1" relocated_ledger) in
  let s2 := snd (recordUpdate (sample_record "t" "m" File "k1" "h2" updated) s1) in
  exists row, items s2 !! ("t", "m", "k1")%string = Some row /\
    isOnTarget (Some (row_status row)) = true /\ row_deletionAppliedAt row = Some 0 /\
    fst (applyDeletion "t" "m" File "k1" (snd (recordReportedDeletion "t" "m" File "k1" s2))) = false.
Proof.
  intros s1 s2.
  apply (recopied_row_stays_applied "t" "m" File "k1" (sample_record "t" "m" File "k1" "h2" updated)
           (fst (recordUpdate (sample_record "t" "m" File "k1" "h2" updated) s1)) relocated_ledger s1).
  - vm_compute. reflexivity.
  - reflexivity.
  - reflexivity.
  - reflexivity.
  - apply surjective_pairing.
Defined.

(** ** The order of the queues *)

#[export] Instance nulls_first_comparator : Comparator nulls_first.
Proof.
  split.
  - intros [a|] [b|]; simpl; try done. apply (cmp_opp Z.compare).
  - intros [] [a|] [b|] [c|]; simpl; try done; apply (cmp_trans Z.compare).
Qed.

#[export] Instance desc_nulls_last_comparator : Comparator desc_nulls_last.
Proof.
  split.
  - intros [a|] [b|]; simpl; try done. apply (cmp_opp Z.compare).
  - intros [] [a|] [b|] [c|]; simpl; try done; intros H1 H2; by apply (cmp_trans Z.compare _ c b a).
Qed.

Definition cmp_moves (a b : item_key * item_row) : comparison :=
  then_by (nulls_first (row_moveAcknowledgedAt a.2) (row_moveAcknowledgedAt b.2))
          (string_compare a.1.2 b.1.2).

Definition cmp_deletions (a b : item_key * item_row) : comparison :=
  then_by (nulls_first (row_deletionAcknowledgedAt a.2) (row_deletionAcknowledgedAt b.2))
  (then_by (desc_nulls_last (row_deletionReportedAt a.2) (row_deletionReportedAt b.2))
  (then_by (desc_nulls_last (row_deletionTrashedAt a.2) (row_deletionTrashedAt b.2))
  (then_by (Z.compare (row_absentPasses b.2) (row_absentPasses a.2))
           (string_compare a.1.2 b.1.2)))).

#[export] Instance cmp_moves_comparator : Comparator cmp_moves.
Proof.
  apply (then_by_comparator _ _ (Comparator0 := comparator_on (fun a => row_moveAcknowledgedAt a.2) _ _)
           (Comparator1 := comparator_on (fun a => a.1.2) _ _)).
Qed.

#[export] Instance cmp_deletions_comparator : Comparator cmp_deletions.
Proof.
  unfold cmp_deletions.
  apply then_by_comparator; [apply (comparator_on (fun a => row_deletionAcknowledgedAt a.2) _ _)|].
  apply then_by_comparator; [apply (comparator_on (fun a => row_deletionReportedAt a.2) _ _)|].
  apply then_by_comparator; [apply (comparator_on (fun a => row_deletionTrashedAt a.2) _ _)|].
  apply then_by_comparator; [|apply (comparator_on (fun a => a.1.2) _ _)].
  apply comparator_flip, (comparator_on (fun a => row_absentPasses a.2) _ _).
Qed.

Lemma then_by_eq_r c c' : then_by c c' = Eq -> c' = Eq.
Proof. by destruct c. Qed.

Lemma cmp_moves_eq a b : cmp_moves a b = Eq -> a.1.2 = b.1.2.
Proof. intros H%then_by_eq_r. by apply string_compare_eq. Qed.

Lemma cmp_deletions_eq a b : cmp_deletions a b = Eq -> a.1.2 = b.1.2.
Proof. intros H. do 4 apply then_by_eq_r in H. by apply string_compare_eq. Qed.

(** Sorting by an order that decides between any two rows of the selection
    forgets the order the rows came in. *)
Lemma merge_sort_scan_irrelevant {A} (c : A -> A -> comparison) `{!Comparator c}
    (R : relation A) `{!RelDecision R} (HR : forall a b, R a b <-> not_after (c a b)) (l1 l2 : list A) :
  l1 ≡ₚ l2 ->
  (forall a b, a ∈ l1 -> b ∈ l1 -> c a b = Eq -> a = b) ->
  merge_sort R l1 = merge_sort R l2.
Proof.
  intros Hp Hinj.
  assert (Htot : Total R) by (intros a b; rewrite !HR; apply (cmp_total c)).
  assert (Htr : Transitive R) by (intros a b d; rewrite !HR; apply (cmp_transitive c)).
  apply (StronglySorted_unique_strong R).
  - intros x1 x2. rewrite !merge_sort_Permutation, <- Hp, !HR. intros H1 H2 Ha Hb.
    apply Hinj; [done..|]. by apply (cmp_antisym c).
  - by apply StronglySorted_merge_sort.
  - by apply StronglySorted_merge_sort.
  - by rewrite !merge_sort_Permutation.
Qed.

Section order.
Context (scan1 scan2 : gmap item_key item_row -> list (item_key * item_row))
        (scan1_perm : forall mm, scan1 mm ≡ₚ map_to_list mm)
        (scan2_perm : forall mm, scan2 mm ≡ₚ map_to_list mm).

Lemma select_rows_perm t m cond s : select_rows scan1 t m cond s ≡ₚ select_rows scan2 t m cond s.
Proof. unfold select_rows. by rewrite scan1_perm, scan2_perm. Qed.

Lemma select_rows_inj t m cond s a b :
  a ∈ select_rows scan1 t m cond s -> b ∈ select_rows scan1 t m cond s -> a.1.2 = b.1.2 -> a = b.
Proof.
  destruct a as [[[t1 m1] k1] r1], b as [[[t2 m2] k2] r2]. simpl.
  rewrite !elem_of_select_rows by done. simpl. naive_solver congruence.
Qed.

(** The move and deletion queues an operator reads do not depend on the
    order in which the database happens to answer rows: their [ORDER BY]s end in
    the natural key and so fix one order, and a list being worked through does
    not reshuffle between reads. *)
Theorem queues_do_not_reshuffle t m od s :
  listMoves scan1 t m od s = listMoves scan2 t m od s /\
  listDeletions scan1 t m od s = listDeletions scan2 t m od s.
Proof using scan1_perm scan2_perm.
  split; unfold listMoves, listDeletions; f_equal.
  - apply (merge_sort_scan_irrelevant cmp_moves); [done|apply select_rows_perm|].
    intros a b Ha Hb H%cmp_moves_eq. by eapply select_rows_inj.
  - apply (merge_sort_scan_irrelevant cmp_deletions); [done|apply select_rows_perm|].
    intros a b Ha Hb H%cmp_deletions_eq. by eapply select_rows_inj.
Qed.
End order.

Lemma queues_do_not_reshuffle_witness :
  listMoves (fun mm => reverse (map_to_list mm)) "t" "m" None relocated_ledger
  = listMoves map_to_list "t" "m" None relocated_ledger /\
  listDeletions (fun mm => reverse (map_to_list mm)) "t" "m" None relocated_ledger
  = listDeletions map_to_list "t" "m" None relocated_ledger.
Proof.
  apply queues_do_not_reshuffle; intros mm; [by rewrite reverse_Permutation|done].
Defined.
