(* ===== verification/Detectors.v ===== *)
(** * What a pass concludes once every folder was listed
    ([packages/core/src/domain-sync.ts], the functions after [runDomainSync])

    [resolveReportedRemovals], [resolveDiscardedItems], [detectPathKeyedMoves]
    and the merging of their answers.  They run after the copying, one at a
    time, over the ledger alone; the pass hands them every key it saw. *)

From S2P Require Import Prelude Prog Ports.
From S2P Require Ledger.

Open Scope Z_scope.

(** [{ naturalKeyHash, contentHash, collection }] of an item created this pass. *)
Record CreatedItem := mkCreatedItem {
  ci_naturalKeyHash : string;
  ci_contentHash : string;
  ci_collection : string
}.

(** Every key seen, per source collection. *)
Abbreviation seen_map := (gmap string (gset string)).

Definition seenAnywhere (seen : seen_map) : gset string :=
  ⋃ (map_to_list seen).*2.

Definition seen_in (seen : seen_map) (collection key : string) : bool :=
  match seen !! collection with Some ks => bool_decide (key ∈ ks) | None => false end.

Section detectors.
Context {L : Type} `{Ledger L}.
Variables (t m : string) (d : domain).

Abbreviation lprog := (prog L string).

(** The entry both positive detectors return. *)
Definition deletion_of (row : LedgerRecord) (key : string) (ev : DeletionEvidence) : ItemDeletion :=
  {| id_domain := d; id_naturalKeyHash := key;
     id_collection := nullish (collection row) ""%string;
     id_absentPasses := nullish (absentPasses row) 0; id_confirmed := true; id_evidence := ev;
     id_reportedAt := None; id_trashedAt := None; id_acknowledgedAt := None |}.

(** One href of the loop of [resolveReportedRemovals], with [out] and [done]. *)
Definition resolve_removal (seen : seen_map) (href : string) (st : list ItemDeletion * gset string)
    : lprog (list ItemDeletion * gset string) :=
  let '(out, done) := st in
  let! found := act (fun l => (lg_findBySourceRef t m d href l, l)) in
  match found with
  | None => Ret st
  | Some row =>
      let key := naturalKeyHash row in
      if negb (isOnTarget (rstatus row)) then Ret st
      else if bool_decide (key ∈ seenAnywhere seen) then Ret st
      else if bool_decide (key ∈ done) then Ret st
      else
        let done := {[ key ]} ∪ done in
        let! recorded := act (lg_recordReportedDeletion t m d key) in
        if negb recorded then Ret (out, done)
        else if defined (deletionAcknowledgedAt row) then Ret (out, done)
        else Ret (out ++ [deletion_of row key reported], done)
  end.

Fixpoint resolve_removals (seen : seen_map) (hrefs : list string) (st : list ItemDeletion * gset string)
    : lprog (list ItemDeletion * gset string) :=
  match hrefs with
  | [] => Ret st
  | href :: hrefs' => let! st' := resolve_removal seen href st in resolve_removals seen hrefs' st'
  end.

Definition resolveReportedRemovals (removals : list string) (seen : seen_map) : lprog (list ItemDeletion) :=
  let! st := resolve_removals seen (js_dedup removals) ([], ∅) in Ret st.1.

(** One key of the loop of [resolveDiscardedItems]. *)
Definition resolve_discard (seen : seen_map) (key : string) (out : list ItemDeletion)
    : lprog (list ItemDeletion) :=
  if bool_decide (key ∈ seenAnywhere seen) then Ret out
  else
    let! found := act (fun l => (lg_find t m d key l, l)) in
    match found with
    | None => Ret out
    | Some row =>
        if negb (isOnTarget (rstatus row)) then Ret out
        else
          let! recorded := act (lg_recordTrashedDeletion t m d key) in
          if negb recorded then Ret out
          else if defined (deletionAcknowledgedAt row) then Ret out
          else Ret (out ++ [deletion_of row key trashed])
    end.

Fixpoint resolve_discards (seen : seen_map) (keys : list string) (out : list ItemDeletion)
    : lprog (list ItemDeletion) :=
  match keys with
  | [] => Ret out
  | key :: keys' => let! out' := resolve_discard seen key out in resolve_discards seen keys' out'
  end.

Definition resolveDiscardedItems (discarded : list string) (seen : seen_map) : lprog (list ItemDeletion) :=
  resolve_discards seen (js_dedup discarded) [].

(** *** Moves of path-keyed items *)

(** An arrival, as [arrivals] holds it: its key and its collection. *)
Abbreviation arrival := (string * string)%type.

(** [arrivals]: content hash to the new items carrying it, in creation order. *)
Definition arrivals_of (created : list CreatedItem) : list (string * list arrival) :=
  fold_left (fun ar c =>
      if String.eqb (ci_contentHash c) "" then ar
      else js_map_set (ci_contentHash c)
             (nullish (js_map_get (ci_contentHash c) ar) [] ++ [(ci_naturalKeyHash c, ci_collection c)]) ar)
    created [].

Record detection := mkDetection {
  dt_moves : list ItemMove;
  dt_deletions : list ItemDeletion;
  dt_drift : Z;
  dt_arrivals : list (string * list arrival)
}.

#[local] Instance eta_detection : Eta detection := fun x =>
  mkDetection (dt_moves x) (dt_deletions x) (dt_drift x) (dt_arrivals x).

Definition move_entry (row : PlacedItem) (to : string) (toKey : option string) : ItemMove :=
  {| im_domain := d; im_naturalKeyHash := pi_naturalKeyHash row; im_from := pi_collection row;
     im_to := to; im_toNaturalKeyHash := toKey; im_recordedAt := None; im_acknowledgedAt := None |}.

(** [row.contentHash ? arrivals.get(row.contentHash) : undefined] *)
Definition candidates_for (row : PlacedItem) (ar : list (string * list arrival)) : list arrival :=
  if String.eqb (pi_contentHash row) "" then []
  else nullish (js_map_get (pi_contentHash row) ar) [].

(** The row is still where the pass saw it: whatever was held against it goes. *)
Definition still_there (row : PlacedItem) : lprog unit :=
  (if defined (pi_movedToCollection row)
   then act (fun l => (tt, lg_clearMove t m d (pi_naturalKeyHash row) l)) else Ret tt) ;;;
  (if negb (pi_absentPasses row =? 0)
   then act (fun l => (tt, lg_clearAbsent t m d (pi_naturalKeyHash row) l)) else Ret tt).

(** Gone, and nothing explains it as a move. *)
Definition count_absence (row : PlacedItem) (x : detection) : lprog detection :=
  let x := x <| dt_drift ::= Z.add 1 |> in
  let! n := act (lg_recordAbsent t m d (pi_naturalKeyHash row)) in
  if (DELETION_CONFIRMATIONS <=? n) && negb (defined (pi_deletionAcknowledgedAt row))
  then Ret (x <| dt_deletions ::= fun l => l ++
         [{| id_domain := d; id_naturalKeyHash := pi_naturalKeyHash row;
             id_collection := pi_collection row; id_absentPasses := n; id_confirmed := true;
             id_evidence := inferred; id_reportedAt := None; id_trashedAt := None;
             id_acknowledgedAt := None |}] |>)
  else Ret x.

(** One placed row of the loop of [detectPathKeyedMoves]. *)
Definition detect_row (seen : seen_map) (row : PlacedItem) (x : detection) : lprog detection :=
  if defined (pi_deletionAppliedAt row) then Ret x
  else if seen_in seen (pi_collection row) (pi_naturalKeyHash row)
  then still_there row ;;; Ret x
  else match pi_movedToCollection row with
  | Some to =>
      Ret (if negb (defined (pi_moveAcknowledgedAt row))
           then x <| dt_moves ::= fun l => l ++ [move_entry row to (pi_movedToNaturalKeyHash row)] |>
           else x)
  | None =>
      match candidates_for row (dt_arrivals x) with
      | (toKey, to) :: rest =>
          let x := x <| dt_arrivals ::= js_map_set (pi_contentHash row) rest |> in
          act (fun l => (tt, lg_recordMove t m d (pi_naturalKeyHash row) to (Some toKey) l)) ;;;
          Ret (x <| dt_moves ::= fun l => l ++ [move_entry row to (Some toKey)] |>)
      | [] => count_absence row x
      end
  end.

Fixpoint detect_rows (seen : seen_map) (rows : list PlacedItem) (x : detection) : lprog detection :=
  match rows with
  | [] => Ret x
  | row :: rows' => let! x' := detect_row seen row x in detect_rows seen rows' x'
  end.

Definition detectPathKeyedMoves (seen : seen_map) (created : list CreatedItem) : lprog detection :=
  let! placed := act (fun l => (lg_placedItems t m d l, l)) in
  detect_rows seen placed (mkDetection [] [] 0 (arrivals_of created)).
End detectors.

(** *** One entry per item *)

Definition rank (e : DeletionEvidence) : Z :=
  match e with reported => 3 | trashed => 2 | inferred => 1 end.

Definition merge_deletion (held new : ItemDeletion) : ItemDeletion :=
  let winner := if rank (id_evidence held) <? rank (id_evidence new) then new else held in
  let passes := Z.max (id_absentPasses new) (id_absentPasses held) in
  if passes =? id_absentPasses winner then winner else winner <| id_absentPasses := passes |>.

Definition strongest (deletions : list ItemDeletion) : list (string * ItemDeletion) :=
  fold_left (fun acc x =>
      match js_map_get (id_naturalKeyHash x) acc with
      | None => js_map_set (id_naturalKeyHash x) x acc
      | Some held => js_map_set (id_naturalKeyHash x) (merge_deletion held x) acc
      end) deletions [].

Definition reportedDeletions (deletions : list ItemDeletion) : list ItemDeletion :=
  (strongest deletions).*2.

(** ** Lemmas *)

Lemma elem_of_seenAnywhere (seen : seen_map) k :
  k ∈ seenAnywhere seen <-> exists c ks, seen !! c = Some ks /\ k ∈ ks.
Proof.
  unfold seenAnywhere. rewrite elem_of_union_list. setoid_rewrite list_elem_of_fmap. split.
  - intros (ks & ([c ks'] & -> & Hin) & Hk). apply elem_of_map_to_list in Hin. by exists c, ks'.
  - intros (c & ks & Hc & Hk). exists ks. split; [|done]. exists (c, ks).
    by rewrite elem_of_map_to_list.
Qed.

Section annotating.
Context {L : Type} `{LL : LedgerLaws L}.

Lemma annotates_refl (l : L) : annotates l l.
Proof. done. Qed.

Lemma annotates_trans (l1 l2 l3 : L) : annotates l1 l2 -> annotates l2 l3 -> annotates l1 l3.
Proof. intros H1 H2 t m d k. by rewrite H2. Qed.

#[export] Instance annotates_preorder : PreOrder (annotates (L:=L)).
Proof. split; [exact annotates_refl|exact annotates_trans]. Qed.

(** A program that never throws and keeps a property of the ledger it started
    from: the shape of every detector. *)
Definition delivers {A} (p : prog L string A) (l : L) (Q : A -> L -> Prop) : Prop :=
  exists a l', run p l = (inr a, l') /\ annotates l l' /\ Q a l'.

Lemma delivers_ret {A} (a : A) l (Q : A -> L -> Prop) : Q a l -> delivers (Ret a) l Q.
Proof. intros HQ. exists a, l. by split_and!. Qed.

Lemma delivers_act {A} (f : L -> A * L) l (Q : A -> L -> Prop) :
  annotates l (snd (f l)) -> Q (fst (f l)) (snd (f l)) -> delivers (act f) l Q.
Proof. intros Ha HQ. exists (fst (f l)), (snd (f l)). simpl. by destruct (f l). Qed.

Lemma delivers_bind {A B} (p : prog L string A) (q : A -> prog L string B) l Q :
  delivers p l (fun a l' => delivers (q a) l' Q) -> delivers (pbind p q) l Q.
Proof.
  intros (a & l1 & Hp & Ha & b & l2 & Hq & Hb & HQ). exists b, l2.
  rewrite run_bind, Hp. split_and!; [done|by etrans|done].
Qed.

Lemma delivers_step {A B} (f : L -> A * L) (k : A -> prog L string B) l Q :
  annotates l (snd (f l)) -> delivers (k (fst (f l))) (snd (f l)) Q -> delivers (pbind (act f) k) l Q.
Proof. intros Ha Hk. by apply delivers_bind, delivers_act. Qed.

Lemma delivers_mono {A} (p : prog L string A) l (Q Q' : A -> L -> Prop) :
  delivers p l Q -> (forall a l', annotates l l' -> Q a l' -> Q' a l') -> delivers p l Q'.
Proof. intros (a & l' & Hp & Ha & HQ) Himp. exists a, l'. split_and!; auto. Qed.

(** Facts read before survive an annotation. *)
Lemma annotates_facts (l l' : L) t m d k cf :
  annotates l l' -> find_facts t m d k l' = Some cf -> find_facts t m d k l = Some cf.
Proof. intros Ha. by rewrite (Ha t m d k). Qed.

Variables (t m : string) (d : domain).

(** What is known of every entry of a positive detector. *)
Definition entry_ok (seen : seen_map) (ev : DeletionEvidence) (l : L) (x : ItemDeletion) : Prop :=
  id_evidence x = ev /\ id_confirmed x = true /\ id_domain x = d /\
  (id_naturalKeyHash x ∉ seenAnywhere seen) /\
  exists cf, find_facts t m d (id_naturalKeyHash x) l = Some cf /\ isOnTarget (cf_status cf) = true.

Lemma entry_ok_before seen ev l l' x : annotates l l' -> entry_ok seen ev l' x -> entry_ok seen ev l x.
Proof.
  intros Ha (H1 & H2 & H3 & H4 & cf & Hcf & Hon). split_and!; try done. exists cf.
  split; [by eapply annotates_facts|done].
Qed.

Lemma entry_ok_after seen ev l l' x : annotates l l' -> entry_ok seen ev l x -> entry_ok seen ev l' x.
Proof.
  intros Ha (H1 & H2 & H3 & H4 & cf & Hcf & Hon). split_and!; try done. exists cf.
  by rewrite (Ha t m d _).
Qed.

Lemma deletion_of_ok seen ev l row k :
  lg_find t m d k l = Some row -> isOnTarget (rstatus row) = true -> k ∉ seenAnywhere seen ->
  entry_ok seen ev l (deletion_of d row k ev).
Proof.
  intros Hf Hon Hk. split_and!; try done. exists (copy_facts row).
  unfold find_facts. simpl. rewrite Hf. done.
Qed.

Definition removals_inv seen (l : L) (st : list ItemDeletion * gset string) : Prop :=
  NoDup (id_naturalKeyHash <$> st.1) /\
  (forall x, x ∈ st.1 -> entry_ok seen reported l x /\ id_naturalKeyHash x ∈ st.2).

Lemma resolve_removal_delivers seen href st l :
  removals_inv seen l st ->
  delivers (resolve_removal t m d seen href st) l (fun st' l' => removals_inv seen l' st').
Proof.
  destruct st as [out done]. intros [Hnd Hok]. unfold resolve_removal.
  apply delivers_step; [reflexivity|]. cbn [fst snd].
  destruct (lg_findBySourceRef t m d href l) as [row|] eqn:Hf; [|by apply delivers_ret].
  apply law_findBySourceRef in Hf.
  destruct (isOnTarget (rstatus row)) eqn:Hon; cbn [negb]; [|by apply delivers_ret].
  case_bool_decide as Hseen; [by apply delivers_ret|].
  case_bool_decide as Hdone; [by apply delivers_ret|].
  assert (Hann := law_recordReportedDeletion t m d (naturalKeyHash row) l).
  apply delivers_step; [done|].
  destruct (lg_recordReportedDeletion _ _ _ _ l) as [b l1]; cbn [fst snd] in *.
  assert (Hkeep : removals_inv seen l1 (out, {[naturalKeyHash row]} ∪ done)).
  { split; [done|]. intros x Hx. destruct (Hok x Hx). split; [by eapply entry_ok_after|]. set_solver. }
  destruct b; cbn [negb]; [|by apply delivers_ret].
  destruct (defined _); [by apply delivers_ret|]. apply delivers_ret.
  destruct Hkeep as [_ Hkeep]. split; simpl.
  - rewrite fmap_app. simpl. apply NoDup_app. split_and!; [done| |apply NoDup_singleton].
    intros k Hk Hk'. apply list_elem_of_singleton in Hk'. subst k.
    apply list_elem_of_fmap in Hk as (x & Hkx & Hx). apply Hok in Hx as [_ Hx]. simpl in Hx. congruence.
  - intros x [Hx| ->%list_elem_of_singleton]%elem_of_app; [by apply Hkeep|].
    split; [|set_solver]. eapply entry_ok_after; [done|]. by apply deletion_of_ok.
Qed.

Lemma resolve_removals_delivers seen hrefs st l :
  removals_inv seen l st ->
  delivers (resolve_removals t m d seen hrefs st) l (fun st' l' => removals_inv seen l' st').
Proof.
  revert st l; induction hrefs as [|href hrefs IH]; intros st l Hinv; simpl; [by apply delivers_ret|].
  apply delivers_bind. eapply delivers_mono; [by apply resolve_removal_delivers|].
  intros st' l' _ Hinv'. by apply IH.
Qed.

Definition discards_inv seen (todo : list string) (l : L) (out : list ItemDeletion) : Prop :=
  NoDup (id_naturalKeyHash <$> out) /\
  (forall x, x ∈ out -> entry_ok seen trashed l x /\ id_naturalKeyHash x ∉ todo).

Lemma resolve_discards_delivers seen keys out l :
  NoDup keys -> discards_inv seen keys l out ->
  delivers (resolve_discards t m d seen keys out) l (fun out' l' =>
    discards_inv seen [] l' out' /\
    forall x, x ∈ out' -> x ∈ out \/ id_naturalKeyHash x ∈ keys).
Proof.
  revert out l; induction keys as [|k keys IH]; intros out l Hndk Hinv; simpl.
  { apply delivers_ret. split; [done|]. auto. }
  apply NoDup_cons in Hndk as [Hk Hndk].
  assert (Hweak : forall l', annotates l l' -> discards_inv seen keys l' out).
  { intros l' Ha. destruct Hinv as [Hnd Hok]. split; [done|]. intros x Hx. destruct (Hok x Hx) as [Ho Hn].
    split; [by eapply entry_ok_after|]. set_solver. }
  assert (Hskip : forall l', annotates l l' -> delivers (resolve_discards t m d seen keys out) l'
    (fun out' l'' => discards_inv seen [] l'' out' /\
       forall x, x ∈ out' -> x ∈ out \/ id_naturalKeyHash x ∈ k :: keys)).
  { intros l' Ha. eapply delivers_mono; [apply IH; [done|by apply Hweak]|].
    intros out' l'' _ [H1 H2]. split; [done|]. intros x Hx. apply H2 in Hx. set_solver. }
  unfold resolve_discard. case_bool_decide as Hseen; [by apply Hskip|].
  apply delivers_bind, delivers_step; [reflexivity|]. cbn [fst snd].
  destruct (lg_find t m d k l) as [row|] eqn:Hf; [|by apply delivers_ret, Hskip].
  destruct (isOnTarget (rstatus row)) eqn:Hon; cbn [negb]; [|by apply delivers_ret, Hskip].
  assert (Hann := law_recordTrashedDeletion t m d k l).
  apply delivers_step; [done|].
  destruct (lg_recordTrashedDeletion _ _ _ _ l) as [b l1]; cbn [fst snd] in *.
  destruct b; cbn [negb]; [|by apply delivers_ret, Hskip].
  destruct (defined _); [by apply delivers_ret, Hskip|]. apply delivers_ret.
  eapply delivers_mono; [apply IH; [done|]|].
  - destruct (Hweak l1 Hann) as [Hnd Hok]. split.
    + rewrite fmap_app. apply NoDup_app. split_and!; [done| |apply NoDup_singleton].
      intros k' Hk' Hk''. apply list_elem_of_singleton in Hk''. subst k'.
      apply list_elem_of_fmap in Hk' as (x & Hkx & Hx).
      destruct Hinv as [_ Hinv]. apply Hinv in Hx as [_ Hx]. simpl in *. set_solver.
    + intros x [Hx| ->%list_elem_of_singleton]%elem_of_app; [by apply Hok|]. split; [|done].
      eapply entry_ok_after; [done|]. by apply deletion_of_ok.
  - intros out' l'' _ [H1 H2]. split; [done|]. intros x Hx. apply H2 in Hx as [Hx|Hx]; [|set_solver].
    apply elem_of_app in Hx as [Hx| ->%list_elem_of_singleton]; [by left|]. right. by left.
Qed.
End annotating.

(** *** Arrivals are consumed *)

(** What an arrivals map still holds, as (hash, key, collection) triples. *)
Definition flat (ar : list (string * list (string * string))) : list (string * (string * string)) :=
  ar ≫= fun ha => (fun a => (ha.1, a)) <$> ha.2.

Definition arrival_of (c : CreatedItem) : string * (string * string) :=
  (ci_contentHash c, (ci_naturalKeyHash c, ci_collection c)).

Definition hashed (c : CreatedItem) : Prop := ci_contentHash c <> ""%string.

Lemma flat_cons h as_ ar : flat ((h, as_) :: ar) = ((fun a => (h, a)) <$> as_) ++ flat ar.
Proof. done. Qed.

Lemma flat_set h new ar :
  flat (js_map_set h new ar) ++ ((fun a => (h, a)) <$> nullish (js_map_get h ar) []) ≡ₚ
  ((fun a => (h, a)) <$> new) ++ flat ar.
Proof.
  induction ar as [|[h' as_] ar IH]; simpl js_map_set; simpl js_map_get.
  { rewrite !flat_cons. simpl. by rewrite app_nil_r. }
  case_decide as Heq.
  - subst h'. change (nullish (Some as_) []) with as_. rewrite !flat_cons. solve_Permutation.
  - rewrite !flat_cons, <- app_assoc, IH. solve_Permutation.
Qed.

Lemma flat_arrivals_of created :
  flat (arrivals_of created) ≡ₚ arrival_of <$> base.filter hashed created.
Proof.
  unfold arrivals_of. change (arrival_of <$> base.filter hashed created)
    with (flat [] ++ (arrival_of <$> base.filter hashed created)).
  generalize ([] : list (string * list (string * string))).
  induction created as [|c created IH]; intros ar; simpl fold_left; [by rewrite app_nil_r|].
  rewrite IH, filter_cons.
  destruct (String.eqb_spec (ci_contentHash c) "") as [He|Hne].
  - rewrite decide_False by (unfold hashed; tauto). done.
  - rewrite decide_True by done. rewrite fmap_cons.
    set (h := ci_contentHash c). set (cur := nullish (js_map_get h ar) []).
    pose proof (flat_set h (cur ++ [(ci_naturalKeyHash c, ci_collection c)]) ar) as Hp.
    fold cur in Hp. rewrite fmap_app in Hp.
    assert (Hp' : flat (js_map_set h (cur ++ [(ci_naturalKeyHash c, ci_collection c)]) ar)
                  ≡ₚ flat ar ++ [arrival_of c]).
    { apply (Permutation_app_inv_r ((fun a => (h, a)) <$> cur)). rewrite Hp. unfold arrival_of. fold h.
      simpl. solve_Permutation. }
    rewrite Hp', <- app_assoc. done.
Qed.

Lemma flat_take h a rest ar :
  js_map_get h ar = Some (a :: rest) -> flat ar ≡ₚ (h, a) :: flat (js_map_set h rest ar).
Proof.
  intros Hg. pose proof (flat_set h rest ar) as Hp. rewrite Hg in Hp. simpl in Hp.
  apply (Permutation_app_inv_l ((fun a => (h, a)) <$> rest)). rewrite <- Hp. solve_Permutation.
Qed.

Section detection.
Context {L : Type} `{LL : LedgerLaws L}.
Variables (t m : string) (d : domain).

(** A placed row that is neither applied nor where it was. *)
Definition gone (seen : seen_map) (row : PlacedItem) : Prop :=
  pi_deletionAppliedAt row = None /\ seen_in seen (pi_collection row) (pi_naturalKeyHash row) = false.

(** A move remembered from an earlier pass, and not yet answered. *)
Definition remembered (seen : seen_map) (row : PlacedItem) (mv : ItemMove) : Prop :=
  gone seen row /\ pi_moveAcknowledgedAt row = None /\
  exists to, pi_movedToCollection row = Some to /\ mv = move_entry d row to (pi_movedToNaturalKeyHash row).

(** A move discovered on this pass: the row and the arrival that explains it. *)
Definition discovered (seen : seen_map) (row : PlacedItem) (a : string * (string * string)) (mv : ItemMove)
    : Prop :=
  gone seen row /\ pi_movedToCollection row = None /\
  pi_contentHash row <> ""%string /\ a.1 = pi_contentHash row /\
  mv = move_entry d row a.2.2 (Some a.2.1).

(** An absence nothing explains, repeated often enough to be shown. *)
Definition counted_out (seen : seen_map) (row : PlacedItem) (x : ItemDeletion) : Prop :=
  gone seen row /\ pi_movedToCollection row = None /\ pi_deletionAcknowledgedAt row = None /\
  id_naturalKeyHash x = pi_naturalKeyHash row /\ id_evidence x = inferred /\
  DELETION_CONFIRMATIONS <= id_absentPasses x.

(** The account of the rows processed so far: every move and deletion comes
    from one of them, and the discovered ones have used up their arrivals. *)
Record accounted (seen : seen_map) (rows : list PlacedItem) (ar0 : list (string * list (string * string)))
    (x : detection) : Prop := {
  ac_moves : exists used : list (string * (string * string)),
    used ++ flat (dt_arrivals x) ≡ₚ flat ar0 /\
    exists news, length news = length used /\
      (forall mv, mv ∈ dt_moves x -> mv ∈ news \/ exists row, row ∈ rows /\ remembered seen row mv) /\
      Forall2 (fun a mv => exists row, row ∈ rows /\ discovered seen row a mv) used news;
  ac_deletions : forall y, y ∈ dt_deletions x -> exists row, row ∈ rows /\ counted_out seen row y;
  ac_drift : 0 <= dt_drift x <= Z.of_nat (length rows)
}.

Lemma remembered_more seen rows row ar0 x :
  accounted seen rows ar0 x -> accounted seen (rows ++ [row]) ar0 x.
Proof.
  intros [(used & Hp & news & Hl & Hm & Hf) Hd [? ?]]. split.
  - exists used. split; [done|]. exists news. split; [done|]. split.
    + intros mv Hmv. destruct (Hm mv Hmv) as [?|(r & ? & ?)]; [by left|].
      right. exists r. set_solver.
    + eapply Forall2_impl; [done|]. intros a mv (r & ? & ?). exists r. set_solver.
  - intros y Hy. destruct (Hd y Hy) as (r & ? & ?). exists r. set_solver.
  - rewrite length_app. simpl. lia.
Qed.

Lemma still_there_delivers row l : delivers (still_there t m d row) l (fun _ _ => True).
Proof.
  unfold still_there. apply delivers_bind. eapply (delivers_mono _ _ (fun _ _ => True)).
  - destruct (defined _); [|by apply delivers_ret]. apply delivers_act; [apply law_clearMove|done].
  - intros [] l1 _ _. destruct (negb _); [|by apply delivers_ret].
    apply delivers_act; [apply law_clearAbsent|done].
Qed.

Lemma detect_row_delivers seen rows row ar0 x l :
  accounted seen rows ar0 x ->
  delivers (detect_row t m d seen row x) l (fun x' _ => accounted seen (rows ++ [row]) ar0 x').
Proof.
  intros Hac. pose proof (remembered_more _ _ row _ _ Hac) as Hmore. unfold detect_row.
  destruct (defined (pi_deletionAppliedAt row)) eqn:Happ; [by apply delivers_ret|].
  apply defined_false in Happ.
  destruct (seen_in seen _ _) eqn:Hseen.
  { apply delivers_bind. eapply delivers_mono; [apply still_there_delivers|].
    intros [] l1 _ _. by apply delivers_ret. }
  assert (Hgone : gone seen row) by done.
  destruct (pi_movedToCollection row) as [to|] eqn:Hmv.
  - apply delivers_ret. destruct (defined (pi_moveAcknowledgedAt row)) eqn:Hack; simpl; [done|].
    apply defined_false in Hack. destruct Hmore as [(used & Hp & news & Hl & Hm & Hf) Hd Hdr].
    split; [|done|done]. exists used. split; [done|]. exists news. split; [done|]. split; [|done].
    intros mv [Hin| ->%list_elem_of_singleton]%elem_of_app; [by apply Hm|].
    right. exists row. split; [set_solver|]. split; [done|]. split; [done|]. by exists to.
  - unfold candidates_for. destruct (String.eqb_spec (pi_contentHash row) "") as [He|Hne].
    2: destruct (js_map_get (pi_contentHash row) (dt_arrivals x)) as [[|[toKey to] rest]|] eqn:Hg.
    3:{ apply delivers_bind, delivers_act; [apply law_recordMove|]. apply delivers_ret.
        destruct Hmore as [(used & Hp & news & Hl & Hm & Hf) Hd Hdr]. split; simpl; [|done|done].
        exists (used ++ [(pi_contentHash row, (toKey, to))]). split.
        - rewrite <- Hp, (flat_take _ _ _ _ Hg). solve_Permutation.
        - exists (news ++ [move_entry d row to (Some toKey)]). rewrite !length_app. split; [simpl; lia|]. split.
          + intros mv [Hin| ->%list_elem_of_singleton]%elem_of_app; [|set_solver].
            destruct (Hm mv Hin) as [?|?]; [left; set_solver|by right].
          + apply Forall2_app; [done|]. constructor; [|done]. exists row. split; [set_solver|done]. }
    all: unfold count_absence; apply delivers_step; [apply law_recordAbsent|];
      destruct ((DELETION_CONFIRMATIONS <=? _) && _) eqn:Hc; apply delivers_ret;
      destruct Hmore as [Hmm Hd Hdr]; destruct Hac as [_ _ Hdr0];
      (split; [exact Hmm| |cbn; rewrite length_app; cbn [length]; lia]); simpl; try done;
      intros y [Hin| ->%list_elem_of_singleton]%elem_of_app; [by apply Hd|];
      apply andb_true_iff in Hc as [Hc1%Z.leb_le Hc2%negb_true_iff%defined_false];
      exists row; split; [set_solver|done].
Qed.

Lemma detect_rows_delivers seen rows done ar0 x l :
  accounted seen done ar0 x ->
  delivers (detect_rows t m d seen rows x) l (fun x' _ => accounted seen (done ++ rows) ar0 x').
Proof.
  revert done x l; induction rows as [|row rows IH]; intros done x l Hac; simpl.
  { apply delivers_ret. by rewrite app_nil_r. }
  apply delivers_bind. eapply delivers_mono; [by apply detect_row_delivers|].
  intros x' l1 _ Hac'. replace (done ++ row :: rows) with ((done ++ [row]) ++ rows)
    by (by rewrite <- app_assoc). by apply IH.
Qed.
End detection.

(** *** Merging *)

Definition entry_of (acc : list (string * ItemDeletion)) (ds : list ItemDeletion) : Prop :=
  NoDup acc.*1 /\
  (forall k x, js_map_get k acc = Some x ->
     id_naturalKeyHash x = k /\
     (exists y, y ∈ ds /\ id_naturalKeyHash y = k /\ x = y <| id_absentPasses := id_absentPasses x |>) /\
     forall y, y ∈ ds -> id_naturalKeyHash y = k ->
       rank (id_evidence y) <= rank (id_evidence x) /\ id_absentPasses y <= id_absentPasses x) /\
  (forall y, y ∈ ds -> is_Some (js_map_get (id_naturalKeyHash y) acc)).

Lemma merge_deletion_spec held new :
  (exists y, (y = held \/ y = new) /\
     merge_deletion held new = y <| id_absentPasses := id_absentPasses (merge_deletion held new) |>) /\
  rank (id_evidence held) <= rank (id_evidence (merge_deletion held new)) /\
  rank (id_evidence new) <= rank (id_evidence (merge_deletion held new)) /\
  id_absentPasses (merge_deletion held new) = Z.max (id_absentPasses new) (id_absentPasses held).
Proof.
  unfold merge_deletion.
  destruct (Z.ltb_spec (rank (id_evidence held)) (rank (id_evidence new)));
    destruct (Z.eqb_spec (Z.max (id_absentPasses new) (id_absentPasses held))
                (id_absentPasses (if decide (rank (id_evidence held) < rank (id_evidence new)) then new else held)))
    as [He|He]; case_decide; try lia; rewrite ?(proj2 (Z.eqb_eq _ _) He), ?(proj2 (Z.eqb_neq _ _) He).
  all: split; [|simpl; lia].
  1: exists new; split; [by right|]; by destruct new.
  1: exists new; split; [by right|]; by destruct new.
  1: exists held; split; [by left|]; by destruct held.
  1: exists held; split; [by left|]; by destruct held.
Qed.

Lemma strongest_step acc ds new :
  entry_of acc ds ->
  entry_of (match js_map_get (id_naturalKeyHash new) acc with
            | None => js_map_set (id_naturalKeyHash new) new acc
            | Some held => js_map_set (id_naturalKeyHash new) (merge_deletion held new) acc
            end) (ds ++ [new]).
Proof.
  intros (Hnd & Hget & Hall). set (k := id_naturalKeyHash new).
  assert (Hset : forall x, id_naturalKeyHash x = k ->
    (exists y, y ∈ ds ++ [new] /\ id_naturalKeyHash y = k /\ x = y <| id_absentPasses := id_absentPasses x |>) ->
    (forall y, y ∈ ds ++ [new] -> id_naturalKeyHash y = k ->
       rank (id_evidence y) <= rank (id_evidence x) /\ id_absentPasses y <= id_absentPasses x) ->
    entry_of (js_map_set k x acc) (ds ++ [new])).
  { intros x Hk Hex Hub. split_and!; [by apply NoDup_js_map_set| |].
    - intros k' x'. destruct (decide (k = k')) as [<-|Hne].
      + rewrite js_map_get_set_eq. intros [= <-]. by split_and!.
      + rewrite js_map_get_set_ne by done. intros Hg. destruct (Hget k' x' Hg) as (H1 & (y & Hy & H2) & H3).
        split_and!; [done|exists y; set_solver|]. intros z [Hz| ->%list_elem_of_singleton]%elem_of_app Hkz;
          [by apply H3|done].
    - intros y Hy. destruct (decide (k = id_naturalKeyHash y)) as [<-|Hne].
      + rewrite js_map_get_set_eq. by eexists.
      + rewrite js_map_get_set_ne by done. apply elem_of_app in Hy as [Hy| ->%list_elem_of_singleton];
          [by apply Hall|done]. }
  destruct (js_map_get k acc) as [held|] eqn:Hh.
  - destruct (Hget k held Hh) as (Hk & (y0 & Hy0 & Hk0 & Heq0) & Hub).
    destruct (merge_deletion_spec held new) as ((y & Hy & Heq) & H1 & H2 & H3).
    apply Hset.
    + rewrite Heq. by destruct Hy as [->| ->].
    + destruct Hy as [->| ->].
      * exists y0. split; [set_solver|]. split; [done|]. rewrite Heq, Heq0. by destruct y0.
      * exists new. split; [set_solver|]. by split.
    + intros z [Hz| ->%list_elem_of_singleton]%elem_of_app Hkz; [|lia].
      destruct (Hub z Hz Hkz). lia.
  - apply Hset; [done| |].
    + exists new. split; [set_solver|]. split; [done|]. by destruct new.
    + intros z [Hz| ->%list_elem_of_singleton]%elem_of_app Hkz; [|lia].
      destruct (Hall z Hz) as [? Hz']. rewrite Hkz in Hz'. congruence.
Qed.

Lemma strongest_entries ds : entry_of (strongest ds) ds.
Proof.
  unfold strongest. cut (forall done acc, entry_of acc done -> entry_of (fold_left (fun acc x =>
      match js_map_get (id_naturalKeyHash x) acc with
      | None => js_map_set (id_naturalKeyHash x) x acc
      | Some held => js_map_set (id_naturalKeyHash x) (merge_deletion held x) acc
      end) ds acc) (done ++ ds)).
  { intros H. apply (H []). split_and!; [constructor|done|set_solver]. }
  induction ds as [|x ds IH]; intros done acc Hacc; simpl; [by rewrite app_nil_r|].
  replace (done ++ x :: ds) with ((done ++ [x]) ++ ds) by (by rewrite <- app_assoc).
  apply IH. by apply strongest_step.
Qed.

(** ** Theorems *)

(** Whatever the three detectors found, an item is reported once: one entry
    per natural key, for exactly the keys that were found, carrying the strongest
    evidence any detector had and the highest count any of them saw. *)
Theorem reportedDeletions_one_per_item ds :
  NoDup (id_naturalKeyHash <$> reportedDeletions ds) /\
  (forall k, k ∈ (id_naturalKeyHash <$> reportedDeletions ds) <-> k ∈ (id_naturalKeyHash <$> ds)) /\
  (forall x, x ∈ reportedDeletions ds ->
     (exists y, y ∈ ds /\ id_naturalKeyHash y = id_naturalKeyHash x /\
        x = y <| id_absentPasses := id_absentPasses x |>) /\
     forall y, y ∈ ds -> id_naturalKeyHash y = id_naturalKeyHash x ->
       rank (id_evidence y) <= rank (id_evidence x) /\ id_absentPasses y <= id_absentPasses x).
Proof.
  destruct (strongest_entries ds) as (Hnd & Hget & Hall). unfold reportedDeletions.
  assert (Hkeys : id_naturalKeyHash <$> (strongest ds).*2 = (strongest ds).*1).
  { rewrite <- list_fmap_compose. apply list_fmap_ext. intros i [k x] Hi. simpl.
    apply list_elem_of_lookup_2, js_map_get_elem_of in Hi; [|done]. by apply Hget in Hi as [? _]. }
  assert (Hin : forall x, x ∈ (strongest ds).*2 -> js_map_get (id_naturalKeyHash x) (strongest ds) = Some x).
  { intros x ([k x'] & -> & Hx)%list_elem_of_fmap. apply js_map_get_elem_of in Hx; [|done].
    simpl. by destruct (Hget k x' Hx) as [-> _]. }
  split_and!.
  - by rewrite Hkeys.
  - intros k. split.
    + intros (x & -> & Hx)%list_elem_of_fmap. apply Hin, Hget in Hx as (_ & (y & Hy & <- & _) & _).
      by apply list_elem_of_fmap_2.
    + intros (y & -> & Hy)%list_elem_of_fmap. destruct (Hall y Hy) as [x Hx]. rewrite Hkeys.
      apply js_map_get_elem_of in Hx; [|done]. apply list_elem_of_fmap. by eexists (_, _).
  - intros x Hx. apply Hin, Hget in Hx as (_ & Hex & Hub). done.
Qed.

Section detector_theorems.
Context {L : Type} `{LL : LedgerLaws L}.

(** The two positive detectors refuse everything that could report a live
    item as deleted.  Each entry is for an item whose copy is on the target and
    whose key no folder of this pass listed; no item is reported twice; a bin
    entry is only reported for a key that is in the bin; and recording the
    evidence changes nothing any row says of its copy.  Neither can throw. *)
Theorem positive_detectors_refuse_the_living t m d removals discarded seen (l : L) :
  (exists out l', run (resolveReportedRemovals t m d removals seen) l = (inr out, l') /\
     annotates l l' /\ NoDup (id_naturalKeyHash <$> out) /\
     forall x, x ∈ out -> entry_ok t m d seen reported l x) /\
  (exists out l', run (resolveDiscardedItems t m d discarded seen) l = (inr out, l') /\
     annotates l l' /\ NoDup (id_naturalKeyHash <$> out) /\
     forall x, x ∈ out -> entry_ok t m d seen trashed l x /\ id_naturalKeyHash x ∈ discarded).
Proof.
  split.
  - destruct (resolve_removals_delivers t m d seen (js_dedup removals) ([], ∅) l)
      as (st & l' & Hrun & Ha & Hnd & Hok); [split; [constructor|set_solver]|].
    exists st.1, l'. unfold resolveReportedRemovals. rewrite run_bind, Hrun. split_and!; try done.
    intros x Hx. eapply entry_ok_before; [done|]. by apply Hok.
  - destruct (resolve_discards_delivers t m d seen (js_dedup discarded) [] l)
      as (out & l' & Hrun & Ha & [Hnd Hok] & Hin);
      [apply NoDup_js_dedup|split; [constructor|set_solver]|].
    exists out, l'. split_and!; try done. intros x Hx. split.
    + eapply entry_ok_before; [done|]. by apply Hok.
    + apply Hin in Hx as [Hx|Hx]; [set_solver|]. by rewrite elem_of_js_dedup in Hx.
Qed.

(** An arrival explains one disappearance.  The moves the path-keyed
    detector discovers are matched one to one with distinct items created this
    pass carrying the same non-empty content hash; every other move it reports
    is one remembered from an earlier pass; every deletion is an unexplained
    absence seen at least [DELETION_CONFIRMATIONS] times and not yet answered;
    and nothing any row says of its copy changes. *)
Theorem arrivals_explain_one_move_each t m d seen created (l : L) :
  exists x l', run (detectPathKeyedMoves t m d seen created) l = (inr x, l') /\ annotates l l' /\
  (exists (used : list CreatedItem) news, used ⊆+ created /\ length news = length used /\
     Forall2 (fun c mv => exists row, row ∈ lg_placedItems t m d l /\ hashed c /\
                discovered d seen row (arrival_of c) mv) used news /\
     forall mv, mv ∈ dt_moves x -> mv ∈ news \/
       exists row, row ∈ lg_placedItems t m d l /\ remembered d seen row mv) /\
  (forall y, y ∈ dt_deletions x -> exists row, row ∈ lg_placedItems t m d l /\ counted_out seen row y).
Proof.
  destruct (detect_rows_delivers t m d seen (lg_placedItems t m d l) [] (arrivals_of created)
              (mkDetection [] [] 0 (arrivals_of created)) l) as (x & l' & Hrun & Ha & Hac).
  { split; simpl; [|set_solver|lia]. exists []. split; [done|]. exists []. split_and!; [done|set_solver|constructor]. }
  exists x, l'. split; [exact Hrun|]. split; [done|].
  destruct Hac as [(used & Hp & news & Hl & Hm & Hf) Hd _]. split; [|exact Hd].
  rewrite flat_arrivals_of in Hp.
  destruct (Permutation_map_inv _ _ Hp) as (l3 & Heq & Hperm).
  destruct (fmap_app_inv arrival_of l3 used _ (eq_sym Heq)) as (cs & cs' & -> & _ & ->).
  exists cs, news. split_and!.
  - etrans; [|apply sublist_submseteq, (sublist_filter hashed)]. rewrite Hperm. by apply submseteq_inserts_r.
  - by rewrite Hl, length_fmap.
  - apply Forall2_fmap_l in Hf. eapply Forall2_impl; [exact Hf|].
    intros c mv (row & Hrow & Hdisc). exists row. split; [done|]. split; [|done].
    destruct Hdisc as (_ & _ & Hne & Hh & _). unfold hashed. simpl in Hh. congruence.
  - exact Hm.
Qed.
End detector_theorems.

(** ** What every detector respects

    A property of the ledger that annotations keep, that clearing a move keeps,
    and that giving a destination to a placed row keeps, is kept by all three. *)
Section respect.
Context {L : Type} `{LL : LedgerLaws L}.
Variables (t m : string) (d : domain) (I : L -> Prop) (may_move : PlacedItem -> Prop).

Record detectors_respect : Prop := {
  dr_annotate l l' : I l -> annotates l l' -> pins l l' -> I l';
  dr_clearMove k l : I l -> I (lg_clearMove t m d k l);
  dr_placed l : I l -> Forall may_move (lg_placedItems t m d l);
  dr_recordMove row to o l : may_move row -> pi_deletionAppliedAt row = None -> I l ->
    I (lg_recordMove t m d (pi_naturalKeyHash row) to o l)
}.

Hypothesis DR : detectors_respect.

Abbreviation keeps_I := (keeps (E:=string) I).

Lemma act_keeps {A} (f : L -> A * L) (Q : A -> Prop) :
  (forall l, I l -> I (snd (f l)) /\ Q (fst (f l))) -> keeps_I (act f) Q.
Proof. done. Qed.

Lemma annotating_keeps {A} (f : L -> A * L) :
  (forall l, annotates l (snd (f l))) -> (forall l, pins l (snd (f l))) ->
  keeps_I (act f) (fun _ => True).
Proof. intros Ha Hp. apply act_keeps. intros l Hl. split; [by eapply dr_annotate|done]. Qed.

Lemma resolve_removals_keeps seen hrefs st :
  keeps_I (resolve_removals t m d seen hrefs st) (fun _ => True).
Proof.
  revert st; induction hrefs as [|href hrefs IH]; intros st; simpl; [done|].
  eapply (keeps_bind _ _ _ (fun _ => True)); [|intros st' _; apply IH]. destruct st as [out done_]. unfold resolve_removal.
  eapply (keeps_bind _ _ _ (fun _ => True)); [by apply act_keeps|]. intros [row|] _; [|done].
  destruct (negb _); [done|]. case_bool_decide; [done|]. case_bool_decide; [done|].
  eapply (keeps_bind _ _ _ (fun _ => True)).
  - apply annotating_keeps; intros l; [apply law_recordReportedDeletion|apply law_recordReportedDeletion_pins].
  - intros b _. repeat case_match; done.
Qed.

Lemma resolve_discards_keeps seen keys out :
  keeps_I (resolve_discards t m d seen keys out) (fun _ => True).
Proof.
  revert out; induction keys as [|k keys IH]; intros out; simpl; [done|].
  eapply (keeps_bind _ _ _ (fun _ => True)); [|intros out' _; apply IH]. unfold resolve_discard. case_bool_decide; [done|].
  eapply (keeps_bind _ _ _ (fun _ => True)); [by apply act_keeps|]. intros [row|] _; [|done].
  destruct (negb _); [done|]. eapply (keeps_bind _ _ _ (fun _ => True)).
  - apply annotating_keeps; intros l; [apply law_recordTrashedDeletion|apply law_recordTrashedDeletion_pins].
  - intros b _. repeat case_match; done.
Qed.

Lemma detect_row_keeps seen row x :
  may_move row -> keeps_I (detect_row t m d seen row x) (fun _ => True).
Proof.
  intros Hok. unfold detect_row. destruct (defined (pi_deletionAppliedAt row)) eqn:Happ; [done|].
  apply defined_false in Happ. destruct (seen_in _ _ _).
  - eapply (keeps_bind _ _ _ (fun _ => True)); [|done]. unfold still_there.
    eapply (keeps_bind _ _ _ (fun _ => True)).
    + destruct (defined _); [|done]. apply act_keeps. intros l Hg. split; [by apply dr_clearMove|done].
    + intros [] _. destruct (negb _); [|done]. apply act_keeps. intros l Hg.
      split; [|done]. eapply dr_annotate; [done..|apply law_clearAbsent|apply law_clearAbsent_pins].
  - destruct (pi_movedToCollection row); [done|]. destruct (candidates_for _ _) as [|[k to] rest].
    + unfold count_absence. eapply (keeps_bind _ _ _ (fun _ => True)).
      * apply annotating_keeps; intros l; [apply law_recordAbsent|apply law_recordAbsent_pins].
      * intros n _. by destruct (_ && _).
    + cbv zeta. eapply (keeps_bind _ _ _ (fun _ => True)); [|done].
      apply act_keeps. intros l Hg. split; [|done]. by apply dr_recordMove.
Qed.

Lemma detectPathKeyedMoves_keeps seen arrivals :
  keeps_I (detectPathKeyedMoves t m d seen arrivals) (fun _ => True).
Proof.
  unfold detectPathKeyedMoves. eapply (keeps_bind _ _ _ (Forall may_move)).
  { apply act_keeps. intros l Hg. split; [done|]. by apply dr_placed. }
  intros rows. generalize (mkDetection [] [] 0 (arrivals_of arrivals)).
  induction rows as [|row rows IH]; intros x Hrows; simpl; [done|].
  apply Forall_cons in Hrows as [Hr Hrows].
  eapply keeps_bind; [by apply detect_row_keeps|]. intros x' _. by apply IH.
Qed.
End respect.

(** Witnesses, on the PostgreSQL ledger. *)
Lemma scan_in_key_order (mm : gmap (string * string * string) Ledger.item_row) :
  map_to_list mm ≡ₚ map_to_list mm.
Proof. done. Qed.

Definition two_files : Ledger.PgState :=
  snd (Ledger.recordIfAbsent (Ledger.sample_record "t" "m" File "b" "h" copied)
        (snd (Ledger.recordIfAbsent (Ledger.sample_record "t" "m" File "a" "h" copied)
                Ledger.empty_ledger))).

(** Two files with the same bytes are gone and one has arrived. *)
Lemma arrivals_explain_one_move_each_witness :
  exists x l', run (detectPathKeyedMoves (H:=Ledger.pg_ledger map_to_list) "t" "m" File ∅
                      [mkCreatedItem "c" "h" "New"]%string) two_files = (inr x, l') /\
    (length (dt_moves x) = 1%nat) /\ dt_drift x = 1 /\
    exists used : list CreatedItem, used ⊆+ [mkCreatedItem "c" "h" "New"]%string.
Proof.
  destruct (arrivals_explain_one_move_each (LL:=Ledger.pg_ledger_laws map_to_list scan_in_key_order)
              "t" "m" File ∅ [mkCreatedItem "c" "h" "New"]%string two_files)
    as (x & l' & Hrun & _ & (used & news & Hsub & _) & _).
  exists x, l'. split; [exact Hrun|].
  assert (Hx : fst (run (detectPathKeyedMoves (H:=Ledger.pg_ledger map_to_list) "t" "m" File ∅
                      [mkCreatedItem "c" "h" "New"]%string) two_files) = inr x) by (rewrite Hrun; reflexivity).
  vm_compute in Hx. injection Hx as <-. split; [reflexivity|]. split; [reflexivity|].
  exists used. exact Hsub.
Defined.

Lemma positive_detectors_refuse_the_living_witness :
  exists out l', run (resolveDiscardedItems (H:=Ledger.pg_ledger map_to_list) "t" "m" File ["a"; "z"; "a"]%string ∅)
                   two_files = (inr out, l') /\ NoDup (id_naturalKeyHash <$> out).
Proof.
  destruct (positive_detectors_refuse_the_living (LL:=Ledger.pg_ledger_laws map_to_list scan_in_key_order)
              "t" "m" File [] ["a"; "z"; "a"]%string ∅ two_files) as [_ (out & l' & Hrun & _ & Hnd & _)].
  exists out, l'. split; [exact Hrun|exact Hnd].
Defined.
