(* ===== verification/DomainSync.v ===== *)
(** * One pass over a domain ([packages/core/src/domain-sync.ts])

    [runDomainSync]: folders one after the other, the items of a folder through
    the bounded pool, then the detectors.  The world of a pass is the ledger,
    everything outside the process (the source and the target), the cursor
    store of the mapping, and the variables the pass's closures share.  The
    source, the target and the domain's own functions are the fields of
    [DomainSyncDeps], as they are in the code. *)

From S2P Require Import Prelude Prog Concurrency Ports Detectors.

Open Scope Z_scope.

Definition ABORT_AFTER_CONSECUTIVE_FAILURES : Z := 25.

(** An error value: an ordinary one, or the [PassAbortError] that ends the pass. *)
Inductive err := ItemError (message : string) | PassAbort (message : string).

(** ** What a pass owes an item the ledger knows *)

Inductive KnownItemAction :=
| skip | record_version | rewrite | relocated_away | leave_adopted | moved | retry_failed
| needs_decision | left_behind_action | tombstoned_action.

#[export] Instance KnownItemAction_eq_dec : EqDecision KnownItemAction.
Proof. solve_decision. Defined.

(** Both collections known, and different. *)
Definition topology_changed (known : LedgerRecord) (coll : option string) : bool :=
  match truthy coll, truthy (collection known) with
  | Some c, Some c' => negb (String.eqb c' c)
  | _, _ => false
  end.

Definition classifyKnownItem (known : LedgerRecord) (version : option string) (coll : option string)
    : KnownItemAction :=
  if bool_decide (rstatus known = Some left_behind) then left_behind_action
  else if bool_decide (rstatus known = Some tombstoned)
  then if defined (movedToNaturalKeyHash known) then relocated_away else tombstoned_action
  else if bool_decide (rstatus known = Some failed)
  then if MAX_ITEM_ATTEMPTS <=? nullish (attemptCount known) 0 then needs_decision else retry_failed
  else if topology_changed known coll then moved
  else match version with
  | None => skip
  | Some v =>
      match sourceVersion known with
      | None => record_version
      | Some v' =>
          if String.eqb v' v then skip
          else if bool_decide (rstatus known = Some adopted) then leave_adopted
          else rewrite
      end
  end.

Definition decided (row : LedgerRecord) (to : string) (toKey : option string) : bool :=
  bool_decide (movedToCollection row = Some to)
  && bool_decide (movedToNaturalKeyHash row = toKey)
  && defined (moveAcknowledgedAt row).

(** [FolderLike], and the name its collection is known by. *)
Record Folder := mkFolder { fo_path : option string; fo_name : option string }.

#[export] Instance Folder_eq_dec : EqDecision Folder.
Proof. solve_decision. Defined.

Definition collectionPath (f : Folder) : string :=
  match truthy (fo_path f), truthy (fo_name f) with
  | Some p, _ => p
  | None, Some n => n
  | None, None => "/"%string
  end.

(** ** The state of a pass *)

Record PassState := mkPassState {
  scanned : Z; created : Z; skipped : Z; adopted_count : Z; failed_count : Z; updated_count : Z;
  needsDecision : Z; leftBehind : Z; reappearedAfterRemoval : Z; consecutiveFailures : Z;
  changedButAdopted : Z; moved_count : Z; conflicted : Z; drift : Z;
  failures : list ItemFailure;
  moves : list ItemMove;
  deletions : list ItemDeletion;
  unplaceableDiscards : option (Z * option string);
  reportedRemovals : list string;
  seenByCollection : gmap string (gset string);
  createdThisPass : list CreatedItem;
  fullyEnumerated : bool
}.

#[export] Instance eta_PassState : Eta PassState := fun s =>
  mkPassState (scanned s) (created s) (skipped s) (adopted_count s) (failed_count s) (updated_count s)
    (needsDecision s) (leftBehind s) (reappearedAfterRemoval s) (consecutiveFailures s)
    (changedButAdopted s) (moved_count s) (conflicted s) (drift s) (failures s) (moves s) (deletions s)
    (unplaceableDiscards s) (reportedRemovals s) (seenByCollection s) (createdThisPass s)
    (fullyEnumerated s).

Definition initial_pass : PassState :=
  mkPassState 0 0 0 0 0 0 0 0 0 0 0 0 0 0 [] [] [] None [] ∅ [] true.

Definition see (coll key : string) (p : PassState) : PassState :=
  p <| seenByCollection ::= fun seen => <[coll := {[ key ]} ∪ nullish (seen !! coll) ∅]> seen |>.

(** What the pass answers, besides its counters as they stand at the end. *)
Record DomainSyncResult := mkDomainSyncResult {
  rs_counters : PassState;
  rs_deletions : list ItemDeletion
}.

Section domain_sync.
Context {L Env Item Raw : Type} `{Ledger L}.

Record World := mkWorld {
  w_ledger : L;
  w_env : Env;
  w_cursors : gmap string string;
  w_pass : PassState
}.

#[export] Instance eta_World : Eta World := fun w =>
  mkWorld (w_ledger w) (w_env w) (w_cursors w) (w_pass w).

Abbreviation program := (prog World err).

Record Listing := mkListing {
  ls_items : list Item;
  ls_nextCursor : string;
  ls_removed : option (list string)
}.

Record DomainSyncDeps := mkDomainSyncDeps {
  ds_tenantId : string;
  ds_mappingId : string;
  ds_domain : domain;
  ds_cursors : bool;
  ds_concurrency : option Z;
  ds_listFolders : Env -> (string + list Folder) * Env;
  ds_listSince : Folder -> option string -> Env -> (string + Listing) * Env;
  ds_fetchRaw : Item -> Env -> (string + Raw * Z) * Env;
  ds_upsert : string -> Raw -> Item -> UpsertOptions -> prog (L * Env) string UpsertResult;
  ds_sourceVersion : Item -> option string;
  ds_sourceRef : Item -> option string;
  ds_naturalKey : Item -> option string;
  ds_listCollectionKeys : option (Folder -> Env -> (string + list string) * Env);
  ds_listDiscardedKeys : option (Env -> (string + DiscardedListing) * Env);
  ds_naturalKeyFromRaw : option (Item -> Raw -> string);
  ds_contentHash : Raw -> string;
  ds_failOnCollision : bool;
  ds_ensureCollection : Folder -> Env -> (string + string) * Env;
  ds_now : Env -> instant
}.

Variable deps : DomainSyncDeps.

Abbreviation tenant := (ds_tenantId deps).
Abbreviation mapping := (ds_mappingId deps).
Abbreviation dom := (ds_domain deps).

(** The atomic steps: a ledger query, a ledger statement, one that may reject,
    a call outside, an update of the pass's variables. *)
Definition ask {A} (q : L -> A) : program A := act (fun w => (q (w_ledger w), w)).
Definition tell (u : L -> L) : program unit := upd (fun w => w <| w_ledger ::= u |>).
Definition tell_or_throw {A} (u : L -> (string + A) * L) : program A :=
  try_act (fun w => let '(r, l) := u (w_ledger w) in
    (match r with inl e => inl (ItemError e) | inr a => inr a end, w <| w_ledger := l |>)).
Definition call {A} (f : Env -> (string + A) * Env) : program A :=
  try_act (fun w => let '(r, e) := f (w_env w) in
    (match r with inl e => inl (ItemError e) | inr a => inr a end, w <| w_env := e |>)).
Definition note (f : PassState -> PassState) : program unit := upd (fun w => w <| w_pass ::= f |>).
Definition recall {A} (q : PassState -> A) : program A := act (fun w => (q (w_pass w), w)).
Definition the_time : program instant := act (fun w => (ds_now deps (w_env w), w)).

(** A program of the writers, which see the ledger and the outside. *)
Fixpoint writer {A} (p : prog (L * Env) string A) : program A :=
  match p with
  | Ret a => Ret a
  | Throw e => Throw (ItemError e)
  | Act f k => Act (fun w => let '(b, le) := f (w_ledger w, w_env w) in
                             (b, w <| w_ledger := le.1 |> <| w_env := le.2 |>))
                   (fun b => writer (k b))
  end.

(** A program of the detectors, which see the ledger alone. *)
Fixpoint detector {A} (p : prog L string A) : program A :=
  match p with
  | Ret a => Ret a
  | Throw e => Throw (ItemError e)
  | Act f k => Act (fun w => let '(b, l) := f (w_ledger w) in (b, w <| w_ledger := l |>))
                   (fun b => detector (k b))
  end.

(** ** One item *)

(** An item waiting on its owner. *)
Definition parked (known : LedgerRecord) (key : string) (p : PassState) : PassState :=
  p <| needsDecision ::= Z.add 1 |>
    <| failures ::= fun fs => fs ++
       [{| if_domain := dom; if_naturalKeyHash := key; if_collection := None;
           if_attempts := nullish (attemptCount known) MAX_ITEM_ATTEMPTS;
           if_lastError := nullish (lastError known) "(no error recorded)"%string;
           if_lastAttemptAt := None; if_needsDecision := true |}] |>.

(** Any claim that the item had disappeared is false now. *)
Definition has_claim (known : LedgerRecord) : bool :=
  negb (nullish (absentPasses known) 0 =? 0) || defined (deletionReportedAt known)
  || defined (deletionTrashedAt known).

Definition report_move (known : LedgerRecord) (key path : string) : program unit :=
  if negb (decided known path None)
  then
    tell (lg_recordMove tenant mapping dom key path None) ;;;
    note (fun p => p <| moved_count ::= Z.add 1 |>
                     <| moves ::= fun ms => ms ++
                        [{| im_domain := dom; im_naturalKeyHash := key;
                            im_from := nullish (collection known) ""%string; im_to := path;
                            im_toNaturalKeyHash := None; im_recordedAt := None;
                            im_acknowledgedAt := None |}] |>)
  else Ret tt.

(** The ledger fast path: [None] when the item needs no more, otherwise whether
    it has a row already and the row it rewrites. *)
Definition keyed_fast_path (key : string) (version : option string) (path : string)
    : program (option (bool * option LedgerRecord)) :=
  let! found := ask (lg_find tenant mapping dom key) in
  match found with
  | None => Ret (Some (false, None))
  | Some known =>
      (if has_claim known then tell (lg_clearAbsent tenant mapping dom key) else Ret tt) ;;;
      let action := classifyKnownItem known version (Some path) in
      if bool_decide (action = moved) then report_move known key path ;;; Ret None
      else
        (if defined (movedToCollection known) then tell (lg_clearMove tenant mapping dom key) else Ret tt) ;;;
        match action with
        | skip => note (fun p => p <| skipped ::= Z.add 1 |>) ;;; Ret None
        | record_version =>
            tell_or_throw (lg_recordUpdate (known <| sourceVersion := version |>)) ;;;
            note (fun p => p <| skipped ::= Z.add 1 |>) ;;; Ret None
        | leave_adopted => note (fun p => p <| changedButAdopted ::= Z.add 1 |>) ;;; Ret None
        | left_behind_action => note (fun p => p <| leftBehind ::= Z.add 1 |>) ;;; Ret None
        | tombstoned_action => note (fun p => p <| reappearedAfterRemoval ::= Z.add 1 |>) ;;; Ret None
        | needs_decision => note (parked known key) ;;; Ret None
        | rewrite => Ret (Some (true, Some known))
        | _ => Ret (Some (true, None))
        end
  end.

(** The second fast path, for an item whose key is its content: [None] when it
    needs no more, otherwise its key and whether it has a row. *)
Definition derived_fast_path (item : Item) (raw : Raw) (path : string) : program (option (string * bool)) :=
  match ds_naturalKeyFromRaw deps with
  | None => Throw (ItemError "naturalKey returned undefined but no naturalKeyFromRaw was supplied"%string)
  | Some fromRaw =>
      let key := fromRaw item raw in
      note (see path key) ;;;
      let! found := ask (lg_find tenant mapping dom key) in
      match found with
      | None => Ret (Some (key, false))
      | Some known =>
          match classifyKnownItem known None (Some path) with
          | left_behind_action => note (fun p => p <| leftBehind ::= Z.add 1 |>) ;;; Ret None
          | tombstoned_action => note (fun p => p <| reappearedAfterRemoval ::= Z.add 1 |>) ;;; Ret None
          | needs_decision => note (parked known key) ;;; Ret None
          | retry_failed | relocated_away => Ret (Some (key, true))
          | _ => note (fun p => p <| skipped ::= Z.add 1 |>) ;;; Ret None
          end
      end
  end.

(** The options the write carries. *)
Definition upsert_options (item : Item) (path : string) (rewriteOf : option LedgerRecord) : UpsertOptions :=
  {| uo_overwrite := defined rewriteOf;
     uo_expectedTargetVersion := rewriteOf ≫= targetVersion;
     uo_sourceVersion := ds_sourceVersion deps item;
     uo_collection := Some path;
     uo_sourceRef := ds_sourceRef deps item |}.

(** The row of a copy that was just made. *)
Definition copied_row (item : Item) (path key ch : string) (size : Z) (result : UpsertResult)
    (now : instant) : LedgerRecord :=
  {| tenantId := tenant; mappingId := mapping; itemType := dom; naturalKeyHash := key;
     contentHash := ch; targetId := ur_targetId result; createdAt := now; sizeBytes := Some size;
     rstatus := Some (if ur_created result then copied else if ur_adopted result then adopted else updated);
     collection := Some path; targetVersion := ur_targetVersion result;
     sourceRef := ds_sourceRef deps item; absentPasses := None; deletionReportedAt := None;
     deletionTrashedAt := None; deletionAcknowledgedAt := None; deletionAppliedAt := None;
     movedToCollection := None; movedToNaturalKeyHash := None; movedRecordedAt := None;
     moveAcknowledgedAt := None; attemptCount := None; lastError := None;
     sourceVersion := ds_sourceVersion deps item |}.

(** The counters after a successful write; [true] asks for the pass to end. *)
Definition count_write (path key ch : string) (rewriteOf : option LedgerRecord) (result : UpsertResult)
    (p : PassState) : PassState :=
  let p := p <| consecutiveFailures := 0 |> in
  if defined rewriteOf then p <| updated_count ::= Z.add 1 |>
  else if ur_created result
  then p <| created ::= Z.add 1 |> <| createdThisPass ::= fun cs => cs ++ [mkCreatedItem key ch path] |>
  else if ur_adopted result then p <| adopted_count ::= Z.add 1 |>
  else p <| skipped ::= Z.add 1 |>.

Definition collides (rewriteOf : option LedgerRecord) (result : UpsertResult) : bool :=
  negb (defined rewriteOf) && negb (ur_created result) && ur_adopted result && ds_failOnCollision deps.

(** From the upsert to the end of the try block. *)
Definition write_item (collectionId : string) (item : Item) (raw : Raw) (size : Z) (path key ch : string)
    (hasExistingRow : bool) (rewriteOf : option LedgerRecord) : program unit :=
  let! result := writer (ds_upsert deps collectionId raw item (upsert_options item path rewriteOf)) in
  if ur_conflicted result
  then
    note (fun p => p <| conflicted ::= Z.add 1 |>) ;;;
    match rewriteOf with
    | Some known =>
        tell_or_throw (lg_recordUpdate
          (known <| rstatus := Some adopted |> <| targetId := ur_targetId result |>)) ;;; Ret tt
    | None =>
        (* [{ ...undefined, status, targetId }]: no key, no tenant; the UPDATE matches no row *)
        Throw (ItemError "recordUpdate found no row"%string)
    end
  else
    let! now := the_time in
    let row := copied_row item path key ch size result now in
    (if hasExistingRow then tell_or_throw (lg_recordUpdate row) else tell_or_throw (lg_recordIfAbsent row)) ;;;
    note (count_write path key ch rewriteOf result) ;;;
    if collides rewriteOf result then Throw (PassAbort "Collision on the destination"%string) else Ret tt.

(** The record of a failed attempt. *)
Definition failure_record (key ch : string) (now : instant) : LedgerRecord :=
  {| tenantId := tenant; mappingId := mapping; itemType := dom; naturalKeyHash := key;
     contentHash := ch; targetId := ""; createdAt := now; sizeBytes := Some 0; rstatus := Some failed;
     collection := None; targetVersion := None; sourceRef := None; absentPasses := None;
     deletionReportedAt := None; deletionTrashedAt := None; deletionAcknowledgedAt := None;
     deletionAppliedAt := None; movedToCollection := None; movedToNaturalKeyHash := None;
     movedRecordedAt := None; moveAcknowledgedAt := None; attemptCount := None; lastError := None;
     sourceVersion := None |}.

(** The bad-world tripwire. *)
Definition tripwire (reason : string) : program unit :=
  let! n := recall consecutiveFailures in
  if ABORT_AFTER_CONSECUTIVE_FAILURES <=? n then Throw (PassAbort reason) else Ret tt.

(** The catch block, with the key and the hash as the try block left them. *)
Definition on_failure (key : option string) (ch : string) (e : err) : program unit :=
  match e with
  | PassAbort m => Throw (PassAbort m)
  | ItemError reason =>
      note (fun p => p <| failed_count ::= Z.add 1 |> <| consecutiveFailures ::= Z.add 1 |>) ;;;
      match key with
      | None => tripwire reason
      | Some key =>
          let! now := the_time in
          let! row := tell_or_throw (lg_recordFailure (failure_record key ch now) reason) in
          let attempts := nullish (attemptCount row) 1 in
          let isParked := MAX_ITEM_ATTEMPTS <=? attempts in
          note (fun p =>
            (if isParked then p <| needsDecision ::= Z.add 1 |> else p)
              <| failures ::= fun fs => fs ++
                 [{| if_domain := dom; if_naturalKeyHash := key; if_collection := None;
                     if_attempts := attempts; if_lastError := reason; if_lastAttemptAt := None;
                     if_needsDecision := isParked |}] |>) ;;;
          tripwire reason
      end
  end.

(** [try { p }] as a value. *)
Definition attempt {A} (p : program A) : program (err + A) :=
  pcatch (let! a := p in Ret (inr a)) (fun e => Ret (inl e)).

(** The first half of the try block: the bytes, and the key if only they give
    one.  [None] when the item needs no more. *)
Definition fetch_and_key (item : Item) (path : string) (key : option string) (hasRow : bool)
    : program (option (Raw * Z * string * bool)) :=
  let! fetched := call (ds_fetchRaw deps item) in
  match key with
  | Some k => Ret (Some (fetched.1, fetched.2, k, hasRow))
  | None =>
      let! derived := derived_fast_path item fetched.1 path in
      match derived with
      | None => Ret None
      | Some (k, hasRow) => Ret (Some (fetched.1, fetched.2, k, hasRow))
      end
  end.

(** The worker [mapWithConcurrency] runs on each item. *)
Definition process_item (collectionId path : string) (item : Item) : program unit :=
  let key := ds_naturalKey deps item in
  note (fun p => let p := p <| scanned ::= Z.add 1 |> in
                 match key with Some k => see path k p | None => p end) ;;;
  let! known := match key with
                | None => Ret (Some (false, None))
                | Some k => keyed_fast_path k (ds_sourceVersion deps item) path
                end in
  match known with
  | None => Ret tt
  | Some (hasRow, rewriteOf) =>
      let! half := attempt (fetch_and_key item path key hasRow) in
      match half with
      | inl e => on_failure key "" e
      | inr None => Ret tt
      | inr (Some (raw, size, k, hasRow)) =>
          pcatch (write_item collectionId item raw size path k (ds_contentHash deps raw) hasRow rewriteOf)
                 (on_failure (Some k) (ds_contentHash deps raw))
      end
  end.

(** ** One folder *)

(** Everything before the items: the target collection, the listing, the keys. *)
Definition open_folder (folder : Folder) : program (string * Listing) :=
  let path := collectionPath folder in
  let! collectionId := call (ds_ensureCollection deps folder) in
  let! prev := act (fun w => (if ds_cursors deps then w_cursors w !! path else None, w)) in
  let! listing := call (ds_listSince deps folder prev) in
  note (fun p => p <| seenByCollection ::= fun seen => <[path := nullish (seen !! path) ∅]> seen |>
                   <| reportedRemovals ::= fun rs => rs ++ nullish (ls_removed listing) [] |>) ;;;
  match ds_listCollectionKeys deps with
  | Some keys =>
      let! r := attempt (call (keys folder)) in
      match r with
      | inl _ => note (fun p => p <| fullyEnumerated := false |>)
      | inr ks => note (fun p => foldl (fun p k => see path k p) p ks)
      end
  | None => if defined prev then note (fun p => p <| fullyEnumerated := false |>) else Ret tt
  end ;;;
  Ret (collectionId, listing).

Definition retryablePending (p : PassState) : bool :=
  existsb (fun f => negb (if_needsDecision f)) (failures p).

(** The cursor moves on only when nothing is still awaiting a retry. *)
Definition close_folder (folder : Folder) (listing : Listing) : program unit :=
  upd (fun w =>
    if ds_cursors deps && negb (retryablePending (w_pass w))
    then w <| w_cursors ::= <[collectionPath folder := ls_nextCursor listing]> |> else w).

(** One turn of the folder loop, under a schedule of its items; [None] when the
    schedule stops before the folder is done. *)
Definition sync_folder (folder : Folder) (sched : list nat) (w : World) : option ((err + unit) * World) :=
  match run (open_folder folder) w with
  | (inl e, w1) => Some (inl e, w1)
  | (inr (collectionId, listing), w1) =>
      match mapWithConcurrency (ls_items listing)
              (fun item _ => process_item collectionId (collectionPath folder) item)
              (nullish (ds_concurrency deps) DEFAULT_CONCURRENCY) sched w1 with
      | None => None
      | Some (inl e, w2) => Some (inl e, w2)
      | Some (inr _, w2) => Some (run (close_folder folder listing) w2)
      end
  end.

Fixpoint sync_folders (folders : list Folder) (scheds : list (list nat)) (w : World)
    : option ((err + unit) * World) :=
  match folders with
  | [] => Some (inr tt, w)
  | folder :: folders' =>
      match sync_folder folder (nullish (head scheds) []) w with
      | Some (inr _, w1) => sync_folders folders' (tail scheds) w1
      | r => r
      end
  end.

(** ** After the folders *)

(** What the owner threw away. *)
Definition read_discards : program unit :=
  match ds_listDiscardedKeys deps with
  | None => Ret tt
  | Some list_discards =>
      let! r := attempt (call list_discards) in
      match r with
      | inl _ => Ret tt
      | inr discarded =>
          (if 0 <? dl_unnameable discarded
           then note (fun p => p <| unplaceableDiscards :=
                                      Some (dl_unnameable discarded, truthy (dl_reason discarded)) |>)
           else Ret tt) ;;;
          match dl_keys discarded with
          | [] => Ret tt
          | _ =>
              let! seen := recall seenByCollection in
              let! found := detector (resolveDiscardedItems tenant mapping dom (dl_keys discarded) seen) in
              note (fun p => p <| deletions ::= fun ds => ds ++ found |>)
          end
      end
  end.

Definition after_folders : program DomainSyncResult :=
  let! removals := recall reportedRemovals in
  match removals with
  | [] => Ret tt
  | _ =>
      let! seen := recall seenByCollection in
      let! removed := detector (resolveReportedRemovals tenant mapping dom removals seen) in
      note (fun p => p <| deletions ::= fun ds => ds ++ removed |>)
  end ;;;
  read_discards ;;;
  let! complete := recall fullyEnumerated in
  (if bool_decide (dom = File) && complete
   then
     let! seen := recall seenByCollection in
     let! arrivals := recall createdThisPass in
     let! found := detector (detectPathKeyedMoves tenant mapping dom seen arrivals) in
     note (fun p => p <| moved_count ::= Z.add (Z.of_nat (length (dt_moves found))) |>
                      <| moves ::= fun ms => ms ++ dt_moves found |>
                      <| deletions ::= fun ds => ds ++ dt_deletions found |>
                      <| drift ::= Z.add (dt_drift found) |>)
   else Ret tt) ;;;
  recall (fun p => mkDomainSyncResult p (reportedDeletions (deletions p))).

(** The whole pass, one schedule per folder. *)
Definition runDomainSync (scheds : list (list nat)) (w : World)
    : option ((err + DomainSyncResult) * World) :=
  let w := w <| w_pass := initial_pass |> in
  match run (call (ds_listFolders deps)) w with
  | (inl e, w1) => Some (inl e, w1)
  | (inr folders, w1) =>
      match sync_folders folders scheds w1 with
      | None => None
      | Some (inl e, w2) => Some (inl e, w2)
      | Some (inr _, w2) => Some (run after_folders w2)
      end
  end.
End domain_sync.

Arguments World L Env : clear implicits.
Arguments DomainSyncDeps L Env Item Raw : clear implicits.
Arguments Listing Item : clear implicits.
