(* ===== verification/DomainSyncInvariants.v ===== *)
(** * Invariants of a whole pass

    An invariant made of a property of the ledger, one of the outside world and
    one of the pass's tallies is kept by [runDomainSync], for every
    interleaving, as soon as the worker keeps it: everything around the worker
    only annotates the ledger, lists the source and reports. *)

From S2P Require Import Prelude Prog Concurrency Ports Detectors DomainSync.

Open Scope Z_scope.

(** The counters of what a pass did, as against what it noticed. *)
Definition tallies (p : PassState) : Z * Z * Z * Z * Z :=
  (created p, adopted_count p, updated_count p, failed_count p, conflicted p).

Section pass_invariant.
Context {L Env Item Raw : Type} `{LL : LedgerLaws L}.
Variable deps : DomainSyncDeps L Env Item Raw.

Abbreviation tenant := (ds_tenantId deps).
Abbreviation mapping := (ds_mappingId deps).
Abbreviation dom := (ds_domain deps).

Variables (I : L -> Prop) (K : Env -> Prop) (N : PassState -> Prop).

Definition pass_inv (w : World L Env) : Prop := I (w_ledger w) /\ K (w_env w) /\ N (w_pass w).

(** The tallies alone decide [N]. *)
Definition tallied : Prop := forall p p', tallies p' = tallies p -> N p -> N p'.

(** A call outside that keeps [K]. *)
Definition outside {A} (f : Env -> (string + A) * Env) : Prop := forall e, K e -> K (snd (f e)).

Abbreviation keeps_inv := (keeps (E:=err) pass_inv).

(** *** The atomic steps *)

Lemma keeps_ask {A} (q : L -> A) (Q : A -> Prop) :
  (forall l, I l -> Q (q l)) -> keeps_inv (ask q) Q.
Proof. intros HQ. apply keeps_act. intros w [Hg HI]. simpl. split; [by split|auto]. Qed.

Lemma keeps_tell u (Q : unit -> Prop) :
  (forall l, I l -> I (u l)) -> Q tt -> keeps_inv (tell u) Q.
Proof. intros Hu HQ. apply keeps_upd; [|done]. intros w [Hg HI]. split; simpl; auto. Qed.

Lemma keeps_tell_or_throw {A} (u : L -> (string + A) * L) :
  (forall l, I l -> I (snd (u l))) -> keeps_inv (tell_or_throw u) (fun _ => True).
Proof.
  intros Hu. apply keeps_try. intros w [Hg HI]. specialize (Hu _ Hg).
  destruct (u (w_ledger w)) as [[e|a] l]; by split.
Qed.

Lemma keeps_call_post {A} (f : Env -> (string + A) * Env) (Q : A -> Prop) :
  (forall e, K e -> K (snd (f e)) /\ match fst (f e) with inr a => Q a | inl _ => True end) ->
  keeps_inv (call f) Q.
Proof.
  intros Hf. apply keeps_try. intros w (Hg & HI & HN). destruct (Hf _ HI) as [HK HQ].
  by destruct (f (w_env w)) as [[e|a] e'].
Qed.

Lemma keeps_call {A} (f : Env -> (string + A) * Env) : outside f -> keeps_inv (call f) (fun _ => True).
Proof. intros Hf. apply keeps_call_post. intros e He. split; [auto|]. by destruct (fst (f e)). Qed.

Lemma keeps_note_if f (Q : unit -> Prop) : (forall p, N p -> N (f p)) -> Q tt -> keeps_inv (note f) Q.
Proof. intros Hf HQ. apply keeps_upd; [|done]. intros w (Hg & HI & HN). split_and!; simpl; auto. Qed.

Lemma keeps_note f (Q : unit -> Prop) :
  tallied -> (forall p, tallies (f p) = tallies p) -> Q tt -> keeps_inv (note f) Q.
Proof. intros HT Hf. apply keeps_note_if. intros p. by apply HT. Qed.

Lemma keeps_recall {A} (q : PassState -> A) : keeps_inv (recall q) (fun _ => True).
Proof. apply keeps_act. by intros w Hw. Qed.

Lemma keeps_the_time : keeps_inv (the_time deps) (fun _ => True).
Proof. apply keeps_act. by intros w Hw. Qed.

Lemma keeps_writer {A} (p : prog (L * Env) string A) Q :
  keeps (fun le => I le.1 /\ K le.2) p Q -> keeps_inv (writer p) Q.
Proof.
  induction p as [a|e|B f k IH]; simpl; [done..|]. intros Hk w (Hl & He & HN).
  destruct (Hk (w_ledger w, w_env w) (conj Hl He)) as [[Hl' He'] Hrest].
  destruct (f (w_ledger w, w_env w)) as [b le]. simpl in *. split; [done|]. by apply IH.
Qed.

Lemma keeps_detector {A} (p : prog L string A) Q : keeps I p Q -> keeps_inv (detector p) Q.
Proof.
  induction p as [a|e|B f k IH]; simpl; [done..|]. intros Hk w [Hg HI].
  destruct (Hk (w_ledger w) Hg) as [Hf Hrest].
  destruct (f (w_ledger w)) as [b l]. simpl in *. split; [done|]. by apply IH.
Qed.

Lemma keeps_attempt {A} (p : prog (World L Env) err A) (Q : A -> Prop) :
  keeps_inv p Q -> keeps_inv (attempt p) (fun r => match r with inr a => Q a | inl _ => True end).
Proof.
  intros Hp. apply keeps_catch; [|done]. eapply keeps_bind; [exact Hp|]. done.
Qed.

(** *** Around the worker *)

(** Folders the source may list, and items a folder may. *)
Variables (scope : Folder -> Prop) (listed : Folder -> Item -> Prop).

(** Ids the target may give a folder's collection. *)
Variable ensured : Folder -> string -> Prop.

(** What is asked of the calls made outside the worker. *)
Record listings_keep : Prop := {
  lk_folders e : K e -> K (snd (ds_listFolders deps e)) /\
    match fst (ds_listFolders deps e) with inr fs => Forall scope fs | inl _ => True end;
  lk_ensure f : outside (ds_ensureCollection deps f);
  lk_ensured f e : K e -> match fst (ds_ensureCollection deps f e) with inr cid => ensured f cid | inl _ => True end;
  lk_list f p e : scope f -> K e -> K (snd (ds_listSince deps f p e)) /\
    match fst (ds_listSince deps f p e) with inr ls => Forall (listed f) (ls_items ls) | inl _ => True end;
  lk_keys g f : ds_listCollectionKeys deps = Some g -> outside (g f);
  lk_discards g : ds_listDiscardedKeys deps = Some g -> outside g
}.

Variable may_move : PlacedItem -> Prop.

Hypothesis (NT : tallied) (LK : listings_keep).
Hypothesis DR : detectors_respect tenant mapping dom I may_move.
Hypothesis worker : forall cid f item, ensured f cid -> listed f item ->
  keeps_inv (process_item deps cid (collectionPath f) item) (fun _ => True).

Lemma tallies_see p ks q : tallies (foldl (fun q k => see p k q) q ks) = tallies q.
Proof. revert q; induction ks as [|k ks IH]; intros q; [done|]. simpl. by rewrite IH. Qed.

Lemma open_folder_keeps f :
  scope f ->
  keeps_inv (open_folder deps f) (fun r => ensured f r.1 /\ Forall (listed f) (ls_items r.2)).
Proof.
  intros Hf. unfold open_folder. eapply keeps_bind.
  { apply (keeps_call_post _ (ensured f)). intros e He. split; [by apply (lk_ensure LK)|by apply (lk_ensured LK)]. }
  intros cid Hcid.
  eapply (keeps_bind _ _ _ (fun _ => True)); [by apply keeps_act|]. intros prev _.
  eapply keeps_bind; [apply keeps_call_post; intros e; by apply (lk_list LK)|]. intros listing Hlisted.
  eapply (keeps_bind _ _ _ (fun _ => True)); [by apply keeps_note|]. intros [] _.
  eapply (keeps_bind _ _ _ (fun _ => True)); [|by intros].
  destruct (ds_listCollectionKeys deps) as [g|] eqn:Hg.
  - eapply keeps_bind; [by eapply keeps_attempt, keeps_call, lk_keys|].
    intros [e|ks] _; apply keeps_note; try done. intros p. apply tallies_see.
  - destruct (defined prev); [by apply keeps_note|done].
Qed.

Lemma sync_folder_keeps f sched w r w' :
  scope f -> pass_inv w -> sync_folder deps f sched w = Some (r, w') -> pass_inv w'.
Proof.
  intros Hf Hw. unfold sync_folder.
  destruct (run (open_folder deps f) w) as [[e|[cid listing]] w1] eqn:Ho;
    apply (keeps_run pass_inv _ _ _ _ _ (open_folder_keeps f Hf) Hw) in Ho as [Hw1 Hl];
    [by intros [= <- <-]|]. destruct Hl as [Hcid Hl]. simpl in Hcid, Hl.
  destruct (mapWithConcurrency _ _ _ _ w1) as [[r2 w2]|] eqn:Hm; [|done].
  apply (mapWithConcurrency_rg _ _ (preserves pass_inv) (preserves pass_inv) pass_inv
           (fun _ _ => True) (fun _ _ => True)) in Hm
    as (_ & Hw2 & _); [|done|intros ? ? Hj Hp; by apply Hp| |done].
  - destruct r2 as [e|[]]; [by intros [= <- <-]|]. intros Hr. apply (inj Some) in Hr.
    unfold close_folder in Hr. simpl in Hr. injection Hr as _ <-.
    destruct Hw2 as (? & ? & ?). by destruct (_ && _).
  - intros i x wi Hi Hwi. eapply rg_mono; [eapply keeps_rg; [apply worker; [exact Hcid|]|done]|done..].
    by eapply Forall_lookup_1.
Qed.

Lemma sync_folders_keeps folders scheds w r w' :
  Forall scope folders -> pass_inv w -> sync_folders deps folders scheds w = Some (r, w') -> pass_inv w'.
Proof.
  revert scheds w; induction folders as [|f folders IH]; intros scheds w Hsc Hw; simpl.
  { by intros [= <- <-]. }
  apply Forall_cons in Hsc as [Hsc Hscs].
  destruct (sync_folder deps f _ w) as [[[e|[]] w1]|] eqn:Hf; try done;
    apply sync_folder_keeps in Hf; try done; [by intros [= <- <-]|by apply IH].
Qed.

Lemma read_discards_keeps : keeps_inv (read_discards deps) (fun _ => True).
Proof.
  unfold read_discards. destruct (ds_listDiscardedKeys deps) as [g|] eqn:Hg; [|done].
  eapply keeps_bind; [by eapply keeps_attempt, keeps_call, lk_discards|].
  intros [e|d] _; [done|]. eapply (keeps_bind _ _ _ (fun _ => True)).
  { destruct (0 <? _); [by apply keeps_note|done]. }
  intros [] _. destruct (dl_keys d) as [|k ks]; [done|].
  eapply keeps_bind; [apply keeps_recall|]. intros seen _.
  eapply keeps_bind; [eapply keeps_detector, resolve_discards_keeps, DR|]. intros found _.
  by apply keeps_note.
Qed.

(** What the pass answers are its counters as they stand at the end. *)
Lemma after_folders_keeps : keeps_inv (after_folders deps) (fun r => N (rs_counters r)).
Proof.
  unfold after_folders. eapply keeps_bind; [apply keeps_recall|]. intros removals _.
  eapply (keeps_bind _ _ _ (fun _ => True)).
  { destruct removals as [|r rs]; [done|]. eapply keeps_bind; [apply keeps_recall|]. intros seen _.
    eapply (keeps_bind _ _ _ (fun _ => True)); [|intros; by apply keeps_note].
    apply keeps_detector. unfold resolveReportedRemovals.
    eapply keeps_bind; [eapply resolve_removals_keeps, DR|done]. }
  intros [] _. eapply keeps_bind; [apply read_discards_keeps|]. intros [] _.
  eapply keeps_bind; [apply keeps_recall|]. intros complete _.
  eapply (keeps_bind _ _ _ (fun _ => True)).
  - destruct (_ && complete); [|done].
    eapply keeps_bind; [apply keeps_recall|]. intros seen _.
    eapply keeps_bind; [apply keeps_recall|]. intros arrivals _.
    eapply keeps_bind; [eapply keeps_detector, detectPathKeyedMoves_keeps, DR|]. intros found _.
    by apply keeps_note.
  - intros [] _. apply keeps_act. intros w Hw. split; [done|]. apply Hw.
Qed.

Lemma runDomainSync_keeps scheds w r w' :
  pass_inv (w <| w_pass := initial_pass |>) -> runDomainSync deps scheds w = Some (r, w') ->
  pass_inv w' /\ match r with inr rs => N (rs_counters rs) | inl _ => True end.
Proof.
  intros Hw0. unfold runDomainSync. cbv zeta.
  destruct (run (call (ds_listFolders deps)) _) as [[e|folders] w1] eqn:Hl;
    apply (keeps_run pass_inv _ _ _ _ _ (keeps_call_post _ (Forall scope) (lk_folders LK)) Hw0) in Hl as [Hw1 Hsc];
    [by intros [= <- <-]|].
  destruct (sync_folders deps folders scheds w1) as [[[e|[]] w2]|] eqn:Hs; try done;
    apply sync_folders_keeps in Hs; try done; [by intros [= <- <-]|].
  intros [= Hr]. by apply (keeps_run pass_inv _ _ _ _ _ after_folders_keeps Hs) in Hr.
Qed.
End pass_invariant.

(** Where every folder is in scope. *)
Lemma folders_any {L Env Item Raw} (deps : DomainSyncDeps L Env Item Raw) (K : Env -> Prop) :
  outside K (ds_listFolders deps) -> forall e, K e -> K (snd (ds_listFolders deps e)) /\
    match fst (ds_listFolders deps e) with inr fs => Forall (fun _ => True) fs | inl _ => True end.
Proof. intros Hf e He. split; [by apply Hf|]. destruct (fst _); [done|by apply Forall_true]. Qed.

Lemma tallied_trivial : tallied (fun _ => True).
Proof. done. Qed.

(** ** The outside world alone

    What every call outside keeps, a pass keeps, whatever the ledger says; and
    when no write creates, the pass counts no creation. *)
Section world_only.
Context {L Env Item Raw : Type} `{LL : LedgerLaws L}.
Variables (deps : DomainSyncDeps L Env Item Raw) (K : Env -> Prop).
Variables (scope : Folder -> Prop) (listed : Folder -> Item -> Prop).
Variables (fetched : Item -> Raw -> Prop) (ensured : Folder -> string -> Prop).

(** What is said of the number of creations. *)
Variable P : Z -> Prop.

Abbreviation anything := (fun _ => True).
Abbreviation keeps_K := (keeps (E:=err) (pass_inv (L:=L) anything K (fun p => P (created p)))).

Record world_keeps : Prop := {
  wk_listings : listings_keep deps K scope listed ensured;
  wk_fetch f item e : listed f item -> K e -> K (snd (ds_fetchRaw deps item e)) /\
    match fst (ds_fetchRaw deps item e) with inr a => fetched item a.1 | inl _ => True end;
  wk_upsert f cid raw item o : ensured f cid -> listed f item -> fetched item raw ->
    keeps (fun le => True /\ K le.2) (ds_upsert deps cid raw item o)
      (fun r => ur_created r = true -> forall n, P n -> P (1 + n))
}.

Hypothesis WK : world_keeps.

#[local] Ltac walk := repeat first
  [ progress cbn beta iota
  | done
  | match goal with
    | |- keeps _ (pbind _ _) _ => eapply (keeps_bind _ _ _ anything); [|intros ? _]
    | |- keeps _ (pcatch _ _) _ => apply keeps_catch; [|intros ?]
    | |- keeps _ (tell _) _ => apply keeps_tell
    | |- keeps _ (note _) _ => apply keeps_note_if
    | |- keeps _ (ask _) _ => apply keeps_ask
    | |- keeps _ (tell_or_throw _) _ => apply keeps_tell_or_throw
    | |- keeps _ (recall _) _ => apply keeps_recall
    | |- keeps _ (the_time _) _ => apply keeps_the_time
    | |- keeps _ (match ?x with _ => _ end) _ => destruct x
    end ].

Lemma on_failure_world key ch e : keeps_K (on_failure deps key ch e) anything.
Proof using LL. unfold on_failure, tripwire. walk; intros p; by case_match. Qed.

Lemma keyed_fast_path_world k v p : keeps_K (keyed_fast_path deps k v p) anything.
Proof using LL. unfold keyed_fast_path, report_move. cbv zeta. walk. Qed.

Lemma derived_fast_path_world item raw p : keeps_K (derived_fast_path deps item raw p) anything.
Proof using LL. unfold derived_fast_path. cbv zeta. walk. Qed.

Lemma fetch_and_key_world f item p key b :
  listed f item -> keeps_K (fetch_and_key deps item p key b) (fun r => match r with Some (raw, _, _, _) => fetched item raw | None => True end).
Proof using LL WK.
  intros Hl. eapply keeps_bind; [apply (keeps_call_post _ _ _ _ (fun a : Raw * Z => fetched item a.1)); intros e; by apply (wk_fetch WK f)|].
  intros [raw size] Hr. destruct key as [k|]; [done|].
  eapply keeps_bind; [apply derived_fast_path_world|]. by intros [[k hasRow]|] _.
Qed.

Lemma count_write_world path key ch rw result p :
  (ur_created result = true -> forall n, P n -> P (1 + n)) -> P (created p) -> P (created (count_write path key ch rw result p)).
Proof. intros Hr Hp. unfold count_write. destruct (defined rw); [done|]. destruct (ur_created result); [by apply Hr|]. by case_match. Qed.

Lemma write_item_world f cid item raw size p k ch b rw :
  ensured f cid -> listed f item -> fetched item raw ->
  keeps_K (write_item deps cid item raw size p k ch b rw) anything.
Proof using LL WK.
  intros Hc Hl Hf. eapply keeps_bind; [apply keeps_writer, (wk_upsert WK f); done|]. intros result Hr. cbv zeta.
  pose proof (fun p0 => count_write_world p k ch rw result p0 Hr) as Hcount. walk.
Qed.

Lemma process_item_world f cid p item :
  ensured f cid -> listed f item -> keeps_K (process_item deps cid p item) anything.
Proof using LL WK.
  intros Hc Hl. unfold process_item. cbv zeta. eapply (keeps_bind _ _ _ anything).
  { apply keeps_note_if; [|done]. intros q. by destruct (ds_naturalKey deps item). }
  intros _ _.
  eapply (keeps_bind _ _ _ anything); [destruct (ds_naturalKey deps item); [apply keyed_fast_path_world|done]|].
  intros [[hasRow rewriteOf]|] _; [|done].
  eapply keeps_bind; [by apply keeps_attempt, (fetch_and_key_world f)|].
  intros [e|[[[[raw size] k] b]|]] Hr; [apply on_failure_world| |done].
  apply keeps_catch; [by apply (write_item_world f)|intros e; apply on_failure_world].
Qed.

Lemma pass_keeps_world scheds w r w' :
  P 0 -> K (w_env w) -> runDomainSync deps scheds w = Some (r, w') ->
  K (w_env w') /\ match r with inr rs => P (created (rs_counters rs)) | inl _ => True end.
Proof using LL WK.
  intros HP Hw Hr.
  destruct (runDomainSync_keeps deps anything K (fun p => P (created p)) scope listed ensured anything)
    with (scheds := scheds) (w := w) (r := r) (w' := w') as [(_ & HK & _) HN]; [|apply WK| | |done|done|done].
  - intros p p' [= Hp _ _ _ _]. by rewrite Hp.
  - split; try done. intros l _. by apply Forall_forall.
  - intros cid f item. apply process_item_world.
Qed.
End world_only.
