(* ===== verification/DomainSyncSafety.v ===== *)
(** * What no pass ever does

    When an item may be rewritten at all ([classifyKnownItem]), and the safety
    of [runDomainSync] for every interleaving of its workers: the copies it may
    not touch it does not touch. *)

From S2P Require Import Prelude Prog Concurrency Ports Detectors DomainSync DomainSyncInvariants.
From S2P Require Ledger.

Open Scope Z_scope.

(** ** When an item is rewritten *)

Lemma topology_changed_spec known c :
  topology_changed known (Some c) = true <->
  c <> ""%string /\ exists c', collection known = Some c' /\ c' <> ""%string /\ c' <> c.
Proof.
  unfold topology_changed. destruct (truthy (Some c)) as [x|] eqn:Hc.
  - apply truthy_Some in Hc as [[= <-] Hc]. destruct (truthy (collection known)) as [c'|] eqn:Hk.
    + apply truthy_Some in Hk as [Hk Hk']. rewrite negb_true_iff, String.eqb_neq. naive_solver.
    + apply truthy_None in Hk as [Hk|Hk]; naive_solver congruence.
  - apply truthy_None in Hc as [Hc|[= ->]]; naive_solver.
Qed.

(** The rows whose copy is on the target: neither failed, left behind nor removed. *)
Lemma classify_placed known version coll :
  rstatus known <> Some left_behind -> rstatus known <> Some tombstoned -> rstatus known <> Some failed ->
  classifyKnownItem known version coll =
    if topology_changed known coll then moved
    else match version, sourceVersion known with
    | None, _ => skip
    | Some _, None => record_version
    | Some v, Some v' => if String.eqb v' v then skip
                         else if bool_decide (rstatus known = Some adopted) then leave_adopted else rewrite
    end.
Proof.
  intros H1 H2 H3. unfold classifyKnownItem. rewrite !bool_decide_false by done.
  destruct (topology_changed known coll), version, (sourceVersion known); done.
Qed.

Lemma classify_placed_rewrite known version c :
  rstatus known <> Some left_behind -> rstatus known <> Some tombstoned -> rstatus known <> Some failed ->
  classifyKnownItem known version (Some c) = rewrite <->
  rstatus known <> Some adopted /\ topology_changed known (Some c) = false /\
  exists v v', version = Some v /\ sourceVersion known = Some v' /\ v' <> v.
Proof.
  intros H1 H2 H3. rewrite classify_placed by done.
  destruct (topology_changed known (Some c)); [naive_solver|].
  destruct version as [v|]; [|naive_solver]. destruct (sourceVersion known) as [v'|]; [|naive_solver].
  destruct (String.eqb_spec v' v); [naive_solver|]. case_bool_decide; naive_solver.
Qed.

Lemma classify_placed_settled known version coll a :
  rstatus known <> Some left_behind -> rstatus known <> Some tombstoned -> rstatus known <> Some failed ->
  classifyKnownItem known version coll = a -> a <> relocated_away /\ a <> retry_failed.
Proof.
  intros H1 H2 H3. rewrite classify_placed by done. intros <-.
  repeat (case_match; try done).
Qed.

Lemma topology_same known c :
  topology_changed known (Some c) = false <->
  c = ""%string \/ truthy (collection known) = None \/ collection known = Some c.
Proof.
  rewrite <- not_true_iff_false, topology_changed_spec, truthy_None.
  destruct (decide (c = ""%string)); [naive_solver|].
  destruct (collection known) as [c'|]; [|naive_solver].
  destruct (decide (c' = ""%string)), (decide (c' = c)); naive_solver.
Qed.

(** An overwrite has exactly one licence.  [classifyKnownItem] answers
    [rewrite] iff the row is a copy this tool placed (not failed, left behind,
    removed or adopted), the source still lists it in the collection it was
    copied from as far as both are known, and both versions are known and
    differ; a tombstone is lifted only where a relocation is recorded, and an
    item is retried only while attempts remain. *)
Theorem rewrite_licence known version c :
  (classifyKnownItem known version (Some c) = rewrite <->
     rstatus known <> Some left_behind /\ rstatus known <> Some tombstoned /\
     rstatus known <> Some failed /\ rstatus known <> Some adopted /\
     (c = ""%string \/ truthy (collection known) = None \/ collection known = Some c) /\
     exists v v', version = Some v /\ sourceVersion known = Some v' /\ v' <> v) /\
  (classifyKnownItem known version (Some c) = relocated_away <->
     rstatus known = Some tombstoned /\ is_Some (movedToNaturalKeyHash known)) /\
  (classifyKnownItem known version (Some c) = retry_failed <->
     rstatus known = Some failed /\ nullish (attemptCount known) 0 < MAX_ITEM_ATTEMPTS).
Proof.
  rewrite <- topology_same.
  destruct (decide (rstatus known = Some left_behind)) as [Hs|H1].
  { unfold classifyKnownItem. rewrite Hs. simpl. naive_solver. }
  destruct (decide (rstatus known = Some tombstoned)) as [Hs|H2].
  { unfold classifyKnownItem. rewrite Hs. simpl. rewrite <- defined_true.
    destruct (defined _); naive_solver. }
  destruct (decide (rstatus known = Some failed)) as [Hs|H3].
  { unfold classifyKnownItem. rewrite Hs. simpl.
    destruct (Z.leb_spec MAX_ITEM_ATTEMPTS (nullish (attemptCount known) 0)); naive_solver lia. }
  rewrite classify_placed_rewrite by done.
  pose proof (classify_placed_settled known version (Some c) _ H1 H2 H3 eq_refl) as [Hr Hf].
  naive_solver.
Qed.

(** ** Items no pass may touch *)
Section untouchable.
Context {L Env Item Raw : Type} `{LL : LedgerLaws L}.
Variable deps : DomainSyncDeps L Env Item Raw.

(** The natural key of the item in question, and whatever is to be shown of
    the outside world. *)
Variables (k0 : string) (I : Env -> Prop).

Abbreviation tenant := (ds_tenantId deps).
Abbreviation mapping := (ds_mappingId deps).
Abbreviation dom := (ds_domain deps).

(** A row that ends an item's migration: the owner's own copy, an item the
    owner left behind, or one removed on the owner's decision. *)
Definition terminal (row : LedgerRecord) : Prop :=
  rstatus row = Some adopted \/ rstatus row = Some left_behind \/
  (rstatus row = Some tombstoned /\ movedToNaturalKeyHash row = None /\ is_Some (deletionAppliedAt row)).

Definition outline (row : LedgerRecord) : option status * string * string :=
  (rstatus row, targetId row, contentHash row).

Definition guarded (c : option status * string * string) (l : L) : Prop :=
  exists row, lg_find tenant mapping dom k0 l = Some row /\ terminal row /\ outline row = c.

(** The item [item], with the bytes [raw], is the one keyed [k0]. *)
Definition names (item : Item) (raw : Raw) : Prop :=
  ds_naturalKey deps item = Some k0 \/
  (ds_naturalKey deps item = None /\
   exists f, ds_naturalKeyFromRaw deps = Some f /\ f item raw = k0).

Variable c : option status * string * string.

(** The items the source may list, the bytes it may serve for one, and the ids
    the target may give a collection. *)
Variables (listed : Item -> Prop) (fetched : Item -> Raw -> Prop) (ensured : string -> Prop).

Abbreviation J := (pass_inv (guarded c) I (fun _ => True)).

(** What is asked of the world: only a write of the item itself may break [I]. *)
Record calls_keep : Prop := {
  ck_listings : listings_keep deps I (fun _ => True) (fun _ => listed) (fun _ => ensured);
  ck_fetch i e : listed i -> I e -> I (snd (ds_fetchRaw deps i e)) /\
    match fst (ds_fetchRaw deps i e) with inr a => fetched i a.1 | inl _ => True end;
  ck_upsert cid raw item o : ensured cid -> listed item -> fetched item raw -> ~ names item raw ->
    keeps (fun le => guarded c le.1 /\ I le.2) (ds_upsert deps cid raw item o) (fun _ => True)
}.

Hypothesis CK : calls_keep.

(** *** The ledger's statements keep the guard *)

(** A statement that keeps the facts of [k0], and its destination unless it
    clears it. *)
Lemma guarded_keep l l' :
  guarded c l -> find_facts tenant mapping dom k0 l' = find_facts tenant mapping dom k0 l ->
  (find_moved tenant mapping dom k0 l' = find_moved tenant mapping dom k0 l \/
   find_moved tenant mapping dom k0 l' = Some None \/ c.1.1 <> Some tombstoned) ->
  guarded c l'.
Proof.
  intros (row & Hf & Ht & Hc) Hfacts Hmoved. unfold find_facts, find_moved in *. rewrite Hf in *.
  destruct (lg_find tenant mapping dom k0 l') as [row'|] eqn:Hf'; [|done]. simpl in *.
  injection Hfacts as Hst Hid Hch _ _ _ _ Happ. exists row'. split; [done|].
  unfold terminal, outline in *. rewrite Hst, Hid, Hch. split; [|done].
  destruct Ht as [?|[?|(Ht & Hm & Ha)]]; [by left|by right; left|]. right; right.
  rewrite Happ. rewrite <- Hc in Hmoved. simpl in *. split_and!; [done| |done]. naive_solver congruence.
Qed.

Lemma guarded_annotate l l' : guarded c l -> annotates l l' -> pins l l' -> guarded c l'.
Proof. intros Hg Ha Hp. apply (guarded_keep l); [done|apply Ha|left; apply Hp]. Qed.

Lemma guarded_other k l l' : k <> k0 -> only_key tenant mapping k l l' -> guarded c l -> guarded c l'.
Proof.
  intros Hne Ho (row & Hf & Ht). exists row. split; [|done]. rewrite Ho; [done|congruence].
Qed.

Lemma guarded_recordMove k to o l :
  (k = k0 -> o = None \/ c.1.1 <> Some tombstoned) ->
  guarded c l -> guarded c (lg_recordMove tenant mapping dom k to o l).
Proof.
  intros Ho Hg. destruct (decide (k = k0)) as [->|Hne];
    [|by eapply guarded_other; [|apply law_recordMove_other|]].
  apply (guarded_keep l); [done|apply law_recordMove|]. right.
  destruct (Ho eq_refl) as [->|?]; [left|by right].
  pose proof (law_recordMove tenant mapping dom k0 to None l tenant mapping dom k0) as Ha.
  destruct Hg as (row & Hf & _). unfold find_facts, find_moved in *. rewrite Hf in Ha.
  destruct (lg_find _ _ _ _ (lg_recordMove _ _ _ _ _ _ _)) as [row'|] eqn:Hf'; [|done].
  apply law_recordMove_to in Hf'. simpl in *. by rewrite Hf'.
Qed.

Lemma guarded_clearMove k l : guarded c l -> guarded c (lg_clearMove tenant mapping dom k l).
Proof.
  intros Hg. destruct (decide (k = k0)) as [->|Hne];
    [|by eapply guarded_other; [|apply law_clearMove_other|]].
  apply (guarded_keep l); [done|apply law_clearMove|]. right; left.
  pose proof (law_clearMove tenant mapping dom k0 l tenant mapping dom k0) as Ha.
  destruct Hg as (row & Hf & _). unfold find_facts, find_moved in *. rewrite Hf in Ha.
  destruct (lg_find _ _ _ _ (lg_clearMove _ _ _ _ _)) as [row'|] eqn:Hf'; [|done].
  apply law_clearMove_to in Hf'. simpl in *. by rewrite Hf'.
Qed.

Lemma guarded_clearAbsent k l : guarded c l -> guarded c (lg_clearAbsent tenant mapping dom k l).
Proof. intros Hg. eapply guarded_annotate; [done|apply law_clearAbsent|apply law_clearAbsent_pins]. Qed.

(** Storing a version on an adopted row keeps its outline. *)
Lemma guarded_record_version k known v l :
  (k = k0 -> rstatus known = Some adopted /\ outline known = c) ->
  tenantId known = tenant -> mappingId known = mapping -> itemType known = dom -> naturalKeyHash known = k ->
  guarded c l -> guarded c (snd (lg_recordUpdate (known <| sourceVersion := v |>) l)).
Proof.
  intros Hk Ht Hm Hd Hkey Hg. destruct (lg_recordUpdate _ l) as [x l'] eqn:Hu. simpl.
  destruct (decide (k = k0)) as [->|Hne].
  - destruct (Hk eq_refl) as [Hst Hc]. destruct x as [e|x].
    + by apply law_recordUpdate_err in Hu as [-> _].
    + apply law_recordUpdate_ok in Hu as (old & _ & Hf & Hfacts). simpl in Hf.
      rewrite Ht, Hm, Hd, Hkey in Hf. exists x. split; [done|].
      injection Hfacts as Hst' Hid Hch _ _ _ _ _. simpl in *. rewrite Hst in Hst'. simpl in Hst'.
      split; [by left|]. rewrite <- Hc. unfold outline. by rewrite Hst', Hid, Hch, Hst.
  - apply law_recordUpdate_other in Hu. simpl in Hu. rewrite Ht, Hm, Hkey in Hu.
    by eapply guarded_other.
Qed.

(** *** What the ledger answers under the guard *)

Lemma guarded_known l row :
  guarded c l -> lg_find tenant mapping dom k0 l = Some row -> terminal row /\ outline row = c.
Proof. intros (row' & Hf & Ht & Hc) Hf'. naive_solver. Qed.

(** What the fast path finds for [k0]: never a licence to write. *)
Definition known_ok (k : string) (found : option LedgerRecord) : Prop :=
  match found with
  | None => k <> k0
  | Some known =>
      tenantId known = tenant /\ mappingId known = mapping /\ itemType known = dom /\
      naturalKeyHash known = k /\ (k = k0 -> terminal known /\ outline known = c)
  end.

Lemma find_known_ok k l : guarded c l -> known_ok k (lg_find tenant mapping dom k l).
Proof.
  intros Hg. destruct (lg_find tenant mapping dom k l) as [known|] eqn:Hf; simpl.
  - destruct (law_find_key _ _ _ _ _ _ Hf) as (? & ? & ? & ?). split_and!; try done.
    intros ->. by apply guarded_known in Hf.
  - intros ->. destruct Hg as (? & ? & _). congruence.
Qed.

Lemma terminal_action known version coll :
  terminal known ->
  let a := classifyKnownItem known version coll in
  a <> rewrite /\ a <> retry_failed /\ a <> relocated_away /\
  (a = record_version -> rstatus known = Some adopted).
Proof.
  unfold classifyKnownItem, terminal. intros [Hs|[Hs|(Hs & Hm & _)]]; rewrite Hs; simpl.
  - repeat (case_match; simpl; try naive_solver).
  - naive_solver.
  - rewrite Hm. simpl. naive_solver.
Qed.

(** *** The worker *)

Lemma report_move_keeps known k path :
  keeps J (report_move deps known k path : prog (World L Env) err unit) (fun _ => True).
Proof.
  unfold report_move. destruct (negb _); [|done].
  eapply keeps_bind; [|intros; by apply keeps_note_if].
  apply (keeps_tell _ _ _ _ (fun _ => True)); [|done]. intros l. apply guarded_recordMove. by left.
Qed.

Definition go_on_ok (k : string) (r : option (bool * option LedgerRecord)) : Prop :=
  match r with
  | None => True
  | Some (_, rw) => k <> k0 /\ forall known, rw = Some known ->
      tenantId known = tenant /\ mappingId known = mapping /\ itemType known = dom /\
      naturalKeyHash known = k
  end.

Lemma keyed_fast_path_keeps k version path :
  keeps J (keyed_fast_path deps k version path : prog (World L Env) err _) (go_on_ok k).
Proof.
  unfold keyed_fast_path. eapply keeps_bind; [apply (keeps_ask _ _ _ _ (known_ok k)), find_known_ok|].
  intros [known|] Hk; [|by split]. destruct Hk as (Ht & Hm & Hd & Hkey & Hterm).
  eapply (keeps_bind _ _ _ (fun _ => True)).
  { destruct (has_claim known); [|done]. apply keeps_tell; [|done]. intros l. apply guarded_clearAbsent. }
  intros [] _. cbv zeta. case_bool_decide as Hmv.
  { eapply keeps_bind; [apply report_move_keeps|done]. }
  eapply (keeps_bind _ _ _ (fun _ => True)).
  { destruct (defined _); [|done]. apply keeps_tell; [|done]. intros l. apply guarded_clearMove. }
  intros [] _.
  assert (Hact : k = k0 -> let a := classifyKnownItem known version (Some path) in
    a <> rewrite /\ a <> retry_failed /\ a <> relocated_away /\
    (a = record_version -> rstatus known = Some adopted)).
  { intros Hk0. apply terminal_action. by apply Hterm. }
  assert (Hnote : forall f, keeps J (note f ;;; Ret None : prog (World L Env) err _) (go_on_ok k)).
  { intros f. eapply (keeps_bind _ _ _ (fun _ => True)); [by apply keeps_note_if|done]. }
  destruct (classifyKnownItem known version (Some path)) eqn:Ha; try done; try apply Hnote.
  - eapply keeps_bind; [apply keeps_tell_or_throw|intros; apply Hnote].
    intros l. apply (guarded_record_version k); try done.
    intros Hk0. destruct (Hact Hk0) as (_ & _ & _ & Had). split; [by apply Had|by apply Hterm].
  - split; [intros Hk0; by destruct (Hact Hk0) as (? & ? & ? & _)|]. intros known' [= <-]. done.
  - split; [intros Hk0; by destruct (Hact Hk0) as (? & ? & ? & _)|done].
  - split; [intros Hk0; by destruct (Hact Hk0) as (? & ? & ? & _)|done].
Qed.

Definition derived_ok (item : Item) (raw : Raw) (r : option (string * bool)) : Prop :=
  match r with
  | None => True
  | Some (k, _) => k <> k0 /\ exists f, ds_naturalKeyFromRaw deps = Some f /\ f item raw = k
  end.

Lemma derived_fast_path_keeps item raw path :
  keeps J (derived_fast_path deps item raw path : prog (World L Env) err _) (derived_ok item raw).
Proof.
  unfold derived_fast_path. destruct (ds_naturalKeyFromRaw deps) as [f|] eqn:Hf; [|done].
  cbv zeta. set (k := f item raw).
  eapply (keeps_bind _ _ _ (fun _ => True)); [by apply keeps_note_if|]. intros [] _.
  eapply keeps_bind; [apply (keeps_ask _ _ _ _ (known_ok k)), find_known_ok|].
  assert (Hgo : forall b, k <> k0 -> derived_ok item raw (Some (k, b))) by (intros b Hne; split; eauto).
  intros [known|] Hk; [|by apply Hgo]. destruct Hk as (_ & _ & _ & _ & Hterm).
  assert (Hact : k = k0 -> let a := classifyKnownItem known None (Some path) in
    a <> rewrite /\ a <> retry_failed /\ a <> relocated_away /\
    (a = record_version -> rstatus known = Some adopted)).
  { intros Hk0. apply terminal_action. by apply Hterm. }
  assert (Hnote : forall f, keeps J (note f ;;; Ret None : prog (World L Env) err _) (derived_ok item raw)).
  { intros g. eapply (keeps_bind _ _ _ (fun _ => True)); [by apply keeps_note_if|done]. }
  destruct (classifyKnownItem known None (Some path)) eqn:Ha; try apply Hnote; apply Hgo;
    intros Hk0; by destruct (Hact Hk0) as (? & ? & ? & _).
Qed.

Lemma other_update r l :
  tenantId r = tenant -> mappingId r = mapping -> naturalKeyHash r <> k0 ->
  guarded c l -> guarded c (snd (lg_recordUpdate r l)).
Proof.
  intros Ht Hm Hk. destruct (lg_recordUpdate r l) as [x l'] eqn:Hu.
  apply law_recordUpdate_other in Hu. rewrite Ht, Hm in Hu. by eapply guarded_other.
Qed.

Lemma other_insert r l :
  tenantId r = tenant -> mappingId r = mapping -> naturalKeyHash r <> k0 ->
  guarded c l -> guarded c (snd (lg_recordIfAbsent r l)).
Proof.
  intros Ht Hm Hk. destruct (lg_recordIfAbsent r l) as [x l'] eqn:Hu.
  apply law_recordIfAbsent_other in Hu. rewrite Ht, Hm in Hu. by eapply guarded_other.
Qed.

Lemma write_item_keeps cid item raw size path k ch hasRow rw :
  k <> k0 -> ensured cid -> listed item -> fetched item raw -> ~ names item raw ->
  (forall known, rw = Some known -> tenantId known = tenant /\ mappingId known = mapping /\
     itemType known = dom /\ naturalKeyHash known = k) ->
  keeps J (write_item deps cid item raw size path k ch hasRow rw : prog (World L Env) err _) (fun _ => True).
Proof.
  intros Hk Hcid Hl Hr Hn Hrw. unfold write_item.
  eapply keeps_bind; [apply keeps_writer, (ck_upsert CK); done|]. intros result _.
  destruct (ur_conflicted result).
  - eapply (keeps_bind _ _ _ (fun _ => True)); [by apply keeps_note_if|]. intros [] _.
    destruct rw as [known|]; [|done]. destruct (Hrw known eq_refl) as (Ht & Hm & _ & Hkk).
    eapply keeps_bind; [apply keeps_tell_or_throw|done]. intros l. apply other_update; simpl; congruence.
  - eapply keeps_bind; [apply keeps_the_time|]. intros now _. cbv zeta.
    eapply (keeps_bind _ _ _ (fun _ => True)).
    { destruct hasRow; apply keeps_tell_or_throw; intros l;
        [by apply other_update|by apply other_insert]. }
    intros ? _. eapply (keeps_bind _ _ _ (fun _ => True)); [by apply keeps_note_if|]. intros [] _.
    by destruct (collides _ _ _).
Qed.

Lemma tripwire_keeps reason : keeps J (tripwire reason : prog (World L Env) err _) (fun _ => True).
Proof.
  unfold tripwire. eapply keeps_bind; [apply keeps_recall|]. intros n _. by destruct (_ <=? n).
Qed.

Lemma on_failure_keeps key ch e :
  (forall k, key = Some k -> k <> k0) ->
  keeps J (on_failure deps key ch e : prog (World L Env) err _) (fun _ => True).
Proof.
  intros Hk. destruct e as [reason|m]; [|done]. unfold on_failure.
  eapply (keeps_bind _ _ _ (fun _ => True)); [by apply keeps_note_if|]. intros [] _.
  destruct key as [k|]; [|apply tripwire_keeps].
  eapply keeps_bind; [apply keeps_the_time|]. intros now _.
  eapply keeps_bind; [apply keeps_tell_or_throw|].
  { intros l Hg. destruct (lg_recordFailure _ _ l) as [x l'] eqn:Hf.
    apply law_recordFailure_other in Hf. simpl in *. eapply guarded_other; [by apply Hk|done|done]. }
  intros row _. cbv zeta. eapply (keeps_bind _ _ _ (fun _ => True)); [by apply keeps_note_if|].
  intros [] _. apply tripwire_keeps.
Qed.

Lemma process_item_keeps cid path item :
  ensured cid -> listed item -> keeps J (process_item deps cid path item : prog (World L Env) err _) (fun _ => True).
Proof.
  intros Hcid Hl. unfold process_item.
  eapply (keeps_bind _ _ _ (fun _ => True)); [by apply keeps_note_if|]. intros [] _.
  set (key := ds_naturalKey deps item). assert (Hdef : ds_naturalKey deps item = key) by done.
  clearbody key.
  eapply (keeps_bind _ _ _ (fun r => match r with None => True | Some (_, rw) =>
    (forall k, key = Some k -> k <> k0) /\ (key = None -> rw = None) /\
    forall known k, rw = Some known -> key = Some k ->
      tenantId known = tenant /\ mappingId known = mapping /\ itemType known = dom /\
      naturalKeyHash known = k end)).
  { destruct key as [k|]; [|by split_and!].
    eapply keeps_mono; [apply keyed_fast_path_keeps|].
    intros [[hasRow rw]|]; [|done]. intros [Hk Hrw]. split_and!; [by intros ? [= <-]|done|].
    intros known k' -> [= <-]. by apply Hrw. }
  intros [[hasRow rw]|]; [|done]. intros (Hk & Hnone & Hrw).
  eapply keeps_bind.
  { apply (keeps_attempt _ _ _ _ (fun r => match r with None => True | Some (raw, _, k, _) =>
      k <> k0 /\ fetched item raw /\ ~ names item raw /\ (forall k', key = Some k' -> k' = k) end)).
    unfold fetch_and_key.
    eapply keeps_bind; [apply (keeps_call_post _ _ _ _ (fun a => fetched item a.1)); intros e; by apply (ck_fetch CK)|].
    intros [raw size] Hraw. cbn [fst snd] in *. destruct key as [k|] eqn:Hkey.
    - split_and!; [by apply Hk|done| |by intros ? [= <-]].
      intros [Hn|[Hn _]]; [|congruence]. apply (Hk k0); [congruence|done].
    - eapply keeps_bind; [apply derived_fast_path_keeps|]. intros [[k b]|]; [|done].
      intros [Hne (f & Hf & Hfk)]. split_and!; [done|done| |done].
      intros [Hn|(_ & f' & Hf' & Hfk')]; [congruence|naive_solver congruence]. }
  intros [e|[[[[raw size] k] hasRow']|]]; [intros _; by apply on_failure_keeps| |done].
  intros (Hne & Hraw & Hn & Hsame). apply keeps_catch.
  - apply write_item_keeps; [done..|]. intros known Hrw'. destruct key as [k'|] eqn:Hkey.
    + rewrite <- (Hsame k' eq_refl). by apply Hrw.
    + by rewrite Hnone in Hrw'.
  - intros e. apply on_failure_keeps. by intros ? [= <-].
Qed.

(** *** The detectors *)

(** A placed row may be given a destination: it is not a tombstone's. *)
Definition placed_ok (row : PlacedItem) : Prop :=
  pi_naturalKeyHash row = k0 -> pi_deletionAppliedAt row = None -> c.1.1 <> Some tombstoned.

Lemma placed_rows_ok l : guarded c l -> Forall placed_ok (lg_placedItems tenant mapping dom l).
Proof.
  intros Hg. apply Forall_forall. intros p Hp Hk Happ Hc.
  destruct (law_placedItems _ _ _ _ _ Hp) as (r & Hf & _ & _ & _ & Ha). rewrite Hk in Hf.
  destruct (guarded_known _ _ Hg Hf) as [Ht Ho]. rewrite <- Ho in Hc. simpl in Hc.
  unfold terminal in Ht. destruct Ht as [?|[?|(_ & _ & [? ?])]]; congruence.
Qed.

Lemma detectors_guard : detectors_respect tenant mapping dom (guarded c) placed_ok.
Proof.
  split; [by apply guarded_annotate|by apply guarded_clearMove|by apply placed_rows_ok|].
  intros row to o l Hp Happ. apply guarded_recordMove. intros Hk. right. by apply Hp.
Qed.

Lemma terminal_items_kept scheds w r w' :
  guarded c (w_ledger w) -> I (w_env w) ->
  runDomainSync deps scheds w = Some (r, w') ->
  guarded c (w_ledger w') /\ I (w_env w').
Proof.
  intros Hg HI Hr.
  destruct (runDomainSync_keeps deps (guarded c) I (fun _ => True) (fun _ => True) (fun _ => listed) (fun _ => ensured) placed_ok
              tallied_trivial (ck_listings CK) detectors_guard
              (fun cid f item => process_item_keeps cid (collectionPath f) item)
              scheds w r w') as [(? & ? & _) _]; [by split_and!|exact Hr|by split].
Qed.

(** C30: what an item's migration ended in stays as it is.  Let an item be one
    the target already had (adopted), one the owner left behind, or one removed
    on the owner's decision.  Then no pass - whatever the listings say, however
    its workers interleave, wherever it stops - writes it: its row keeps its
    status, target and content hash, and any fact [I] of the outside world that
    only a write of that very item could falsify still holds. *)
Theorem pass_leaves_terminal_items_alone scheds w r w' :
  guarded c (w_ledger w) -> I (w_env w) ->
  runDomainSync deps scheds w = Some (r, w') ->
  guarded c (w_ledger w') /\ I (w_env w').
Proof. apply terminal_items_kept. Qed.
End untouchable.

(** ** A concrete pass

    One folder with the items "k" and "n", both at version "v2"; the target
    appends what it is handed to a log. *)
Section sample.
#[local] Instance sample_port : Ledger Ledger.PgState := Ledger.pg_ledger map_to_list.

#[local] Instance sample_laws : LedgerLaws Ledger.PgState :=
  Ledger.pg_ledger_laws map_to_list scan_in_key_order.

Definition sample_upsert (item : string) : prog (Ledger.PgState * list string) string UpsertResult :=
  act (fun le => (mkUpsertResult ("copy-of-" ++ item) true false None false false,
                  (le.1, le.2 ++ [item]))).

Definition sample_folder : Folder := mkFolder (Some "Docs"%string) None.

Definition sample_content (f : Folder) : list string :=
  if bool_decide (f = sample_folder) then ["k"; "n"]%string else [].

Definition sample_sync : DomainSyncDeps Ledger.PgState (list string) string string :=
  {| ds_tenantId := "t"; ds_mappingId := "m"; ds_domain := File; ds_cursors := true;
     ds_concurrency := None;
     ds_listFolders := fun e => (inr [sample_folder], e);
     ds_listSince := fun f _ e => (inr (mkListing (sample_content f) "cursor-1" None), e);
     ds_fetchRaw := fun i e => (inr (i, 3), e);
     ds_upsert := fun _ _ i _ => sample_upsert i;
     ds_sourceVersion := fun _ => Some "v2"; ds_sourceRef := fun _ => None;
     ds_naturalKey := Some; ds_listCollectionKeys := None; ds_listDiscardedKeys := None;
     ds_naturalKeyFromRaw := None; ds_contentHash := fun raw => raw; ds_failOnCollision := false;
     ds_ensureCollection := fun _ e => (inr "collection-1", e); ds_now := fun _ => 7 |}%string.

Definition sample_world : World Ledger.PgState (list string) :=
  mkWorld (snd (Ledger.recordIfAbsent (Ledger.sample_record "t" "m" File "k" "h" adopted)
                  Ledger.empty_ledger)) [] ∅ initial_pass.

(** Two workers taking turns. *)
Definition two_workers : list nat := concat (replicate 40 [0; 1]%nat).

Lemma sample_calls_keep c :
  calls_keep sample_sync "k" (fun log => "k" ∉ log)%string c (fun _ => True) (fun _ _ => True) (fun _ => True).
Proof.
  split; [split| |]; try (by intros); [apply (folders_any sample_sync (fun log => "k" ∉ log)%string); by intros e He|by intros f e He| |].
  - intros f p e _ He. split; [exact He|]. by apply Forall_true.
  - intros cid raw item o _ _ _ Hn. apply keeps_act. intros [l e] [Hl He].
    split; [|done]. split; [done|]. simpl in *. rewrite not_elem_of_app, not_elem_of_cons. split; [done|].
    split; [intros <-; apply Hn; by left|apply not_elem_of_nil].
Qed.

(** The pass migrates "n" and never hands "k", the owner's own copy, to the target. *)
Lemma pass_leaves_terminal_items_alone_witness :
  exists r w, runDomainSync sample_sync [two_workers] sample_world = Some (inr r, w) /\
    created (rs_counters r) = 1 /\ changedButAdopted (rs_counters r) = 1 /\
    w_env w = ["n"]%string /\ guarded sample_sync "k" (Some adopted, "target-1", "h")%string (w_ledger w).
Proof.
  destruct (runDomainSync sample_sync [two_workers] sample_world) as [[[e|r] w]|] eqn:Hr.
  - apply (f_equal (fun o => match o with Some (inl _, _) => true | _ => false end)) in Hr.
    vm_compute in Hr. discriminate.
  - exists r, w. split; [reflexivity|].
    assert (Hc : match runDomainSync sample_sync [two_workers] sample_world with
                 | Some (inr r, w) => (created (rs_counters r), changedButAdopted (rs_counters r), w_env w)
                 | _ => (0, 0, []) end = (1, 1, ["n"]%string)) by (vm_compute; reflexivity).
    rewrite Hr in Hc. injection Hc as Hc1 Hc2 Hc3. split; [exact Hc1|]. split; [exact Hc2|].
    split; [exact Hc3|].
    refine (proj1 (pass_leaves_terminal_items_alone sample_sync "k" (fun log => "k" ∉ log)%string
              (Some adopted, "target-1", "h")%string (fun _ => True) (fun _ _ => True) (fun _ => True) (sample_calls_keep _)
              _ sample_world _ w _ _ Hr)).
    + eexists. split; [vm_compute; reflexivity|]. split; [left; reflexivity|reflexivity].
    + apply not_elem_of_nil.
  - apply (f_equal (fun o => match o with Some _ => true | _ => false end)) in Hr.
    vm_compute in Hr. discriminate.
Defined.
End sample.
