(* ===== verification/DomainSyncSettles.v ===== *)
(** * What a clean pass achieves

    After a pass of [runDomainSync] in which nothing failed, every item the
    source holds has a row, and that row owes the item nothing more: not a
    retry, not a rewrite, not the lifting of a tombstone.  For every
    interleaving of the workers, by the rely-guarantee triples of [Prog]. *)

From S2P Require Import Prelude Prog Concurrency Ports Detectors DomainSync DomainSyncInvariants DomainSyncSafety.
From S2P Require Ledger.

Open Scope Z_scope.

(** ** Rows that owe nothing *)

Definition owes_nothing (a : KnownItemAction) : Prop :=
  a <> rewrite /\ a <> retry_failed /\ a <> relocated_away.

(** Same facts, and no destination it did not have before. *)
Lemma classify_same row row' v p :
  copy_facts row' = copy_facts row ->
  movedToNaturalKeyHash row' = None \/ movedToNaturalKeyHash row' = movedToNaturalKeyHash row ->
  owes_nothing (classifyKnownItem row v p) -> owes_nothing (classifyKnownItem row' v p).
Proof.
  intros [= Hs _ _ Hc Hv _ Ha _] Hm. unfold classifyKnownItem, topology_changed.
  rewrite Hs, Hc, Hv, Ha. destruct Hm as [Hm|Hm]; rewrite Hm; [|done].
  repeat case_match; done.
Qed.

(** A row just written for the current version, or adopted. *)
Lemma classify_current row v p :
  rstatus row <> Some failed -> rstatus row <> Some tombstoned ->
  rstatus row = Some adopted \/ sourceVersion row = v ->
  owes_nothing (classifyKnownItem row v p).
Proof.
  intros Hf Ht Hv. unfold classifyKnownItem.
  case_bool_decide; [done|]. rewrite !bool_decide_false by done. destruct (topology_changed row p); [done|].
  destruct v as [v|]; [|done]. destruct (sourceVersion row) as [v'|]; [|done].
  destruct (String.eqb_spec v' v); [done|]. destruct Hv as [Hv|[=]]; [|done].
  by rewrite bool_decide_true.
Qed.

(** Only a copy in place gets its version recorded. *)
Lemma classify_placed_status row v p :
  classifyKnownItem row v p = record_version -> rstatus row <> Some failed /\ rstatus row <> Some tombstoned.
Proof. unfold classifyKnownItem. intros Ha. repeat case_match; repeat case_bool_decide; naive_solver. Qed.

Section settles.
Context {L Env Item Raw : Type} `{LL : LedgerLaws L}.
Variable deps : DomainSyncDeps L Env Item Raw.

(** The version the source has for a key. *)
Variable version_of : string -> option string.

Abbreviation tenant := (ds_tenantId deps).
Abbreviation mapping := (ds_mappingId deps).
Abbreviation dom := (ds_domain deps).
Abbreviation row_at := (lg_find tenant mapping dom).

Definition quiet (k p : string) (row : LedgerRecord) : Prop :=
  owes_nothing (classifyKnownItem row (version_of k) (Some p)).

Definition calm (k p : string) (l : L) : Prop := forall row, row_at k l = Some row -> quiet k p row.
Definition tracked (k : string) (l : L) : Prop := is_Some (row_at k l).

(** A tombstone says when it was applied. *)
Definition sane (l : L) : Prop :=
  forall k row, row_at k l = Some row -> rstatus row = Some tombstoned -> is_Some (deletionAppliedAt row).

Record retains (l l' : L) : Prop := {
  rt_tracked k : tracked k l -> tracked k l';
  rt_sane : sane l -> sane l'
}.

Record advances (l l' : L) : Prop := {
  av_retains : retains l l';
  av_calm k p : calm k p l -> calm k p l'
}.

#[export] Instance retains_preorder : PreOrder retains.
Proof. split; [by intros l; split|]. intros l1 l2 l3 [] []; split; auto. Qed.

#[export] Instance advances_preorder : PreOrder advances.
Proof.
  split; [intros l; by split; [reflexivity|]|].
  intros l1 l2 l3 [] []; split; [by etrans|auto].
Qed.

(** *** The ledger's statements advance *)

Lemma advances_same l l' :
  (forall k, find_facts tenant mapping dom k l' = find_facts tenant mapping dom k l) ->
  (forall k, find_moved tenant mapping dom k l' = find_moved tenant mapping dom k l \/
     forall row, row_at k l' = Some row -> movedToNaturalKeyHash row = None) ->
  advances l l'.
Proof.
  intros Hfacts Hmoved.
  assert (Hback : forall k row', row_at k l' = Some row' -> exists row, row_at k l = Some row /\
    copy_facts row' = copy_facts row /\
    (movedToNaturalKeyHash row' = None \/ movedToNaturalKeyHash row' = movedToNaturalKeyHash row)).
  { intros k row' Hf'. specialize (Hfacts k). specialize (Hmoved k).
    unfold find_facts, find_moved in *. rewrite Hf' in *.
    destruct (row_at k l) as [row|]; [|done]. exists row. cbn [fmap option_fmap option_map] in *.
    split; [done|]. split; [congruence|]. destruct Hmoved as [Hm|Hm]; [right; congruence|left; by apply Hm]. }
  split; [split|].
  - intros k [row Hf]. specialize (Hfacts k). unfold tracked, find_facts in *. rewrite Hf in Hfacts.
    by destruct (row_at k l').
  - intros Hs k row' Hf' Ht. destruct (Hback _ _ Hf') as (row & Hf & Hc & _).
    injection Hc as Hst _ _ _ _ _ _ Ha. rewrite Ha. apply (Hs k); congruence.
  - intros k p Hcalm row' Hf'. destruct (Hback _ _ Hf') as (row & Hf & Hc & Hm).
    eapply classify_same; [done..|]. by apply Hcalm.
Qed.

Lemma advances_annotate l l' : annotates l l' -> pins l l' -> advances l l'.
Proof. intros Ha Hp. apply advances_same; [intros k; apply Ha|left; apply Hp]. Qed.

(** A statement confined to [k] whose outcome for [k] is known. *)
Lemma retains_at k l l' :
  only_key tenant mapping k l l' ->
  (tracked k l -> tracked k l') ->
  (sane l -> forall row, row_at k l' = Some row -> rstatus row = Some tombstoned -> is_Some (deletionAppliedAt row)) ->
  retains l l'.
Proof.
  intros Ho Ht Hs.
  assert (Heq : forall k', k' <> k -> row_at k' l' = row_at k' l) by (intros k' Hne; apply Ho; congruence).
  split.
  - intros k'. destruct (decide (k' = k)) as [->|Hne]; [done|]. unfold tracked. by rewrite Heq.
  - intros Hsane k' row Hf. destruct (decide (k' = k)) as [->|Hne]; [by apply Hs|].
    rewrite Heq in Hf by done. by apply (Hsane k').
Qed.

Lemma advances_at k l l' :
  only_key tenant mapping k l l' -> retains l l' -> (forall p, calm k p l -> calm k p l') -> advances l l'.
Proof.
  intros Ho Hr Hc. split; [done|]. intros k' p. destruct (decide (k' = k)) as [->|Hne]; [apply Hc|].
  unfold calm. by rewrite Ho by congruence.
Qed.

Lemma only_key_moved k l l' : only_key tenant mapping k l l' ->
  (forall row, row_at k l' = Some row -> movedToNaturalKeyHash row = None) ->
  forall k', find_moved tenant mapping dom k' l' = find_moved tenant mapping dom k' l \/
    forall row, row_at k' l' = Some row -> movedToNaturalKeyHash row = None.
Proof.
  intros Ho Hk k'. destruct (decide (k' = k)) as [->|Hne]; [by right|left].
  unfold find_moved. by rewrite Ho by congruence.
Qed.

Lemma advances_clearMove k l : advances l (lg_clearMove tenant mapping dom k l).
Proof.
  apply advances_same; [intros k'; apply law_clearMove|].
  eapply only_key_moved; [apply law_clearMove_other|apply law_clearMove_to].
Qed.

Lemma advances_recordMove k to l : advances l (lg_recordMove tenant mapping dom k to None l).
Proof.
  apply advances_same; [intros k'; apply law_recordMove|].
  eapply only_key_moved; [apply law_recordMove_other|]. intros row Hf.
  by apply law_recordMove_to in Hf.
Qed.

Lemma advances_clearAbsent k l : advances l (lg_clearAbsent tenant mapping dom k l).
Proof. apply advances_annotate; [apply law_clearAbsent|apply law_clearAbsent_pins]. Qed.

(** A record of this mapping, keyed [k], that a write of the current version
    leaves. *)
Record written (k : string) (r : LedgerRecord) : Prop := {
  wr_tenant : tenantId r = tenant;
  wr_mapping : mappingId r = mapping;
  wr_domain : itemType r = dom;
  wr_key : naturalKeyHash r = k;
  wr_failed : rstatus r <> Some failed;
  wr_tombstoned : rstatus r <> Some tombstoned;
  wr_version : rstatus r = Some adopted \/ sourceVersion r = version_of k
}.

Lemma update_written k r l x l' :
  written k r -> lg_recordUpdate r l = (x, l') ->
  advances l l' /\ match x with inr _ => tracked k l' /\ forall p, calm k p l' | inl _ => True end.
Proof.
  intros [Ht Hm Hd Hk Hf Hts Hv] Hu. destruct x as [e|x].
  { apply law_recordUpdate_err in Hu as [-> _]. by split; [reflexivity|]. }
  pose proof (law_recordUpdate_other _ _ _ _ Hu) as Ho.
  apply law_recordUpdate_ok in Hu as (old & _ & Hx & Hfacts). rewrite Ht, Hm in Ho.
  rewrite Ht, Hm, Hd in Hx. rewrite Hk in *. injection Hfacts as Hst _ _ _ Hsv _ _ _.
  assert (Hst' : rstatus x <> Some failed /\ rstatus x <> Some tombstoned /\
    (rstatus x = Some adopted \/ sourceVersion x = version_of k)).
  { rewrite Hst, Hsv. destruct (rstatus r); simpl; naive_solver. }
  destruct Hst' as (Hst1 & Hst2 & Hv').
  assert (Hcalm : forall p, calm k p l').
  { intros p row Hrow. rewrite Hx in Hrow. injection Hrow as <-.
    by apply classify_current. }
  assert (Htr : tracked k l') by by eexists.
  split; [|by split]. apply (advances_at k); [done| |done].
  apply (retains_at k); [done|done|]. intros _ row Hrow. rewrite Hx in Hrow. by injection Hrow as <-.
Qed.

Lemma insert_written k r l x l' :
  written k r -> lg_recordIfAbsent r l = (x, l') ->
  advances l l' /\ match x with inr _ => tracked k l' | inl _ => True end.
Proof.
  intros [Ht Hm Hd Hk Hf Hts Hv] Hu. destruct x as [e|x].
  { apply law_recordIfAbsent_err in Hu as ->. by split; [reflexivity|]. }
  pose proof (law_recordIfAbsent_other _ _ _ _ Hu) as Ho.
  pose proof (law_recordIfAbsent_ok _ _ _ _ Hu) as Hx.
  pose proof (law_recordIfAbsent_new _ _ _ _ Hu) as Hnew.
  pose proof (law_recordIfAbsent_keep _ _ _ _ tenant mapping dom k Hu) as Hkeep.
  rewrite Ht, Hm in Ho. rewrite Ht, Hm, Hd in Hx, Hnew. rewrite Hk in *.
  split; [|by eexists].
  destruct (row_at k l) as [old|] eqn:Hold.
  - specialize (Hkeep (ex_intro _ old eq_refl)).
    apply (advances_at k); [done| |intros p Hc; unfold calm in *; by rewrite Hkeep, <- Hold].
    apply (retains_at k); [done|intros _; by eexists|]. intros Hsane row Hrow.
    apply (Hsane k). congruence.
  - destruct (Hnew eq_refl) as [Hfacts _]. injection Hfacts as Hst _ _ _ Hsv _ _ _.
    assert (Hst' : rstatus x <> Some failed /\ rstatus x <> Some tombstoned /\
      (rstatus x = Some adopted \/ sourceVersion x = version_of k)).
    { rewrite Hst, Hsv. destruct (rstatus r); simpl; naive_solver. }
    destruct Hst' as (Hst1 & Hst2 & Hv').
    apply (advances_at k); [done| |].
    + apply (retains_at k); [done|intros _; by eexists|]. intros _ row Hrow.
      rewrite Hx in Hrow. by injection Hrow as <-.
    + intros p _ row Hrow. rewrite Hx in Hrow. injection Hrow as <-.
      by apply classify_current.
Qed.

Lemma failure_retains k r e l x l' :
  tenantId r = tenant -> mappingId r = mapping -> itemType r = dom -> naturalKeyHash r = k ->
  lg_recordFailure r e l = (x, l') -> retains l l'.
Proof.
  intros Ht Hm Hd Hk Hu. pose proof (law_recordFailure_other _ _ _ _ _ Hu) as Ho.
  pose proof (law_recordFailure_dom _ _ _ _ _ tenant mapping dom k Hu) as Hdom.
  rewrite Ht, Hm, Hk in Ho. apply (retains_at k); [done..|].
  intros Hsane row Hrow. destruct x as [e'|x].
  - apply law_recordFailure_err in Hu as ->. by apply (Hsane k).
  - apply law_recordFailure_ok in Hu as (Hx & Hst & _). rewrite Ht, Hm, Hd, Hk in Hx. congruence.
Qed.

(** *** Steps of the pass *)

(** What is known of the source at every moment, whatever else happens. *)
Variable Src : Env -> Prop.

Record progress (w w' : World L Env) : Prop := {
  pr_retains : retains (w_ledger w) (w_ledger w');
  pr_calm : failed_count (w_pass w') <= 0 -> advances (w_ledger w) (w_ledger w');
  pr_failed : failed_count (w_pass w) <= failed_count (w_pass w');
  pr_src : Src (w_env w) -> Src (w_env w')
}.

(** A step that also leaves the cursors alone: the workers only take those. *)
Record working (w w' : World L Env) : Prop := {
  wk_progress : progress w w';
  wk_cursors : w_cursors w' = w_cursors w
}.

#[export] Instance progress_preorder : PreOrder progress.
Proof.
  split; [intros w; by split|]. intros w1 w2 w3 [Hr1 Hc1 Hf1 Hs1] [Hr2 Hc2 Hf2 Hs2]. split.
  - by etrans.
  - intros H3. etrans; [apply Hc1; lia|by apply Hc2].
  - lia.
  - auto.
Qed.

#[export] Instance working_preorder : PreOrder working.
Proof.
  split; [intros w; by split; [reflexivity|]|]. intros w1 w2 w3 [] []; split; [by etrans|congruence].
Qed.

Abbreviation stays := (stable working).

Definition failing (w : World L Env) : Prop := 0 < failed_count (w_pass w).
Definition unseen (k p : string) (w : World L Env) : Prop := failing w \/ calm k p (w_ledger w).
Definition settled (k p : string) (w : World L Env) : Prop :=
  failing w \/ (tracked k (w_ledger w) /\ calm k p (w_ledger w)).

Lemma stays_failing : stays failing.
Proof. unfold failing. intros w w' Hw [[_ _ Hf _] _]. lia. Qed.

Lemma calm_or_failing w w' k p :
  progress w w' -> calm k p (w_ledger w) -> failing w' \/ calm k p (w_ledger w').
Proof.
  intros [_ Hc _ _] Hcalm. unfold failing. destruct (Z.le_gt_cases (failed_count (w_pass w')) 0) as [H0|?].
  - right. by apply (av_calm _ _ (Hc H0)).
  - left. lia.
Qed.

Lemma stays_unseen k p : stays (unseen k p).
Proof.
  intros w w' [Hf|Hc] Hw; [left; by eapply stays_failing|].
  destruct (calm_or_failing w w' k p) as [?|?]; [apply Hw|done|by left|by right].
Qed.

Lemma progress_settled k p w w' : settled k p w -> progress w w' -> settled k p w'.
Proof.
  intros [Hf|[Ht Hc]] Hw; [left; unfold failing in *; destruct Hw; lia|].
  destruct (calm_or_failing w w' k p) as [?|?]; [done|done|by left|].
  right. split; [|done]. by apply (rt_tracked _ _ (pr_retains _ _ Hw)).
Qed.

Lemma stays_settled k p : stays (settled k p).
Proof. intros w w' Hw [Hg _]. by eapply progress_settled. Qed.



Lemma stays_all_settled k : stays (fun w => forall p, settled k p w).
Proof. intros w w' HS Hw p. by eapply stays_settled. Qed.

Abbreviation tri := (triple working).

Ltac seq := eapply triple_seq; [apply _|..].
Ltac catch := eapply triple_catch; [apply _|..].
Ltac bind := eapply triple_bind; [apply _|..].

(** The steps the pass is made of. *)
Lemma working_ledger w l : advances (w_ledger w) l -> working w (w <| w_ledger := l |>).
Proof. intros Ha. split; [|done]. split; simpl; [apply Ha|done|lia|done]. Qed.

Lemma tri_ask {A} (q : L -> A) (Q : A -> World L Env -> Prop) :
  (forall x, stays (Q x)) -> (forall w, Q (q (w_ledger w)) w) -> tri (fun _ => True) (ask q : prog _ err A) Q.
Proof. intros HQ Hq. apply triple_act; [apply stable_pure|done|]. intros w _. split; [reflexivity|apply Hq]. Qed.

Lemma tri_tell u : (forall l, advances l (u l)) ->
  tri (fun _ => True) (tell u : prog _ err unit) (fun _ _ => True).
Proof.
  intros Hu. apply triple_upd; [apply stable_pure..|]. intros w _. split; [|done].
  apply (working_ledger w (u (w_ledger w))), Hu.
Qed.

Lemma tri_note f : (forall p, failed_count p <= failed_count (f p)) ->
  tri (fun _ => True) (note f : prog (World L Env) err unit) (fun _ _ => True).
Proof.
  intros Hf. apply triple_upd; [apply stable_pure..|]. intros w _. split; [|done]. split; [|done].
  split; simpl; [reflexivity|reflexivity|apply Hf|done].
Qed.

Lemma tri_call {A} (f : Env -> (string + A) * Env) :
  (forall e, Src e -> Src (snd (f e))) ->
  tri (fun _ => True) (call f : prog (World L Env) err A) (fun _ _ => True).
Proof.
  intros Hf. apply triple_try; [apply stable_pure|intros; apply stable_pure|]. intros w _.
  specialize (Hf (w_env w)). destruct (f (w_env w)) as [[e|a] e']; (split; [|done]);
    (split; [|done]); split; simpl in *; (reflexivity || lia || done).
Qed.

Lemma tri_call_any {A} (f : Env -> (string + A) * Env) (Q : A -> Prop) :
  (forall e, Src e -> Src (snd (f e))) ->
  (forall e, match fst (f e) with inr a => Q a | inl _ => True end) ->
  tri (fun _ => True) (call f : prog (World L Env) err A) (fun a _ => Q a).
Proof.
  intros Hf HQ. apply triple_try; [apply stable_pure|intros; apply stable_pure|]. intros w _.
  specialize (Hf (w_env w)). specialize (HQ (w_env w)).
  destruct (f (w_env w)) as [[e|a] e']; (split; [|done]);
    (split; [|done]); split; simpl in *; (reflexivity || lia || done).
Qed.

Lemma tri_recall {A} (q : PassState -> A) :
  tri (fun _ => True) (recall q : prog (World L Env) err A) (fun _ _ => True).
Proof. apply triple_act; [apply stable_pure|intros; apply stable_pure|]. by intros w _; split. Qed.

Lemma tri_the_time : tri (fun _ => True) (the_time deps : prog (World L Env) err instant) (fun _ _ => True).
Proof. apply triple_act; [apply stable_pure|intros; apply stable_pure|]. by intros w _; split. Qed.

(** A statement that stores a written record. *)
Lemma tri_update k r :
  written k r ->
  tri (fun _ => True) (tell_or_throw (lg_recordUpdate r) : prog (World L Env) err _)
    (fun _ w => forall p, settled k p w).
Proof.
  intros Hr. apply triple_try; [apply stable_pure|intros x w w' HS Hw p; by eapply stays_settled|].
  intros w _. destruct (lg_recordUpdate r (w_ledger w)) as [x l] eqn:Hu.
  apply (update_written k) in Hu as [Ha Hx]; [|done].
  destruct x as [e|x]; (split; [by apply (working_ledger w l)|]); [done|].
  intros p. right. by split; apply Hx.
Qed.

Lemma tri_insert k r p :
  written k r ->
  tri (unseen k p) (tell_or_throw (lg_recordIfAbsent r) : prog (World L Env) err _)
    (fun _ => settled k p).
Proof.
  intros Hr. apply triple_try; [apply stays_unseen|intros; apply stays_settled|].
  intros w Hw. destruct (lg_recordIfAbsent r (w_ledger w)) as [x l] eqn:Hu.
  apply (insert_written k) in Hu as [Ha Hx]; [|done].
  destruct x as [e|x]; (split; [by apply (working_ledger w l)|]); [done|].
  destruct Hw as [Hw|Hw]; [by left|right]. split; [done|]. by apply (av_calm _ _ Ha).
Qed.

(** *** The worker *)

(** What is asked of the outside: the source stays what it is, items are keyed
    and a key has one version, and the target's writer, where it consults the
    ledger at all, only advances it. *)
Variables (listed : Item -> Prop) (fetched : Item -> Raw -> Prop).

Record static_calls : Prop := {
  sc_folders e : Src e -> Src (snd (ds_listFolders deps e));
  sc_ensure f e : Src e -> Src (snd (ds_ensureCollection deps f e));
  sc_list f p e : Src e -> Src (snd (ds_listSince deps f p e));
  sc_fetch i e : Src e -> Src (snd (ds_fetchRaw deps i e));
  sc_keys g f e : ds_listCollectionKeys deps = Some g -> Src e -> Src (snd (g f e));
  sc_discards g e : ds_listDiscardedKeys deps = Some g -> Src e -> Src (snd (g e));
  sc_fetched i e : match fst (ds_fetchRaw deps i e) with inr a => fetched i a.1 | inl _ => True end;
  sc_upsert cid raw item k p rw :
    listed item -> ds_naturalKey deps item = Some k -> ds_sourceVersion deps item = version_of k ->
    fetched item raw ->
    steps_in (fun le le' => advances le.1 le'.1 /\ (Src le.2 -> Src le'.2))
      (ds_upsert deps cid raw item (upsert_options deps item p rw))
}.

Hypothesis SC : static_calls.

Lemma steps_in_writer {A} (p : prog (L * Env) string A) :
  steps_in (fun le le' => advances le.1 le'.1 /\ (Src le.2 -> Src le'.2)) p ->
  steps_in working (writer p).
Proof.
  induction p as [a|e|B f k IH]; simpl; [done..|]. intros Hp w.
  destruct (Hp (w_ledger w, w_env w)) as [[Ha Hs] Hk].
  destruct (f (w_ledger w, w_env w)) as [b le]. simpl in *. split; [|by apply IH].
  split; [|done]. split; simpl; [apply Ha|done|lia|done].
Qed.

(** Answered [None], the fast path owes the item nothing more. *)
Definition fast_path_post (k p : string) (r : option (bool * option LedgerRecord)) (w : World L Env) : Prop :=
  match r with
  | None => settled k p w
  | Some (hasRow, rw) =>
      (hasRow = false -> unseen k p w) /\
      forall known, rw = Some known ->
        tenantId known = tenant /\ mappingId known = mapping /\ itemType known = dom /\
        naturalKeyHash known = k
  end.

Definition found_post (k p : string) (found : option LedgerRecord) (w : World L Env) : Prop :=
  match found with
  | None => unseen k p w
  | Some known =>
      (tenantId known = tenant /\ mappingId known = mapping /\ itemType known = dom /\
       naturalKeyHash known = k) /\ (quiet k p known -> settled k p w)
  end.

Lemma stays_found k p found : stays (found_post k p found).
Proof.
  destruct found as [known|]; [|apply stays_unseen]. intros w w' [Hk Hq] Hw.
  split; [done|]. intros Hquiet. eapply stays_settled; [by apply Hq|done].
Qed.

Lemma stays_fast_path k p r : stays (fast_path_post k p r).
Proof.
  destruct r as [[hasRow rw]|]; [|apply stays_settled]. intros w w' [Hu Hrw] Hw.
  split; [|done]. intros Hh. eapply stays_unseen; [by apply Hu|done].
Qed.

Lemma find_post k p : tri (fun _ => True) (ask (row_at k) : prog _ err _) (found_post k p).
Proof.
  apply tri_ask; [intros x; apply stays_found|]. intros w.
  destruct (row_at k (w_ledger w)) as [known|] eqn:Hf; simpl.
  - split; [by apply (law_find_key _ _ _ _ _ _ Hf)|]. intros Hq. right.
    split; [by eexists|]. intros row Hrow. congruence.
  - right. intros row Hrow. congruence.
Qed.

(** Steps that only report, before a settled end. *)
Lemma tri_note_settled {A} (P : World L Env -> Prop) f (a : A) (Q : A -> World L Env -> Prop) :
  stays P -> (forall p, failed_count p <= failed_count (f p)) ->
  stays (Q a) -> (forall w, P w -> Q a w) ->
  tri P (note f ;;; Ret a : prog _ err A) Q.
Proof.
  intros HP Hf HQ HPQ. seq; [done| |].
  - eapply triple_weaken; [by apply tri_note|done|done].
  - intros []. apply triple_ret; [done|]. intros w [_ Hw]. by apply HPQ.
Qed.

Lemma tri_mid {A B} (P : World L Env -> Prop) (p : prog _ err A) (q : prog _ err B) Q :
  stays P -> tri (fun _ => True) p (fun _ _ => True) -> tri P q Q -> tri P (p ;;; q) Q.
Proof.
  intros HP Hp Hq. seq; [done|eapply triple_weaken; [exact Hp|done|done]|].
  intros a. eapply triple_weaken; [exact Hq|by intros w [_ ?]|done].
Qed.

Lemma tri_true {A} (P : World L Env -> Prop) (p : prog (World L Env) err A) Q :
  tri (fun _ => True) p Q -> tri P p Q.
Proof. intros Hp. by eapply triple_weaken. Qed.

Lemma tri_second {A} (P F : World L Env -> Prop) (p : prog (World L Env) err A) Q :
  tri F p Q -> tri (fun w => P w /\ F w) p Q.
Proof. intros Hp w [_ Hw]. by apply Hp. Qed.

Lemma tri_if (b : bool) (p : prog (World L Env) err unit) :
  tri (fun _ => True) p (fun _ _ => True) ->
  tri (fun _ => True) (if b then p else Ret tt) (fun _ _ => True).
Proof. intros Hp. destruct b; [done|]. apply triple_ret; [apply stable_pure|done]. Qed.

Lemma report_move_working known k p :
  tri (fun _ => True) (report_move deps known k p : prog _ err unit) (fun _ _ => True).
Proof.
  unfold report_move. apply tri_if. apply tri_mid; [apply stable_pure| |].
  - apply tri_tell. intros l. apply advances_recordMove.
  - apply tri_note. intros q. simpl. lia.
Qed.

Lemma keyed_fast_path_settles k p :
  tri (fun _ => True) (keyed_fast_path deps k (version_of k) p : prog _ err _) (fast_path_post k p).
Proof.
  unfold keyed_fast_path. bind; [apply find_post|]. intros [known|].
  2: { apply triple_ret; [apply stays_fast_path|]. intros w Hw. by split. }
  apply tri_mid; [apply stays_found|apply tri_if, tri_tell; intros l; apply advances_clearAbsent|].
  cbv zeta. case_bool_decide as Hmv.
  { eapply tri_mid; [apply stays_found|apply report_move_working|].
    apply triple_ret; [apply stays_settled|]. intros w [_ Hq]. apply Hq. unfold quiet. by rewrite Hmv. }
  apply tri_mid; [apply stays_found|apply tri_if, tri_tell; intros l; apply advances_clearMove|].
  assert (Hnote : forall f, (forall q, failed_count q <= failed_count (f q)) ->
    quiet k p known ->
    tri (found_post k p (Some known)) (note f ;;; Ret None : prog _ err _) (fast_path_post k p)).
  { intros f Hf Hquiet. apply tri_note_settled; [apply stays_found|done|apply stays_settled|].
    intros w [_ Hq]. by apply Hq. }
  unfold quiet in Hnote.
  destruct (classifyKnownItem known (version_of k) (Some p)) eqn:Ha; try done;
    try (apply Hnote; [intros q; simpl; lia|done]).
  - apply triple_pure. intros (Ht & Hm & Hd & Hk). apply tri_true.
    bind; [apply (tri_update k)|intros x].
    + apply classify_placed_status in Ha as (Hf & Hts). split; simpl; [done..|by right].
    + apply tri_note_settled; [apply stays_all_settled|intros q; simpl; lia|apply stays_settled|].
      intros w Hw. apply Hw.
  - apply triple_ret; [apply stays_fast_path|]. intros w [Hk _]. split; [done|]. by intros known' [= <-].
Qed.

Lemma count_write_failed path key ch rw result p :
  failed_count (count_write path key ch rw result p) = failed_count p.
Proof. unfold count_write. by repeat case_match. Qed.

Lemma copied_row_written item p k ch size result now :
  ds_sourceVersion deps item = version_of k ->
  written k (copied_row deps item p k ch size result now).
Proof.
  intros Hv. split; simpl; try done; try (by repeat case_match). by right.
Qed.

Lemma write_item_settles cid item raw size k p ch hasRow rw :
  listed item -> ds_naturalKey deps item = Some k -> ds_sourceVersion deps item = version_of k ->
  fetched item raw ->
  tri (fast_path_post k p (Some (hasRow, rw)))
    (write_item deps cid item raw size p k ch hasRow rw : prog _ err _) (fun _ => settled k p).
Proof.
  intros Hitem Hkey Hv Hraw. unfold write_item.
  seq; [apply stays_fast_path|by apply tri_true, triple_steps, steps_in_writer, (sc_upsert SC) with (k := k)|].
  intros result. apply tri_second.
  destruct (ur_conflicted result).
  - apply tri_mid; [apply stays_fast_path|apply tri_note; intros q; simpl; lia|].
    destruct rw as [known|]; [|apply triple_throw].
    intros w [_ Hrw]. destruct (Hrw known eq_refl) as (Ht & Hm & Hd & Hk).
    cut (tri (fun _ => True) (tell_or_throw (lg_recordUpdate (known <| rstatus := Some adopted |>
            <| targetId := ur_targetId result |>)) ;;; Ret tt : prog _ err _) (fun _ => settled k p)).
    { intros Hrec. by apply Hrec. }
    bind; [apply (tri_update k); split; simpl; try done; by left|].
    intros x. apply triple_ret; [apply stays_settled|]. intros w' Hw'. apply Hw'.
  - seq; [apply stays_fast_path|apply tri_true, tri_the_time|]. intros now.
    apply tri_second. cbv zeta.
    bind; [instantiate (1 := fun _ => settled k p)|intros x].
    + destruct hasRow.
      * eapply triple_weaken; [apply (tri_update k), copied_row_written, Hv|done|]. intros a w Hw. apply Hw.
      * apply triple_weaken with (A' := unseen k p) (Q' := fun _ => settled k p);
          [by apply tri_insert, copied_row_written| |done].
        intros w [Hu _]. by apply Hu.
    + apply tri_mid; [apply stays_settled|apply tri_note; intros q; by rewrite count_write_failed|].
      destruct (collides _ _ _); [apply triple_throw|apply triple_ret; [apply stays_settled|done]].
Qed.

(** A failure is counted before anything else happens. *)
Definition counting (w : World L Env) : Prop := 0 <= failed_count (w_pass w).

Lemma stays_counting : stays counting.
Proof. unfold counting. intros w w' Hw [[_ _ Hp _] _]. lia. Qed.

Lemma tri_count_failure f :
  (forall p, failed_count (f p) = 1 + failed_count p) ->
  tri counting (note f : prog (World L Env) err unit) (fun _ => failing).
Proof.
  intros Hf. apply triple_upd; [apply stays_counting|apply stays_failing|].
  unfold counting, failing. intros w Hw. simpl. rewrite Hf. split; [|lia]. split; [|done].
  split; simpl; [done|done|rewrite Hf; lia|done].
Qed.

Lemma tripwire_working reason (P : World L Env -> Prop) :
  stays P -> tri P (tripwire reason : prog (World L Env) err _) (fun _ => P).
Proof.
  intros HP. unfold tripwire. seq; [done|apply tri_true, tri_recall|]. intros n. apply tri_second.
  destruct (_ <=? n); [apply triple_throw|by apply triple_ret].
Qed.

Lemma on_failure_counts key ch e :
  tri counting (on_failure deps key ch e : prog (World L Env) err _) (fun _ => failing).
Proof.
  destruct e as [reason|m]; [|apply triple_throw]. unfold on_failure.
  bind; [by apply tri_count_failure|]. intros [].
  destruct key as [k|]; [|apply tripwire_working, stays_failing].
  seq; [apply stays_failing|apply tri_true, tri_the_time|]. intros now. apply tri_second.
  seq; [apply stays_failing| |].
  { apply triple_try with (Q := fun _ _ => True); [apply stays_failing|intros; apply stable_pure|].
    intros w Hw. destruct (lg_recordFailure _ _ (w_ledger w)) as [x l] eqn:Hu.
    apply (failure_retains k) in Hu; [|done..]. unfold failing in Hw.
    destruct x as [e|x]; (split; [|done]); (split; [|done]); split; simpl; (done || lia). }
  intros row. apply tri_second. cbv zeta.
  apply tri_mid; [apply stays_failing| |apply tripwire_working, stays_failing].
  apply tri_note. intros p. destruct (_ <=? _); simpl; lia.
Qed.

Lemma process_item_settles cid p item k :
  listed item -> ds_naturalKey deps item = Some k -> ds_sourceVersion deps item = version_of k ->
  tri counting (process_item deps cid p item : prog (World L Env) err _) (fun _ => settled k p).
Proof.
  intros Hitem Hk Hv. unfold process_item. rewrite Hk, Hv. cbv zeta.
  apply tri_mid; [apply stays_counting|apply tri_note; intros q; simpl; lia|].
  seq; [apply stays_counting|apply tri_true, keyed_fast_path_settles|].
  intros [[hasRow rw]|]; [|apply triple_ret; [apply stays_settled|by intros w [Hw _]]].
  assert (Hst : stays (fun w => fast_path_post k p (Some (hasRow, rw)) w /\ counting w))
    by (apply stable_and; [apply stays_fast_path|apply stays_counting]).
  assert (Hfail : forall ch e, tri counting (on_failure deps (Some k) ch e : prog (World L Env) err _)
                                 (fun _ => settled k p)).
  { intros ch e. eapply triple_weaken; [apply on_failure_counts|done|]. intros a w Hw. by left. }
  seq; [exact Hst| |].
  { apply tri_true with (Q := fun half _ => match half with inr None => False
      | inr (Some (raw, _, k', h)) => (k' = k /\ h = hasRow) /\ fetched item raw | inl _ => True end).
    unfold attempt. catch; [apply (stable_pure _ True)|by intros w Hw| |].
    - bind; [|intros half; apply triple_ret; [|intros w Hw; exact Hw]; apply stable_pure].
      unfold fetch_and_key.
      bind; [apply (tri_call_any _ (fun a => fetched item a.1)); [intros e; by apply (sc_fetch SC)|intros e; by apply (sc_fetched SC)]|].
      intros got. apply triple_ret; [apply stable_pure|by intros w Hw].
    - intros e. by apply triple_ret; [apply stable_pure|]. }
  intros [e|[[[[raw size] k'] h]|]].
  - eapply triple_weaken; [apply Hfail|by intros w [_ [_ Hc]]|done].
  - apply triple_pure. intros [[-> ->] Hraw].
    catch; [apply stays_counting|by intros w [_ Hc]| |apply Hfail].
    eapply triple_weaken; [by apply write_item_settles|by intros w [Hw _]|done].
  - by apply triple_pure.
Qed.

(** *** The folders *)

(** A source that stands still: [folders] with their [content], listed in full
    where no cursor is given, every item keyed, one version to a key. *)
Variables (folders : list Folder) (content : Folder -> list Item).

Record static_source : Prop := {
  ss_folders e fs e' : Src e -> ds_listFolders deps e = (inr fs, e') -> fs = folders;
  ss_list f p e ls e' : f ∈ folders -> Src e -> ds_listSince deps f p e = (inr ls, e') ->
    ls_items ls ⊆ content f /\ (p = None -> content f ⊆ ls_items ls);
  ss_keyed f item : item ∈ content f ->
    exists k, ds_naturalKey deps item = Some k /\ ds_sourceVersion deps item = version_of k;
  ss_content f item : item ∈ content f -> f ∈ folders;
  ss_listed f item : item ∈ content f -> listed item
}.

Hypothesis SS : static_source.

Definition sourced (w : World L Env) : Prop := Src (w_env w).

Lemma stays_sourced : stays sourced.
Proof. intros w w' Hs [[_ _ _ Hw] _]. by apply Hw. Qed.

Lemma stays_cursor p o : stays (fun w => w_cursors w !! p = o).
Proof. intros w w' Hs [_ ->]. done. Qed.

Lemma tri_call_post {A} (f : Env -> (string + A) * Env) (Q : A -> Prop) :
  (forall e, Src e -> Src (snd (f e)) /\ match fst (f e) with inr a => Q a | inl _ => True end) ->
  tri sourced (call f : prog (World L Env) err A) (fun a _ => Q a).
Proof.
  intros Hf. apply triple_try; [apply stays_sourced|intros; apply stable_pure|]. intros w Hw.
  destruct (Hf (w_env w) Hw) as [Hs HQ]. destruct (f (w_env w)) as [[e|a] e']; (split; [|done]);
    (split; [|done]); split; simpl in *; (reflexivity || lia || done).
Qed.

Definition listing_post (f : Folder) (o : option string) (ls : Listing Item) : Prop :=
  ls_items ls ⊆ content f /\ (o = None -> content f ⊆ ls_items ls).

Lemma seen_fold_failed p ks q : failed_count (foldl (fun q k => see p k q) q ks) = failed_count q.
Proof. revert q; induction ks as [|k ks IH]; intros q; [done|]. simpl. by rewrite IH. Qed.

Lemma open_folder_working f o :
  f ∈ folders ->
  tri (fun w => w_cursors w !! collectionPath f = o /\ sourced w)
    (open_folder deps f : prog (World L Env) err _) (fun r _ => listing_post f o r.2).
Proof.
  intros Hfs. unfold open_folder. cbv zeta.
  assert (Hst : stays (fun w => w_cursors w !! collectionPath f = o /\ sourced w))
    by (apply stable_and; [apply stays_cursor|apply stays_sourced]).
  seq; [exact Hst|apply tri_true, tri_call, SC|]. intros cid. apply tri_second.
  eapply triple_bind with (B := fun prev w => (o = None -> prev = None) /\ sourced w); [apply _| |].
  { apply triple_act; [exact Hst|intros prev; apply stable_and; [apply stable_pure|apply stays_sourced]|].
    intros w [Ho Hs]. split; [reflexivity|]. split; [|done]. simpl. intros Hn. destruct (ds_cursors deps); congruence. }
  intros prev. apply triple_pure. intros Hprev.
  bind; [apply (tri_call_post _ (listing_post f o))|].
  { intros e Hs. split; [by apply SC|]. destruct (ds_listSince deps f prev e) as [[x|ls] e'] eqn:Hl; [done|].
    simpl. destruct (ss_list SS _ _ _ _ _ Hfs Hs Hl) as [H1 H2]. split; [done|]. intros Ho. by apply H2, Hprev. }
  intros ls. apply tri_mid; [apply stable_pure|apply tri_note; intros q; simpl; lia|].
  apply tri_mid; [apply stable_pure| |apply triple_ret; [apply stable_pure|done]].
  destruct (ds_listCollectionKeys deps) as [g|] eqn:Hg.
  - bind.
    { unfold attempt. catch; [apply (stable_pure _ True)|done| |].
      - bind; [apply tri_call; intros e; by apply (sc_keys SC)|].
        intros ks. apply triple_ret with (Q := fun _ _ => True); [apply stable_pure|done].
      - intros e. by apply triple_ret; [apply stable_pure|]. }
    intros [e|ks]; apply tri_note; intros q; [done|rewrite seen_fold_failed; done].
  - destruct (defined prev); [apply tri_note; intros q; simpl; lia|].
    apply triple_ret; [apply stable_pure|done].
Qed.

Definition all_settled (f : Folder) (w : World L Env) : Prop :=
  forall item, item ∈ content f -> exists k, ds_naturalKey deps item = Some k /\ settled k (collectionPath f) w.

Lemma progress_all_settled f w w' : all_settled f w -> progress w w' -> all_settled f w'.
Proof.
  intros Hs Hw item Hi. destruct (Hs item Hi) as (k & Hk & Hset). exists k. split; [done|].
  by eapply progress_settled.
Qed.

Lemma sync_folder_settles f sched w r w' :
  f ∈ folders ->
  counting w -> sourced w -> sync_folder deps f sched w = Some (r, w') ->
  progress w w' /\ (forall p, p <> collectionPath f -> w_cursors w' !! p = w_cursors w !! p) /\
  (r = inr tt -> w_cursors w !! collectionPath f = None -> all_settled f w').
Proof.
  intros Hfs Hc Hs. unfold sync_folder.
  destruct (run (open_folder deps f) w) as [[e|[cid ls]] w1] eqn:Ho;
    eapply (triple_run working _ _ _ _ _ _ (open_folder_working f _ Hfs)) in Ho as [Hw1 Hl]; try (by split).
  { intros [= <- <-]. destruct Hw1 as [Hp Hcur]. by rewrite Hcur. }
  destruct (mapWithConcurrency _ _ _ _ w1) as [[r2 w2]|] eqn:Hm; [|done].
  simpl in Hl. destruct Hl as [Hsub Hsup].
  apply (mapWithConcurrency_rg _ _ working working counting
    (fun i w => forall item, ls_items ls !! i = Some item ->
       exists k, ds_naturalKey deps item = Some k /\ settled k (collectionPath f) w) (fun _ _ => True)) in Hm
    as (Hw2 & _ & HQ).
  - assert (Hp12 : progress w w2) by (etrans; [apply Hw1|apply Hw2]).
    assert (Hcur : w_cursors w2 = w_cursors w) by (destruct Hw1, Hw2; congruence).
    destruct r2 as [e|[]]; [intros [= <- <-]; rewrite Hcur; by split|].
    intros Hr. apply (inj Some) in Hr. unfold close_folder in Hr. simpl in Hr. injection Hr as <- <-.
    assert (Hset : w_cursors w !! collectionPath f = None -> all_settled f w2).
    { intros Hn item Hi. apply (Hsup Hn), list_elem_of_lookup in Hi as [i Hi].
      apply (HQ i); [by eapply lookup_lt_Some|done]. }
    destruct (_ && _).
    + split; [|split].
      * destruct Hp12 as [H1 H2 H3 H4]. by split.
      * intros p Hp. simpl. rewrite lookup_insert_ne by done. by rewrite Hcur.
      * intros _ Hn. apply progress_all_settled with (w := w2); [by apply Hset|by split].
    + split_and!; [done|by rewrite Hcur|auto].
  - by intros w0 w0' Hw0.
  - intros w0 w0' Hw0 Hst. by eapply stays_counting.
  - intros i item wi Hi Hwi.
    assert (Hitem : item ∈ content f) by (apply Hsub; by eapply list_elem_of_lookup_2).
    destruct (ss_keyed SS f item Hitem) as (k & Hk & Hv).
    eapply rg_mono; [apply process_item_settles; [by eapply (ss_listed SS)|done..]| |done].
    intros a w0 Hset item' Hi'. simplify_eq. by exists k.
  - destruct Hw1 as [[_ _ Hf _] _]. unfold counting in *. lia.
Qed.

Lemma sync_folders_settle fs scheds w r w' :
  fs ⊆ folders ->
  NoDup (collectionPath <$> fs) -> (forall f, f ∈ fs -> w_cursors w !! collectionPath f = None) ->
  counting w -> sourced w -> sync_folders deps fs scheds w = Some (r, w') ->
  progress w w' /\ (r = inr tt -> forall f, f ∈ fs -> all_settled f w').
Proof.
  revert scheds w; induction fs as [|f fs IH]; intros scheds w Hsub Hnd Hcur Hc Hs; simpl.
  { intros [= <- <-]. split; [reflexivity|]. intros _ f Hf. by apply elem_of_nil in Hf. }
  apply NoDup_cons in Hnd as [Hnotin Hnd].
  destruct (sync_folder deps f _ w) as [[[e|[]] w1]|] eqn:Hf; [..|done];
    apply sync_folder_settles in Hf as (Hp & Hother & Hset); try done;
    [by intros [= <- <-]|by apply Hsub, elem_of_cons; left| |by apply Hsub, elem_of_cons; left].
  intros Hr. apply IH in Hr as [Hp' Hset']; [|intros g Hg; by apply Hsub, elem_of_cons; right|done|..].
  - split; [by etrans|]. intros Hok g [->|Hg]%elem_of_cons; [|by apply Hset'].
    apply (progress_all_settled f w1); [|done]. apply Hset; [done|]. apply Hcur, elem_of_cons. by left.
  - intros g Hg. rewrite Hother; [by apply Hcur, elem_of_cons; right|].
    intros Heq. apply Hnotin. rewrite <- Heq. by apply list_elem_of_fmap_2.
  - unfold counting in *. destruct Hp. lia.
  - by apply (pr_src _ _ Hp).
Qed.

(** *** After the folders *)

(** The detectors leave every fact, and every row that owes nothing, as the
    folders left them. *)
Section after.
Variable l0 : L.
Hypothesis sane0 : sane l0.

Definition as_left (l : L) : Prop :=
  (forall k, find_facts tenant mapping dom k l = find_facts tenant mapping dom k l0) /\
  (forall k p, calm k p l0 -> calm k p l).

Definition removable (row : PlacedItem) : Prop :=
  pi_deletionAppliedAt row = None -> forall cf,
  find_facts tenant mapping dom (pi_naturalKeyHash row) l0 = Some cf -> cf_status cf <> Some tombstoned.

Lemma as_left_advances l l' :
  (forall k, find_facts tenant mapping dom k l' = find_facts tenant mapping dom k l) -> advances l l' ->
  as_left l -> as_left l'.
Proof.
  intros Hf Ha [Hl Hc]. split; [intros k; by rewrite Hf|]. intros k p H0. by apply (av_calm _ _ Ha), Hc.
Qed.

Lemma placed_removable l : as_left l -> Forall removable (lg_placedItems tenant mapping dom l).
Proof.
  intros [Hl _]. apply Forall_forall. intros row Hrow Happ cf Hcf Hts.
  destruct (law_placedItems _ _ _ _ _ Hrow) as (r & Hr & _ & _ & _ & Ha).
  specialize (Hl (pi_naturalKeyHash row)). unfold find_facts in *. rewrite Hr, Hcf in Hl.
  injection Hl as <-. destruct (row_at (pi_naturalKeyHash row) l0) as [r0|] eqn:H0; [|done].
  injection Hcf as Hst _ _ _ _ _ _ Hd. simpl in Hts.
  destruct (sane0 _ _ H0); congruence.
Qed.

Lemma recordMove_as_left row to o l :
  removable row -> pi_deletionAppliedAt row = None -> as_left l ->
  as_left (lg_recordMove tenant mapping dom (pi_naturalKeyHash row) to o l).
Proof.
  intros Hrow Happ [Hl Hc]. set (k := pi_naturalKeyHash row) in *.
  set (l' := lg_recordMove tenant mapping dom k to o l).
  assert (Hfacts : forall k', find_facts tenant mapping dom k' l' = find_facts tenant mapping dom k' l)
    by (intros k'; apply law_recordMove).
  split; [intros k'; by rewrite Hfacts|]. intros k' p H0. destruct (decide (k' = k)) as [->|Hne].
  - intros row' Hrow'. specialize (Hfacts k). specialize (Hl k).
    specialize (Hrow Happ (copy_facts row')).
    assert (Hcf : find_facts tenant mapping dom k l0 = Some (copy_facts row'))
      by (unfold find_facts in *; rewrite Hrow' in Hfacts; rewrite <- Hl, <- Hfacts; done).
    specialize (Hrow Hcf). unfold find_facts in Hcf.
    destruct (row_at k l0) as [r0|] eqn:Hr0; [|done]. injection Hcf as Hst _ _ Hco Hsv _ Hat _.
    specialize (H0 _ Hr0). unfold quiet, classifyKnownItem, topology_changed in *. simpl in Hrow.
    rewrite Hst, Hco, Hsv, Hat in H0. rewrite (bool_decide_false (rstatus row' = Some tombstoned)) in * by done.
    done.
  - specialize (Hc k' p H0). unfold calm. unfold l'. rewrite law_recordMove_other by congruence. done.
Qed.

Lemma as_left_respected : detectors_respect tenant mapping dom as_left removable.
Proof.
  split; [| |apply placed_removable|apply recordMove_as_left].
  - intros l l' Hl Ha Hp. eapply as_left_advances; [intros k; apply Ha|by apply advances_annotate|done].
  - intros k l Hl. eapply as_left_advances; [intros k'; apply law_clearMove|apply advances_clearMove|done].
Qed.
End after.

Lemma static_listings : listings_keep deps Src (fun _ => True) (fun _ _ => True) (fun _ _ => True).
Proof.
  split.
  - apply folders_any. intros e. apply SC.
  - intros f e. apply SC.
  - intros f e _. by destruct (fst _).
  - intros f p e _ He. split; [by apply SC|]. destruct (fst _); [done|by apply Forall_true].
  - intros g f Hg e. by apply (sc_keys SC).
  - intros g Hg e. by apply (sc_discards SC).
Qed.

Lemma failed_tallied n : tallied (fun p => failed_count p = n).
Proof. intros p p' [= _ _ _ Hf _]. by rewrite Hf. Qed.

Lemma facts_sane l l' :
  (forall k, find_facts tenant mapping dom k l' = find_facts tenant mapping dom k l) -> sane l -> sane l'.
Proof.
  intros Hf Hs k row' Hrow' Hts. specialize (Hf k). unfold find_facts in Hf. rewrite Hrow' in Hf.
  destruct (row_at k l) as [row|] eqn:Hrow; [|done]. injection Hf as Hst _ _ _ _ _ _ Ha.
  rewrite Ha. apply (Hs k); congruence.
Qed.

(** A pass in which nothing failed settles its source.  Over a source that
    stands still, listed in full (no cursor is stored yet), however the workers
    interleave: when [runDomainSync] answers zero failures, every item of every
    folder has a ledger row, and that row owes it nothing - classified again
    with the same version in the same collection it is never fetched, retried,
    rewritten or lifted from its tombstone. *)
Lemma clean_pass_settles scheds w rs w' :
  NoDup (collectionPath <$> folders) ->
  (forall f, f ∈ folders -> w_cursors w !! collectionPath f = None) ->
  Src (w_env w) -> sane (w_ledger w) ->
  runDomainSync deps scheds w = Some (inr rs, w') -> failed_count (rs_counters rs) = 0 ->
  Src (w_env w') /\ sane (w_ledger w') /\
  forall f item, f ∈ folders -> item ∈ content f ->
    exists k row, ds_naturalKey deps item = Some k /\ row_at k (w_ledger w') = Some row /\
      quiet k (collectionPath f) row.
Proof.
  intros Hnd Hcur Hs Hsane Hr H0. unfold runDomainSync in Hr. cbv zeta in Hr.
  destruct (run (call (ds_listFolders deps)) _) as [[e|fs] w1] eqn:Hl; [done|].
  apply (triple_run working sourced _ (fun fs _ => fs = folders)) in Hl as [Hw1 ->]; [| |exact Hs].
  2: { apply (tri_call_post _ (fun fs => fs = folders)). intros e He. split; [by apply SC|].
       destruct (ds_listFolders deps e) as [[x|fs'] e'] eqn:He'; [done|]. by eapply ss_folders. }
  destruct (sync_folders deps folders scheds w1) as [[[e|[]] w2]|] eqn:Hf; [done| |done].
  apply sync_folders_settle in Hf as [Hp Hset]; [|done|done| | |].
  - specialize (Hset eq_refl). assert (Hp02 : progress (w <| w_pass := initial_pass |>) w2)
      by (etrans; [apply Hw1|done]).
    destruct Hp02 as [Hret _ _ Hsrc]. apply (inj Some) in Hr.
    assert (Hinv : pass_inv (as_left (w_ledger w2)) Src (fun p => failed_count p = failed_count (w_pass w2)) w2)
      by (split_and!; [by split|by apply Hsrc|done]).
    destruct (keeps_run _ _ _ w2 _ _ (after_folders_keeps deps (as_left (w_ledger w2)) Src
      (fun p => failed_count p = failed_count (w_pass w2)) (fun _ => True) (fun _ _ => True) (fun _ _ => True) (removable (w_ledger w2))
      (failed_tallied _) static_listings (as_left_respected _ (rt_sane _ _ Hret Hsane))) Hinv Hr)
      as [(Hleft & Hsrc' & _) Hn].
    destruct Hleft as [Hfacts Hcalm]. split; [done|].
    split; [by apply (facts_sane (w_ledger w2)), (rt_sane _ _ Hret)|].
    intros f item Hf Hi. destruct (Hset f Hf item Hi) as (k & Hk & [Hfail|[[row Hrow] Hc]]).
    { unfold failing in Hfail. lia. }
    specialize (Hfacts k). unfold find_facts in Hfacts. rewrite Hrow in Hfacts.
    destruct (row_at k (w_ledger w')) as [row'|] eqn:Hrow'; [|done].
    exists k, row'. split_and!; [done|done|]. by apply (Hcalm k (collectionPath f) Hc).
  - intros f Hf'. destruct Hw1 as [_ ->]. by apply Hcur.
  - destruct Hw1 as [[_ _ Hc _] _]. unfold counting. simpl in Hc. lia.
  - destruct Hw1 as [[_ _ _ Hsrc] _]. by apply Hsrc.
Qed.
End settles.
