(* ===== verification/DomainSyncIdempotence.v ===== *)
(** * Run twice, create nothing

    The second half of hard rule 1: over rows that owe nothing a pass neither
    fetches nor writes, and therefore a pass after a clean one changes nothing
    on the target. *)

From S2P Require Import Prelude Prog Concurrency Ports Detectors DomainSync DomainSyncInvariants DomainSyncSafety DomainSyncSettles.
From S2P Require Ledger.

Open Scope Z_scope.

Definition did_nothing (p : PassState) : Prop := tallies p = (0, 0, 0, 0, 0).

Lemma did_nothing_tallied : tallied did_nothing.
Proof. unfold did_nothing. intros p p' ->. done. Qed.

Section idempotence.
Context {L Env Item Raw : Type} `{LL : LedgerLaws L}.
Variable deps : DomainSyncDeps L Env Item Raw.
Variable version_of : string -> option string.

Abbreviation tenant := (ds_tenantId deps).
Abbreviation mapping := (ds_mappingId deps).
Abbreviation dom := (ds_domain deps).
Abbreviation row_at := (lg_find tenant mapping dom).
Abbreviation quiet := (quiet version_of).
Abbreviation calm := (calm deps version_of).
Abbreviation advances := (advances deps version_of).

(** The keys the source lists, each with the collections it lists it in. *)
Variable W : string -> string -> Prop.

(** Whether a row is a tombstone, and of when: what only an apply changes. *)
Definition grave (row : LedgerRecord) : bool * option instant :=
  (bool_decide (rstatus row = Some tombstoned), deletionAppliedAt row).

Variable l0 : L.
Hypothesis sane0 : sane deps l0.

(** The ledger of a pass that has nothing to do. *)
Definition resting (l : L) : Prop :=
  (forall k, grave <$> row_at k l = grave <$> row_at k l0) /\
  (forall k p, W k p -> tracked deps k l /\ calm k p l).

Lemma grave_facts l l' k :
  find_facts tenant mapping dom k l' = find_facts tenant mapping dom k l ->
  grave <$> row_at k l' = grave <$> row_at k l.
Proof.
  unfold find_facts, grave. intros Hf. destruct (row_at k l') as [r'|], (row_at k l) as [r|]; try done.
  injection Hf as Hs _ _ _ _ _ _ Ha. simpl. by rewrite Hs, Ha.
Qed.

Lemma resting_advances l l' :
  (forall k, grave <$> row_at k l' = grave <$> row_at k l) -> advances l l' -> resting l -> resting l'.
Proof.
  intros Hg Ha [Hl HW]. split; [intros k; by rewrite Hg|]. intros k p HWk.
  destruct (HW k p HWk). split; [by apply (rt_tracked _ _ _ (av_retains _ _ _ _ Ha))|by apply (av_calm _ _ _ _ Ha)].
Qed.

Lemma resting_queue l l' :
  (forall k, find_facts tenant mapping dom k l' = find_facts tenant mapping dom k l) -> advances l l' ->
  resting l -> resting l'.
Proof. intros Hf. apply resting_advances. intros k. by apply grave_facts. Qed.

(** *** The detectors *)

Definition movable (row : PlacedItem) : Prop :=
  pi_deletionAppliedAt row = None ->
  forall r, row_at (pi_naturalKeyHash row) l0 = Some r -> rstatus r <> Some tombstoned.

Lemma placed_movable l : resting l -> Forall movable (lg_placedItems tenant mapping dom l).
Proof.
  intros [Hl _]. apply Forall_forall. intros row Hrow Happ r Hr Hts.
  destruct (law_placedItems _ _ _ _ _ Hrow) as (r' & Hr' & _ & _ & _ & Ha).
  specialize (Hl (pi_naturalKeyHash row)). rewrite Hr, Hr' in Hl. injection Hl as _ Heq.
  destruct (sane0 _ _ Hr Hts). congruence.
Qed.

Lemma resting_recordMove row to o l :
  movable row -> pi_deletionAppliedAt row = None -> resting l ->
  resting (lg_recordMove tenant mapping dom (pi_naturalKeyHash row) to o l).
Proof.
  intros Hrow Happ [Hl HW]. set (k := pi_naturalKeyHash row) in *.
  set (l' := lg_recordMove tenant mapping dom k to o l).
  assert (Hfacts : forall k', find_facts tenant mapping dom k' l' = find_facts tenant mapping dom k' l)
    by (intros k'; apply law_recordMove).
  split; [intros k'; rewrite <- Hl; by apply grave_facts|]. intros k' p HWk.
  destruct (HW k' p HWk) as [[r Hr] Hc]. specialize (Hfacts k') as Hfk. unfold find_facts in Hfk.
  rewrite Hr in Hfk. destruct (row_at k' l') as [r'|] eqn:Hr'; [|done].
  split; [by exists r'|]. intros r'' Hr''. rewrite Hr' in Hr''. injection Hr'' as <-.
  injection Hfk as Hst _ _ Hco Hsv _ Hat _. specialize (Hc _ Hr).
  destruct (decide (k' = k)) as [->|Hne].
  - assert (Hnt : rstatus r' <> Some tombstoned).
    { specialize (Hl k). rewrite Hr in Hl. destruct (row_at k l0) as [r0|] eqn:H0; [|done].
      specialize (Hrow Happ _ H0). injection Hl as Hts _. rewrite Hst. intros Heq.
      rewrite (bool_decide_true (rstatus r = Some tombstoned)) in Hts by done.
      symmetry in Hts. by apply bool_decide_eq_true in Hts. }
    unfold DomainSyncSettles.quiet, classifyKnownItem, topology_changed in *.
    rewrite <- Hst, <- Hco, <- Hsv, <- Hat in Hc.
    rewrite (bool_decide_false (rstatus r' = Some tombstoned)) in * by done. done.
  - unfold l' in Hr'. rewrite law_recordMove_other in Hr' by congruence. congruence.
Qed.

Lemma resting_respected : detectors_respect tenant mapping dom resting movable.
Proof.
  split; [| |apply placed_movable|apply resting_recordMove].
  - intros l l' Hl Ha Hp. eapply resting_queue; [intros k; apply Ha|by apply advances_annotate|done].
  - intros k l Hl. eapply resting_queue; [intros k'; apply law_clearMove|apply advances_clearMove|done].
Qed.

(** *** The worker *)

Variable K : Env -> Prop.

Abbreviation keeps_rest := (keeps (E:=err) (pass_inv resting K did_nothing)).

Definition at_rest (k p : string) (found : option LedgerRecord) : Prop :=
  exists known, found = Some known /\ quiet k p known /\ tenantId known = tenant /\
    mappingId known = mapping /\ itemType known = dom /\ naturalKeyHash known = k /\
    exists r0, row_at k l0 = Some r0 /\ grave known = grave r0.

Lemma find_at_rest k p l : W k p -> resting l -> at_rest k p (row_at k l).
Proof.
  intros HWk [Hl HW]. destruct (HW k p HWk) as [[known Hf] Hc]. exists known. split; [done|].
  split; [by apply Hc|]. destruct (law_find_key _ _ _ _ _ _ Hf) as (? & ? & ? & ?). split_and!; try done.
  specialize (Hl k). rewrite Hf in Hl. destruct (row_at k l0) as [r0|]; [|done]. injection Hl as ? ?.
  exists r0. split; [done|]. unfold grave. congruence.
Qed.

Lemma resting_record_version k p known l :
  W k p -> at_rest k p (Some known) -> classifyKnownItem known (version_of k) (Some p) = record_version ->
  resting l -> resting (snd (lg_recordUpdate (known <| sourceVersion := version_of k |>) l)).
Proof.
  intros HWk (x & [= <-] & _ & Ht & Hm & Hd & Hk & r0 & Hr0 & Hgr) Ha Hl.
  apply classify_placed_status in Ha as [Hnf Hnt].
  set (r := known <| sourceVersion := version_of k |>).
  destruct (lg_recordUpdate r l) as [x l'] eqn:Hu. simpl.
  assert (Hadv : advances l l').
  { eapply (update_written deps version_of k r l x l'); [|done]. split; simpl; try done. by right. }
  eapply resting_advances; [|exact Hadv|done]. intros k'.
  destruct (decide (k' = k)) as [->|Hne].
  - destruct x as [e|x]; [by apply law_recordUpdate_err in Hu as [-> _]|].
    apply law_recordUpdate_ok in Hu as (old & Hold & Hx & Hfacts). simpl in *.
    rewrite Ht, Hm, Hd, Hk in *. rewrite Hold, Hx. injection Hfacts as Hst _ _ _ _ _ _ Happ. simpl in *.
    destruct Hl as [Hl _]. specialize (Hl k). rewrite Hold, Hr0 in Hl. injection Hl as H1 H2.
    injection Hgr as G1 G2. simpl. unfold grave. rewrite Hst, Happ, H1, <- G1. do 2 f_equal.
    destruct (rstatus known) as [s|]; reflexivity.
  - apply law_recordUpdate_other in Hu. simpl in Hu. rewrite Ht, Hm, Hk in Hu.
    by rewrite Hu by congruence.
Qed.

Lemma keyed_fast_path_rests k p :
  W k p -> keeps_rest (keyed_fast_path deps k (version_of k) p) (fun r => r = None).
Proof.
  intros HWk. unfold keyed_fast_path.
  eapply keeps_bind; [apply (keeps_ask _ _ _ _ (at_rest k p)); intros l; by apply find_at_rest|].
  intros found Hrest. destruct Hrest as (known & -> & Hq & Hrest).
  assert (Har : at_rest k p (Some known)) by (exists known; split; [done|]; split; [exact Hq|exact Hrest]).
  eapply (keeps_bind _ _ _ (fun _ => True)).
  { destruct (has_claim known); [|done]. apply keeps_tell; [|done]. intros l Hl.
    eapply resting_queue; [intros k'; apply law_clearAbsent|apply advances_clearAbsent|done]. }
  intros [] _. cbv zeta. case_bool_decide as Hmv.
  { eapply (keeps_bind _ _ _ (fun _ => True)); [|done]. unfold report_move. destruct (negb _); [|done].
    eapply (keeps_bind _ _ _ (fun _ => True)).
    - apply keeps_tell; [|done]. intros l Hl.
      eapply resting_queue; [intros k'; apply law_recordMove|apply advances_recordMove|done].
    - intros [] _. apply keeps_note; [apply did_nothing_tallied|done|done]. }
  eapply (keeps_bind _ _ _ (fun _ => True)).
  { destruct (defined _); [|done]. apply keeps_tell; [|done]. intros l Hl.
    eapply resting_queue; [intros k'; apply law_clearMove|apply advances_clearMove|done]. }
  intros [] _.
  assert (Hnote : forall f, (forall q, tallies (f q) = tallies q) ->
    keeps_rest (note f ;;; Ret None : prog _ err (option (bool * option LedgerRecord))) (fun r => r = None)).
  { intros f Hf. eapply (keeps_bind _ _ _ (fun _ => True)); [|done].
    by apply keeps_note; [apply did_nothing_tallied| |]. }
  destruct Hq as (Hr1 & Hr2 & Hr3).
  destruct (classifyKnownItem known (version_of k) (Some p)) eqn:Ha; try done; try by apply Hnote.
  eapply keeps_bind; [apply keeps_tell_or_throw; intros l; by eapply resting_record_version|].
  intros x _. by apply Hnote.
Qed.

Lemma process_item_rests cid p item k :
  ds_naturalKey deps item = Some k -> ds_sourceVersion deps item = version_of k -> W k p ->
  keeps_rest (process_item deps cid p item) (fun _ => True).
Proof.
  intros Hk Hv HWk. unfold process_item. rewrite Hk, Hv. cbv zeta.
  eapply (keeps_bind _ _ _ (fun _ => True)).
  { apply keeps_note; [apply did_nothing_tallied|done|done]. }
  intros [] _. eapply keeps_bind; [by apply keyed_fast_path_rests|]. by intros r ->.
Qed.

(** *** The pass *)

Lemma quiet_pass_rests scope scheds w r w' :
  listings_keep deps K scope (fun f item => exists k, ds_naturalKey deps item = Some k /\
    ds_sourceVersion deps item = version_of k /\ W k (collectionPath f)) (fun _ _ => True) ->
  resting (w_ledger w) -> K (w_env w) -> runDomainSync deps scheds w = Some (r, w') ->
  K (w_env w') /\ did_nothing (w_pass w') /\
  match r with inr rs => did_nothing (rs_counters rs) | inl _ => True end.
Proof.
  intros LK Hl HK Hr.
  destruct (runDomainSync_keeps deps resting K did_nothing scope _ _ movable did_nothing_tallied LK
              resting_respected) with (scheds := scheds) (w := w) (r := r) (w' := w')
    as ((_ & HK' & Hn) & Hrs); [|by split_and!|done|done].
  intros cid f item _ (k & Hk & Hv & HWk). by eapply process_item_rests.
Qed.
End idempotence.

Section run_twice.
Context {L Env Item Raw : Type} `{LL : LedgerLaws L}.
Variable deps : DomainSyncDeps L Env Item Raw.
Variables (version_of : string -> option string) (Src Untouched : Env -> Prop).
Variables (listed : Item -> Prop) (fetched : Item -> Raw -> Prop).
Variables (folders : list Folder) (content : Folder -> list Item).

(** What only fetching or writing an item could falsify. *)
Record reading_only : Prop := {
  ro_folders : outside Untouched (ds_listFolders deps);
  ro_ensure f : outside Untouched (ds_ensureCollection deps f);
  ro_list f p : outside Untouched (ds_listSince deps f p);
  ro_keys g f : ds_listCollectionKeys deps = Some g -> outside Untouched (g f);
  ro_discards g : ds_listDiscardedKeys deps = Some g -> outside Untouched g
}.

Lemma second_listings :
  static_calls deps version_of Src listed fetched -> static_source deps version_of Src listed folders content -> reading_only ->
  listings_keep deps (fun e => Src e /\ Untouched e) (fun f => f ∈ folders) (fun f item => exists k, ds_naturalKey deps item = Some k /\
    ds_sourceVersion deps item = version_of k /\
    exists g i, g ∈ folders /\ i ∈ content g /\ ds_naturalKey deps i = Some k /\ collectionPath f = collectionPath g) (fun _ _ => True).
Proof.
  intros SC SS RO. split.
  - intros e [Hs Hu]. split; [split; [by apply SC|by apply RO]|].
    destruct (ds_listFolders deps e) as [[x|fs] e'] eqn:Hf; [done|]. rewrite (ss_folders _ _ _ _ _ _ SS _ _ _ Hs Hf).
    by apply Forall_forall.
  - intros f e [Hs Hu]. split; [by apply SC|by apply RO].
  - intros f e _. by destruct (fst _).
  - intros f p e Hf [Hs Hu]. split; [split; [by apply SC|by apply RO]|].
    destruct (ds_listSince deps f p e) as [[x|ls] e'] eqn:Hl; [done|]. simpl.
    destruct (ss_list _ _ _ _ _ _ SS _ _ _ _ _ Hf Hs Hl) as [Hsub _]. apply Forall_forall. intros item Hi.
    apply Hsub in Hi. destruct (ss_keyed _ _ _ _ _ _ SS _ _ Hi) as (k & Hk & Hv). exists k. split_and!; [done..|].
    exists f, item. split_and!; [by eapply ss_content|done..].
  - intros g f Hg e [Hs Hu]. split; [by apply (sc_keys _ _ _ _ _ SC g f)|by apply (ro_keys RO g f)].
  - intros g Hg e [Hs Hu]. split; [by apply (sc_discards _ _ _ _ _ SC g)|by apply (ro_discards RO g)].
Qed.

(** The second pass may meet another outside world: a new writer, whatever
    others did meanwhile. *)
Lemma second_pass_rests scheds1 scheds2 w rs w1 e1 r w2 :
  static_calls deps version_of Src listed fetched -> static_source deps version_of Src listed folders content -> reading_only ->
  NoDup (collectionPath <$> folders) ->
  (forall f, f ∈ folders -> w_cursors w !! collectionPath f = None) ->
  Src (w_env w) -> sane deps (w_ledger w) ->
  runDomainSync deps scheds1 w = Some (inr rs, w1) -> failed_count (rs_counters rs) = 0 ->
  (Src (w_env w1) -> Src e1) -> Untouched e1 ->
  runDomainSync deps scheds2 (w1 <| w_env := e1 |>) = Some (r, w2) ->
  Untouched (w_env w2) /\ did_nothing (w_pass w2) /\
  match r with inr rs2 => did_nothing (rs_counters rs2) | inl _ => True end.
Proof.
  intros SC SS RO Hnd Hcur Hs Hsane Hr1 H0 He1 Hu Hr2.
  destruct (clean_pass_settles deps version_of Src listed fetched SC folders content SS scheds1 w rs w1 Hnd Hcur Hs Hsane Hr1 H0)
    as (Hs1 & Hsane1 & Hset).
  destruct (quiet_pass_rests deps version_of (fun k p => exists g i, g ∈ folders /\ i ∈ content g /\
              ds_naturalKey deps i = Some k /\ p = collectionPath g) (w_ledger w1) Hsane1
              (fun e => Src e /\ Untouched e) (fun f => f ∈ folders) scheds2 (w1 <| w_env := e1 |>) r w2 (second_listings SC SS RO))
    as ([_ Hu2] & Hn & Hrs); [|by split; [apply He1|]|done|done].
  split; [done|]. intros k p (g & i & Hg & Hi & Hk & ->).
  destruct (Hset g i Hg Hi) as (k' & row & Hk' & Hrow & Hq). simplify_eq.
  split; [by eexists|]. intros row' Hrow'. simpl in Hrow'. congruence.
Qed.

End run_twice.

(** An item whose fetch fails before it has a key leaves no trace to retry
    it by.  The worker counts the failure and goes on, but neither the ledger
    nor the list of failures names it, so nothing holds the folder's cursor
    back: [retryablePending], which alone decides whether the cursor moves,
    is what it was before. *)
Theorem unkeyed_failure_leaves_no_trace {L Env Item Raw} `{Ledger L}
    (deps : DomainSyncDeps L Env Item Raw) cid path item w reason e :
  ds_naturalKey deps item = None -> ds_fetchRaw deps item (w_env w) = (inl reason, e) ->
  consecutiveFailures (w_pass w) + 1 < ABORT_AFTER_CONSECUTIVE_FAILURES ->
  exists w', run (process_item deps cid path item) w = (inr tt, w') /\
    w_ledger w' = w_ledger w /\ failed_count (w_pass w') = failed_count (w_pass w) + 1 /\
    retryablePending (w_pass w') = retryablePending (w_pass w).
Proof.
  intros Hk Hf Hn. unfold process_item, fetch_and_key, attempt. rewrite Hk. cbn [run pbind pcatch note upd].
  cbn. rewrite Hf. cbn. unfold tripwire, recall. cbn.
  destruct (Z.leb_spec ABORT_AFTER_CONSECUTIVE_FAILURES (1 + consecutiveFailures (w_pass w))); [lia|].
  cbn. eexists. split; [reflexivity|]. split; [reflexivity|]. split; [|reflexivity]. cbn. lia.
Qed.

(** Every state the PostgreSQL ledger reaches is sane. *)
Lemma wf_sane scan {Env Item Raw} (deps : DomainSyncDeps Ledger.PgState Env Item Raw) s :
  Ledger.ledger_wf s -> sane (H:=Ledger.pg_ledger scan) deps s.
Proof.
  intros Hwf k row Hf Hts. simpl in Hf. unfold Ledger.find, Ledger.sql_select1 in Hf.
  destruct (Ledger.items s !! _) as [r|] eqn:Hr; [|done]. destruct (Ledger.same_domain _ r); [|done].
  injection Hf as <-. injection Hts as Hts. by apply (Ledger.wf_tombstone _ _ (Hwf _ _ Hr)).
Qed.

(** The sample source of [DomainSyncSafety], passed over twice. *)
Section sample_twice.
#[local] Existing Instances sample_port sample_laws.

Lemma sample_static : static_calls sample_sync (fun _ => Some "v2"%string) (fun _ => True) (fun _ => True) (fun _ _ => True).
Proof.
  split; done.
Qed.

Lemma sample_source :
  static_source sample_sync (fun _ => Some "v2"%string) (fun _ => True) (fun _ => True) [sample_folder] sample_content.
Proof.
  split.
  - intros e fs e' _ [= <- <-]. done.
  - intros f p e ls e' _ _ [= <- <-]. by split.
  - intros f item _. by exists item.
  - intros f item. unfold sample_content. case_bool_decide as Hf; [|by intros ?%elem_of_nil].
    intros _. rewrite Hf. by apply list_elem_of_singleton.
  - done.
Qed.

Lemma sample_reading : reading_only sample_sync (fun log => log = ["n"]%string).
Proof. split; try (by intros); [by intros e He|by intros f e He|by intros f p e He]. Qed.

Lemma sample_wf : Ledger.ledger_wf (w_ledger sample_world).
Proof.
  unfold sample_world, w_ledger.
  assert (Hw : Ledger.writes_status (Ledger.sample_record "t" "m" File "k" "h" adopted)) by by split.
  assert (H0 : Ledger.ledger_wf Ledger.empty_ledger) by (intros k row Hrow; discriminate Hrow).
  exact (proj1 (Ledger.pg_step_ok (fun _ _ => False) _ _ (Ledger.step_recordIfAbsent _ _ _ Hw) H0)).
Qed.

Definition first_pass := runDomainSync sample_sync [two_workers] sample_world.

Definition world_of {A} (o : option (A * World Ledger.PgState (list string))) : World Ledger.PgState (list string) :=
  match o with Some (_, w) => w | None => sample_world end.


(** A mail without a Message-ID that cannot be fetched just now: the pass ends
    well, and the cursor has moved past it. *)
Definition unfetchable : DomainSyncDeps Ledger.PgState (list string) string string :=
  {| ds_tenantId := "t"; ds_mappingId := "m"; ds_domain := Email; ds_cursors := true;
     ds_concurrency := None;
     ds_listFolders := fun e => (inr [sample_folder], e);
     ds_listSince := fun f _ e => (inr (mkListing ["no-message-id"] "cursor-1" None), e);
     ds_fetchRaw := fun i e => (inl "timeout", e);
     ds_upsert := fun _ _ i _ => sample_upsert i;
     ds_sourceVersion := fun _ => None; ds_sourceRef := fun _ => None;
     ds_naturalKey := fun _ => None; ds_listCollectionKeys := None; ds_listDiscardedKeys := None;
     ds_naturalKeyFromRaw := Some (fun _ raw => raw); ds_contentHash := fun raw => raw;
     ds_failOnCollision := false;
     ds_ensureCollection := fun _ e => (inr "collection-1", e); ds_now := fun _ => 7 |}%string.

Lemma unkeyed_failure_leaves_no_trace_witness :
  (exists w', run (process_item unfetchable "collection-1" "Docs" "no-message-id") sample_world = (inr tt, w') /\
    retryablePending (w_pass w') = false) /\
  match runDomainSync unfetchable [two_workers] sample_world with
  | Some (inr rs, w) => (failed_count (rs_counters rs), failures (rs_counters rs), w_cursors w !! "Docs")
  | _ => (0, [], None)
  end = (1, [], Some "cursor-1")%string.
Proof.
  split; [|vm_compute; reflexivity].
  destruct (unkeyed_failure_leaves_no_trace unfetchable "collection-1" "Docs" "no-message-id" sample_world
              "timeout" []) as (w' & Hr & _ & _ & Hp); [reflexivity|reflexivity|vm_compute; reflexivity|].
  exists w'. split; [exact Hr|exact Hp].
Defined.
End sample_twice.
