(* ===== verification/ApplyDeletion.v ===== *)
(** * Applying an owner's decision ([packages/core/src/apply-deletion.ts])

    The only operations that remove anything from a target: [applyDeletion],
    [applyRelocation] and the unattended [autoApplyRelocations].  They run as
    programs over a pair of worlds, the ledger and everything outside it (the
    target); the target's two optional methods are parameters.  A refusal keeps
    its code; the sentence shown to the operator is left out. *)

From S2P Require Import Prelude Prog Ports.

Open Scope Z_scope.

Definition MASS_DELETION_FRACTION : Z * Z := (1, 5).
Definition MASS_DELETION_MIN_ITEMS : Z := 20.
Definition AUTO_APPLY_RELOCATIONS_CAP : Z := 50.

Inductive ApplyRefusal :=
| not_enabled | target_cannot_remove | not_found | not_confirmed | weak_evidence | not_ours
| already_applied | edited_on_target | mass_deletion_suspected | mass_relocation_suspected
| already_kept | not_relocated | relocation_unconfirmed | target_cannot_confirm
| removed_not_recorded.

#[export] Instance ApplyRefusal_eq_dec : EqDecision ApplyRefusal.
Proof. solve_decision. Defined.

Inductive ApplyDeletionOutcome :=
| Applied (kind : RemovalKind)
| Refused (code : ApplyRefusal).

(** [applyTargetFolderPrefix] of packages/shared/src/config.ts *)
Definition applyTargetFolderPrefix (prefix : option string) (path : string) : string :=
  match truthy prefix with
  | None => path
  | Some p => if String.eqb path "" then p else (p ++ "/" ++ path)%string
  end.

Section apply_deletion.
Context {L Env : Type} `{Ledger L}.

Abbreviation W := (L * Env)%type.
Abbreviation program := (prog W string).

(** The methods of [TargetRemover] and [TargetPresenceCheck], each [None] on a
    target that does not implement it: [removeItem] is given the target id, the
    expected target version and the collection. *)
Record Target := mkTarget {
  removeItem : option (string -> option string -> option string -> Env -> (string + RemovalResult) * Env);
  hasItem : option (string -> option string -> Env -> (string + bool) * Env)
}.

Record ApplyDeletionDeps := mkApplyDeletionDeps {
  ad_tenantId : string;
  ad_mappingId : string;
  ad_domain : domain;
  ad_target : Target;
  ad_allowApplyDeletions : option bool;
  ad_targetFolderPrefix : option string
}.

(** A ledger query, a ledger update, a call to the target. *)
Definition ask {A} (q : L -> A) : program A := act (fun w => (q w.1, w)).
Definition tell {A} (u : L -> A * L) : program A :=
  act (fun w => let '(a, l) := u w.1 in (a, (l, w.2))).
Definition call {A} (f : Env -> (string + A) * Env) : program A :=
  try_act (fun w => let '(r, e) := f w.2 in (r, (w.1, e))).

(** [x.allowApplyDeletions !== true] *)
Definition off (o : option bool) : bool := negb (bool_decide (o = Some true)).

Definition already_gone (row : LedgerRecord) : bool :=
  defined (deletionAppliedAt row) || bool_decide (rstatus row = Some tombstoned).

Definition evidence (row : LedgerRecord) : DeletionEvidence :=
  if defined (deletionReportedAt row) then reported
  else if defined (deletionTrashedAt row) then trashed else inferred.

Definition ownershipCheck (row : LedgerRecord) : option ApplyRefusal :=
  if bool_decide (rstatus row = Some copied) || bool_decide (rstatus row = Some updated) then None
  else if negb (isOnTarget (rstatus row)) then Some not_ours
  else if bool_decide (rstatus row = Some adopted) then Some not_ours
  else Some not_ours.

(** [share <= MASS_DELETION_FRACTION], exactly: the quotient of two lengths and
    0.2 round to the same double only when they are equal. *)
Definition share_within (pending placed : Z) : bool :=
  MASS_DELETION_FRACTION.2 * pending <=? MASS_DELETION_FRACTION.1 * placed.

Definition zlength {A} (l : list A) : Z := Z.of_nat (length l).

Definition pending_deletion (d : ItemDeletion) : bool :=
  id_confirmed d && negb (defined (id_acknowledgedAt d)).

Definition open_relocation (m : ItemMove) : bool :=
  defined (im_toNaturalKeyHash m) && negb (defined (im_acknowledgedAt m)).

Definition massDeletionCheck (deps : ApplyDeletionDeps) : program (option ApplyRefusal) :=
  let! placed := ask (lg_placedItems (ad_tenantId deps) (ad_mappingId deps) (ad_domain deps)) in
  if zlength placed <? MASS_DELETION_MIN_ITEMS then Ret None
  else
    let! deletions := ask (lg_listDeletions (ad_tenantId deps) (ad_mappingId deps) (Some (ad_domain deps))) in
    if share_within (zlength (base.filter (fun d => Is_true (pending_deletion d)) deletions)) (zlength placed)
    then Ret None else Ret (Some mass_deletion_suspected).

Definition massRelocationCheck (deps : ApplyDeletionDeps) : program (option ApplyRefusal) :=
  let! placed := ask (lg_placedItems (ad_tenantId deps) (ad_mappingId deps) (ad_domain deps)) in
  if zlength placed <? MASS_DELETION_MIN_ITEMS then Ret None
  else
    let! moves := ask (lg_listMoves (ad_tenantId deps) (ad_mappingId deps) (Some (ad_domain deps))) in
    if share_within (zlength (base.filter (fun m => Is_true (open_relocation m)) moves)) (zlength placed)
    then Ret None else Ret (Some mass_relocation_suspected).

(** [(await massDeletionCheck(deps)) ?? (await massRelocationCheck(deps))] *)
Definition both_breakers (deps : ApplyDeletionDeps) : program (option ApplyRefusal) :=
  let! b := massDeletionCheck deps in
  match b with Some c => Ret (Some c) | None => massRelocationCheck deps end.

(** What [relocationCheck] asks of the arrival it read. *)
Definition arrivalCheck (row : LedgerRecord) (arrival : option LedgerRecord) : option ApplyRefusal :=
  match arrival with
  | None => Some relocation_unconfirmed
  | Some arrival =>
      if negb (bool_decide (rstatus arrival = Some copied)) && negb (bool_decide (rstatus arrival = Some updated))
      then Some relocation_unconfirmed
      else if negb (String.eqb (targetId arrival) "") && String.eqb (targetId arrival) (targetId row)
      then Some relocation_unconfirmed
      else if String.eqb (contentHash row) "" || String.eqb (contentHash arrival) ""
      then Some relocation_unconfirmed
      else if negb (String.eqb (contentHash arrival) (contentHash row))
      then Some relocation_unconfirmed
      else None
  end.

Definition relocationCheck (deps : ApplyDeletionDeps) (row : LedgerRecord) : program (option ApplyRefusal) :=
  if defined (moveAcknowledgedAt row) then Ret (Some already_kept)
  else if bool_decide (movedToNaturalKeyHash row = Some (naturalKeyHash row))
  then Ret (Some relocation_unconfirmed)
  else match truthy (movedToNaturalKeyHash row) with
  | None => Ret (Some not_relocated)
  | Some arrivalKey =>
      let! arrival := ask (lg_find (ad_tenantId deps) (ad_mappingId deps) (ad_domain deps) arrivalKey) in
      match arrivalCheck row arrival with
      | Some c => Ret (Some c)
      | None =>
          let! placed := ask (lg_placedItems (ad_tenantId deps) (ad_mappingId deps) (ad_domain deps)) in
          if 2 <? zlength (base.filter (fun i => pi_contentHash i = contentHash row) placed)
          then Ret (Some relocation_unconfirmed) else Ret None
      end
  end.

(** [evaluateApplyDeletion]: the ledger-side gates alone; [None] permits. *)
Definition evaluateApplyDeletion (deps : ApplyDeletionDeps) (key : string) : program (option ApplyRefusal) :=
  if off (ad_allowApplyDeletions deps) then Ret (Some not_enabled)
  else
    let! found := ask (lg_find (ad_tenantId deps) (ad_mappingId deps) (ad_domain deps) key) in
    match found with
    | None => Ret (Some not_found)
    | Some row =>
        if already_gone row then Ret (Some already_applied)
        else if bool_decide (evidence row = inferred)
        then Ret (Some (if 0 <? nullish (absentPasses row) 0 then weak_evidence else not_confirmed))
        else match ownershipCheck row with
        | Some c => Ret (Some c)
        | None => massDeletionCheck deps
        end
    end.

(** Steps 5 and 7 of both applies: the removal, then the record of it. *)
Definition remove_options (deps : ApplyDeletionDeps) (row : LedgerRecord) : option string :=
  applyTargetFolderPrefix (ad_targetFolderPrefix deps) <$> collection row.

Definition remove_and_record (deps : ApplyDeletionDeps)
    (rm : string -> option string -> option string -> Env -> (string + RemovalResult) * Env)
    (record : L -> bool * L) (row : LedgerRecord) : program ApplyDeletionOutcome :=
  let! removal := call (rm (targetId row) (targetVersion row) (remove_options deps row)) in
  if rr_conflicted removal then Ret (Refused edited_on_target)
  else match rr_kind removal with
  | None => Ret (Refused target_cannot_remove)
  | Some kind =>
      let! recorded := tell record in
      if recorded then Ret (Applied kind) else Ret (Refused removed_not_recorded)
  end.

Definition applyDeletion (deps : ApplyDeletionDeps) (key : string) : program ApplyDeletionOutcome :=
  if off (ad_allowApplyDeletions deps) then Ret (Refused not_enabled)
  else match removeItem (ad_target deps) with
  | None => Ret (Refused target_cannot_remove)
  | Some rm =>
      let! found := ask (lg_find (ad_tenantId deps) (ad_mappingId deps) (ad_domain deps) key) in
      match found with
      | None => Ret (Refused not_found)
      | Some row =>
          if already_gone row then Ret (Refused already_applied)
          else if bool_decide (evidence row = inferred)
          then Ret (Refused (if 0 <? nullish (absentPasses row) 0 then weak_evidence else not_confirmed))
          else match ownershipCheck row with
          | Some c => Ret (Refused c)
          | None =>
              let! breaker := massDeletionCheck deps in
              match breaker with
              | Some c => Ret (Refused c)
              | None =>
                  remove_and_record deps rm
                    (lg_applyDeletion (ad_tenantId deps) (ad_mappingId deps) (ad_domain deps) key) row
              end
          end
      end
  end.

Definition evaluateApplyRelocation (deps : ApplyDeletionDeps) (key : string) : program (option ApplyRefusal) :=
  if off (ad_allowApplyDeletions deps) then Ret (Some not_enabled)
  else
    let! found := ask (lg_find (ad_tenantId deps) (ad_mappingId deps) (ad_domain deps) key) in
    match found with
    | None => Ret (Some not_found)
    | Some row =>
        if already_gone row then Ret (Some already_applied)
        else
          let! relocation := relocationCheck deps row in
          match relocation with
          | Some c => Ret (Some c)
          | None =>
              match ownershipCheck row with
              | Some c => Ret (Some c)
              | None => both_breakers deps
              end
          end
    end.

(** The arrival, asked of the target itself: [None] lets the removal go on. *)
Definition confirm_arrival (deps : ApplyDeletionDeps) (row : LedgerRecord) : program (option ApplyRefusal) :=
  let! arrivalRow := ask (lg_find (ad_tenantId deps) (ad_mappingId deps) (ad_domain deps)
                            (nullish (movedToNaturalKeyHash row) "undefined"%string)) in
  match hasItem (ad_target deps) with
  | None => Ret (Some target_cannot_confirm)
  | Some has =>
      match arrivalRow with
      | None => Throw "TypeError: arrivalRow is undefined"%string
      | Some arrival =>
          let! present := call (has (targetId arrival) (remove_options deps arrival)) in
          if negb present then Ret (Some relocation_unconfirmed) else Ret None
      end
  end.

Definition applyRelocation (deps : ApplyDeletionDeps) (key : string) : program ApplyDeletionOutcome :=
  if off (ad_allowApplyDeletions deps) then Ret (Refused not_enabled)
  else match removeItem (ad_target deps) with
  | None => Ret (Refused target_cannot_remove)
  | Some rm =>
      let! found := ask (lg_find (ad_tenantId deps) (ad_mappingId deps) (ad_domain deps) key) in
      match found with
      | None => Ret (Refused not_found)
      | Some row =>
          if already_gone row then Ret (Refused already_applied)
          else
            let! relocation := relocationCheck deps row in
            match relocation with
            | Some c => Ret (Refused c)
            | None =>
                match ownershipCheck row with
                | Some c => Ret (Refused c)
                | None =>
                    let! breaker := both_breakers deps in
                    match breaker with
                    | Some c => Ret (Refused c)
                    | None =>
                        let! unconfirmed := confirm_arrival deps row in
                        match unconfirmed with
                        | Some c => Ret (Refused c)
                        | None =>
                            remove_and_record deps rm
                              (lg_applyRelocation (ad_tenantId deps) (ad_mappingId deps) (ad_domain deps) key) row
                        end
                    end
                end
            end
      end
  end.

(** ** The unattended pass *)

Inductive ReviewCode := cap_reached | not_survived_pass | hash_not_unique | refusal (c : ApplyRefusal).

Record AutoApplyRelocationsReport := mkReport {
  ar_enabled : bool;
  ar_considered : Z;
  ar_applied : list (string * RemovalKind);
  ar_leftForReview : list (string * ReviewCode);
  ar_stopped : option ApplyRefusal
}.

(** [hashCount], built by one pass over the placed items. *)
Definition hash_counts (placed : list PlacedItem) : list (string * Z) :=
  fold_left (fun m i => js_map_set (pi_contentHash i)
                          (nullish (js_map_get (pi_contentHash i) m) 0 + 1) m) placed [].

Definition auto_audit (deps : ApplyDeletionDeps) (key : string) (kind : RemovalKind) : AuditEvent :=
  mkAuditEvent "system:auto-apply" "auto_apply_relocation" (Some "item"%string)
    [("mappingId", ad_mappingId deps); ("naturalKeyHash", key);
     ("kind", match kind with binned => "binned" | deleted => "deleted" end)]%string.

(** One move of the loop: what it adds to [applied] or to [leftForReview]. *)
Definition auto_apply_move (deps : ApplyDeletionDeps)
    (onApplied : option (string -> RemovalKind -> program unit)) (passStartedAt : instant) (cap : Z)
    (hashCount : list (string * Z)) (applied : list (string * RemovalKind)) (m : ItemMove)
    : program (string * RemovalKind + string * ReviewCode) :=
  let key := im_naturalKeyHash m in
  if cap <=? zlength applied then Ret (inr (key, cap_reached))
  else if match im_recordedAt m with None => true | Some t => passStartedAt <=? t end
  then Ret (inr (key, not_survived_pass))
  else
    let! row := ask (lg_find (ad_tenantId deps) (ad_mappingId deps) (ad_domain deps) key) in
    let sharers := match row with
                   | Some r => if String.eqb (contentHash r) "" then 0
                               else nullish (js_map_get (contentHash r) hashCount) 0
                   | None => 0
                   end in
    if negb (sharers =? 2) then Ret (inr (key, hash_not_unique))
    else
      let! outcome := applyRelocation deps key in
      match outcome with
      | Applied kind =>
          tell (fun l => (tt, lg_recordAuditEvent (ad_tenantId deps) (auto_audit deps key kind) l)) ;;;
          match onApplied with Some f => f key kind | None => Ret tt end ;;;
          Ret (inl (key, kind))
      | Refused c => Ret (inr (key, refusal c))
      end.

Fixpoint auto_apply_moves (deps : ApplyDeletionDeps)
    (onApplied : option (string -> RemovalKind -> program unit)) (passStartedAt : instant) (cap : Z)
    (hashCount : list (string * Z)) (open : list ItemMove)
    (applied : list (string * RemovalKind)) (left : list (string * ReviewCode))
    : program (list (string * RemovalKind) * list (string * ReviewCode)) :=
  match open with
  | [] => Ret (applied, left)
  | m :: open' =>
      let! r := auto_apply_move deps onApplied passStartedAt cap hashCount applied m in
      match r with
      | inl a => auto_apply_moves deps onApplied passStartedAt cap hashCount open' (applied ++ [a]) left
      | inr c => auto_apply_moves deps onApplied passStartedAt cap hashCount open' applied (left ++ [c])
      end
  end.

Definition autoApplyRelocations (deps : ApplyDeletionDeps) (enabled : option bool)
    (onApplied : option (string -> RemovalKind -> program unit)) (passStartedAt : instant) (cap : Z)
    : program AutoApplyRelocationsReport :=
  if off enabled then Ret (mkReport false 0 [] [] None)
  else
    let! moves := ask (lg_listMoves (ad_tenantId deps) (ad_mappingId deps) (Some (ad_domain deps))) in
    let open := base.filter (fun m => Is_true (open_relocation m)) moves in
    if zlength open =? 0 then Ret (mkReport true 0 [] [] None)
    else
      let! breaker := both_breakers deps in
      match breaker with
      | Some c => Ret (mkReport true (zlength open) [] [] (Some c))
      | None =>
          let! placed := ask (lg_placedItems (ad_tenantId deps) (ad_mappingId deps) (ad_domain deps)) in
          let! r := auto_apply_moves deps onApplied passStartedAt cap (hash_counts placed) open [] [] in
          Ret (mkReport true (zlength open) r.1 r.2 None)
      end.
End apply_deletion.

Arguments Target Env : clear implicits.
Arguments ApplyDeletionDeps Env : clear implicits.

(** ** What the gates say *)
Section gates.
Context {L Env : Type} `{LL : LedgerLaws L}.

Implicit Types (deps : ApplyDeletionDeps Env) (l : L) (e : Env).

Definition placed_count deps l : Z :=
  zlength (lg_placedItems (ad_tenantId deps) (ad_mappingId deps) (ad_domain deps) l).

Definition pending_count deps l : Z :=
  zlength (base.filter (fun d => Is_true (pending_deletion d))
    (lg_listDeletions (ad_tenantId deps) (ad_mappingId deps) (Some (ad_domain deps)) l)).

Definition relocating_count deps l : Z :=
  zlength (base.filter (fun m => Is_true (open_relocation m))
    (lg_listMoves (ad_tenantId deps) (ad_mappingId deps) (Some (ad_domain deps)) l)).

Definition find_in deps (key : string) l : option LedgerRecord :=
  lg_find (ad_tenantId deps) (ad_mappingId deps) (ad_domain deps) key l.

(** More than a fifth of a corpus of at least twenty placed items. *)
Definition mass_event (pending placed : Z) : Prop :=
  MASS_DELETION_MIN_ITEMS <= placed /\ placed < 5 * pending.

#[export] Instance mass_event_dec a b : Decision (mass_event a b).
Proof. unfold mass_event. apply _. Defined.

Definition status_ours (row : LedgerRecord) : Prop :=
  rstatus row = Some copied \/ rstatus row = Some updated.

(** The licence of a deletion. *)
Record deletion_permitted deps (key : string) l (row : LedgerRecord) : Prop := {
  dp_enabled : ad_allowApplyDeletions deps = Some true;
  dp_found : find_in deps key l = Some row;
  dp_present : deletionAppliedAt row = None;
  dp_evidence : is_Some (deletionReportedAt row) \/ is_Some (deletionTrashedAt row);
  dp_ours : status_ours row;
  dp_calm : ~ mass_event (pending_count deps l) (placed_count deps l)
}.

(** The licence of a relocation: the same bytes under another key, written by
    this migration, as another object, and no third holder of them. *)
Record relocation_permitted deps (key : string) l (row arrival : LedgerRecord) : Prop := {
  rp_enabled : ad_allowApplyDeletions deps = Some true;
  rp_found : find_in deps key l = Some row;
  rp_present : deletionAppliedAt row = None;
  rp_open : moveAcknowledgedAt row = None;
  rp_ours : status_ours row;
  rp_arrival : exists toKey, truthy (movedToNaturalKeyHash row) = Some toKey /\ toKey <> key /\
    find_in deps toKey l = Some arrival;
  rp_arrival_ours : status_ours arrival;
  rp_distinct : targetId arrival = ""%string \/ targetId arrival <> targetId row;
  rp_bytes : contentHash arrival = contentHash row /\ contentHash row <> ""%string;
  rp_unambiguous : zlength (base.filter (fun i => pi_contentHash i = contentHash row)
    (lg_placedItems (ad_tenantId deps) (ad_mappingId deps) (ad_domain deps) l)) <= 2;
  rp_calm : ~ mass_event (pending_count deps l) (placed_count deps l);
  rp_calm_moves : ~ mass_event (relocating_count deps l) (placed_count deps l)
}.

Lemma share_within_spec pending placed : share_within pending placed = true <-> 5 * pending <= placed.
Proof. unfold share_within. simpl. rewrite Z.leb_le. lia. Qed.

(** A ledger-side check reads and answers; [v] is its answer in [l]. *)
Definition answers {A} (p : prog (L * Env) string A) l (v : A) : Prop :=
  forall e, run p (l, e) = (inr v, (l, e)).

Lemma answers_bind {A B} (p : prog (L * Env) string A) (k : A -> prog (L * Env) string B) l v u :
  answers p l v -> answers (k v) l u -> answers (pbind p k) l u.
Proof. intros Hp Hk e. by rewrite run_bind, Hp, Hk. Qed.

Lemma answers_run_bind {A B} (p : prog (L * Env) string A) (k : A -> prog (L * Env) string B) l e v :
  answers p l v -> run (pbind p k) (l, e) = run (k v) (l, e).
Proof. intros Hp. by rewrite run_bind, Hp. Qed.

Lemma answers_ask {A} (q : L -> A) l : answers (ask q) l (q l).
Proof. done. Qed.

Lemma run_ask_bind {A B} (q : L -> A) (k : A -> prog (L * Env) string B) l e :
  run (pbind (ask q) k) (l, e) = run (k (q l)) (l, e).
Proof. done. Qed.

Lemma massDeletionCheck_answers deps l :
  answers (massDeletionCheck deps) l
    (if decide (mass_event (pending_count deps l) (placed_count deps l))
     then Some mass_deletion_suspected else None).
Proof.
  intros e. unfold massDeletionCheck. simpl. fold (placed_count deps l).
  destruct (Z.ltb_spec (placed_count deps l) MASS_DELETION_MIN_ITEMS) as [Hlt|Hge].
  - rewrite decide_False; [done|]. intros [? _]. lia.
  - simpl. fold (pending_count deps l).
    destruct (share_within _ _) eqn:Hs.
    + apply share_within_spec in Hs. rewrite decide_False; [done|]. intros [_ ?]. lia.
    + rewrite decide_True; [done|]. split; [done|].
      destruct (Z.lt_ge_cases (placed_count deps l) (5 * pending_count deps l)) as [?|Hle]; [done|].
      apply share_within_spec in Hle. congruence.
Qed.

Lemma massRelocationCheck_answers deps l :
  answers (massRelocationCheck deps) l
    (if decide (mass_event (relocating_count deps l) (placed_count deps l))
     then Some mass_relocation_suspected else None).
Proof.
  intros e. unfold massRelocationCheck. simpl. fold (placed_count deps l).
  destruct (Z.ltb_spec (placed_count deps l) MASS_DELETION_MIN_ITEMS) as [Hlt|Hge].
  - rewrite decide_False; [done|]. intros [? _]. lia.
  - simpl. fold (relocating_count deps l).
    destruct (share_within _ _) eqn:Hs.
    + apply share_within_spec in Hs. rewrite decide_False; [done|]. intros [_ ?]. lia.
    + rewrite decide_True; [done|]. split; [done|].
      destruct (Z.lt_ge_cases (placed_count deps l) (5 * relocating_count deps l)) as [?|Hle]; [done|].
      apply share_within_spec in Hle. congruence.
Qed.

Definition breaker_verdict deps l : option ApplyRefusal :=
  if decide (mass_event (pending_count deps l) (placed_count deps l)) then Some mass_deletion_suspected
  else if decide (mass_event (relocating_count deps l) (placed_count deps l))
       then Some mass_relocation_suspected else None.

Lemma both_breakers_answers deps l : answers (both_breakers deps) l (breaker_verdict deps l).
Proof.
  unfold both_breakers, breaker_verdict. eapply answers_bind; [apply massDeletionCheck_answers|].
  case_decide; [done|]. apply massRelocationCheck_answers.
Qed.

(** The ledger-side verdict of each operation. *)
Definition deletion_verdict deps (key : string) l : option ApplyRefusal :=
  if off (ad_allowApplyDeletions deps) then Some not_enabled
  else match find_in deps key l with
  | None => Some not_found
  | Some row =>
      if already_gone row then Some already_applied
      else if bool_decide (evidence row = inferred)
      then Some (if 0 <? nullish (absentPasses row) 0 then weak_evidence else not_confirmed)
      else match ownershipCheck row with
      | Some c => Some c
      | None => if decide (mass_event (pending_count deps l) (placed_count deps l))
                then Some mass_deletion_suspected else None
      end
  end.

Lemma evaluateApplyDeletion_answers deps key l :
  answers (evaluateApplyDeletion deps key) l (deletion_verdict deps key l).
Proof.
  unfold evaluateApplyDeletion, deletion_verdict. destruct (off _); [done|].
  eapply answers_bind; [apply answers_ask|]. fold (find_in deps key l).
  destruct (find_in deps key l) as [row|]; [|done].
  destruct (already_gone row); [done|]. destruct (bool_decide _); [done|].
  destruct (ownershipCheck row); [done|]. apply massDeletionCheck_answers.
Qed.

Lemma ownershipCheck_None row : ownershipCheck row = None <-> status_ours row.
Proof.
  unfold ownershipCheck, status_ours. repeat case_bool_decide; simpl;
    repeat case_match; naive_solver.
Qed.

Lemma already_gone_false row :
  already_gone row = false <-> deletionAppliedAt row = None /\ rstatus row <> Some tombstoned.
Proof.
  unfold already_gone. by rewrite orb_false_iff, defined_false, bool_decide_eq_false.
Qed.

Lemma evidence_positive row :
  evidence row <> inferred <-> is_Some (deletionReportedAt row) \/ is_Some (deletionTrashedAt row).
Proof.
  unfold evidence. destruct (deletionReportedAt row), (deletionTrashedAt row); simpl; naive_solver.
Qed.

Lemma off_false o : off o = false <-> o = Some true.
Proof. unfold off. rewrite negb_false_iff. apply bool_decide_eq_true. Qed.

Lemma deletion_verdict_None deps key l :
  deletion_verdict deps key l = None <-> exists row, deletion_permitted deps key l row.
Proof.
  unfold deletion_verdict. destruct (off _) eqn:Hoff.
  { split; [done|]. intros [row [Hen _ _ _ _ _]]. apply off_false in Hen. congruence. }
  apply off_false in Hoff. destruct (find_in deps key l) as [row|] eqn:Hf;
    [|split; [done|intros [row [_ Hr _ _ _ _]]; congruence]].
  split.
  - destruct (already_gone row) eqn:Hg; [done|]. apply already_gone_false in Hg as [Hg _].
    case_bool_decide as Hev; [done|]. apply evidence_positive in Hev.
    destruct (ownershipCheck row) eqn:Ho; [done|]. apply ownershipCheck_None in Ho.
    case_decide; [done|]. by exists row.
  - intros [row' [_ Hr Hp Hev Ho Hc]]. simplify_eq.
    rewrite (proj2 (already_gone_false row)) by (destruct Ho; split; congruence).
    rewrite bool_decide_false by (by apply evidence_positive).
    rewrite (proj2 (ownershipCheck_None row) Ho). by rewrite decide_False.
Qed.

Lemma applyDeletion_refuses deps key l e c :
  deletion_verdict deps key l = Some c ->
  run (applyDeletion deps key) (l, e) =
  (inr (Refused (if off (ad_allowApplyDeletions deps) then not_enabled
                 else if defined (removeItem (ad_target deps)) then c else target_cannot_remove)), (l, e)).
Proof.
  unfold deletion_verdict, applyDeletion. destruct (off _); [done|].
  destruct (removeItem (ad_target deps)) as [rm|]; [|done]. rewrite run_ask_bind. fold (find_in deps key l).
  destruct (find_in deps key l) as [row|]; [|intros [= <-]; done].
  destruct (already_gone row); [by intros [= <-]|]. destruct (bool_decide _); [by intros [= <-]|].
  destruct (ownershipCheck row); [by intros [= <-]|]. case_decide; [|done]. intros [= <-].
  rewrite (answers_run_bind _ _ _ _ _ (massDeletionCheck_answers deps l)).
  by rewrite decide_True.
Qed.

Lemma applyDeletion_proceeds deps key l e row rm :
  deletion_permitted deps key l row -> removeItem (ad_target deps) = Some rm ->
  run (applyDeletion deps key) (l, e) =
  run (remove_and_record deps rm
         (lg_applyDeletion (ad_tenantId deps) (ad_mappingId deps) (ad_domain deps) key) row) (l, e).
Proof.
  intros [Hen Hf Hp Hev Ho Hc] Hrm. unfold applyDeletion.
  rewrite (proj2 (off_false _) Hen), Hrm, run_ask_bind. fold (find_in deps key l). rewrite Hf.
  rewrite (proj2 (already_gone_false row)) by (destruct Ho; split; congruence).
  rewrite bool_decide_false by (by apply evidence_positive).
  rewrite (proj2 (ownershipCheck_None row) Ho).
  rewrite (answers_run_bind _ _ _ _ _ (massDeletionCheck_answers deps l)).
  by rewrite decide_False.
Qed.

(** The removal step, run. *)
Lemma run_remove_and_record deps rm record row l e :
  run (remove_and_record deps rm record row) (l, e) =
  match rm (targetId row) (targetVersion row) (remove_options deps row) e with
  | (inl err, e') => (inl err, (l, e'))
  | (inr res, e') =>
      if rr_conflicted res then (inr (Refused edited_on_target), (l, e'))
      else match rr_kind res with
      | None => (inr (Refused target_cannot_remove), (l, e'))
      | Some kind => let '(b, l') := record l in
          (inr (if b then Applied kind else Refused removed_not_recorded), (l', e'))
      end
  end.
Proof.
  unfold remove_and_record. simpl.
  destruct (rm _ _ _ e) as [[err|res] e']; simpl; [done|].
  destruct (rr_conflicted res); [done|]. destruct (rr_kind res) as [kind|]; [|done]. simpl.
  destruct (record l) as [[] l']; done.
Qed.

(** *** Relocations *)

Definition relocation_check_verdict deps row l : option ApplyRefusal :=
  if defined (moveAcknowledgedAt row) then Some already_kept
  else if bool_decide (movedToNaturalKeyHash row = Some (naturalKeyHash row))
  then Some relocation_unconfirmed
  else match truthy (movedToNaturalKeyHash row) with
  | None => Some not_relocated
  | Some arrivalKey =>
      match arrivalCheck row (find_in deps arrivalKey l) with
      | Some c => Some c
      | None =>
          if 2 <? zlength (base.filter (fun i => pi_contentHash i = contentHash row)
                 (lg_placedItems (ad_tenantId deps) (ad_mappingId deps) (ad_domain deps) l))
          then Some relocation_unconfirmed else None
      end
  end.

Lemma relocationCheck_answers deps row l :
  answers (relocationCheck deps row) l (relocation_check_verdict deps row l).
Proof.
  intros e. unfold relocationCheck, relocation_check_verdict.
  destruct (defined _); [done|]. case_bool_decide; [done|].
  destruct (truthy _) as [k|]; [|done]. rewrite run_ask_bind. fold (find_in deps k l).
  destruct (arrivalCheck _ _); [done|]. rewrite run_ask_bind.
  by destruct (_ <? _).
Qed.

Definition relocation_verdict deps (key : string) l : option ApplyRefusal :=
  if off (ad_allowApplyDeletions deps) then Some not_enabled
  else match find_in deps key l with
  | None => Some not_found
  | Some row =>
      if already_gone row then Some already_applied
      else match relocation_check_verdict deps row l with
      | Some c => Some c
      | None =>
          match ownershipCheck row with
          | Some c => Some c
          | None => breaker_verdict deps l
          end
      end
  end.

Lemma evaluateApplyRelocation_answers deps key l :
  answers (evaluateApplyRelocation deps key) l (relocation_verdict deps key l).
Proof.
  unfold evaluateApplyRelocation, relocation_verdict. destruct (off _); [done|].
  eapply answers_bind; [apply answers_ask|]. fold (find_in deps key l).
  destruct (find_in deps key l) as [row|]; [|done]. destruct (already_gone row); [done|].
  eapply answers_bind; [apply relocationCheck_answers|].
  destruct (relocation_check_verdict _ _ _); [done|]. destruct (ownershipCheck row); [done|].
  apply both_breakers_answers.
Qed.

Lemma arrivalCheck_None row o :
  arrivalCheck row o = None <-> exists arrival, o = Some arrival /\ status_ours arrival /\
    (targetId arrival = ""%string \/ targetId arrival <> targetId row) /\
    contentHash arrival = contentHash row /\ contentHash row <> ""%string.
Proof.
  unfold arrivalCheck, status_ours. destruct o as [a|]; [|naive_solver].
  repeat case_bool_decide; simpl; try (split; [done|naive_solver congruence]);
    destruct (String.eqb_spec (targetId a) ""), (String.eqb_spec (targetId a) (targetId row)),
      (String.eqb_spec (contentHash row) ""), (String.eqb_spec (contentHash a) ""),
      (String.eqb_spec (contentHash a) (contentHash row)); simpl; naive_solver congruence.
Qed.

Lemma breaker_verdict_None deps l :
  breaker_verdict deps l = None <->
  ~ mass_event (pending_count deps l) (placed_count deps l) /\
  ~ mass_event (relocating_count deps l) (placed_count deps l).
Proof. unfold breaker_verdict. repeat case_decide; naive_solver. Qed.

Lemma relocation_verdict_None deps key l :
  relocation_verdict deps key l = None <->
  exists row arrival, relocation_permitted deps key l row arrival.
Proof.
  unfold relocation_verdict. destruct (off _) eqn:Hoff.
  { split; [done|]. intros (row & arr & [Hen _ _ _ _ _ _ _ _ _ _ _]). apply off_false in Hen. congruence. }
  apply off_false in Hoff. destruct (find_in deps key l) as [row|] eqn:Hf;
    [|split; [done|intros (row & arr & [_ Hr _ _ _ _ _ _ _ _ _ _]); congruence]].
  assert (Hkey : naturalKeyHash row = key) by (by apply law_find_key in Hf as (_ & _ & _ & ?)).
  split.
  - destruct (already_gone row) eqn:Hg; [done|]. apply already_gone_false in Hg as [Hg _].
    unfold relocation_check_verdict.
    destruct (defined (moveAcknowledgedAt row)) eqn:Hack; [done|]. apply defined_false in Hack.
    case_bool_decide as Hself; [done|].
    destruct (truthy (movedToNaturalKeyHash row)) as [toKey|] eqn:Hto; [|done].
    destruct (arrivalCheck _ _) eqn:Harr; [done|].
    apply arrivalCheck_None in Harr as (arr & Hfa & Hao & Hdist & Hb & Hne).
    destruct (Z.ltb_spec 2 (zlength (base.filter (fun i => pi_contentHash i = contentHash row)
      (lg_placedItems (ad_tenantId deps) (ad_mappingId deps) (ad_domain deps) l)))) as [|Hle]; [done|].
    destruct (ownershipCheck row) eqn:Ho; [done|]. apply ownershipCheck_None in Ho.
    intros [Hc Hcm]%breaker_verdict_None. exists row, arr. split; try done.
    exists toKey. split_and!; [done| |done]. apply truthy_Some in Hto as [Hto _]. congruence.
  - intros (row' & arr & [_ Hr Hp Hop Ho (toKey & Hto & Hne & Hfa) Hao Hdist [Hb Hne'] Hamb Hc Hcm]).
    simplify_eq.
    rewrite (proj2 (already_gone_false row)) by (destruct Ho; split; congruence).
    unfold relocation_check_verdict. rewrite Hop, Hto. simpl.
    rewrite bool_decide_false by (apply truthy_Some in Hto as [Hto _]; congruence).
    rewrite (proj2 (arrivalCheck_None row (find_in deps toKey l))) by eauto 10.
    rewrite (proj2 (Z.ltb_ge _ _) Hamb), (proj2 (ownershipCheck_None row) Ho).
    by apply breaker_verdict_None.
Qed.

Lemma applyRelocation_refuses deps key l e c :
  relocation_verdict deps key l = Some c ->
  run (applyRelocation deps key) (l, e) =
  (inr (Refused (if off (ad_allowApplyDeletions deps) then not_enabled
                 else if defined (removeItem (ad_target deps)) then c else target_cannot_remove)), (l, e)).
Proof.
  unfold relocation_verdict, applyRelocation. destruct (off _); [done|].
  destruct (removeItem (ad_target deps)) as [rm|]; [|done]. rewrite run_ask_bind.
  fold (find_in deps key l). destruct (find_in deps key l) as [row|]; [|intros [= <-]; done].
  destruct (already_gone row); [by intros [= <-]|].
  rewrite (answers_run_bind _ _ _ _ _ (relocationCheck_answers deps row l)).
  destruct (relocation_check_verdict _ _ _); [by intros [= <-]|].
  destruct (ownershipCheck row); [by intros [= <-]|]. intros Hb.
  rewrite (answers_run_bind _ _ _ _ _ (both_breakers_answers deps l)). by rewrite Hb.
Qed.

Lemma applyRelocation_proceeds deps key l e row arrival rm :
  relocation_permitted deps key l row arrival -> removeItem (ad_target deps) = Some rm ->
  run (applyRelocation deps key) (l, e) =
  match hasItem (ad_target deps) with
  | None => (inr (Refused target_cannot_confirm), (l, e))
  | Some has =>
      match has (targetId arrival) (remove_options deps arrival) e with
      | (inl err, e') => (inl err, (l, e'))
      | (inr false, e') => (inr (Refused relocation_unconfirmed), (l, e'))
      | (inr true, e') =>
          run (remove_and_record deps rm
                 (lg_applyRelocation (ad_tenantId deps) (ad_mappingId deps) (ad_domain deps) key) row)
              (l, e')
      end
  end.
Proof.
  intros Hperm Hrm. assert (Hv := proj2 (relocation_verdict_None deps key l) (ex_intro _ _ (ex_intro _ _ Hperm))).
  destruct Hperm as [Hen Hf _ _ _ (toKey & Hto & _ & Hfa) _ _ _ _ _ _].
  unfold relocation_verdict in Hv. unfold applyRelocation.
  rewrite (proj2 (off_false _) Hen) in *. rewrite Hrm, run_ask_bind. fold (find_in deps key l).
  rewrite Hf in *. destruct (already_gone row); [done|].
  rewrite (answers_run_bind _ _ _ _ _ (relocationCheck_answers deps row l)).
  destruct (relocation_check_verdict _ _ _); [done|]. destruct (ownershipCheck row); [done|].
  rewrite (answers_run_bind _ _ _ _ _ (both_breakers_answers deps l)). rewrite Hv.
  rewrite run_bind. unfold confirm_arrival. rewrite run_ask_bind.
  apply truthy_Some in Hto as [Hto _]. rewrite Hto. simpl. fold (find_in deps toKey l). rewrite Hfa.
  destruct (hasItem (ad_target deps)) as [has|]; [|done]. simpl.
  by destruct (has _ _ e) as [[err|[]] e'].
Qed.
End gates.

(** *** The ledger stands still until the record *)
Section still.
Context {L Env : Type} `{LL : LedgerLaws L}.

Implicit Types (deps : ApplyDeletionDeps Env) (l : L) (e : Env).

(** Every world a run passes through has the ledger it started from. *)
Definition still {A} (p : prog (L * Env) string A) : Prop :=
  forall l e, Forall (fun w => w.1 = l) (run_trace p (l, e)).

Lemma still_ret {A} (a : A) : still (Ret a).
Proof. intros l e. by repeat constructor. Qed.

Lemma still_throw {A} s : still (Throw s : prog (L * Env) string A).
Proof. intros l e. by repeat constructor. Qed.

Lemma still_ask {A} (q : L -> A) : still (ask q).
Proof. intros l e. by repeat constructor. Qed.

Lemma still_call {A} (f : Env -> (string + A) * Env) : still (call f).
Proof. intros l e. simpl. constructor; [done|]. destruct (f e) as [[] ?]; simpl; by repeat constructor. Qed.

Lemma run_still {A} (p : prog (L * Env) string A) l e r w : still p -> run p (l, e) = (r, w) -> w.1 = l.
Proof.
  intros Hp Hr. specialize (Hp l e). rewrite Forall_forall in Hp. apply Hp.
  replace w with (run p (l, e)).2 by (by rewrite Hr). apply run_in_trace.
Qed.

Lemma still_then {A B} (P : L * Env -> Prop) (p : prog (L * Env) string A)
    (q : A -> prog (L * Env) string B) l e :
  (forall e, P (l, e)) -> still p -> (forall a e', Forall P (run_trace (q a) (l, e'))) ->
  Forall P (run_trace (pbind p q) (l, e)).
Proof.
  intros HP Hp Hq. apply run_trace_bind.
  - eapply Forall_impl; [apply Hp|]. intros [l' e'] Hl'. simpl in Hl'. by subst.
  - intros a [l' e'] Hr. apply (run_still _ _ _ _ _ Hp) in Hr. simpl in Hr. by subst.
Qed.

Lemma trace_ask_bind {A B} (P : L * Env -> Prop) (q : L -> A) (k : A -> prog (L * Env) string B) l e :
  P (l, e) -> Forall P (run_trace (k (q l)) (l, e)) -> Forall P (run_trace (pbind (ask q) k) (l, e)).
Proof. intros HP Hk. simpl. by constructor. Qed.

Lemma still_bind {A B} (p : prog (L * Env) string A) (q : A -> prog (L * Env) string B) :
  still p -> (forall a, still (q a)) -> still (pbind p q).
Proof. intros Hp Hq l e. apply still_then; [done|done|]. intros a e'. apply Hq. Qed.

Create HintDb still discriminated.
#[local] Hint Resolve still_ret still_throw still_ask still_call : still.
#[local] Hint Extern 2 (still (pbind _ _)) => apply still_bind; [|intros ?] : still.
#[local] Hint Extern 3 (still (match ?x with _ => _ end)) => destruct x : still.

Lemma massDeletionCheck_still deps : still (massDeletionCheck deps).
Proof. unfold massDeletionCheck. auto with still. Qed.

Lemma massRelocationCheck_still deps : still (massRelocationCheck deps).
Proof. unfold massRelocationCheck. auto with still. Qed.

#[local] Hint Resolve massDeletionCheck_still massRelocationCheck_still : still.

Lemma both_breakers_still deps : still (both_breakers deps).
Proof. unfold both_breakers. auto with still. Qed.

Lemma relocationCheck_still deps row : still (relocationCheck deps row).
Proof. unfold relocationCheck. auto 10 with still. Qed.

Lemma confirm_arrival_still deps row : still (confirm_arrival deps row).
Proof. unfold confirm_arrival. auto 10 with still. Qed.

(** The removal of the copy a row describes has been reported. *)
Definition removal_reported deps (key : string) (rm : string -> option string -> option string -> Env ->
    (string + RemovalResult) * Env) l e' : Prop :=
  exists row e1 kind, find_in deps key l = Some row /\
    rm (targetId row) (targetVersion row) (remove_options deps row) e1
    = (inr (mkRemovalResult (Some kind) false), e').

Lemma remove_and_record_trace deps key rm record row l e :
  find_in deps key l = Some row ->
  Forall (fun w => w.1 = l \/ removal_reported deps key rm l w.2)
    (run_trace (remove_and_record deps rm record row) (l, e)).
Proof.
  intros Hrow. unfold remove_and_record. simpl. constructor; [by left|].
  destruct (rm (targetId row) _ _ e) as [[err|[[kind|] []]] e1] eqn:Hr; simpl;
    try (constructor; [by left|constructor]).
  constructor; [by left|]. destruct (record l) as [b l1]. simpl.
  assert (removal_reported deps key rm l e1) by (by exists row, e, kind).
  destruct b; (constructor; [by right|constructor]).
Qed.
End still.

#[export] Hint Resolve massDeletionCheck_still massRelocationCheck_still both_breakers_still
  relocationCheck_still confirm_arrival_still : ownpace.

(** ** Theorems, against any ledger that keeps the port's laws *)
Section safety.
Context {L Env : Type} `{LL : LedgerLaws L}.

Implicit Types (deps : ApplyDeletionDeps Env) (l : L) (e : Env).

(** The ledger-side evaluation a request thread runs and the gates the job
    runs agree.  The evaluation reads only, permits exactly what the licence
    describes, and every code it refuses with is the code the apply answers -
    with the world untouched - on any target that can remove. *)
Theorem evaluations_predict_applies deps key l e :
  (exists v, run (evaluateApplyDeletion deps key) (l, e) = (inr v, (l, e)) /\
     (v = None <-> exists row, deletion_permitted deps key l row) /\
     (forall c, v = Some c -> is_Some (removeItem (ad_target deps)) ->
        run (applyDeletion deps key) (l, e) = (inr (Refused c), (l, e)))) /\
  (exists v, run (evaluateApplyRelocation deps key) (l, e) = (inr v, (l, e)) /\
     (v = None <-> exists row arrival, relocation_permitted deps key l row arrival) /\
     (forall c, v = Some c -> is_Some (removeItem (ad_target deps)) ->
        run (applyRelocation deps key) (l, e) = (inr (Refused c), (l, e)))).
Proof.
  split.
  - exists (deletion_verdict deps key l). split_and!;
      [apply evaluateApplyDeletion_answers|apply deletion_verdict_None|].
    intros c Hc [rm Hrm]. rewrite (applyDeletion_refuses _ _ _ _ _ Hc), Hrm. simpl.
    unfold deletion_verdict in Hc. destruct (off _); naive_solver.
  - exists (relocation_verdict deps key l). split_and!;
      [apply evaluateApplyRelocation_answers|apply relocation_verdict_None|].
    intros c Hc [rm Hrm]. rewrite (applyRelocation_refuses _ _ _ _ _ Hc), Hrm. simpl.
    unfold relocation_verdict in Hc. destruct (off _); naive_solver.
Qed.

(** C2: [applyDeletion] reaches the target only with a licence.  Whatever it
    does to the world, all six gates held on the ledger it read, the one call it
    made is the removal of that row's own copy, with the version recorded for it
    and in the collection it was written to, and the ledger was touched only
    after the target reported what it removed. *)
Theorem applyDeletion_needs_licence deps key l e o l' e' :
  run (applyDeletion deps key) (l, e) = (o, (l', e')) ->
  (l', e') <> (l, e) ->
  exists row rm res, deletion_permitted deps key l row /\ removeItem (ad_target deps) = Some rm /\
    rm (targetId row) (targetVersion row)
       (applyTargetFolderPrefix (ad_targetFolderPrefix deps) <$> collection row) e = (res, e') /\
    (l' = l \/ (exists kind, res = inr (mkRemovalResult (Some kind) false) /\
                l' = snd (lg_applyDeletion (ad_tenantId deps) (ad_mappingId deps) (ad_domain deps) key l))).
Proof.
  intros Hrun Hne. destruct (deletion_verdict deps key l) as [c|] eqn:Hv.
  { rewrite (applyDeletion_refuses _ _ _ _ _ Hv) in Hrun. congruence. }
  apply deletion_verdict_None in Hv as [row Hp]. exists row.
  destruct (removeItem (ad_target deps)) as [rm|] eqn:Hrm.
  2:{ unfold applyDeletion in Hrun. rewrite Hrm in Hrun. destruct (off _); simpl in Hrun; congruence. }
  rewrite (applyDeletion_proceeds _ _ _ _ _ _ Hp Hrm), run_remove_and_record in Hrun.
  exists rm. unfold remove_options in Hrun.
  destruct (rm _ _ _ e) as [res e1] eqn:Hr. exists res.
  destruct res as [err|[[kind|] []]]; simpl in *; simplify_eq; try by split_and!; auto.
  destruct (lg_applyDeletion _ _ _ _ _) as [b l1]. simplify_eq. split_and!; eauto.
Qed.

(** C35: remove, then record.  In every world a crash of [applyDeletion] or of
    [applyRelocation] may leave behind, a ledger that no longer is the one the
    call started from belongs to a target that has already reported the removal:
    a tombstone never precedes the removal it stands for. *)
Theorem tombstone_never_precedes_removal deps key l e rm :
  removeItem (ad_target deps) = Some rm ->
  Forall (fun w => w.1 = l \/ removal_reported deps key rm l w.2)
    (run_trace (applyDeletion deps key) (l, e)) /\
  Forall (fun w => w.1 = l \/ removal_reported deps key rm l w.2)
    (run_trace (applyRelocation deps key) (l, e)).
Proof.
  intros Hrm. set (P := fun w : L * Env => w.1 = l \/ removal_reported deps key rm l w.2).
  assert (Hret : forall A (a : A) e, Forall P (run_trace (Ret a : prog _ string A) (l, e)))
    by (intros; apply Forall_singleton; by left).
  assert (HP : forall e, P (l, e)) by (by left).
  split.
  - unfold applyDeletion. destruct (off _); [done|]. rewrite Hrm. apply trace_ask_bind; [done|].
    fold (find_in deps key l). destruct (find_in deps key l) as [row|] eqn:Hf; [|done].
    destruct (already_gone row); [done|]. destruct (bool_decide _); [done|].
    destruct (ownershipCheck row); [done|].
    apply still_then; [done|auto with ownpace|]. intros [c|] e1; [done|].
    by apply remove_and_record_trace.
  - unfold applyRelocation. destruct (off _); [done|]. rewrite Hrm. apply trace_ask_bind; [done|].
    fold (find_in deps key l). destruct (find_in deps key l) as [row|] eqn:Hf; [|done].
    destruct (already_gone row); [done|].
    apply still_then; [done|auto with ownpace|]. intros [c|] e1; [done|].
    destruct (ownershipCheck row); [done|].
    apply still_then; [done|auto with ownpace|]. intros [c|] e2; [done|].
    apply still_then; [done|auto with ownpace|]. intros [c|] e3; [done|].
    by apply remove_and_record_trace.
Qed.

(** A mass event stops everything.  While more than a fifth of a corpus of
    at least twenty items is pending deletion, no deletion and no relocation of
    any item is applied, by hand or unattended: the target is not called and the
    ledger does not change. *)
Theorem mass_deletion_refuses_all deps key l e enabled onApplied passStartedAt cap :
  mass_event (pending_count deps l) (placed_count deps l) ->
  (exists c, run (applyDeletion deps key) (l, e) = (inr (Refused c), (l, e))) /\
  (exists c, run (applyRelocation deps key) (l, e) = (inr (Refused c), (l, e))) /\
  (exists rep, run (autoApplyRelocations deps enabled onApplied passStartedAt cap) (l, e)
               = (inr rep, (l, e)) /\ ar_applied rep = []).
Proof.
  intros Hm. split_and!.
  - destruct (deletion_verdict deps key l) as [c|] eqn:Hv.
    + eexists. by apply (applyDeletion_refuses deps key l e c).
    + apply deletion_verdict_None in Hv as [row [_ _ _ _ _ Hc]]. done.
  - destruct (relocation_verdict deps key l) as [c|] eqn:Hv.
    + eexists. by apply (applyRelocation_refuses deps key l e c).
    + apply relocation_verdict_None in Hv as (row & arr & [_ _ _ _ _ _ _ _ _ _ Hc _]). done.
  - unfold autoApplyRelocations. destruct (off enabled); [by eexists|]. rewrite run_ask_bind.
    destruct (_ =? 0); [by eexists|].
    rewrite (answers_run_bind _ _ _ _ _ (both_breakers_answers deps l)).
    unfold breaker_verdict. rewrite decide_True by done. by eexists.
Qed.
End safety.

(** ** The unattended pass *)
Section auto.
Context {L Env : Type} `{LL : LedgerLaws L}.

Implicit Types (deps : ApplyDeletionDeps Env) (l : L) (e : Env).

Definition holders (h : string) (placed : list PlacedItem) : Z :=
  zlength (base.filter (fun i => pi_contentHash i = h) placed).

Lemma hash_counts_get placed h : nullish (js_map_get h (hash_counts placed)) 0 = holders h placed.
Proof.
  unfold hash_counts. change (holders h placed) with (nullish (js_map_get h ([] : list (string * Z))) 0 + holders h placed).
  generalize ([] : list (string * Z)). induction placed as [|i placed IH]; intros m.
  { unfold holders, zlength. simpl. lia. }
  simpl fold_left. rewrite IH. unfold holders, zlength. rewrite filter_cons.
  case_decide as Hi.
  - subst h. rewrite js_map_get_set_eq. simpl. lia.
  - by rewrite js_map_get_set_ne.
Qed.

(** What the pass demands of a move beyond the manual gates. *)
Definition unattended_ok deps (passStartedAt : instant) (placed : list PlacedItem) (m : ItemMove)
    (kind : RemovalKind) : Prop :=
  (exists t, im_recordedAt m = Some t /\ t < passStartedAt) /\
  exists l1 e1 w2 row, find_in deps (im_naturalKeyHash m) l1 = Some row /\
    holders (contentHash row) placed = 2 /\
    run (applyRelocation deps (im_naturalKeyHash m)) (l1, e1) = (inr (Applied kind), w2).

Lemma auto_apply_move_spec deps onApplied passStartedAt cap placed applied m l e r w' :
  run (auto_apply_move deps onApplied passStartedAt cap (hash_counts placed) applied m) (l, e)
    = (inr r, w') ->
  match r with
  | inl (k, kind) => k = im_naturalKeyHash m /\ zlength applied < cap /\
                     unattended_ok deps passStartedAt placed m kind
  | inr (k, _) => k = im_naturalKeyHash m
  end.
Proof.
  unfold auto_apply_move. destruct (Z.leb_spec cap (zlength applied)) as [|Hcap]; [by intros [= <- _]|].
  destruct (im_recordedAt m) as [t|] eqn:Ht; [|by intros [= <- _]].
  destruct (Z.leb_spec passStartedAt t); [by intros [= <- _]|].
  rewrite run_ask_bind. cbv zeta. fold (find_in deps (im_naturalKeyHash m) l).
  destruct (negb _) eqn:Hs; [by intros [= <- _]|]. rewrite negb_false_iff, Z.eqb_eq in Hs.
  destruct (find_in deps (im_naturalKeyHash m) l) as [row|] eqn:Hf; [|lia].
  destruct (String.eqb (contentHash row) ""); [lia|]. rewrite hash_counts_get in Hs.
  rewrite run_bind. destruct (run (applyRelocation _ _) (l, e)) as [[err|[kind|c]] w1] eqn:Hr;
    [done| |by intros [= <- _]].
  intros Hrun. rewrite run_bind in Hrun. destruct (run (tell _) w1) as [[?|[]] w2]; [done|].
  rewrite run_bind in Hrun. destruct (run _ w2) as [[?|[]] w3]; [done|]. injection Hrun as <- _.
  split; [done|]. split; [done|]. split; [by eexists|]. by exists l, e, w1, row.
Qed.

Lemma auto_apply_moves_spec deps onApplied passStartedAt cap placed open applied left w a b w' :
  run (auto_apply_moves deps onApplied passStartedAt cap (hash_counts placed) open applied left) w
    = (inr (a, b), w') ->
  zlength applied <= Z.max 0 cap ->
  zlength a <= Z.max 0 cap /\
  a.*1 ++ b.*1 ≡ₚ applied.*1 ++ left.*1 ++ (im_naturalKeyHash <$> open) /\
  forall k kind, (k, kind) ∈ a -> (k, kind) ∈ applied \/
    exists m, m ∈ open /\ k = im_naturalKeyHash m /\ unattended_ok deps passStartedAt placed m kind.
Proof.
  revert applied left w. induction open as [|m open IH]; intros applied left w Hrun Hcap; simpl in Hrun.
  { simplify_eq. rewrite fmap_nil, app_nil_r. split_and!; [done|done|]. by left. }
  rewrite run_bind in Hrun. destruct (run (auto_apply_move _ _ _ _ _ _ m) w) as [[?|r] [l1 e1]] eqn:Hm; [done|].
  destruct w as [l e]. apply auto_apply_move_spec in Hm. destruct r as [[k kind]|[k c]].
  - destruct Hm as (-> & Hlt & Hok). apply IH in Hrun as (H1 & H2 & H3).
    + split; [done|]. split.
      * rewrite H2, fmap_app, fmap_cons. simpl. solve_Permutation.
      * intros k' kind' Hin. apply H3 in Hin as [Hin|(m' & Hin & ? & ?)].
        { apply elem_of_app in Hin as [Hin|[=]%list_elem_of_singleton]; [by left|]. right.
          exists m. subst. split; [left|done]. }
        right. exists m'. split; [by right|done].
    + unfold zlength in *. rewrite length_app. simpl. lia.
  - subst k. apply IH in Hrun as (H1 & H2 & H3); [|done]. split; [done|]. split.
    + rewrite H2, fmap_app, fmap_cons. simpl. solve_Permutation.
    + intros k' kind' Hin. apply H3 in Hin as [Hin|(m' & Hin & ? & ?)]; [by left|].
      right. exists m'. split; [by right|done].
Qed.

(** The unattended pass is bounded and accounts for every candidate: it
    does nothing unless the mapping opted in; each open relocation ends up
    exactly once either applied or left for review; at most [cap] are applied;
    and each applied one predates the pass, is one of exactly two holders of its
    bytes, and passed every gate of the manual operation. *)
Theorem autoApply_bounded deps enabled onApplied passStartedAt cap l e rep w' :
  run (autoApplyRelocations deps enabled onApplied passStartedAt cap) (l, e) = (inr rep, w') ->
  let open := base.filter (fun m => Is_true (open_relocation m))
                (lg_listMoves (ad_tenantId deps) (ad_mappingId deps) (Some (ad_domain deps)) l) in
  let placed := lg_placedItems (ad_tenantId deps) (ad_mappingId deps) (ad_domain deps) l in
  zlength (ar_applied rep) <= Z.max 0 cap /\
  (enabled <> Some true \/ is_Some (ar_stopped rep) -> ar_applied rep = [] /\ w' = (l, e)) /\
  (enabled = Some true -> ar_stopped rep = None ->
     (ar_applied rep).*1 ++ (ar_leftForReview rep).*1 ≡ₚ (im_naturalKeyHash <$> open)) /\
  (forall k kind, (k, kind) ∈ ar_applied rep ->
     exists m, m ∈ open /\ k = im_naturalKeyHash m /\ unattended_ok deps passStartedAt placed m kind).
Proof.
  intros Hrun open placed. unfold autoApplyRelocations in Hrun. destruct (off enabled) eqn:Hoff.
  { simplify_eq/=. unfold zlength. simpl. split_and!; [lia|done| |set_solver].
    intros He. apply off_false in He. congruence. }
  rewrite run_ask_bind in Hrun. fold open in Hrun. apply off_false in Hoff.
  destruct (Z.eqb_spec (zlength open) 0) as [H0|Hn].
  { simplify_eq/=. split_and!; [unfold zlength; simpl; lia|done| |set_solver].
    intros _ _. unfold zlength in H0. by destruct open. }
  rewrite (answers_run_bind _ _ _ _ _ (both_breakers_answers deps l)) in Hrun.
  destruct (breaker_verdict deps l) as [c|].
  { simplify_eq/=. unfold zlength. simpl. split_and!; [lia|done|done|set_solver]. }
  rewrite run_ask_bind, run_bind in Hrun. fold placed in Hrun.
  destruct (run _ (l, e)) as [[?|[a b]] w1] eqn:Hm; [done|]. simplify_eq/=.
  apply auto_apply_moves_spec in Hm as (H1 & H2 & H3); [|unfold zlength; simpl; lia].
  split_and!; [done|by intros [?|[? [=]]]|done|].
  intros k kind Hin. apply H3 in Hin as [Hin|?]; [set_solver|done].
Qed.
End auto.
