(* ===== verification/ApplyOnLedger.v ===== *)
(** * The applies on the PostgreSQL ledger

    The gates of [ApplyDeletion] and the conditional UPDATEs of [Ledger] are
    written separately, in two languages.  Here they are put together: what the
    gates let through the UPDATE records, so a removal is never left
    unrecorded, never repeated, and a relocation always leaves a live copy of
    the bytes it removed one of. *)

From S2P Require Import Prelude Prog Ports ApplyDeletion.
From S2P Require Ledger.

Open Scope Z_scope.

Section on_ledger.
Context (scan : gmap (string * string * string) Ledger.item_row ->
                list ((string * string * string) * Ledger.item_row))
        (scan_perm : forall mm, scan mm ≡ₚ map_to_list mm).
Context {Env : Type}.

#[local] Instance pg : Ledger Ledger.PgState := Ledger.pg_ledger scan.
#[local] Instance pg_laws : LedgerLaws Ledger.PgState := Ledger.pg_ledger_laws scan scan_perm.

Implicit Types (deps : ApplyDeletionDeps Env) (s : Ledger.PgState) (e : Env).

Definition key_of deps (key : string) : string * string * string :=
  (ad_tenantId deps, ad_mappingId deps, key).

(** The row of [key] is on the target no more, by our own hand. *)
Definition entombed deps (key : string) s : Prop :=
  exists row, Ledger.items s !! key_of deps key = Some row /\
    Ledger.row_domain row = ad_domain deps /\
    Ledger.row_status row = tombstoned /\ is_Some (Ledger.row_deletionAppliedAt row).

Lemma entombed_verdict deps key s :
  ad_allowApplyDeletions deps = Some true -> entombed deps key s ->
  deletion_verdict deps key s = Some already_applied /\
  relocation_verdict deps key s = Some already_applied.
Proof.
  intros Hen (row & Hrow & Hd & Hst & Happ).
  assert (Hf : find_in deps key s = Some (Ledger.mapRowToRecord (key_of deps key) row)).
  { apply Ledger.find_Some. by exists row. }
  assert (Hg : already_gone (Ledger.mapRowToRecord (key_of deps key) row) = true).
  { unfold already_gone. apply orb_true_iff. left. by apply defined_true. }
  unfold deletion_verdict, relocation_verdict. rewrite (proj2 (off_false _) Hen), Hf, Hg. done.
Qed.

Lemma status_ours_row k row :
  status_ours (Ledger.mapRowToRecord k row) ->
  Ledger.row_status row = copied \/ Ledger.row_status row = updated.
Proof. destruct k as [[t m] k]. unfold status_ours. simpl. intros [[=]|[=]]; auto. Qed.

Lemma contentHash_row k row h :
  contentHash (Ledger.mapRowToRecord k row) = h -> h <> ""%string -> Ledger.row_contentHash row = Some h.
Proof.
  destruct k as [[t m] k]. unfold Ledger.mapRowToRecord. simpl.
  destruct (Ledger.row_contentHash row); simpl; congruence.
Qed.

(** What a permitted deletion finds is exactly what the UPDATE wants. *)
Lemma permitted_deletion_records deps key s row :
  deletion_permitted deps key s row ->
  exists s', lg_applyDeletion (ad_tenantId deps) (ad_mappingId deps) (ad_domain deps) key s = (true, s') /\
    entombed deps key s'.
Proof.
  intros [_ Hf Hp Hev Ho _]. apply Ledger.find_Some in Hf as (r & Hr & Hd & ->).
  apply status_ours_row in Ho.
  destruct (Ledger.applyDeletion_succeeds _ _ _ key s r Hr Hd Hev Hp Ho) as (r' & Ha & Hd' & Hs' & Hap & _).
  eexists. split; [exact Ha|]. exists r'. simpl. unfold key_of. rewrite lookup_insert_eq.
  by split_and!.
Qed.

Lemma permitted_relocation_records deps key s row arrival :
  relocation_permitted deps key s row arrival ->
  exists s' toKey, lg_applyRelocation (ad_tenantId deps) (ad_mappingId deps) (ad_domain deps) key s = (true, s') /\
    entombed deps key s' /\ truthy (movedToNaturalKeyHash row) = Some toKey /\ toKey <> key /\
    find_in deps toKey s' = Some arrival.
Proof.
  intros [_ Hf Hp Hop Ho (toKey & Hto & Hne & Hfa) Hao _ [Hb Hne'] _ _ _].
  apply Ledger.find_Some in Hf as (r & Hr & Hd & ->).
  pose proof Hfa as Hfa0. apply Ledger.find_Some in Hfa0 as (ra & Hra & Hda & ->).
  apply status_ours_row in Ho, Hao. pose proof Hto as Hto'.
  unfold Ledger.mapRowToRecord in Hto'. simpl in Hto'.
  apply truthy_Some in Hto' as [Hto' Ht0]. apply truthy_Some in Hto' as [Hto' _].
  set (h := contentHash (Ledger.mapRowToRecord (ad_tenantId deps, ad_mappingId deps, key) r)) in *.
  destruct (Ledger.applyRelocation_succeeds _ _ _ key s r toKey ra h Hr Hd Hto' Hne Hp Hop Ho Hra Hda Hao)
    as (r' & Ha & Hd' & Hs' & Hap & _).
  - by apply contentHash_row in Hb.
  - done.
  - by eapply contentHash_row.
  - eexists _, toKey. split; [exact Ha|]. split; [|split; [exact Hto|split; [done|]]].
    + exists r'. simpl. unfold key_of. rewrite lookup_insert_eq. by split_and!.
    + rewrite <- Hfa. apply Ledger.find_insert_ne. congruence.
Qed.

(** C17: on this ledger a removal is always recorded and never repeated.  An
    [applyDeletion] with no one interfering never answers [removed_not_recorded];
    when it answers [Applied] the row is a tombstone, and every later call -
    against whatever target - answers [already_applied] without touching
    anything. *)
Theorem applyDeletion_once deps key s e o s' e' :
  run (applyDeletion deps key) (s, e) = (inr o, (s', e')) ->
  o <> Refused removed_not_recorded /\
  (forall kind, o = Applied kind -> entombed deps key s' /\
     forall e2, run (applyDeletion deps key) (s', e2) = (inr (Refused already_applied), (s', e2))).
Proof using scan_perm.
  intros Hrun. destruct (deletion_verdict deps key s) as [c|] eqn:Hv.
  { rewrite (applyDeletion_refuses _ _ _ _ _ Hv) in Hrun. injection Hrun as <- _ _.
    split; [|done]. unfold deletion_verdict, ownershipCheck in Hv. repeat case_match; congruence. }
  apply deletion_verdict_None in Hv as [row Hp].
  destruct (removeItem (ad_target deps)) as [rm|] eqn:Hrm.
  2:{ unfold applyDeletion in Hrun. rewrite Hrm in Hrun. destruct (off _); simpl in Hrun; by simplify_eq. }
  rewrite (applyDeletion_proceeds _ _ _ _ _ _ Hp Hrm), run_remove_and_record in Hrun.
  destruct (rm _ _ _ e) as [[err|[[kind|] []]] e1]; simpl in Hrun; simplify_eq; try done.
  destruct (permitted_deletion_records _ _ _ _ Hp) as (s1 & Ha & Hent).
  simpl in Ha, Hrun. rewrite Ha in Hrun. injection Hrun as <- <- <-. split; [done|].
  intros kind' _. split; [done|]. intros e2.
  destruct Hp as [Hen _ _ _ _ _]. destruct (entombed_verdict deps key s1 Hen Hent) as [Hv _].
  rewrite (applyDeletion_refuses _ _ _ _ _ Hv), Hrm. by rewrite (proj2 (off_false _) Hen).
Qed.

End on_ledger.

(** ** Witnesses *)

(** A target that keeps the list of the calls made to it. *)
Definition logging_target : Target (list string) :=
  {| removeItem := Some (fun id _ _ log => (inr (mkRemovalResult (Some deleted) false), log ++ [id]));
     hasItem := Some (fun id _ log => (inr true, log)) |}.

Definition sample_deps (d : domain) : ApplyDeletionDeps (list string) :=
  {| ad_tenantId := "t"; ad_mappingId := "m"; ad_domain := d; ad_target := logging_target;
     ad_allowApplyDeletions := Some true; ad_targetFolderPrefix := None |}.

#[local] Instance sample_port : Ledger Ledger.PgState := Ledger.pg_ledger map_to_list.

Lemma map_to_list_scan (mm : gmap (string * string * string) Ledger.item_row) :
  map_to_list mm ≡ₚ map_to_list mm.
Proof. done. Qed.

#[local] Instance sample_laws : LedgerLaws Ledger.PgState :=
  Ledger.pg_ledger_laws map_to_list map_to_list_scan.

(** [k1] was renamed to [k2], which holds the same bytes as another object. *)
Definition renamed_ledger : Ledger.PgState :=
  Ledger.recordMove "t" "m" File "k1" "Docs" (Some "k2"%string)
    (snd (Ledger.recordIfAbsent
            ((Ledger.sample_record "t" "m" File "k2" "h" copied) <| targetId := "target-2"%string |>)
       (snd (Ledger.recordIfAbsent (Ledger.sample_record "t" "m" File "k1" "h" copied)
               Ledger.empty_ledger)))).

(** Twenty copied items, five of them reported deleted. *)
Definition outage_ledger : Ledger.PgState :=
  fold_left (fun s k => snd (Ledger.recordReportedDeletion "t" "m" Calendar k s))
    ["a"; "b"; "c"; "d"; "e"]%string
    (fold_left (fun s k => snd (Ledger.recordIfAbsent (Ledger.sample_record "t" "m" Calendar k k copied) s))
       ["a"; "b"; "c"; "d"; "e"; "f"; "g"; "h"; "i"; "j"; "k"; "l"; "m"; "n"; "o"; "p"; "q"; "r"; "s"; "t"]%string
       Ledger.empty_ledger).

Lemma evaluations_predict_applies_witness :
  exists v, run (evaluateApplyRelocation (sample_deps File) "k1") (renamed_ledger, []) = (inr v, (renamed_ledger, [])) /\
    (v = None <-> exists row arrival, relocation_permitted (sample_deps File) "k1" renamed_ledger row arrival) /\
    (forall c, v = Some c -> is_Some (removeItem (ad_target (sample_deps File))) ->
       run (applyRelocation (sample_deps File) "k1") (renamed_ledger, [])
       = (inr (Refused c), (renamed_ledger, []))).
Proof. exact (proj2 (evaluations_predict_applies (sample_deps File) "k1" renamed_ledger [])). Defined.

Lemma applyDeletion_needs_licence_witness :
  exists row rm res, deletion_permitted (sample_deps Calendar) "k" Ledger.reported_ledger row /\
    removeItem (ad_target (sample_deps Calendar)) = Some rm /\
    rm (targetId row) (targetVersion row)
       (applyTargetFolderPrefix (ad_targetFolderPrefix (sample_deps Calendar)) <$> collection row) []
    = (res, ["target-1"%string]).
Proof.
  destruct (applyDeletion_needs_licence (sample_deps Calendar) "k" Ledger.reported_ledger []
              (inr (Applied deleted))
              (run (applyDeletion (sample_deps Calendar) "k") (Ledger.reported_ledger, [])).2.1
              ["target-1"%string]) as (row & rm & res & H1 & H2 & H3 & _).
  - vm_compute. reflexivity.
  - intros Heq. apply (f_equal snd) in Heq. discriminate Heq.
  - exists row, rm, res. split; [exact H1|]. split; [exact H2|exact H3].
Defined.

Lemma tombstone_never_precedes_removal_witness :
  Forall (fun w => w.1 = renamed_ledger \/
      removal_reported (sample_deps File) "k1"
        (fun id _ _ log => (inr (mkRemovalResult (Some deleted) false), log ++ [id])) renamed_ledger w.2)
    (run_trace (applyRelocation (sample_deps File) "k1") (renamed_ledger, [])).
Proof.
  destruct (tombstone_never_precedes_removal (sample_deps File) "k1" renamed_ledger [] _ eq_refl)
    as [_ H]. exact H.
Defined.

Lemma mass_deletion_refuses_all_witness :
  exists c, run (applyDeletion (sample_deps Calendar) "a") (outage_ledger, [])
            = (inr (Refused c), (outage_ledger, [])).
Proof.
  destruct (mass_deletion_refuses_all (sample_deps Calendar) "a" outage_ledger [] None None 0 0)
    as [H _]; [split; vm_compute; congruence|exact H].
Defined.

Lemma autoApply_bounded_witness :
  exists rep w', run (autoApplyRelocations (sample_deps File) (Some true) None 7 50) (renamed_ledger, [])
                 = (inr rep, w') /\ ar_applied rep = [("k1"%string, deleted)] /\
    zlength (ar_applied rep) <= 50.
Proof.
  eexists _, _. split; [vm_compute; reflexivity|]. split; [reflexivity|].
  edestruct (autoApply_bounded (sample_deps File) (Some true) None 7 50 renamed_ledger [])
    as [H _]; [vm_compute; reflexivity|exact H].
Defined.

Lemma applyDeletion_once_witness :
  entombed (sample_deps Calendar) "k"
    (run (applyDeletion (sample_deps Calendar) "k") (Ledger.reported_ledger, [])).2.1.
Proof.
  destruct (applyDeletion_once map_to_list map_to_list_scan (sample_deps Calendar) "k"
            Ledger.reported_ledger [] (Applied deleted)
            (run (applyDeletion (sample_deps Calendar) "k") (Ledger.reported_ledger, [])).2.1
            ["target-1"%string]) as [_ Hk]; [vm_compute; reflexivity|].
  destruct (Hk deleted eq_refl) as [Hent _]. exact Hent.
Defined.

