(* ===== verification/Verification.v ===== *)
(** * The verification gate ([packages/core/src/verification.ts])

    Counts, discrepancies and sampled contents of each data type, the verdict
    on them, and the decision whether a cutover may proceed.  The engine reads
    both sides through [VerificationDeps]; every read is an await, so nothing
    below assumes that two reads see the same moment.  Ratios are doubles
    ([Doubles]). *)

From stdpp Require Import pretty.
From S2P Require Import Prelude Prog Doubles Keys.
From Stdlib Require Import QArith Lqa.

Open Scope Z_scope.

Inductive DataType := dt_mail | dt_calendar | dt_contacts | dt_files.

#[export] Instance DataType_eq_dec : EqDecision DataType.
Proof. solve_decision. Defined.

Definition dataType_name (d : DataType) : string :=
  match d with
  | dt_mail => "mail" | dt_calendar => "calendar" | dt_contacts => "contacts" | dt_files => "files"
  end.

Inductive DataTypeVerificationStatus := S_PASS | S_WARN | S_FAIL | S_SKIPPED | S_NOT_VERIFIABLE.

#[export] Instance DataTypeVerificationStatus_eq_dec : EqDecision DataTypeVerificationStatus.
Proof. solve_decision. Defined.

Inductive OverallStatus := O_PASS | O_WARN | O_FAIL.

#[export] Instance OverallStatus_eq_dec : EqDecision OverallStatus.
Proof. solve_decision. Defined.

Inductive severity := sev_ERROR | sev_WARNING.

Record Issue := mkIssue {
  is_id : string;
  is_severity : severity;
  is_message : string
}.

Record DataTypeVerification := mkDataTypeVerification {
  dataType : DataType;
  dv_status : DataTypeVerificationStatus;
  sourceCount : Z;
  targetCount : Z;
  matchedCount : Z;
  missingOnTarget : Z;
  extraOnTarget : Z;
  checksumSampleSize : Z;
  checksumMatches : Z;
  checksumMismatches : Z;
  checksumUnavailable : Z;
  totalBytesSource : Z;
  totalBytesTarget : option Z;
  issues : list Issue
}.

Record VerificationResult := mkVerificationResult {
  vr_tenantId : string;
  vr_mappingId : string;
  vr_timestamp : Z;
  overallStatus : OverallStatus;
  score : Q;
  vr_mail : DataTypeVerification;
  vr_calendar : DataTypeVerification;
  vr_contacts : DataTypeVerification;
  vr_files : DataTypeVerification;
  totalItemsSource : Z;
  totalItemsTarget : Z;
  totalDiscrepancies : Z;
  totalBytesTransferred : Z;
  canProceedToCutover : bool;
  recommendations : list string
}.

(** Percentages and thresholds are doubles, the sample sizes whole numbers. *)
Record VerificationConfig := mkVerificationConfig {
  checksumSamplePercentage : Q;
  minSampleSize : Z;
  maxSampleSize : Z;
  requiredMatchPercentage : Q;
  maxDiscrepancyPercentage : Q;
  verifyMail : bool;
  verifyCalendar : bool;
  verifyContacts : bool;
  verifyFiles : bool
}.

(** [Uint8Array | string] *)
Inductive Content := Text (s : string) | Bytes (b : list Byte.byte).

Record Sample := mkSample {
  sm_id : string;
  sm_naturalKeyHash : string;
  sm_content : Content
}.

Definition isDataTypeEnabled (config : VerificationConfig) (d : DataType) : bool :=
  match d with
  | dt_mail => verifyMail config
  | dt_calendar => verifyCalendar config
  | dt_contacts => verifyContacts config
  | dt_files => verifyFiles config
  end.

(** ** Domains that are not measured *)

Inductive Unmeasured := u_SKIPPED | u_NOT_VERIFIABLE.

Definition unmeasured_status (u : Unmeasured) : DataTypeVerificationStatus :=
  match u with u_SKIPPED => S_SKIPPED | u_NOT_VERIFIABLE => S_NOT_VERIFIABLE end.

Definition unmeasured_name (u : Unmeasured) : string :=
  match u with u_SKIPPED => "SKIPPED" | u_NOT_VERIFIABLE => "NOT_VERIFIABLE" end.

Definition notMeasured (d : DataType) (u : Unmeasured) (message : string) (recorded : Z)
    : DataTypeVerification :=
  {| dataType := d; dv_status := unmeasured_status u; sourceCount := recorded; targetCount := 0;
     matchedCount := 0; missingOnTarget := 0; extraOnTarget := 0; checksumSampleSize := 0;
     checksumMatches := 0; checksumMismatches := 0; checksumUnavailable := 0;
     totalBytesSource := 0; totalBytesTarget := None;
     issues := [{| is_id := (unmeasured_name u ++ "_" ++ dataType_name d)%string;
                   is_severity := match u with u_NOT_VERIFIABLE => sev_ERROR | u_SKIPPED => sev_WARNING end;
                   is_message := message |}] |}.

(** ** Samples *)

Definition percent (q : Q) : Q := fdiv q (inject_Z 100).

Definition calculateSampleSize (totalCount : Z) (config : VerificationConfig) : Z :=
  if totalCount =? 0 then 0
  else
    let calculated := Qround.Qfloor (fmul (inject_Z totalCount) (percent (checksumSamplePercentage config))) in
    let wanted := Z.max (minSampleSize config) (Z.min calculated (maxSampleSize config)) in
    Z.min wanted totalCount.

Definition isComparableContent (c : Content) : bool :=
  match c with
  | Text s => bool_decide (s <> ""%string)
  | Bytes b => (0 <? Z.of_nat (length b))
  end.

Definition sameHashAlgorithm (a b : Content) : bool :=
  match a, b with
  | Text a, Text b => bool_decide (versionOf a = versionOf b)
  | _, _ => true
  end.

Fixpoint same_bytes (a b : list Byte.byte) : bool :=
  match a, b with
  | [], [] => true
  | x :: a', y :: b' => Byte.eqb x y && same_bytes a' b'
  | _, _ => false
  end.

Definition compareContent (a b : Content) : bool :=
  match a, b with
  | Text a, Text b => String.eqb a b
  | Bytes a, Bytes b => same_bytes a b
  | _, _ => false
  end.

(** [targetSamplesByHash]: of two samples with one key the later stays. *)
Definition samplesByHash (l : list Sample) : list (string * Content) :=
  foldl (fun m s => js_map_set (sm_naturalKeyHash s) (sm_content s) m) [] l.

Record Tally := mkTally { matches : Z; mismatches : Z; unavailable : Z }.

#[export] Instance eta_Tally : Eta Tally := fun t => mkTally (matches t) (mismatches t) (unavailable t).

(** One round of the comparing loop. *)
Definition compareSample (target : list (string * Content)) (t : Tally) (s : Sample) : Tally :=
  match js_map_get (sm_naturalKeyHash s) target with
  | Some c =>
      if isComparableContent c then
        if negb (sameHashAlgorithm (sm_content s) c) then t <| unavailable ::= Z.add 1 |>
        else if compareContent (sm_content s) c then t <| matches ::= Z.add 1 |>
        else t <| mismatches ::= Z.add 1 |>
      else t <| unavailable ::= Z.add 1 |>
  | None => t <| unavailable ::= Z.add 1 |>
  end.

Definition compareSamples (source target : list Sample) : Tally :=
  foldl (compareSample (samplesByHash target)) (mkTally 0 0 0) source.

(** ** Verdicts *)

(** [b > 0 ? a / b : d] *)
Definition ratio_or (a b : Z) (d : Q) : Q := if 0 <? b then fdiv (inject_Z a) (inject_Z b) else d.

Definition determineVerificationStatus (matchPercentage checksumMatchPercentage : Q)
    (missingCount extraCount : Z) (config : VerificationConfig) (sourceCount : Z)
    : DataTypeVerificationStatus :=
  let totalDiscrepancies := missingCount + extraCount in
  let discrepancyPercentage := ratio_or missingCount sourceCount 0 in
  if flt matchPercentage (requiredMatchPercentage config)
     || flt checksumMatchPercentage (requiredMatchPercentage config)
     || flt (maxDiscrepancyPercentage config) discrepancyPercentage
  then S_FAIL
  else if 0 <? totalDiscrepancies then S_WARN
  else S_PASS.

Definition hasStatus (l : list DataTypeVerificationStatus) (v : DataTypeVerification) : bool :=
  bool_decide (dv_status v ∈ l).

Definition calculateOverallStatus (l : list DataTypeVerification) : OverallStatus :=
  if existsb (hasStatus [S_FAIL; S_NOT_VERIFIABLE]) l then O_FAIL
  else if existsb (hasStatus [S_WARN]) l then O_WARN
  else O_PASS.

Definition dec_07 : Q := fl (7 # 10).
Definition dec_03 : Q := fl (3 # 10).
Definition dec_095 : Q := fl (95 # 100).

Definition matchRatio (v : DataTypeVerification) : Q := ratio_or (matchedCount v) (sourceCount v) 1.

Definition checksumRatio (v : DataTypeVerification) : Q :=
  ratio_or (checksumMatches v) (checksumMatches v + checksumMismatches v) 1.

Definition weigh (m c : Q) : Q := fadd (fmul m dec_07) (fmul c dec_03).

Definition isMeasured (v : DataTypeVerification) : bool := negb (hasStatus [S_SKIPPED; S_NOT_VERIFIABLE] v).

Definition calculateVerificationScore (l : list DataTypeVerification) : Q :=
  match List.filter isMeasured l with
  | [] => 1%Q
  | measured =>
      fdiv (foldl (fun sum v => fadd sum (weigh (matchRatio v) (checksumRatio v))) 0%Q measured)
           (inject_Z (Z.of_nat (length measured)))
  end.

Abbreviation isPositive n := (Z.ltb 0 n) (only parsing).

(** ** Recommendations *)

Definition pushIf (b : bool) (s : string) : list string := if b then [s] else [].

Definition recommendationsFor (v : DataTypeVerification) : list string :=
  let name := dataType_name (dataType v) in
  mjoin [pushIf (hasStatus [S_NOT_VERIFIABLE] v)
     ("Cannot verify " ++ name ++ ": no way to read the target for this domain. "
      ++ "Either supply a reindexer for it or turn " ++ name ++ " verification off explicitly.");
   pushIf (hasStatus [S_SKIPPED] v)
     (name ++ " was not verified: "
      ++ match issues v with i :: _ => is_message i | [] => "skipped" end);
   pushIf (isPositive (checksumUnavailable v))
     (pretty (checksumUnavailable v) ++ " sampled " ++ name ++ " item(s) could not be content-verified "
      ++ "(the target exposes no content hash); only count parity was checked for them.");
   pushIf (isPositive (missingOnTarget v))
     ("Re-sync " ++ pretty (missingOnTarget v) ++ " missing " ++ name ++ " item(s)");
   pushIf (isPositive (checksumMismatches v))
     ("Investigate " ++ pretty (checksumMismatches v) ++ " content mismatches in " ++ name)]%string.

Definition generateRecommendations (l : list DataTypeVerification) (overall : OverallStatus) : list string :=
  let r := (match overall with
            | O_FAIL => ["Fix all errors before proceeding to cutover"%string;
                         "Review verification report for specific issues"%string]
            | O_WARN => ["Review warnings and decide if cutover should proceed"%string;
                         "Consider additional verification for flagged items"%string]
            | O_PASS => []
            end ++ mjoin (recommendationsFor <$> l)) in
  match r with [] => ["All verifications passed. Ready for cutover."%string] | _ => r end.

(** ** The engine *)

Section engine.
Context {W : Type}.

Abbreviation vprog := (prog W string).

(** The fields a check may leave out are options. *)
Record VerificationDeps := mkVerificationDeps {
  vd_tenantId : string;
  vd_mappingId : string;
  vd_config : VerificationConfig;
  getSourceCount : DataType -> vprog Z;
  getTargetCount : DataType -> vprog Z;
  getSourceSamples : DataType -> Z -> vprog (list Sample);
  getTargetSamples : DataType -> Z -> option (list string) -> vprog (list Sample);
  findMissingOnTarget : DataType -> vprog (list (string * string));
  findExtraOnTarget : DataType -> vprog (list (string * string));
  getTotalBytesSource : DataType -> vprog Z;
  getTotalBytesTarget : option (DataType -> vprog (option Z));
  canVerifyTarget : option (DataType -> bool)
}.

Definition issueIf (b : bool) (id : string) (s : severity) (message : string) : list Issue :=
  if b then [mkIssue id s message] else [].

(** The issues of [verifyDataType], in the order they are pushed. *)
Definition collectIssues (config : VerificationConfig) (d : DataType) (sourceCount sampled : Z)
    (t : Tally) (missing extra : Z) : list Issue :=
  let name := dataType_name d in
  mjoin [issueIf (isPositive sourceCount && Z.eqb sampled 0) ("CHECKSUM_NOT_SAMPLED_" ++ name) sev_WARNING
     ("No " ++ name ++ " item could be sampled for content verification, though " ++ pretty sourceCount
      ++ " item(s) are recorded. The checksum half of the gate did not run at all — this is an "
      ++ "ABSENCE of content evidence, not evidence of a match. Count parity still applies.");
   issueIf (isPositive (unavailable t)) ("CHECKSUM_UNAVAILABLE_" ++ name) sev_WARNING
     (pretty (unavailable t) ++ " of " ++ pretty sampled ++ " sampled " ++ name
      ++ " item(s) could not be content-verified: the target does not expose a content hash. "
      ++ "Count parity still applies.");
   issueIf (isPositive missing) ("MISSING_" ++ name)
     (if flt (fmul (inject_Z sourceCount) (maxDiscrepancyPercentage config)) (inject_Z missing)
      then sev_ERROR else sev_WARNING)
     (pretty missing ++ " " ++ name ++ " item(s) missing on target");
   issueIf (isPositive extra) ("EXTRA_" ++ name) sev_WARNING
     (pretty extra ++ " " ++ name ++ " item(s) exist on target but not source");
   issueIf (isPositive (mismatches t)) ("CHECKSUM_" ++ name) sev_ERROR
     (pretty (mismatches t) ++ " " ++ name ++ " item(s) have content mismatches")]%string.

Definition zlen {A} (l : list A) : Z := Z.of_nat (length l).

(** What [verifyDataType] concludes from what it read. *)
Definition assess (config : VerificationConfig) (d : DataType) (source target : Z)
    (missing extra : list (string * string)) (sourceSamples targetSamples : list Sample)
    (bytesSource : Z) (bytesTarget : option Z) : DataTypeVerification :=
  let matched := source - zlen missing in
  let t := compareSamples sourceSamples targetSamples in
  let matchPercentage := ratio_or matched source 1 in
  let checksumMatchPercentage := ratio_or (matches t) (matches t + mismatches t) 1 in
  {| dataType := d;
     dv_status := determineVerificationStatus matchPercentage checksumMatchPercentage
                    (zlen missing) (zlen extra) config source;
     sourceCount := source; targetCount := target; matchedCount := matched;
     missingOnTarget := zlen missing; extraOnTarget := zlen extra;
     checksumSampleSize := zlen sourceSamples; checksumMatches := matches t;
     checksumMismatches := mismatches t; checksumUnavailable := unavailable t;
     totalBytesSource := bytesSource; totalBytesTarget := bytesTarget;
     issues := collectIssues config d source (zlen sourceSamples) t (zlen missing) (zlen extra) |}.

Definition verifyDataType (deps : VerificationDeps) (d : DataType) : vprog DataTypeVerification :=
  let config := vd_config deps in
  let! source := getSourceCount deps d in
  let! target := getTargetCount deps d in
  let! missing := findMissingOnTarget deps d in
  let! extra := findExtraOnTarget deps d in
  let sampleSize := calculateSampleSize source config in
  let! sourceSamples := getSourceSamples deps d sampleSize in
  let! targetSamples := getTargetSamples deps d sampleSize (Some (sm_naturalKeyHash <$> sourceSamples)) in
  let! bytesSource := getTotalBytesSource deps d in
  let! bytesTarget := match getTotalBytesTarget deps with
                      | Some f => f d
                      | None => Ret None
                      end in
  Ret (assess config d source target missing extra sourceSamples targetSamples bytesSource bytesTarget).

Definition verifyDomain (deps : VerificationDeps) (d : DataType) : vprog DataTypeVerification :=
  let name := dataType_name d in
  if negb (isDataTypeEnabled (vd_config deps) d) then
    Ret (notMeasured d u_SKIPPED
           (name ++ " verification was disabled in the config — this domain was NOT checked.")%string 0)
  else if match canVerifyTarget deps with Some can => negb (can d) | None => false end then
    let! recorded := getSourceCount deps d in
    if recorded =? 0 then
      Ret (notMeasured d u_SKIPPED
             ("No " ++ name ++ " items were recorded for this mapping, so there is nothing to verify.")%string 0)
    else
      Ret (notMeasured d u_NOT_VERIFIABLE
             (pretty recorded ++ " " ++ name ++ " item(s) were copied, but the target cannot be read for this "
              ++ "domain (no reindexer). Cutover is blocked: their completeness is unknown.")%string recorded)
  else verifyDataType deps d.

Definition sumOf (f : DataTypeVerification -> Z) (l : list DataTypeVerification) : Z :=
  foldl (fun sum v => sum + f v) 0 l.

Definition mayProceed (overall : OverallStatus) (score : Q) : bool :=
  bool_decide (overall = O_PASS) || (bool_decide (overall = O_WARN) && Qle_bool dec_095 score).

Definition conclude (deps : VerificationDeps) (now : Z) (mail calendar contacts files : DataTypeVerification)
    : VerificationResult :=
  let all := [mail; calendar; contacts; files] in
  let overall := calculateOverallStatus all in
  let sc := calculateVerificationScore all in
  {| vr_tenantId := vd_tenantId deps; vr_mappingId := vd_mappingId deps; vr_timestamp := now;
     overallStatus := overall; score := sc;
     vr_mail := mail; vr_calendar := calendar; vr_contacts := contacts; vr_files := files;
     totalItemsSource := sumOf sourceCount all; totalItemsTarget := sumOf targetCount all;
     totalDiscrepancies := sumOf (fun v => missingOnTarget v + extraOnTarget v) all;
     totalBytesTransferred := sumOf totalBytesSource all;
     canProceedToCutover := mayProceed overall sc;
     recommendations := generateRecommendations all overall |}.

(** [new Date()] *)
Variable now : W -> Z.

Definition runVerification (deps : VerificationDeps) : vprog VerificationResult :=
  let! mail := verifyDomain deps dt_mail in
  let! calendar := verifyDomain deps dt_calendar in
  let! contacts := verifyDomain deps dt_contacts in
  let! files := verifyDomain deps dt_files in
  let! t := act (fun w => (now w, w)) in
  Ret (conclude deps t mail calendar contacts files).

End engine.

Arguments VerificationDeps W : clear implicits.

Definition domains (r : VerificationResult) : list DataTypeVerification :=
  [vr_mail r; vr_calendar r; vr_contacts r; vr_files r].

(** ** What a report always says *)

Lemma compareSample_total target t s :
  matches (compareSample target t s) + mismatches (compareSample target t s)
    + unavailable (compareSample target t s) = matches t + mismatches t + unavailable t + 1 /\
  matches t <= matches (compareSample target t s) /\
  mismatches t <= mismatches (compareSample target t s) /\
  unavailable t <= unavailable (compareSample target t s).
Proof. unfold compareSample. dm; simpl; lia. Qed.

Lemma compareSamples_total source target :
  let t := compareSamples source target in
  matches t + mismatches t + unavailable t = zlen source /\
  0 <= matches t /\ 0 <= mismatches t /\ 0 <= unavailable t.
Proof.
  unfold compareSamples, zlen. generalize (samplesByHash target) as m. intros m. simpl.
  cut (forall t, let t' := foldl (compareSample m) t source in
    matches t' + mismatches t' + unavailable t'
      = matches t + mismatches t + unavailable t + Z.of_nat (length source) /\
    matches t <= matches t' /\ mismatches t <= mismatches t' /\ unavailable t <= unavailable t').
  { intros H. specialize (H (mkTally 0 0 0)). simpl in *. lia. }
  induction source as [|s source IH]; simpl; intros t; [lia|].
  specialize (IH (compareSample m t s)). simpl in IH.
  pose proof (compareSample_total m t s). lia.
Qed.

(** What every entry of a report satisfies, whatever it read: the verdict is
    the one its own figures give, and the figures add up. *)
Record consistent (config : VerificationConfig) (v : DataTypeVerification) : Prop := {
  co_verdict : isMeasured v = true ->
    dv_status v = determineVerificationStatus (matchRatio v) (checksumRatio v)
                    (missingOnTarget v) (extraOnTarget v) config (sourceCount v);
  co_matched : isMeasured v = true -> matchedCount v = sourceCount v - missingOnTarget v;
  co_unmeasured : isMeasured v = false ->
    missingOnTarget v = 0 /\ extraOnTarget v = 0 /\ checksumSampleSize v = 0 /\ totalBytesTarget v = None;
  co_samples : checksumMatches v + checksumMismatches v + checksumUnavailable v = checksumSampleSize v;
  co_nonneg : 0 <= missingOnTarget v /\ 0 <= extraOnTarget v /\ 0 <= checksumMatches v /\
              0 <= checksumMismatches v /\ 0 <= checksumUnavailable v
}.

Lemma notMeasured_consistent config d u msg n : consistent config (notMeasured d u msg n).
Proof. by destruct u; split. Qed.

Lemma assess_measured config d a b m e ss ts bs bt : isMeasured (assess config d a b m e ss ts bs bt) = true.
Proof. unfold isMeasured, hasStatus, assess, determineVerificationStatus. simpl. by dm. Qed.

Lemma zlen_nil {A} (l : list A) : zlen l = 0 -> l = [].
Proof. unfold zlen. destruct l; simpl; [done|lia]. Qed.

Lemma assess_consistent config d a b m e ss ts bs bt : consistent config (assess config d a b m e ss ts bs bt).
Proof.
  destruct (compareSamples_total ss ts) as (Ht & H1 & H2 & H3).
  pose proof (assess_measured config d a b m e ss ts bs bt) as Hm.
  split; rewrite ?Hm; try done; simpl; unfold zlen in *; split_and?; lia.
Qed.

(** The sample never asks for more than there is, nor for less than the floor
    where there is that much. *)
Lemma calculateSampleSize_bounds n config : 0 <= n -> 0 <= minSampleSize config ->
  0 <= calculateSampleSize n config <= n /\
  Z.min (minSampleSize config) n <= calculateSampleSize n config.
Proof. intros Hn Hm. unfold calculateSampleSize. destruct (Z.eqb_spec n 0); lia. Qed.

Section any_reads.
Context {W : Type} (now : W -> Z).

Lemma keeps_any {A} (p : prog W string A) : keeps (fun _ => True) p (fun _ => True).
Proof. induction p; simpl; auto. Qed.

Ltac read := apply keeps_bind with (fun _ => True); [apply keeps_any|intros ? _].

Lemma verifyDomain_consistent (deps : VerificationDeps W) d :
  keeps (fun _ => True) (verifyDomain deps d) (consistent (vd_config deps)).
Proof.
  unfold verifyDomain, verifyDataType. destruct (negb _); [apply notMeasured_consistent|].
  destruct (match canVerifyTarget deps with Some can => _ | None => _ end).
  - read. destruct (_ =? 0); apply notMeasured_consistent.
  - do 8 read. apply assess_consistent.
Qed.

(** Every report is the conclusion drawn from four consistent entries. *)
Lemma runVerification_concludes (deps : VerificationDeps W) :
  keeps (fun _ => True) (runVerification now deps) (fun r =>
    Forall (consistent (vd_config deps)) (domains r) /\
    r = conclude deps (vr_timestamp r) (vr_mail r) (vr_calendar r) (vr_contacts r) (vr_files r)).
Proof.
  unfold runVerification. do 4 (eapply keeps_bind; [apply verifyDomain_consistent|intros ? ?]).
  read. split; [|done]. unfold domains. simpl. by rewrite !Forall_cons.
Qed.
End any_reads.

(** ** The score *)

Lemma weigh_mono m m' c c' : (m <= m')%Q -> (c <= c')%Q -> (weigh m c <= weigh m' c')%Q.
Proof.
  intros Hm Hc. apply fadd_mono; apply fmul_mono_l; try done; apply Qle_bool_iff; by vm_compute.
Qed.

(** The average of [k] equal contributions, as the loop computes it. *)
Definition average (k : nat) (x : Q) : Q :=
  fdiv (Nat.iter k (fun sum => fadd sum x) 0%Q) (inject_Z (Z.of_nat k)).

Definition contribution (v : DataTypeVerification) : Q := weigh (matchRatio v) (checksumRatio v).

Section sums.
Context {A : Type} (f : A -> Q) (bound : Q).

Lemma sum_le l a b :
  Forall (fun v => f v <= bound)%Q l -> (a <= b)%Q ->
  (foldl (fun sum v => fadd sum (f v)) a l <= Nat.iter (length l) (fun sum => fadd sum bound) b)%Q.
Proof.
  intros Hl. revert a b; induction Hl as [|v l Hv Hl IH]; intros a b Hab; [done|].
  simpl foldl. simpl length. rewrite Nat.iter_succ_r. apply IH. by apply fadd_mono.
Qed.

Lemma sum_ge l a b :
  Forall (fun v => bound <= f v)%Q l -> (a <= b)%Q ->
  (Nat.iter (length l) (fun sum => fadd sum bound) a <= foldl (fun sum v => fadd sum (f v)) b l)%Q.
Proof.
  intros Hl. revert a b; induction Hl as [|v l Hv Hl IH]; intros a b Hab; [done|].
  simpl foldl. simpl length. rewrite Nat.iter_succ_r. apply IH. by apply fadd_mono.
Qed.
End sums.

Definition measured (l : list DataTypeVerification) : list DataTypeVerification := List.filter isMeasured l.

Lemma score_unfold l : measured l <> [] ->
  calculateVerificationScore l =
  fdiv (foldl (fun sum v => fadd sum (contribution v)) 0%Q (measured l)) (inject_Z (Z.of_nat (length (measured l)))).
Proof. unfold calculateVerificationScore, measured. by destruct (List.filter isMeasured l). Qed.

Lemma Forall_measured (P : DataTypeVerification -> Prop) l :
  Forall P l -> Forall (fun v => P v /\ isMeasured v = true) (measured l).
Proof.
  unfold measured. induction 1 as [|v l Hv Hl IH]; simpl; [done|].
  destruct (isMeasured v) eqn:Hm; [by constructor|done].
Qed.

Lemma length_measured l : (length (measured l) <= length l)%nat.
Proof. unfold measured. induction l as [|v l IH]; simpl; [lia|]. destruct (isMeasured v); simpl; lia. Qed.

Lemma score_le bound l : measured l <> [] ->
  Forall (fun v => contribution v <= bound)%Q (measured l) ->
  (calculateVerificationScore l <= average (length (measured l)) bound)%Q.
Proof.
  intros Hne Hl. rewrite score_unfold by done. apply fdiv_mono_l; [destruct (measured l); simpl; [done|lia]|].
  by apply sum_le.
Qed.

Lemma score_ge bound l : measured l <> [] ->
  Forall (fun v => bound <= contribution v)%Q (measured l) ->
  (average (length (measured l)) bound <= calculateVerificationScore l)%Q.
Proof.
  intros Hne Hl. rewrite score_unfold by done. apply fdiv_mono_l; [destruct (measured l); simpl; [done|lia]|].
  by apply sum_ge.
Qed.

(** Four data types at most: the roundings of each case are computed. *)
Lemma averages k : (k <= 4)%nat -> k <> 0%nat ->
  (average k (weigh 1 1) <= 1)%Q /\ (dec_095 <= average k (weigh (fl (96 # 100)) (fl (96 # 100))))%Q.
Proof.
  intros Hk Hk0. rewrite <- !Qle_bool_iff.
  do 5 (destruct k as [|k]; [try done; by vm_compute|]). lia.
Qed.

Lemma measured_small l : (length l <= 4)%nat -> measured l <> [] ->
  (length (measured l) <= 4)%nat /\ length (measured l) <> 0%nat.
Proof. pose proof (length_measured l). destruct (measured l); simpl in *; [done|lia]. Qed.

Lemma ratio_or_le_1 a b : a <= b -> (ratio_or a b 1 <= 1)%Q.
Proof. intros H. unfold ratio_or. destruct (Z.ltb_spec 0 b); [by apply fratio_le_1|done]. Qed.

Lemma consistent_ratios config v : consistent config v -> isMeasured v = true ->
  (matchRatio v <= 1)%Q /\ (checksumRatio v <= 1)%Q.
Proof.
  intros H Hm. pose proof (co_matched _ _ H Hm). pose proof (co_nonneg _ _ H).
  split; apply ratio_or_le_1; lia.
Qed.

Lemma score_le_1 config l : Forall (consistent config) l -> (length l <= 4)%nat ->
  (calculateVerificationScore l <= 1)%Q.
Proof.
  intros Hl Hlen. destruct (decide (measured l = [])) as [H0|H0].
  { unfold calculateVerificationScore. unfold measured in H0. by rewrite H0. }
  destruct (measured_small l Hlen H0) as [H4 Hk]. eapply Qle_trans; [|by apply averages].
  apply score_le; [done|]. eapply Forall_impl; [by apply Forall_measured|].
  intros v [Hc Hm]. destruct (consistent_ratios _ _ Hc Hm). by apply weigh_mono.
Qed.

(** A data type that did not fail meets both thresholds. *)
Lemma verdict_thresholds config m c a b n :
  determineVerificationStatus m c a b config n <> S_FAIL ->
  (requiredMatchPercentage config <= m)%Q /\ (requiredMatchPercentage config <= c)%Q /\
  (ratio_or a n 0 <= maxDiscrepancyPercentage config)%Q.
Proof.
  unfold determineVerificationStatus. destruct (flt m _ || _ || _) eqn:H; [done|]. intros _.
  apply orb_false_iff in H as [[H1 H2]%orb_false_iff H3]. by rewrite <- !flt_false.
Qed.

(** ... and passes when there is nothing to warn about. *)
Lemma verdict_pass config m c a b n : 0 <= a -> 0 <= b ->
  determineVerificationStatus m c a b config n <> S_FAIL ->
  (determineVerificationStatus m c a b config n = S_PASS <-> a = 0 /\ b = 0).
Proof.
  intros Ha Hb. unfold determineVerificationStatus. destruct (flt m _ || _ || _); [done|]. intros _.
  destruct (Z.ltb_spec 0 (a + b)); split; try done; lia.
Qed.

Definition blocks (v : DataTypeVerification) : bool := hasStatus [S_FAIL; S_NOT_VERIFIABLE] v.

Lemma not_failed v : blocks v = false -> dv_status v <> S_FAIL.
Proof. unfold blocks, hasStatus. intros H%bool_decide_eq_false. set_solver. Qed.

Lemma existsb_false {A} (f : A -> bool) l x : existsb f l = false -> x ∈ l -> f x = false.
Proof.
  intros Hl Hx. destruct (f x) eqn:Hf; [|done]. rewrite <- Hl. symmetry. apply existsb_exists.
  exists x. split; [by apply list_elem_of_In|done].
Qed.

Lemma overall_fails l : calculateOverallStatus l = O_FAIL <-> existsb blocks l = true.
Proof.
  unfold calculateOverallStatus. change (hasStatus [S_FAIL; S_NOT_VERIFIABLE]) with blocks.
  destruct (existsb blocks l); [done|]. by destruct (existsb _ l).
Qed.

(** Under a passing report every measured data type passes by itself. *)
Lemma passes_alone l v : calculateOverallStatus l = O_PASS -> v ∈ l -> isMeasured v = true -> dv_status v = S_PASS.
Proof.
  unfold calculateOverallStatus. intros H Hv Hm.
  destruct (existsb (hasStatus [S_FAIL; S_NOT_VERIFIABLE]) l) eqn:Hf; [done|].
  destruct (existsb (hasStatus [S_WARN]) l) eqn:Hw; [done|].
  pose proof (existsb_false _ _ _ Hf Hv) as H1. pose proof (existsb_false _ _ _ Hw Hv) as H2.
  unfold isMeasured, hasStatus in *. apply bool_decide_eq_false in H1, H2.
  apply negb_true_iff, bool_decide_eq_false in Hm. destruct (dv_status v); set_solver.
Qed.

Lemma score_of_unblocked config l :
  (fl (96 # 100) <= requiredMatchPercentage config)%Q ->
  Forall (consistent config) l -> (length l <= 4)%nat -> existsb blocks l = false ->
  (dec_095 <= calculateVerificationScore l)%Q.
Proof.
  intros Hreq Hl Hlen Hb. destruct (decide (measured l = [])) as [H0|H0].
  { unfold calculateVerificationScore. unfold measured in H0. rewrite H0. apply Qle_bool_iff. by vm_compute. }
  destruct (measured_small l Hlen H0) as [H4 Hk]. eapply Qle_trans; [by apply averages|].
  apply score_ge; [done|].
  assert (Hnb : Forall (fun v => consistent config v /\ blocks v = false) l).
  { apply Forall_forall. intros v Hv. split; [by eapply Forall_forall|].
    by eapply existsb_false. }
  eapply Forall_impl; [by apply Forall_measured|]. intros v [[Hc Hbv] Hm].
  destruct (verdict_thresholds config (matchRatio v) (checksumRatio v) (missingOnTarget v)
              (extraOnTarget v) (sourceCount v)) as (H1 & H2 & _).
  { rewrite <- (co_verdict _ _ Hc Hm). by apply not_failed. }
  apply weigh_mono; lra.
Qed.

(** ** Theorems *)

Section reports.
Context {W : Type} (now : W -> Z).

(** The report adds up, whatever the sources answered and whatever changed
    between two reads: in every data type matches, mismatches and unavailable
    samples are exactly the samples examined, nothing is counted below zero,
    a type that was not measured claims nothing, and the score never exceeds
    one in double arithmetic. *)
Theorem report_adds_up (deps : VerificationDeps W) :
  keeps (fun _ => True) (runVerification now deps) (fun r =>
    Forall (fun v =>
      checksumMatches v + checksumMismatches v + checksumUnavailable v = checksumSampleSize v /\
      0 <= missingOnTarget v /\ 0 <= extraOnTarget v /\ 0 <= checksumMatches v /\
      0 <= checksumMismatches v /\ 0 <= checksumUnavailable v /\
      (isMeasured v = true -> matchedCount v = sourceCount v - missingOnTarget v) /\
      (isMeasured v = false -> missingOnTarget v = 0 /\ extraOnTarget v = 0 /\
         checksumSampleSize v = 0 /\ totalBytesTarget v = None)) (domains r) /\
    (score r <= 1)%Q /\
    totalDiscrepancies r = sumOf (fun v => missingOnTarget v + extraOnTarget v) (domains r)).
Proof.
  eapply keeps_mono; [apply runVerification_concludes|]. intros r [Hc Hr]. split; [|rewrite Hr; split; [|done]].
  - eapply Forall_impl; [exact Hc|]. intros v []. naive_solver.
  - by eapply score_le_1.
Qed.

(** C31: what lets a cutover proceed.  With a required match of at least 0.96
    (the callers pass 0.99) the score clause of the gate never decides: a
    report lets the cutover proceed exactly when no data type failed or could
    not be verified.  Then every measured type meets both thresholds and the
    tolerated share of missing items, and passes without a warning exactly
    when nothing is missing and nothing is extra. *)
Theorem gate_verdict (deps : VerificationDeps W) :
  (fl (96 # 100) <= requiredMatchPercentage (vd_config deps))%Q ->
  keeps (fun _ => True) (runVerification now deps) (fun r =>
    (canProceedToCutover r = true <-> existsb blocks (domains r) = false) /\
    (canProceedToCutover r = true -> forall v, v ∈ domains r -> isMeasured v = true ->
       (requiredMatchPercentage (vd_config deps) <= matchRatio v)%Q /\
       (requiredMatchPercentage (vd_config deps) <= checksumRatio v)%Q /\
       (ratio_or (missingOnTarget v) (sourceCount v) 0 <= maxDiscrepancyPercentage (vd_config deps))%Q /\
       (dv_status v = S_PASS <-> missingOnTarget v = 0 /\ extraOnTarget v = 0))).
Proof.
  intros Hreq. eapply keeps_mono; [apply runVerification_concludes|]. intros r [Hc Hr].
  assert (Hgate : canProceedToCutover r = true <-> existsb blocks (domains r) = false).
  { replace (canProceedToCutover r) with
      (mayProceed (calculateOverallStatus (domains r)) (calculateVerificationScore (domains r)))
      by (by rewrite Hr).
    unfold mayProceed.
    destruct (existsb blocks (domains r)) eqn:Hb.
    - by rewrite (proj2 (overall_fails _) Hb).
    - assert (Hnf : calculateOverallStatus (domains r) <> O_FAIL) by (rewrite overall_fails; congruence).
      pose proof (score_of_unblocked _ _ Hreq Hc ltac:(simpl; lia) Hb) as Hs%Qle_bool_iff.
      rewrite Hs. by destruct (calculateOverallStatus (domains r)). }
  split; [done|]. intros Hgo v Hv Hm. apply Hgate in Hgo.
  pose proof (proj1 (Forall_forall _ _) Hc v Hv) as Hcv.
  pose proof (not_failed v (existsb_false _ _ _ Hgo Hv)) as Hnf.
  rewrite (co_verdict _ _ Hcv Hm) in Hnf. rewrite (co_verdict _ _ Hcv Hm).
  destruct (verdict_thresholds _ _ _ _ _ _ Hnf) as (H1 & H2 & H3). split_and!; [done..|].
  destruct (co_nonneg _ _ Hcv) as (Hm0 & He0 & _). by apply verdict_pass.
Qed.
End reports.

(** ** Samples *)

Definition default_config : VerificationConfig :=
  {| checksumSamplePercentage := 5; minSampleSize := 10; maxSampleSize := 1000;
     requiredMatchPercentage := fl (99 # 100); maxDiscrepancyPercentage := fl (1 # 100);
     verifyMail := true; verifyCalendar := true; verifyContacts := true; verifyFiles := true |}.

(** Two hundred messages, two of them missing, and nothing else. *)
Definition sample_verification {W} : VerificationDeps W :=
  {| vd_tenantId := "t"; vd_mappingId := "m"; vd_config := default_config;
     getSourceCount := fun d => Ret (if decide (d = dt_mail) then 200 else 0);
     getTargetCount := fun d => Ret (if decide (d = dt_mail) then 198 else 0);
     getSourceSamples := fun d n => Ret (if decide (d = dt_mail)
       then [mkSample "1" "k1" (Text "h1"); mkSample "2" "k2" (Text "cal1:h2")] else []);
     getTargetSamples := fun d n ks => Ret (if decide (d = dt_mail)
       then [mkSample "9" "k1" (Text "h1"); mkSample "8" "k2" (Text "cal2:h2")] else []);
     findMissingOnTarget := fun d => Ret (if decide (d = dt_mail) then [("k5", "k5"); ("k6", "k6")] else []);
     findExtraOnTarget := fun d => Ret [];
     getTotalBytesSource := fun d => Ret 0; getTotalBytesTarget := None; canVerifyTarget := None |}%string.

Lemma gate_verdict_witness :
  exists r, run (runVerification (fun _ : unit => 7) sample_verification) tt = (inr r, tt) /\
    canProceedToCutover r = true /\ dv_status (vr_mail r) = S_WARN /\ checksumUnavailable (vr_mail r) = 1 /\
    (fl (99 # 100) <= matchRatio (vr_mail r))%Q.
Proof.
  pose proof (gate_verdict (fun _ : unit => 7) sample_verification ltac:(apply Qle_bool_iff; vm_compute; reflexivity)) as H.
  assert (Hrun : exists r, run (runVerification (fun _ : unit => 7) sample_verification) tt = (inr r, tt) /\
    canProceedToCutover r = true /\ dv_status (vr_mail r) = S_WARN /\ checksumUnavailable (vr_mail r) = 1)
    by (eexists; vm_compute; repeat split).
  destruct Hrun as (r & Hr & Hgo & Hw & Hu). exists r. split_and!; try assumption.
  destruct (keeps_run (fun _ => True) _ _ _ _ _ H Logic.I Hr) as [_ [_ Hv]].
  apply (Hv Hgo (vr_mail r)); [apply elem_of_cons; left; reflexivity|].
  unfold isMeasured, hasStatus. rewrite Hw. reflexivity.
Defined.

(** Below 0.96 the clause can decide: three data types that each just reach
    0.95 average below it. *)
Example three_at_the_threshold :
  Qle_bool dec_095 (average 3 (weigh dec_095 dec_095)) = false /\
  Qle_bool dec_095 (average 2 (weigh dec_095 dec_095)) = true.
Proof. by vm_compute. Qed.

(** A content mismatch within the tolerance is an ERROR issue of a data type
    that passes: one of two hundred samples differs. *)
Example tolerated_mismatch_passes :
  let t := mkTally 199 1 0 in
  determineVerificationStatus 1 (ratio_or 199 200 1) 0 0 default_config 200 = S_PASS /\
  map is_severity (collectIssues default_config dt_mail 200 200 t 0 0) = [sev_ERROR].
Proof. by vm_compute. Qed.
