(* ===== verification/VerificationLedger.v ===== *)
(** * Verification against the ledger

    [packages/ledger/src/verification-queries.ts] (the reader over the item
    table) and [packages/core/src/verification-implementations.ts] (the reads
    of [Verification] made of that reader and the targets' reindexers).  A
    [for await] over a listing is one read of the whole listing: the loops only
    collect, and a listing that throws midway discards what was collected. *)

From S2P Require Import Prelude Prog Ports Keys Doubles Verification.
From S2P Require Ledger.
From Stdlib Require Import QArith Lqa.

Open Scope Z_scope.

(** One row of [getSamples]. *)
Record LedgerSample := mkLedgerSample {
  ls_id : string;
  ls_naturalKeyHash : string;
  ls_contentHash : string
}.

Section ports.
Context {W : Type}.

Record LedgerVerificationReader := mkReader {
  countItems : string -> string -> domain -> prog W string Z;
  totalSizeBytes : string -> string -> domain -> prog W string Z;
  getSamples : string -> string -> domain -> Z -> prog W string (list LedgerSample);
  getAllNaturalKeyHashes : string -> string -> domain -> prog W string (list string)
}.

Record TargetReindexer := mkReindexer {
  listEntries : prog W string (list TargetEntry);
  contentHashFor : option (TargetEntry -> prog W string (option string))
}.

(** What the gate relies on in a reader: its answers are about one set of keys,
    [view], and a read changes nothing. *)
Class ReaderLaws (reader : LedgerVerificationReader) (view : W -> string -> string -> domain -> list string) := {
  view_NoDup w t m d : NoDup (view w t m d);
  count_reads w t m d : run (countItems reader t m d) w = (inr (Z.of_nat (length (view w t m d))), w);
  size_reads w t m d : exists z, run (totalSizeBytes reader t m d) w = (inr z, w);
  samples_read w t m d n : 0 <= n ->
    exists l, run (getSamples reader t m d n) w = (inr l, w) /\
      length l = Nat.min (Z.to_nat n) (length (view w t m d)) /\
      (ls_naturalKeyHash <$> l) ⊆ view w t m d;
  hashes_read w t m d : exists l, run (getAllNaturalKeyHashes reader t m d) w = (inr l, w) /\ l ≡ₚ view w t m d
}.
End ports.

Arguments LedgerVerificationReader W : clear implicits.
Arguments TargetReindexer W : clear implicits.

(** ** The reader over PostgreSQL *)

Section reader.
Context {W : Type} (db : W -> Ledger.PgState)
        (scan : gmap (string * string * string) Ledger.item_row ->
                list ((string * string * string) * Ledger.item_row)).

(** Rows the owner left behind are not expected on the target. *)
Definition expected (d : domain) (row : Ledger.item_row) : bool :=
  Ledger.same_domain d row && negb (bool_decide (Ledger.row_status row = left_behind)).

Definition expected_rows (t m : string) (d : domain) (s : Ledger.PgState) :
    list ((string * string * string) * Ledger.item_row) := Ledger.select_rows scan t m (expected d) s.

Definition query {A} (f : Ledger.PgState -> A) : prog W string A := act (fun w => (f (db w), w)).

(** [id] is the row's primary key, which the model has not: its key stands for
    it.  A negative LIMIT is an error. *)
Definition createLedgerVerificationReader : LedgerVerificationReader W :=
  {| countItems := fun t m d => query (fun s => Z.of_nat (length (expected_rows t m d s)));
     totalSizeBytes := fun t m d => query (fun s =>
       foldl (fun sum kr => sum + nullish (Ledger.row_sizeBytes kr.2) 0) 0 (expected_rows t m d s));
     getSamples := fun t m d count =>
       if count <? 0 then Throw "LIMIT must not be negative"%string
       else query (A := list LedgerSample) (fun s =>
         (fun kr => mkLedgerSample kr.1.2 kr.1.2 (nullish (Ledger.row_contentHash kr.2) ""%string))
           <$> take (Z.to_nat count)
                 (stable_sort (fun a b => string_compare a.1.2 b.1.2) (expected_rows t m d s)));
     getAllNaturalKeyHashes := fun t m d => query (A := list string) (fun s => (fun kr => kr.1.2) <$> expected_rows t m d s) |}.

Definition expected_keys (w : W) (t m : string) (d : domain) : list string :=
  (fun kr => kr.1.2) <$> expected_rows t m d (db w).
End reader.

(** ** The reads of the gate *)

Definition mapDataTypeToDomain (d : DataType) : domain :=
  match d with dt_mail => Email | dt_calendar => Calendar | dt_contacts => Contact | dt_files => File end.

Section real.
Context {W : Type}.
Variable rt : Runtime.

Abbreviation vprog := (prog W string).

Definition hashTargetNaturalKey (d : DataType) (rawKey : string) : string :=
  match d with
  | dt_mail => hash_naturalKeyHash rt rawKey
  | dt_calendar => calendarNaturalKeyHash rt rawKey
  | dt_contacts => contactNaturalKeyHash rt rawKey
  | dt_files => fileNaturalKeyHash rt rawKey
  end.

Record RealVerificationDeps := mkRealDeps {
  rv_tenantId : string;
  rv_mappingId : string;
  rv_config : VerificationConfig;
  rv_targetReindexer : option (TargetReindexer W);
  rv_targetReindexers : DataType -> option (TargetReindexer W);
  rv_verificationReader : LedgerVerificationReader W
}.

Definition reindexerFor (deps : RealVerificationDeps) (d : DataType) : option (TargetReindexer W) :=
  match rv_targetReindexers deps d with
  | Some r => Some r
  | None => if decide (d = dt_mail) then rv_targetReindexer deps else None
  end.

(** [if (!targetReindexer) throw]; [error] is the message. *)
Definition needs {A} (r : option (TargetReindexer W)) (error : string) (k : TargetReindexer W -> vprog A) : vprog A :=
  match r with Some rx => k rx | None => Throw error end.

Section domain_reads.
Variables (deps : RealVerificationDeps) (d : DataType).

Definition ledgerHashesOf : vprog (list string) :=
  getAllNaturalKeyHashes (rv_verificationReader deps) (rv_tenantId deps) (rv_mappingId deps)
    (mapDataTypeToDomain d).
Definition targetKey (e : TargetEntry) : string := hashTargetNaturalKey d (te_naturalKey e).

Definition getTargetCountFromReindexer : vprog Z :=
  needs (reindexerFor deps d)
    ("No target reindexer for " ++ dataType_name d ++ ": the target count cannot be measured.")%string
    (fun rx =>
       let! ledgerHashes := ledgerHashesOf in
       let! entries := listEntries rx in
       Ret (Z.of_nat (length (base.filter (fun e => targetKey e ∈ ledgerHashes) entries)))).

Definition getSourceSamplesFromLedger (count : Z) : vprog (list Sample) :=
  let! samples := getSamples (rv_verificationReader deps) (rv_tenantId deps) (rv_mappingId deps)
                   (mapDataTypeToDomain d) count in
  Ret ((fun s => mkSample (ls_id s) (ls_naturalKeyHash s) (Text (ls_contentHash s))) <$> samples).

(** A listed entry on its way to becoming a sample. *)
Record Candidate := mkCandidate {
  ca_id : string;
  ca_naturalKeyHash : string;
  ca_content : string;
  ca_entry : TargetEntry
}.

Definition candidate (e : TargetEntry) : Candidate :=
  mkCandidate (te_targetId e) (targetKey e) (nullish (te_contentHash e) ""%string) e.

(** The loop that fetches the missing content hashes. *)
Fixpoint fetchHashes (f : TargetEntry -> vprog (option string)) (l : list Candidate) : vprog (list Candidate) :=
  match l with
  | [] => Ret []
  | c :: l' =>
      let! c' := (if decide (ca_content c <> ""%string) then Ret c
                  else let! hash := f (ca_entry c) in
                       Ret (match truthy hash with
                            | Some h => mkCandidate (ca_id c) (ca_naturalKeyHash c) h (ca_entry c)
                            | None => c
                            end)) in
      let! rest := fetchHashes f l' in
      Ret (c' :: rest)
  end.

Definition getTargetSamplesFromReindexer (count : Z) (naturalKeyHashes : option (list string))
    : vprog (list Sample) :=
  needs (reindexerFor deps d)
    ("No target reindexer for " ++ dataType_name d ++ ": target samples cannot be read.")%string
    (fun rx =>
       let! entries := listEntries rx in
       let allEntries := stable_sort (fun a b => string_compare (ca_naturalKeyHash a) (ca_naturalKeyHash b))
                           (candidate <$> entries) in
       let sampled := match naturalKeyHashes with
                      | Some (_ :: _ as wanted) => base.filter (fun c => ca_naturalKeyHash c ∈ wanted) allEntries
                      | _ => js_take count allEntries
                      end in
       let! filled := match contentHashFor rx with
                      | Some f => fetchHashes f sampled
                      | None => Ret sampled
                      end in
       Ret ((fun c => mkSample (ca_id c) (ca_naturalKeyHash c) (Text (ca_content c))) <$> filled)).

Definition real_findMissingOnTarget : vprog (list (string * string)) :=
  needs (reindexerFor deps d)
    ("No target reindexer for " ++ dataType_name d ++ ": missing items cannot be determined.")%string
    (fun rx =>
       let! ledgerHashes := ledgerHashesOf in
       let! entries := listEntries rx in
       Ret ((fun h => (h, h)) <$> base.filter (fun h => h ∉ targetKey <$> entries) ledgerHashes)).

Definition real_findExtraOnTarget : vprog (list (string * string)) :=
  needs (reindexerFor deps d)
    ("No target reindexer for " ++ dataType_name d ++ ": extra items cannot be determined.")%string
    (fun rx =>
       let! ledgerHashes := ledgerHashesOf in
       match ledgerHashes with
       | [] => Ret []
       | _ =>
           let! entries := listEntries rx in
           Ret ((fun e => (te_targetId e, te_naturalKey e)) <$> base.filter (fun e => targetKey e ∉ ledgerHashes) entries)
       end).

(** [total], when every matched entry carries its size. *)
Definition total_if_measured (sizes : list (option Z)) : option Z :=
  foldl (fun total s => match total, s with Some n, Some k => Some (n + k) | _, _ => None end) (Some 0) sizes.

Definition getTotalBytesFromReindexer : vprog (option Z) :=
  match reindexerFor deps d with
  | None => Ret None
  | Some rx =>
      let! ledgerHashes := ledgerHashesOf in
      let! entries := listEntries rx in
      Ret (total_if_measured (te_sizeBytes <$> base.filter (fun e => targetKey e ∈ ledgerHashes) entries))
  end.
End domain_reads.

Definition createRealVerificationDeps (deps : RealVerificationDeps) : VerificationDeps W :=
  let reader := rv_verificationReader deps in
  let t := rv_tenantId deps in
  let m := rv_mappingId deps in
  {| vd_tenantId := t; vd_mappingId := m; vd_config := rv_config deps;
     canVerifyTarget := Some (fun d => defined (reindexerFor deps d));
     getSourceCount := fun d => countItems reader t m (mapDataTypeToDomain d);
     getTargetCount := getTargetCountFromReindexer deps;
     getSourceSamples := getSourceSamplesFromLedger deps;
     getTargetSamples := getTargetSamplesFromReindexer deps;
     findMissingOnTarget := real_findMissingOnTarget deps;
     findExtraOnTarget := real_findExtraOnTarget deps;
     getTotalBytesSource := fun d => totalSizeBytes reader t m (mapDataTypeToDomain d);
     getTotalBytesTarget := Some (getTotalBytesFromReindexer deps) |}.
End real.

(** ** The reader meets its laws *)

Section reader_laws.
Context {W : Type} (db : W -> Ledger.PgState)
        (scan : gmap (string * string * string) Ledger.item_row ->
                list ((string * string * string) * Ledger.item_row))
        (scan_perm : forall mm, scan mm ≡ₚ map_to_list mm).

Lemma elem_of_expected_rows t m d s k row :
  (k, row) ∈ expected_rows scan t m d s <->
  Ledger.items s !! k = Some row /\ k.1.1 = t /\ k.1.2 = m /\ expected d row = true.
Proof.
  unfold expected_rows. rewrite Ledger.elem_of_select_rows by done.
  destruct k as [[t' m'] h]. simpl. naive_solver.
Qed.

Lemma elem_of_expected_keys w t m d k :
  k ∈ expected_keys db scan w t m d <->
  exists row, Ledger.items (db w) !! (t, m, k) = Some row /\ expected d row = true.
Proof using scan_perm.
  unfold expected_keys. rewrite list_elem_of_fmap. split.
  - intros ([[[t' m'] k'] row] & -> & (Hrow & Ht & Hm & He)%elem_of_expected_rows). simpl in *. subst. eauto.
  - intros (row & Hrow & He). exists ((t, m, k), row). split; [done|]. by apply elem_of_expected_rows.
Qed.

#[export] Instance pg_reader_laws :
  ReaderLaws (createLedgerVerificationReader db scan) (expected_keys db scan).
Proof using scan_perm.
  split.
  - intros w t m d. unfold expected_keys. apply NoDup_fmap_2_strong.
    + intros [k row] [k' row'] Hin Hin'. apply elem_of_expected_rows in Hin as (? & ? & ? & _).
      apply elem_of_expected_rows in Hin' as (? & ? & ? & _).
      destruct k as [[? ?] ?], k' as [[? ?] ?]. simpl in *. intros ->. simplify_eq. done.
    + unfold expected_rows, Ledger.select_rows. apply NoDup_filter. rewrite scan_perm. apply NoDup_map_to_list.
  - intros w t m d. unfold expected_keys. simpl. by rewrite length_fmap.
  - intros w t m d. by eexists.
  - intros w t m d n Hn. unfold expected_keys. simpl. destruct (Z.ltb_spec n 0); [lia|]. simpl.
    eexists. split; [done|]. split.
    + rewrite !length_fmap, length_take. by rewrite (stable_sort_perm _ (expected_rows scan t m d (db w))).
    + intros x. rewrite <- list_fmap_compose. simpl. intros (kr & -> & Hin)%list_elem_of_fmap.
      apply list_elem_of_fmap. exists kr. split; [done|].
      apply elem_of_take in Hin as (i & Hi & _). apply list_elem_of_lookup_2 in Hi.
      by rewrite stable_sort_perm in Hi.
  - intros w t m d. simpl. eexists. split; [done|]. done.
Qed.
End reader_laws.

(** ** Undisturbed reads of a readable target *)

Section gate.
Context {W : Type} (rt : Runtime) (now : W -> Z).
Context (view : W -> string -> string -> domain -> list string).

(** A reindexer that answers in [w], without changing it. *)
Definition readable (rx : TargetReindexer W) (w : W) (l : list TargetEntry) : Prop :=
  run (listEntries rx) w = (inr l, w) /\
  forall f e, contentHashFor rx = Some f -> exists h, run (f e) w = (inr h, w).

Context (deps : RealVerificationDeps (W := W)).
Context {laws : ReaderLaws (rv_verificationReader deps) view}.

Abbreviation keys w d := (view w (rv_tenantId deps) (rv_mappingId deps) (mapDataTypeToDomain d)).
Abbreviation hashed d l := (targetKey rt d <$> l).

(** The keys the ledger expects on the target and a listing does not show. *)
Definition absent_keys (w : W) (d : DataType) (l : list TargetEntry) : list string :=
  base.filter (fun k => k ∉ hashed d l) (keys w d).

(** A listing that shows none of the keys. *)
Lemma absent_all (w : W) d l : (forall k, k ∈ keys w d -> k ∉ hashed d l) -> absent_keys w d l = keys w d.
Proof using.
  clear laws now.
  unfold absent_keys. generalize (keys w d) as ks. induction ks as [|k ks IH]; intros H; [done|].
  rewrite filter_cons_True by (apply H; set_solver). f_equal. apply IH. set_solver.
Qed.

Lemma run_fetchHashes (w : W) f l :
  (forall e, exists h, run (f e) w = (inr h, w)) -> exists l', run (fetchHashes f l) w = (inr l', w).
Proof.
  intros Hf. induction l as [|c l [l' IH]]; simpl; [by eexists|].
  case_decide; rewrite run_bind; simpl.
  - rewrite run_bind, IH. by eexists.
  - rewrite run_bind. destruct (Hf (ca_entry c)) as [h ->]. simpl. rewrite run_bind, IH. by eexists.
Qed.

Lemma run_getTargetSamples (w : W) d rx l n ks :
  reindexerFor deps d = Some rx -> readable rx w l ->
  exists ts, run (getTargetSamplesFromReindexer rt deps d n ks) w = (inr ts, w).
Proof.
  intros Hrx [Hl Hf]. unfold getTargetSamplesFromReindexer. rewrite Hrx. simpl.
  rewrite run_bind, Hl. rewrite run_bind.
  destruct (contentHashFor rx) as [f|]; simpl; [|by eexists].
  destruct (run_fetchHashes w f (match ks with
      | Some (_ :: _ as wanted) => base.filter (fun c => ca_naturalKeyHash c ∈ wanted)
          (stable_sort (fun a b => string_compare (ca_naturalKeyHash a) (ca_naturalKeyHash b)) (candidate rt d <$> l))
      | _ => js_take n (stable_sort (fun a b => string_compare (ca_naturalKeyHash a) (ca_naturalKeyHash b))
               (candidate rt d <$> l)) end) (fun e => Hf f e eq_refl)) as [l' Hl'].
  rewrite Hl'. by eexists.
Qed.

Lemma run_verifyDataType (vd : VerificationDeps W) d w a b m e ss ts bs bt :
  run (getSourceCount vd d) w = (inr a, w) -> run (getTargetCount vd d) w = (inr b, w) ->
  run (findMissingOnTarget vd d) w = (inr m, w) -> run (findExtraOnTarget vd d) w = (inr e, w) ->
  run (getSourceSamples vd d (calculateSampleSize a (vd_config vd))) w = (inr ss, w) ->
  run (getTargetSamples vd d (calculateSampleSize a (vd_config vd)) (Some (sm_naturalKeyHash <$> ss))) w
    = (inr ts, w) ->
  run (getTotalBytesSource vd d) w = (inr bs, w) ->
  run (match getTotalBytesTarget vd with Some f => f d | None => Ret None end) w = (inr bt, w) ->
  run (verifyDataType vd d) w = (inr (assess (vd_config vd) d a b m e ss ts bs bt), w).
Proof.
  intros H1 H2 H3 H4 H5 H6 H7 H8. unfold verifyDataType.
  rewrite run_bind, H1, run_bind, H2, run_bind, H3, run_bind, H4, run_bind, H5, run_bind, H6, run_bind, H7,
    run_bind, H8. done.
Qed.

(** The keys a listing shows beyond the ledger's. *)
Definition surplus (w : W) (d : DataType) (l : list TargetEntry) : list TargetEntry :=
  base.filter (fun e => targetKey rt d e ∉ keys w d) l.

(** What of it is reported: nothing, for a data type the ledger expects nothing
    of. *)
Definition reported_surplus (w : W) (d : DataType) (l : list TargetEntry) : list TargetEntry :=
  if decide (keys w d = []) then [] else surplus w d l.

Lemma filter_elem_perm {A} `{EqDecision A} {B} (f : B -> A) (l l' : list A) (x : list B) :
  l ≡ₚ l' -> base.filter (fun b => f b ∉ l) x = base.filter (fun b => f b ∉ l') x.
Proof. intros H. apply list_filter_iff. intros b. by rewrite H. Qed.

Lemma run_ledgerHashes d w :
  exists hs, run (ledgerHashesOf deps d) w = (inr hs, w) /\ hs ≡ₚ keys w d.
Proof. apply hashes_read. Qed.

Section readable.
Context (d : DataType) (w : W) (rx : TargetReindexer W) (l : list TargetEntry).
Context (Hrx : reindexerFor deps d = Some rx) (Hread : readable rx w l).

Lemma run_getTargetCount : exists b, run (getTargetCountFromReindexer rt deps d) w = (inr b, w).
Proof using All.
  destruct (run_ledgerHashes d w) as (hs & Hhs & _). destruct Hread as [Hl _].
  unfold getTargetCountFromReindexer. rewrite Hrx. cbn -[pbind]. rewrite run_bind, Hhs, run_bind, Hl. by eexists.
Qed.

Lemma run_findMissing : exists x, run (real_findMissingOnTarget rt deps d) w = (inr x, w) /\
  zlen x = zlen (absent_keys w d l).
Proof using All.
  destruct (run_ledgerHashes d w) as (hs & Hhs & Hperm). destruct Hread as [Hl _].
  unfold real_findMissingOnTarget. rewrite Hrx. cbn -[pbind]. rewrite run_bind, Hhs, run_bind, Hl.
  eexists. split; [done|]. unfold zlen, absent_keys. by rewrite length_fmap, Hperm.
Qed.

Lemma run_findExtra : exists x, run (real_findExtraOnTarget rt deps d) w = (inr x, w) /\
  zlen x = zlen (reported_surplus w d l).
Proof using All.
  destruct (run_ledgerHashes d w) as (hs & Hhs & Hperm). destruct Hread as [Hl _].
  unfold real_findExtraOnTarget. rewrite Hrx. cbn -[pbind]. rewrite run_bind, Hhs. destruct hs as [|h hs].
  - eexists. split; [done|]. apply Permutation_nil_l in Hperm. unfold reported_surplus. by rewrite decide_True.
  - rewrite run_bind, Hl. eexists. split; [done|]. unfold reported_surplus.
    rewrite decide_False by (intros Hk; rewrite Hk in Hperm; by apply Permutation_nil_r in Hperm).
    unfold zlen, surplus. rewrite length_fmap. by rewrite (filter_elem_perm (targetKey rt d) _ _ l Hperm).
Qed.

Lemma run_totalBytes : exists x, run (getTotalBytesFromReindexer rt deps d) w = (inr x, w).
Proof using All.
  destruct (run_ledgerHashes d w) as (hs & Hhs & _). destruct Hread as [Hl _].
  unfold getTotalBytesFromReindexer. rewrite Hrx. rewrite run_bind, Hhs, run_bind, Hl. by eexists.
Qed.

Lemma run_verifyReadable : 0 <= minSampleSize (rv_config deps) ->
  exists b m e ss ts bs bt,
    run (verifyDataType (createRealVerificationDeps rt deps) d) w
      = (inr (assess (rv_config deps) d (zlen (keys w d)) b m e ss ts bs bt), w) /\
    zlen m = zlen (absent_keys w d l) /\ zlen e = zlen (reported_surplus w d l).
Proof using All.
  intros Hmin.
  destruct run_getTargetCount as [b Hb]. destruct run_findMissing as (m & Hm & Hmn).
  destruct run_findExtra as (e & He & Hen). destruct run_totalBytes as [bt Hbt].
  destruct (size_reads w (rv_tenantId deps) (rv_mappingId deps) (mapDataTypeToDomain d)) as (bs & Hbs).
  assert (Hz : 0 <= calculateSampleSize (zlen (keys w d)) (rv_config deps))
    by (apply calculateSampleSize_bounds; unfold zlen; lia).
  destruct (samples_read w (rv_tenantId deps) (rv_mappingId deps) (mapDataTypeToDomain d) _ Hz) as (ls & Hls & _).
  set (ss := (fun s => mkSample (ls_id s) (ls_naturalKeyHash s) (Text (ls_contentHash s))) <$> ls).
  destruct (run_getTargetSamples w d rx l (calculateSampleSize (zlen (keys w d)) (rv_config deps))
              (Some (sm_naturalKeyHash <$> ss)) Hrx Hread) as [ts Hts].
  exists b, m, e, ss, ts, bs, bt. split; [|done].
  apply (run_verifyDataType (createRealVerificationDeps rt deps)); try done; [apply count_reads|].
  simpl. unfold getSourceSamplesFromLedger. rewrite run_bind, Hls. done.
Qed.
End readable.

(** What an entry of the report says of the data type's keys. *)
Definition honest (w : W) (d : DataType) (v : DataTypeVerification) : Prop :=
  isDataTypeEnabled (rv_config deps) d = true ->
  match reindexerFor deps d with
  | None => blocks v = false -> keys w d = []
  | Some rx => forall l, readable rx w l ->
      isMeasured v = true /\ sourceCount v = zlen (keys w d) /\
      missingOnTarget v = zlen (absent_keys w d l) /\
      extraOnTarget v = zlen (reported_surplus w d l)
  end.

Definition all_readable (w : W) : Prop :=
  forall d rx, reindexerFor deps d = Some rx -> exists l, readable rx w l.

Lemma run_verifyDomain w d :
  0 <= minSampleSize (rv_config deps) -> all_readable w ->
  exists v, run (verifyDomain (createRealVerificationDeps rt deps) d) w = (inr v, w) /\
    consistent (rv_config deps) v /\ honest w d v.
Proof using All.
  intros Hmin Hall. unfold verifyDomain, honest. cbn -[pbind verifyDataType].
  destruct (isDataTypeEnabled (rv_config deps) d); cbn -[pbind verifyDataType];
    [|eexists; split; [done|]; split; [apply notMeasured_consistent|done]].
  destruct (reindexerFor deps d) as [rx|] eqn:Hrx; cbn -[pbind verifyDataType].
  - destruct (Hall d rx Hrx) as [l Hread].
    destruct (run_verifyReadable d w rx l Hrx Hread Hmin) as (b & m & e & ss & ts & bs & bt & -> & Hm & He).
    pose proof (assess_consistent (rv_config deps) d (zlen (keys w d)) b m e ss ts bs bt) as Hc.
    eexists. split; [done|]. split; [done|]. intros _ l' [Hl' _].
    destruct Hread as [Hl _]. rewrite Hl in Hl'. simplify_eq. split_and!; try done. apply assess_measured.
  - rewrite run_bind, count_reads.
    destruct (Z.eqb_spec (Z.of_nat (length (keys w d))) 0) as [H0|H0]; simpl;
      (eexists; split; [done|]; split; [apply notMeasured_consistent|]); [|done].
    intros _ _. apply length_zero_iff_nil. lia.
Qed.

Lemma conclude_field (vd : VerificationDeps W) t (va vb vc vf : DataTypeVerification) (P : DataType -> DataTypeVerification -> Prop) :
  P dt_mail va -> P dt_calendar vb -> P dt_contacts vc -> P dt_files vf ->
  forall d, exists v, v ∈ domains (conclude vd t va vb vc vf) /\ P d v.
Proof.
  intros Ha Hb Hc Hf d. unfold domains. simpl.
  destruct d; [exists va|exists vb|exists vc|exists vf]; split; try done; set_solver.
Qed.

Lemma run_gate w :
  0 <= minSampleSize (rv_config deps) -> all_readable w ->
  exists r, run (runVerification now (createRealVerificationDeps rt deps)) w = (inr r, w) /\
    overallStatus r = calculateOverallStatus (domains r) /\
    canProceedToCutover r = mayProceed (overallStatus r) (score r) /\
    forall d, exists v, v ∈ domains r /\ consistent (rv_config deps) v /\ honest w d v.
Proof using All.
  intros Hmin Hall. unfold runVerification.
  destruct (run_verifyDomain w dt_mail Hmin Hall) as (va & Ha & Hva).
  destruct (run_verifyDomain w dt_calendar Hmin Hall) as (vb & Hb & Hvb).
  destruct (run_verifyDomain w dt_contacts Hmin Hall) as (vc & Hc & Hvc).
  destruct (run_verifyDomain w dt_files Hmin Hall) as (vf & Hf & Hvf).
  rewrite run_bind, Ha, run_bind, Hb, run_bind, Hc, run_bind, Hf. simpl.
  eexists. split; [done|]. split; [done|]. split; [done|].
  apply (conclude_field _ _ _ _ _ _ (fun d v => consistent (rv_config deps) v /\ honest w d v)); done.
Qed.

(** What a report that lets the cutover proceed rules out. *)
Lemma gate_decides w :
  0 <= minSampleSize (rv_config deps) -> all_readable w ->
  exists r, run (runVerification now (createRealVerificationDeps rt deps)) w = (inr r, w) /\
    (forall d, exists v, v ∈ domains r /\ honest w d v) /\
    (canProceedToCutover r = true -> forall d, isDataTypeEnabled (rv_config deps) d = true ->
       match reindexerFor deps d with
       | None => keys w d = []
       | Some rx => forall l, readable rx w l ->
           (ratio_or (zlen (absent_keys w d l)) (zlen (keys w d)) 0
              <= maxDiscrepancyPercentage (rv_config deps))%Q /\
           (overallStatus r = O_PASS ->
              (forall k, k ∈ keys w d -> k ∈ hashed d l) /\
              (keys w d <> [] -> forall e, e ∈ l -> targetKey rt d e ∈ keys w d))
       end).
Proof using All.
  intros Hmin Hall. destruct (run_gate w Hmin Hall) as (r & Hr & Ho & Hp & Hd).
  exists r. split; [done|]. split; [intros d; destruct (Hd d) as (v & ? & ? & ?); by exists v|].
  intros Hgo d Hen. rewrite Hp in Hgo.
  assert (Hnb : existsb blocks (domains r) = false).
  { apply not_true_iff_false. rewrite <- overall_fails, <- Ho. by intros H; rewrite H in Hgo. }
  destruct (Hd d) as (v & Hv & Hc & Hh). specialize (Hh Hen).
  pose proof (existsb_false _ _ _ Hnb Hv) as Hvb.
  destruct (reindexerFor deps d) as [rx|]; [|by auto].
  intros l Hl. destruct (Hh l Hl) as (Hm & Hs & Hmiss & Hextra).
  pose proof (not_failed v Hvb) as Hnf. rewrite (co_verdict _ _ Hc Hm) in Hnf.
  rewrite <- Hmiss, <- Hs. split; [by eapply verdict_thresholds|]. rewrite Ho. intros Hpass.
  pose proof (passes_alone _ _ Hpass Hv Hm) as Hok. rewrite (co_verdict _ _ Hc Hm) in Hok.
  destruct (co_nonneg _ _ Hc) as (Hm0 & He0 & _).
  apply verdict_pass in Hok as [Hz He]; [|done..]. split.
  - intros k Hk. destruct (decide (k ∈ hashed d l)) as [|Hno]; [done|]. exfalso.
    rewrite Hmiss in Hz. apply zlen_nil in Hz. eapply not_elem_of_nil. rewrite <- Hz.
    by apply list_elem_of_filter.
  - intros Hne e Hin. destruct (decide (targetKey rt d e ∈ keys w d)) as [|Hno]; [done|]. exfalso.
    rewrite Hextra in He. unfold reported_surplus in He. rewrite decide_False in He by done.
    apply zlen_nil in He. eapply not_elem_of_nil. rewrite <- He. by apply list_elem_of_filter.
Qed.

End gate.

(** ** A copied message that its target lists *)

Definition sample_runtime : Runtime := mkRuntime (fun s => s) (fun s => s).

Definition sample_key : string := hash_naturalKeyHash sample_runtime "<a@x>".

Definition sample_pg : Ledger.PgState :=
  (Ledger.recordIfAbsent (Ledger.sample_record "t" "m" Email sample_key "h1" copied) Ledger.empty_ledger).2.

Definition sample_listing : list TargetEntry :=
  [mkTargetEntry " a@x" "id-1" "inbox" None (Some 12)].

Definition sample_reindexer : TargetReindexer Ledger.PgState :=
  {| listEntries := Ret sample_listing;
     contentHashFor := Some (fun e => Ret (Some "h1"%string)) |}.

Definition sample_real : RealVerificationDeps (W := Ledger.PgState) :=
  {| rv_tenantId := "t"; rv_mappingId := "m"; rv_config := default_config;
     rv_targetReindexer := Some sample_reindexer; rv_targetReindexers := fun _ => None;
     rv_verificationReader := createLedgerVerificationReader (fun s => s) map_to_list |}%string.

