(* ===== verification/Reindex.v ===== *)
(** * Rebuilding the ledger from the target ([packages/core/src/reindex.ts])

    After a lost ledger, [reindexFromTarget] records what the target lists.
    The listing is an async iterable consumed while rows are written: it is the
    entries it yields and the error it may end with. *)

From S2P Require Import Prelude Prog Ports Keys Doubles Verification VerificationLedger.
From S2P Require Ledger.
From Stdlib Require Import QArith Lqa.

Open Scope Z_scope.

#[local] Existing Instance Ledger.eta_PgState.

Record ReindexResult := mkReindexResult {
  scanned : Z;
  adopted : Z;
  alreadyKnown : Z
}.

#[export] Instance eta_ReindexResult : Eta ReindexResult := fun r =>
  mkReindexResult (scanned r) (adopted r) (alreadyKnown r).

(** What a listing yields before it ends, and the error it ends with. *)
Record Listing := mkListing {
  li_entries : list TargetEntry;
  li_error : option string
}.

Section reindex.
Variable rt : Runtime.

Abbreviation rprog := (prog Ledger.PgState string).

Record ReindexDeps := mkReindexDeps {
  rx_tenantId : string;
  rx_mappingId : string;
  rx_listing : Listing;
  rx_domain : option domain
}.

Definition adopted_record (deps : ReindexDeps) (d : domain) (nkh : string) (e : TargetEntry) (now : instant)
    : LedgerRecord :=
  {| tenantId := rx_tenantId deps; mappingId := rx_mappingId deps; itemType := d; naturalKeyHash := nkh;
     contentHash := nullish (te_contentHash e) ""%string; targetId := te_targetId e; createdAt := now;
     sizeBytes := None; rstatus := None; collection := None; targetVersion := None; sourceRef := None;
     absentPasses := None; deletionReportedAt := None; deletionTrashedAt := None;
     deletionAcknowledgedAt := None; deletionAppliedAt := None; movedToCollection := None;
     movedToNaturalKeyHash := None; movedRecordedAt := None; moveAcknowledgedAt := None;
     attemptCount := None; lastError := None; sourceVersion := None |}.

(** One round: the key is hashed as a mail key whatever the domain. *)
Definition reindexEntry (deps : ReindexDeps) (r : ReindexResult) (e : TargetEntry) : rprog ReindexResult :=
  let d := nullish (rx_domain deps) Email in
  let r := r <| scanned ::= Z.add 1 |> in
  let nkh := hash_naturalKeyHash rt (te_naturalKey e) in
  let! known := act (fun s => (Ledger.find (rx_tenantId deps) (rx_mappingId deps) d nkh s, s)) in
  match known with
  | Some _ => Ret (r <| alreadyKnown ::= Z.add 1 |>)
  | None =>
      let! now := act (fun s => (Ledger.pg_now s, s)) in
      let! row := try_act (Ledger.recordIfAbsent (adopted_record deps d nkh e now)) in
      Ret (r <| adopted ::= Z.add 1 |>)
  end.

Fixpoint reindexLoop (deps : ReindexDeps) (r : ReindexResult) (l : list TargetEntry) : rprog ReindexResult :=
  match l with
  | [] => match li_error (rx_listing deps) with Some e => Throw e | None => Ret r end
  | e :: l' => let! r' := reindexEntry deps r e in reindexLoop deps r' l'
  end.

Definition reindexFromTarget (deps : ReindexDeps) : rprog ReindexResult :=
  reindexLoop deps (mkReindexResult 0 0 0) (li_entries (rx_listing deps)).
End reindex.

(** ** What it does to the ledger *)

Section effect.
Context (rt : Runtime) (deps : ReindexDeps).
Context (t m : string) (d : domain) (Ht : rx_tenantId deps = t) (Hm : rx_mappingId deps = m)
        (Hd : nullish (rx_domain deps) Email = d).

Abbreviation K e := (hash_naturalKeyHash rt (te_naturalKey e)).

Definition adopted_row (e : TargetEntry) (s : Ledger.PgState) : Ledger.item_row :=
  Ledger.fresh_row (adopted_record deps d (K e) e (Ledger.pg_now s)) (Ledger.pg_now s).

(** The reference: insert every entry whose key is free. *)
Definition adopt (s : Ledger.PgState) (e : TargetEntry) : Ledger.PgState :=
  match Ledger.items s !! (t, m, K e) with
  | Some _ => s
  | None => s <| Ledger.items ::= <[(t, m, K e) := adopted_row e s]> |>
  end.

Definition is_new (s : Ledger.PgState) (e : TargetEntry) : bool :=
  negb (defined (Ledger.items s !! (t, m, K e))).

Fixpoint count_new (s : Ledger.PgState) (l : list TargetEntry) : Z :=
  match l with
  | [] => 0
  | e :: l' => (if is_new s e then 1 else 0) + count_new (adopt s e) l'
  end.

(** No other data type holds the entry's key. *)
Definition unclaimed (s : Ledger.PgState) (e : TargetEntry) : Prop :=
  forall row, Ledger.items s !! (t, m, K e) = Some row -> Ledger.row_domain row = d.

Lemma adopt_lookup s e k :
  Ledger.items (adopt s e) !! k = Ledger.items s !! k \/
  (k = (t, m, K e) /\ Ledger.items s !! k = None /\ Ledger.items (adopt s e) !! k = Some (adopted_row e s)).
Proof using.
  clear Ht Hm Hd. unfold adopt. destruct (Ledger.items s !! (t, m, K e)) eqn:Hs; [by left|]. simpl.
  destruct (decide (k = (t, m, K e))) as [->|Hne]; [right|left; by rewrite lookup_insert_ne].
  by rewrite lookup_insert_eq.
Qed.

Lemma adopt_now s e : Ledger.pg_now (adopt s e) = Ledger.pg_now s.
Proof. unfold adopt. by case_match. Qed.

Lemma adopt_unclaimed s e e' : unclaimed s e' -> unclaimed (adopt s e) e'.
Proof.
  intros Hu row Hrow. destruct (adopt_lookup s e (t, m, K e')) as [Hsame|(_ & _ & Hnew)].
  - apply Hu. by rewrite <- Hsame.
  - rewrite Hnew in Hrow. by simplify_eq/=.
Qed.

Lemma run_reindexEntry r e s : unclaimed s e ->
  run (reindexEntry rt deps r e) s =
  (inr (r <| scanned ::= Z.add 1 |>
          <| adopted ::= Z.add (if is_new s e then 1 else 0) |>
          <| alreadyKnown ::= Z.add (if is_new s e then 0 else 1) |>), adopt s e).
Proof using All.
  intros Hu. unfold reindexEntry. rewrite run_bind, Ht, Hm, Hd. cbn [run act].
  unfold is_new, adopt. destruct (Ledger.items s !! (t, m, K e)) as [row|] eqn:Hs.
  - assert (Hf : Ledger.find t m d (K e) s = Some (Ledger.mapRowToRecord (t, m, K e) row))
      by (apply Ledger.find_Some; eauto).
    rewrite Hf. by destruct r.
  - assert (Hf : Ledger.find t m d (K e) s = None) by (unfold Ledger.find, Ledger.sql_select1; by rewrite Hs).
    rewrite Hf, run_bind. cbn [run act]. rewrite run_bind. cbn [run try_act].
    destruct (Ledger.recordIfAbsent _ s) as [x s'] eqn:Hr.
    destruct (Ledger.recordIfAbsent_cases _ _ _ _ Hr) as [(row & Hrow & _)|(_ & -> & ->)];
      unfold Ledger.record_key in *; simpl in *; rewrite ?Ht, ?Hm in *; [congruence|]. by destruct r.
Qed.

Lemma run_reindexLoop l r s : li_error (rx_listing deps) = None -> Forall (unclaimed s) l ->
  run (reindexLoop rt deps r l) s =
  (inr {| scanned := scanned r + zlen l; adopted := adopted r + count_new s l;
          alreadyKnown := alreadyKnown r + (zlen l - count_new s l) |}, foldl adopt s l).
Proof using All.
  intros Herr. revert r s; induction l as [|e l IH]; intros r s Hl; cbn [reindexLoop foldl count_new].
  - rewrite Herr. destruct r. simpl. unfold zlen. simpl. do 3 f_equal; lia.
  - apply Forall_cons in Hl as [He Hl]. rewrite run_bind, run_reindexEntry by done.
    rewrite IH by (eapply Forall_impl; [done|]; intros; by apply adopt_unclaimed).
    destruct r; unfold zlen; simpl. destruct (is_new s e); do 3 f_equal; lia.
Qed.

(** Rows stay; a row that appears is the one of the first listed entry with its
    key; every listed entry has a row. *)
Definition adopted_from (l : list TargetEntry) (s : Ledger.PgState) (k : string * string * string)
    (row : Ledger.item_row) : Prop :=
  Ledger.items s !! k = None /\
  exists l1 e l2, l = l1 ++ e :: l2 /\ Forall (fun e' => K e' <> K e) l1 /\ k = (t, m, K e) /\ row = adopted_row e s.

Lemma adopt_all_spec l s :
  (forall k row, Ledger.items s !! k = Some row -> Ledger.items (foldl adopt s l) !! k = Some row) /\
  (forall k row, Ledger.items (foldl adopt s l) !! k = Some row ->
     Ledger.items s !! k = Some row \/ adopted_from l s k row) /\
  (forall e, e ∈ l -> is_Some (Ledger.items (foldl adopt s l) !! (t, m, K e))).
Proof using.
  clear Ht Hm Hd. revert s; induction l as [|e l IH]; intros s; simpl; [split_and!; [done|by left|set_solver]|].
  destruct (IH (adopt s e)) as (H1 & H2 & H3). split_and!.
  - intros k row Hk. apply H1. destruct (adopt_lookup s e k) as [->|(_ & Hn & _)]; congruence.
  - intros k row Hk. destruct (H2 k row Hk) as [Hs|(Hnone & l1 & e' & l2 & -> & Hl1 & -> & ->)].
    + destruct (adopt_lookup s e k) as [Heq|(-> & Hn & Hnew)]; [left; congruence|].
      right. split; [done|]. exists [], e, l. split_and!; [done..|congruence].
    + assert (Hne : K e <> K e').
      { intros Heq. unfold adopt in Hnone. rewrite Heq in Hnone.
        destruct (Ledger.items s !! (t, m, K e')) eqn:Hs; [congruence|].
        simpl in Hnone. by rewrite lookup_insert_eq in Hnone. }
      right. split; [by destruct (adopt_lookup s e (t, m, K e')) as [<-|(_ & ? & _)]|].
      exists (e :: l1), e', l2. split_and!; [done|by constructor|done|]. unfold adopted_row. by rewrite adopt_now.
  - intros e' [->|He']%elem_of_cons; [|by apply H3].
    assert (Hs : is_Some (Ledger.items (adopt s e) !! (t, m, K e))).
    { unfold adopt. destruct (Ledger.items s !! (t, m, K e)) eqn:Hs; [by rewrite Hs|]. simpl.
      by rewrite lookup_insert_eq. }
    destruct Hs as [row Hrow]. exists row. by apply H1.
Qed.

(** What is counted as adopted is what appeared. *)
Lemma count_new_size l s :
  Z.of_nat (size (Ledger.items (foldl adopt s l))) = Z.of_nat (size (Ledger.items s)) + count_new s l.
Proof using.
  clear Ht Hm Hd. revert s; induction l as [|e l IH]; intros s; simpl; [lia|]. rewrite IH.
  unfold adopt at 1, is_new. destruct (Ledger.items s !! (t, m, K e)) eqn:Hs; simpl; [lia|].
  rewrite map_size_insert_None by done. lia.
Qed.

Lemma count_new_known l s : (forall e, e ∈ l -> is_Some (Ledger.items s !! (t, m, K e))) ->
  count_new s l = 0 /\ foldl adopt s l = s.
Proof using.
  clear Ht Hm Hd. induction l as [|e l IH]; intros Hl; simpl; [done|].
  destruct (Hl e) as [row Hrow]; [set_solver|].
  assert (Hs : adopt s e = s) by (unfold adopt; by rewrite Hrow).
  rewrite Hs. unfold is_new. rewrite Hrow. simpl. apply IH. set_solver.
Qed.

(** The whole pass, when nothing stops it. *)
Lemma run_reindexFromTarget s : li_error (rx_listing deps) = None -> Forall (unclaimed s) (li_entries (rx_listing deps)) ->
  let l := li_entries (rx_listing deps) in
  run (reindexFromTarget rt deps) s =
  (inr (mkReindexResult (zlen l) (count_new s l) (zlen l - count_new s l)), foldl adopt s l).
Proof using All. intros Herr Hl. unfold reindexFromTarget. by rewrite run_reindexLoop. Qed.
End effect.

(** ** Theorems *)

(** C38: recovery of a lost ledger.  When the listing ends without an error and
    no row of another data type holds one of the hashed keys - otherwise the
    pass fails on it - the pass succeeds; every listed entry can be found
    afterwards under its key, hashed as a mail key; no existing row is touched;
    a row appears only for the first listed entry with a key that was free, a
    copied row of the pass's data type with that entry's target id and content
    hash; the counts are the listing's length, the rows that appeared and the
    rest.  Run again on the same listing it adopts nothing and changes
    nothing. *)
Theorem reindex_recovers rt deps s :
  let t := rx_tenantId deps in
  let m := rx_mappingId deps in
  let d := nullish (rx_domain deps) Email in
  let l := li_entries (rx_listing deps) in
  let K e := hash_naturalKeyHash rt (te_naturalKey e) in
  li_error (rx_listing deps) = None ->
  (forall e row, e ∈ l -> Ledger.items s !! (t, m, K e) = Some row -> Ledger.row_domain row = d) ->
  exists r s', run (reindexFromTarget rt deps) s = (inr r, s') /\
    scanned r = zlen l /\ adopted r + alreadyKnown r = scanned r /\
    adopted r = Z.of_nat (size (Ledger.items s')) - Z.of_nat (size (Ledger.items s)) /\
    (forall e, e ∈ l -> is_Some (Ledger.find t m d (K e) s')) /\
    (forall k row, Ledger.items s !! k = Some row -> Ledger.items s' !! k = Some row) /\
    (forall k row, Ledger.items s' !! k = Some row -> Ledger.items s !! k = None ->
       exists l1 e l2, l = l1 ++ e :: l2 /\ Forall (fun e' => K e' <> K e) l1 /\ k = (t, m, K e) /\
         Ledger.row_domain row = d /\ Ledger.row_status row = copied /\
         Ledger.row_targetRef row = te_targetId e /\
         Ledger.row_contentHash row = Some (nullish (te_contentHash e) ""%string)) /\
    run (reindexFromTarget rt deps) s' = (inr (mkReindexResult (zlen l) 0 (zlen l)), s').
Proof.
  intros t m d l K Herr Hclaim.
  assert (Hu : Forall (unclaimed rt t m d s) l) by (apply Forall_forall; intros e He row; by apply Hclaim).
  destruct (adopt_all_spec rt deps t m d l s) as (H1 & H2 & H3).
  pose proof (count_new_size rt deps t m d l s) as Hsize.
  set (s' := foldl (adopt rt deps t m d) s l) in *.
  assert (Hdom : forall e row, e ∈ l -> Ledger.items s' !! (t, m, K e) = Some row -> Ledger.row_domain row = d).
  { intros e row He Hrow. destruct (H2 _ _ Hrow) as [Hs|(_ & l1 & e' & l2 & _ & _ & _ & ->)]; [by eapply Hclaim|done]. }
  eexists _, s'. split; [by apply (run_reindexFromTarget rt deps t m d)|]. cbn [scanned adopted alreadyKnown]. fold l.
  split_and!; [lia..| |done| |].
  - intros e He. destruct (H3 e He) as [row Hrow]. apply Ledger.find_is_Some. exists row. by eauto.
  - intros k row Hk Hnone. destruct (H2 k row Hk) as [Hs|(_ & l1 & e & l2 & Hl & Hl1 & -> & ->)]; [congruence|].
    by exists l1, e, l2.
  - destruct (count_new_known rt deps t m d l s' H3) as [Hc Hf].
    rewrite (run_reindexFromTarget rt deps t m d); try done.
    + fold l. rewrite Hc, Hf. do 3 f_equal; lia.
    + apply Forall_forall. intros e He row. by apply Hdom.
Qed.

Lemma nonempty_has {A} (l : list A) : l <> [] -> exists x, x ∈ l.
Proof. destruct l as [|x l]; [done|]. intros _. exists x. apply elem_of_cons. by left. Qed.

Section blocked.
Context (rt : Runtime) (scan : gmap (string * string * string) Ledger.item_row ->
                list ((string * string * string) * Ledger.item_row))
        (scan_perm : forall mm, scan mm ≡ₚ map_to_list mm).

(** Outside mail the recovery records rows nothing can find.  Reindexing
    calendars, contacts or files hashes their keys with the mail prefix: from a
    ledger that has lost the mapping, the pass succeeds, and afterwards no
    listed item is found under the key its own data type uses (a sync pass will
    not know it), and the verification gate over the very same listing refuses
    the cutover, whatever share of missing items short of all is tolerated. *)
Theorem reindex_blocks_other_domains (rdeps : ReindexDeps) (deps : RealVerificationDeps (W := Ledger.PgState))
    d rx (now : Ledger.PgState -> Z) s :
  let l := li_entries (rx_listing rdeps) in
  d <> dt_mail -> rx_domain rdeps = Some (mapDataTypeToDomain d) -> li_error (rx_listing rdeps) = None -> l <> [] ->
  (forall k row, Ledger.items s !! k = Some row -> k.1 <> (rx_tenantId rdeps, rx_mappingId rdeps)) ->
  (forall e e', e ∈ l -> e' ∈ l -> hash_naturalKeyHash rt (te_naturalKey e) <> targetKey rt d e') ->
  rv_tenantId deps = rx_tenantId rdeps -> rv_mappingId deps = rx_mappingId rdeps ->
  rv_verificationReader deps = createLedgerVerificationReader (fun s => s) scan ->
  isDataTypeEnabled (rv_config deps) d = true -> 0 <= minSampleSize (rv_config deps) ->
  (maxDiscrepancyPercentage (rv_config deps) < 1)%Q ->
  reindexerFor deps d = Some rx -> (forall w, readable rx w l) -> (forall w, all_readable deps w) ->
  exists r s' g, run (reindexFromTarget rt rdeps) s = (inr r, s') /\
    (forall e, e ∈ l -> Ledger.find (rx_tenantId rdeps) (rx_mappingId rdeps) (mapDataTypeToDomain d)
                          (targetKey rt d e) s' = None) /\
    run (runVerification now (createRealVerificationDeps rt deps)) s' = (inr g, s') /\
    canProceedToCutover g = false.
Proof using scan_perm.
  intros l Hd Hdom Herr Hne Hempty Happart Ht Hm Hreader Hen Hmin Hmax Hrx Hread Hall.
  set (D := nullish (rx_domain rdeps) Email). set (T := rx_tenantId rdeps) in *. set (M := rx_mappingId rdeps) in *.
  destruct (adopt_all_spec rt rdeps T M D l s) as (_ & H2 & H3).
  pose proof (run_reindexFromTarget rt rdeps T M D eq_refl eq_refl eq_refl s Herr) as Hrun.
  specialize (Hrun ltac:(apply Forall_forall; intros e _ row Hrow; by destruct (Hempty _ _ Hrow))).
  fold l in Hrun. cbv zeta in Hrun. set (s' := foldl _ s l) in *. set (r := mkReindexResult _ _ _) in *.
  assert (Hrows : forall k row, Ledger.items s' !! (rx_tenantId rdeps, rx_mappingId rdeps, k) = Some row ->
            exists e, e ∈ l /\ k = hash_naturalKeyHash rt (te_naturalKey e) /\
              expected (mapDataTypeToDomain d) row = true).
  { intros k row Hk. destruct (H2 _ _ Hk) as [Hrow|(_ & l1 & e & l2 & Hl & _ & [= ->] & ->)]; [by destruct (Hempty _ _ Hrow)|].
    exists e. split_and!; [rewrite Hl; set_solver|done|]. unfold expected.
    rewrite (proj2 (Ledger.same_domain_true _ _)), bool_decide_eq_false_2; [done|done|]. simpl. unfold D. by rewrite Hdom. }
  assert (laws : ReaderLaws (rv_verificationReader deps) (expected_keys (fun s => s) scan))
    by (rewrite Hreader; by apply pg_reader_laws).
  destruct (gate_decides rt now (expected_keys (fun s => s) scan) deps s' Hmin (Hall s')) as (g & Hg & _ & Hgo).
  exists r, s', g. split_and!; try done.
  - intros e He. destruct (Ledger.find _ _ _ _ s') as [rec|] eqn:Hf; [exfalso|done].
    apply Ledger.find_Some in Hf as (row & Hrow & _). destruct (Hrows _ _ Hrow) as (e' & He' & Heq & _).
    by apply (Happart e' e).
  - destruct (canProceedToCutover g) eqn:Hc; [exfalso|done].
    specialize (Hgo eq_refl d Hen). rewrite Hrx in Hgo. destruct (Hgo l (Hread s')) as [Hratio _].
    set (keys := expected_keys (fun s => s) scan s' (rv_tenantId deps) (rv_mappingId deps) (mapDataTypeToDomain d)) in *.
    assert (Hin : forall k, k ∈ keys <-> exists row,
              Ledger.items s' !! (rx_tenantId rdeps, rx_mappingId rdeps, k) = Some row /\
              expected (mapDataTypeToDomain d) row = true).
    { intros k. unfold keys. rewrite Ht, Hm. by apply elem_of_expected_keys. }
    rewrite (absent_all rt (expected_keys (fun s => s) scan) deps s' d l) in Hratio.
    + unfold ratio_or in Hratio. destruct (Z.ltb_spec 0 (zlen keys)) as [Hpos|Hz].
      * rewrite fratio_full in Hratio by done. lra.
      * assert (Hk0 : keys = []) by (apply zlen_nil; unfold zlen in *; lia).
        destruct (nonempty_has _ Hne) as [e He]. destruct (H3 e He) as [row Hrow]. destruct (Hrows _ _ Hrow) as (_ & _ & _ & Hexp).
        assert (Hk : hash_naturalKeyHash rt (te_naturalKey e) ∈ keys) by (apply Hin; by exists row).
        rewrite Hk0 in Hk. by apply not_elem_of_nil in Hk.
    + intros k (row & Hrow & _)%Hin (e & -> & He)%list_elem_of_fmap.
      destruct (Hrows _ _ Hrow) as (e' & He' & Heq & _). by apply (Happart e' e).
Qed.
End blocked.

(** ** A mailbox and a calendar *)

Definition sample_mail_reindex : ReindexDeps :=
  {| rx_tenantId := "t"; rx_mappingId := "m"; rx_listing := mkListing sample_listing None;
     rx_domain := None |}%string.

Lemma reindex_recovers_witness :
  exists r s', run (reindexFromTarget sample_runtime sample_mail_reindex) Ledger.empty_ledger = (inr r, s') /\
    scanned r = 1 /\
    run (reindexFromTarget sample_runtime sample_mail_reindex) s' = (inr (mkReindexResult 1 0 1), s').
Proof.
  destruct (reindex_recovers sample_runtime sample_mail_reindex Ledger.empty_ledger) as (r & s' & Hr & Hs & _ & _ & _ & _ & _ & Hagain).
  - reflexivity.
  - intros e row _ Hrow. discriminate Hrow.
  - exists r, s'. split; [exact Hr|]. split; [exact Hs|exact Hagain].
Defined.

Definition calendar_listing : list TargetEntry :=
  [mkTargetEntry "uid-1" "cal-1" "calendar" (Some "cal1:00") None]%string.

Definition sample_calendar_reindex : ReindexDeps :=
  {| rx_tenantId := "t"; rx_mappingId := "m"; rx_listing := mkListing calendar_listing None;
     rx_domain := Some Calendar |}%string.

Definition calendar_reindexer : TargetReindexer Ledger.PgState :=
  {| listEntries := Ret calendar_listing; contentHashFor := None |}.

Definition sample_calendar_gate : RealVerificationDeps (W := Ledger.PgState) :=
  {| rv_tenantId := "t"; rv_mappingId := "m"; rv_config := default_config; rv_targetReindexer := None;
     rv_targetReindexers := fun d => if decide (d = dt_calendar) then Some calendar_reindexer else None;
     rv_verificationReader := createLedgerVerificationReader (fun s => s) map_to_list |}%string.

Lemma calendar_readable w : readable calendar_reindexer w calendar_listing.
Proof. split; [done|]. intros f e Hf. discriminate Hf. Qed.

Lemma reindex_blocks_other_domains_witness :
  exists r s' g, run (reindexFromTarget sample_runtime sample_calendar_reindex) Ledger.empty_ledger = (inr r, s') /\
    run (runVerification (fun _ => 0) (createRealVerificationDeps sample_runtime sample_calendar_gate)) s'
      = (inr g, s') /\
    canProceedToCutover g = false.
Proof.
  destruct (reindex_blocks_other_domains sample_runtime map_to_list (fun mm => reflexivity _)
              sample_calendar_reindex sample_calendar_gate dt_calendar calendar_reindexer (fun _ => 0)
              Ledger.empty_ledger) as (r & s' & g & Hr & _ & Hg & Hc); try reflexivity; try discriminate.
  - exact calendar_readable.
  - intros w d rx Hrx. unfold reindexerFor in Hrx. simpl in Hrx.
    exists calendar_listing. destruct d; simpl in Hrx; try discriminate Hrx. injection Hrx as <-. exact (calendar_readable w).
  - exists r, s', g. split; [exact Hr|]. split; [exact Hg|exact Hc].
Defined.
