(* ===== verification/PermissionMap.v ===== *)
(** * Rights and their equivalents ([packages/core/src/permission-map.ts],
    [packages/shared/src/permissions.ts])

    [mapGrant] is a table; its two regular expressions ignore case, which for
    the ASCII letters they contain is ASCII case. *)

From S2P Require Import Prelude Keys.
From Stdlib Require Import Ascii.

#[local] Open Scope string_scope.

Inductive PermissionSubject := mailbox | calendar | drive_item.

#[export] Instance PermissionSubject_eq_dec : EqDecision PermissionSubject.
Proof. solve_decision. Defined.

Definition subject_name (s : PermissionSubject) : string :=
  match s with mailbox => "mailbox" | calendar => "calendar" | drive_item => "drive_item" end.

Record PermissionGrant := mkPermissionGrant {
  gr_subject : PermissionSubject;
  gr_on : string;
  gr_grantee : option string;
  gr_role : string;
  gr_raw : string;
  gr_viaLink : option bool
}.

Inductive Verdict := clean | manual.

#[export] Instance Verdict_eq_dec : EqDecision Verdict.
Proof. solve_decision. Defined.

Record PermissionMapping := mkPermissionMapping {
  pm_verdict : Verdict;
  pm_target : string;
  pm_note : option string
}.

Definition ascii_lower (a : ascii) : ascii :=
  let n := N_of_ascii a in
  if ((65 <=? n) && (n <=? 90))%N then ascii_of_N (n + 32) else a.

Fixpoint lower (s : string) : string :=
  match s with String a s' => String (ascii_lower a) (lower s') | "" => "" end.

(** [/w1|w2|.../i.test(s)] *)
Definition mentions (words : list string) (s : string) : bool :=
  existsb (fun w => match String.index 0 w (lower s) with Some _ => true | None => false end) words.

Definition writable (role : string) : bool := mentions ["write"; "owner"; "editor"] role.

Definition mapGrant (g : PermissionGrant) : PermissionMapping :=
  match gr_subject g with
  | calendar =>
      mkPermissionMapping clean
        (if writable (gr_role g) then "a Nextcloud calendar share with write access"
         else "a Nextcloud calendar share, read-only")
        (Some "CalDAV calendar sharing is the same idea on both sides; only the wording differs.")
  | drive_item =>
      if nullish (gr_viaLink g) false then
        mkPermissionMapping manual
          ("decide whether this link should exist at all after the move — a sharing link is a "
           ++ "URL that works for whoever has it, so migrating it silently would carry that "
           ++ "access across without anybody choosing to")
          (Some "Not a right held by a person, so there is nothing to translate.")
      else
        mkPermissionMapping clean
          (if writable (gr_role g) then "a Nextcloud share with edit permission" else "a Nextcloud share, read-only")
          (Some "A per-person file or folder share exists on both sides.")
  | mailbox =>
      if mentions ["fullaccess"] (gr_role g) then
        mkPermissionMapping manual
          ("give each person who needs the shared mailbox their own app password for it "
           ++ "(SAD §14.1, docs/shared-mailboxes.md)")
          (Some "The target has no per-person mailbox ACL; app passwords are the convention, and they can be withdrawn individually.")
      else if mentions ["sendas"; "sendonbehalf"] (gr_role g) then
        mkPermissionMapping manual "configure Send-As for this address on the target platform"
          (Some "Send-As is a platform setting on the target, not a permission this tool can grant.")
      else
        mkPermissionMapping manual "no equivalent is known for this right — decide what it should become"
          (Some "This table has no entry for it, which is itself worth knowing before cutover.")
  end.

Example editor_writes : pm_target (mapGrant (mkPermissionGrant drive_item "a.txt" (Some "x@y") "Editor" "" None))
                        = "a Nextcloud share with edit permission".
Proof. by vm_compute. Qed.
