(* ===== verification/ShareQueue.v ===== *)
(** * The sharing queue ([packages/core/src/share-queue.ts]) and its table

    The grants an inventory finds are rows of [share_grant] that the owner
    settles one by one.  The statements are those of
    [packages/ledger/src/ledger.ts] (lines 512 to 566, 634 to 721), the rules
    those of [share-queue.ts].  The programs run over the table, with the audit
    log, and whatever is outside; [createShare] is a call to the target, which
    is outside.  A refusal keeps its code and the target's own words. *)

From S2P Require Import Prelude Prog Concurrency Ports Keys Ledger PermissionMap.

#[local] Existing Instance Ledger.eta_PgState.

Open Scope Z_scope.

Inductive ShareState := sh_open | sh_applied | sh_done_manual | sh_skipped.

#[export] Instance ShareState_eq_dec : EqDecision ShareState.
Proof. solve_decision. Defined.

(** ** The rows *)

(** What [shareGrantRowFrom] makes of a grant. *)
Record ShareGrantInput := mkShareGrantInput {
  in_grantHash : string;
  in_subject : string;
  in_onLabel : string;
  in_grantee : option string;
  in_role : string;
  in_viaLink : bool;
  in_raw : string;
  in_verdict : Verdict;
  in_verdictTarget : string
}.

(** A row of [share_grant]; tenant, mapping and grant hash are its key. *)
Record share_row := mk_share_row {
  sg_id : string;
  sg_subject : string;
  sg_onLabel : string;
  sg_grantee : option string;
  sg_role : string;
  sg_viaLink : bool;
  sg_raw : string;
  sg_verdict : Verdict;
  sg_verdictTarget : string;
  sg_state : ShareState;
  sg_stateReason : option string;
  sg_decidedBy : option string;
  sg_decidedAt : option instant;
  sg_scannedAt : instant
}.

#[export] Instance eta_share_row : Eta share_row := fun r =>
  mk_share_row (sg_id r) (sg_subject r) (sg_onLabel r) (sg_grantee r) (sg_role r) (sg_viaLink r) (sg_raw r)
    (sg_verdict r) (sg_verdictTarget r) (sg_state r) (sg_stateReason r) (sg_decidedBy r) (sg_decidedAt r)
    (sg_scannedAt r).

Record ShareGrantRow := mkShareGrantRow {
  sr_id : string;
  sr_grantHash : string;
  sr_subject : string;
  sr_onLabel : string;
  sr_grantee : option string;
  sr_role : string;
  sr_viaLink : bool;
  sr_raw : string;
  sr_verdict : Verdict;
  sr_verdictTarget : string;
  sr_state : ShareState;
  sr_stateReason : option string;
  sr_decidedBy : option string;
  sr_decidedAt : option instant;
  sr_scannedAt : instant
}.

Definition share_key : Type := string * string * string.

(** The table beside the ledger's own; [sh_next] counts the ids drawn. *)
Record SharePg := mkSharePg {
  sh_grants : gmap share_key share_row;
  sh_next : nat;
  sh_pg : PgState
}.

#[export] Instance eta_SharePg : Eta SharePg := fun s => mkSharePg (sh_grants s) (sh_next s) (sh_pg s).

Definition share_record (kr : share_key * share_row) : ShareGrantRow :=
  let '((_, _, grantHash), r) := kr in
  {| sr_id := sg_id r; sr_grantHash := grantHash; sr_subject := sg_subject r; sr_onLabel := sg_onLabel r;
     sr_grantee := truthy (sg_grantee r); sr_role := sg_role r; sr_viaLink := sg_viaLink r; sr_raw := sg_raw r;
     sr_verdict := sg_verdict r; sr_verdictTarget := sg_verdictTarget r; sr_state := sg_state r;
     sr_stateReason := truthy (sg_stateReason r); sr_decidedBy := truthy (sg_decidedBy r);
     sr_decidedAt := sg_decidedAt r; sr_scannedAt := sg_scannedAt r |}.

(** ** The statements *)
Section statements.
(** [gen_random_uuid()], the order of rows no [ORDER BY] sorts, and the
    database's order of texts. *)
Context (newId : nat -> string) (scan : gmap share_key share_row -> list (share_key * share_row))
        (collate : string -> string -> comparison).

Definition fresh_share (g : ShareGrantInput) (id : string) (now : instant) : share_row :=
  mk_share_row id (in_subject g) (in_onLabel g) (truthy (in_grantee g)) (in_role g) (in_viaLink g) (in_raw g)
    (in_verdict g) (in_verdictTarget g) sh_open None None None now.

(** One [INSERT ... ON CONFLICT DO UPDATE ... RETURNING state, decided_at] and
    whether the row it answers is counted. *)
Definition upsert_grant (t m : string) (g : ShareGrantInput) (s : SharePg) : bool * SharePg :=
  let now := pg_now (sh_pg s) in
  let k : share_key := (t, m, in_grantHash g) in
  match sh_grants s !! k with
  | Some r =>
      (bool_decide (sg_state r = sh_open) && negb (defined (sg_decidedAt r)),
       s <| sh_grants ::= <[k := r <| sg_scannedAt := now |>]> |>)
  | None =>
      (true, s <| sh_grants ::= <[k := fresh_share g (newId (sh_next s)) now]> |> <| sh_next ::= S |>)
  end.

Definition checklist_order (a b : share_key * share_row) : Prop :=
  let rank r := if bool_decide (sg_state r = sh_open) then 0 else 1 in
  not_after (then_by (Z.compare (rank a.2) (rank b.2))
            (then_by (collate (sg_onLabel a.2) (sg_onLabel b.2)) (collate (sg_role a.2) (sg_role b.2)))).

#[export] Instance checklist_order_dec : RelDecision checklist_order.
Proof. intros a b. unfold checklist_order. apply _. Defined.

Definition of_mapping (t m : string) (kr : share_key * share_row) : Prop := kr.1.1 = (t, m).

#[export] Instance of_mapping_dec t m kr : Decision (of_mapping t m kr).
Proof. unfold of_mapping. apply _. Defined.

Definition listShareGrants (t m : string) (s : SharePg) : list ShareGrantRow :=
  share_record <$> merge_sort checklist_order (base.filter (of_mapping t m) (scan (sh_grants s))).

Record Decided := mkDecided { dc_state : ShareState; dc_by : string; dc_reason : option string }.

Definition awaits (t m grantId : string) (kr : share_key * share_row) : Prop :=
  of_mapping t m kr /\ sg_id kr.2 = grantId /\ sg_state kr.2 = sh_open.

#[export] Instance awaits_dec t m grantId kr : Decision (awaits t m grantId kr).
Proof. unfold awaits. apply _. Defined.

Definition settle (d : Decided) (now : instant) (r : share_row) : share_row :=
  let r := r <| sg_state := dc_state d |> <| sg_decidedBy := Some (dc_by d) |> <| sg_decidedAt := Some now |> in
  match truthy (dc_reason d) with Some x => r <| sg_stateReason := Some x |> | None => r end.

(** [UPDATE ... WHERE id AND tenant_id AND mapping_id AND state = 'open'
    RETURNING *] *)
Definition decideShareGrant (t m grantId : string) (d : Decided) (s : SharePg) : option ShareGrantRow * SharePg :=
  let now := pg_now (sh_pg s) in
  (share_record <$> head (prod_map id (settle d now) <$> base.filter (awaits t m grantId) (scan (sh_grants s))),
   s <| sh_grants ::= map_imap (fun k r =>
          Some (if bool_decide (awaits t m grantId (k, r)) then settle d now r else r)) |>).

Definition share_audit (t : string) (e : AuditEvent) (s : SharePg) : SharePg :=
  s <| sh_pg ::= recordAuditEvent t e |>.

(** ** The queue *)
Context {Env : Type}.

Abbreviation W := (SharePg * Env)%type.

Definition ask_share {A} (q : SharePg -> A) : prog W string A := act (fun w => (q w.1, w)).
Definition tell_share {A} (u : SharePg -> A * SharePg) : prog W string A :=
  act (fun w => let '(a, s) := u w.1 in (a, (s, w.2))).

(** The [for] of [upsertShareGrants], after [created] rows counted. *)
Fixpoint upsert_from (t m : string) (created : Z) (gs : list ShareGrantInput) : prog W string Z :=
  match gs with
  | [] => Ret created
  | g :: gs' => let! fresh := tell_share (upsert_grant t m g) in
                upsert_from t m (if fresh : bool then created + 1 else created) gs'
  end.

Definition upsertShareGrants (t m : string) (gs : list ShareGrantInput) : prog W string Z := upsert_from t m 0 gs.

Section hashing.
Context (rt : Runtime).

Definition nul : string := String (Ascii.ascii_of_nat 0) "".

Definition grant_text (g : PermissionGrant) : string :=
  String.concat nul [subject_name (gr_subject g); gr_on g; nullish (gr_grantee g) ""; gr_role g;
                     if nullish (gr_viaLink g) false then "link" else "person"]%string.

Definition shareGrantHash (g : PermissionGrant) : string := sha256Hex rt (grant_text g).

Definition shareGrantRowFrom (g : PermissionGrant) : ShareGrantInput :=
  let mapping := mapGrant g in
  {| in_grantHash := shareGrantHash g; in_subject := subject_name (gr_subject g); in_onLabel := gr_on g;
     in_grantee := truthy (gr_grantee g); in_role := gr_role g;
     in_viaLink := bool_decide (gr_viaLink g = Some true); in_raw := gr_raw g;
     in_verdict := pm_verdict mapping;
     in_verdictTarget := match truthy (pm_note mapping) with
                         | Some note => (pm_target mapping ++ " — " ++ note)%string
                         | None => pm_target mapping
                         end |}.

Inductive Listing := listed (grants : list PermissionGrant) | not_discoverable (reason : string).

(** The scans, in order: rows and blind spots; a scan that throws ends it. *)
Fixpoint run_scans (scans : list (Env -> (string + Listing) * Env)) (rows : list ShareGrantInput)
    (blind : list string) : prog W string (list ShareGrantInput * list string) :=
  match scans with
  | [] => Ret (rows, blind)
  | f :: scans' =>
      let! l := try_act (fun w : W => let '(r, e) := f w.2 in (r, (w.1, e))) in
      match l with
      | listed gs => run_scans scans' (rows ++ (shareGrantRowFrom <$> gs)) blind
      | not_discoverable reason => run_scans scans' rows (blind ++ [reason])
      end
  end.

Definition refreshShareGrants (t m : string) (scans : list (Env -> (string + Listing) * Env))
    : prog W string (Z * list string) :=
  let! found := run_scans scans [] [] in
  let! n := upsertShareGrants t m found.1 in
  Ret (n, found.2).
End hashing.

Record ShareChecklistSummary := mkShareChecklistSummary {
  ss_total : Z; ss_open : Z; ss_applied : Z; ss_doneManual : Z; ss_skipped : Z; ss_openManual : Z
}.

Definition count_rows (P : ShareGrantRow -> bool) (rows : list ShareGrantRow) : Z :=
  Z.of_nat (length (base.filter (fun r => Is_true (P r)) rows)).

Definition has_state (st : ShareState) (r : ShareGrantRow) : bool := bool_decide (sr_state r = st).

Definition summariseShareGrants (rows : list ShareGrantRow) : ShareChecklistSummary :=
  {| ss_total := Z.of_nat (length rows);
     ss_open := count_rows (has_state sh_open) rows;
     ss_applied := count_rows (has_state sh_applied) rows;
     ss_doneManual := count_rows (has_state sh_done_manual) rows;
     ss_skipped := count_rows (has_state sh_skipped) rows;
     ss_openManual := count_rows (fun r => has_state sh_open r && bool_decide (sr_verdict r = manual)) rows |}.

Inductive ShareRefusal :=
| row_not_found | already_settled | link_share | manual_only | not_cut_over | no_share_api
| target_refused (reason : string).

Inductive ShareActionOutcome :=
| share_ok (row : ShareGrantRow)
| share_refused (code : ShareRefusal).

Record ShareQueueDeps := mkShareQueueDeps {
  sq_tenantId : string;
  sq_mappingId : string;
  sq_decidedBy : string
}.

(** [createShare] answers [None] when the share is there, or the target's
    refusal; it may throw. *)
Record ApplyShareDeps := mkApplyShareDeps {
  as_queue :> ShareQueueDeps;
  as_lifecycleDone : bool;
  as_createShare : option (ShareGrantRow -> Env -> (string + option string) * Env)
}.

Definition findOpenRow (deps : ShareQueueDeps) (grantId : string) : prog W string (ShareRefusal + ShareGrantRow) :=
  let! rows := ask_share (listShareGrants (sq_tenantId deps) (sq_mappingId deps)) in
  Ret (match base.filter (fun r => sr_id r = grantId) rows with
       | [] => inl row_not_found
       | row :: _ => if bool_decide (sr_state row = sh_open) then inr row else inl already_settled
       end).

Definition share_event (deps : ShareQueueDeps) (action : string) (row : ShareGrantRow) : AuditEvent :=
  mkAuditEvent (sq_decidedBy deps) action (Some "share_grant"%string)
    ([("mappingId"%string, sq_mappingId deps); ("grantId"%string, sr_id row); ("on"%string, sr_onLabel row)]
     ++ (match truthy (sr_grantee row) with Some x => [("grantee"%string, x)] | None => [] end)
     ++ [("role"%string, sr_role row)]).

Definition audit (deps : ShareQueueDeps) (action : string) (row : ShareGrantRow) : prog W string unit :=
  tell_share (fun s => (tt, share_audit (sq_tenantId deps) (share_event deps action row) s)).

(** [decideShareGrant], then the audit row when it won. *)
Definition decide_and_audit (deps : ShareQueueDeps) (grantId action : string) (d : Decided)
    : prog W string ShareActionOutcome :=
  let! settled := tell_share (decideShareGrant (sq_tenantId deps) (sq_mappingId deps) grantId d) in
  match settled with
  | None => Ret (share_refused already_settled)
  | Some row => audit deps action row ;;; Ret (share_ok row)
  end.

(** The gates after the row is found. *)
Definition share_gate (deps : ApplyShareDeps) (row : ShareGrantRow) : option ShareRefusal :=
  if sr_viaLink row then Some link_share
  else if negb (bool_decide (sr_verdict row = clean)) then Some manual_only
  else if negb (as_lifecycleDone deps) then Some not_cut_over
  else if negb (defined (as_createShare deps)) then Some no_share_api
  else None.

(** The call and its [catch]. *)
Definition create_share (f : ShareGrantRow -> Env -> (string + option string) * Env) (row : ShareGrantRow)
    : prog W string (option string) :=
  act (fun w => let '(r, e) := f row w.2 in (match r with inl err => Some err | inr o => o end, (w.1, e))).

Definition applyShareGrant (deps : ApplyShareDeps) (grantId : string) : prog W string ShareActionOutcome :=
  let! found := findOpenRow deps grantId in
  match found with
  | inl c => Ret (share_refused c)
  | inr row =>
      match share_gate deps row, as_createShare deps with
      | Some c, _ => Ret (share_refused c)
      | None, None => Ret (share_refused no_share_api)
      | None, Some f =>
          let! refusal := create_share f row in
          match refusal with
          | Some reason => Ret (share_refused (target_refused reason))
          | None => decide_and_audit deps grantId "share.applied" (mkDecided sh_applied (sq_decidedBy deps) None)
          end
      end
  end.

(** [state] is [sh_done_manual] or [sh_skipped]. *)
Definition markShareGrant (deps : ShareQueueDeps) (grantId : string) (state : ShareState) (reason : option string)
    : prog W string ShareActionOutcome :=
  let! found := findOpenRow deps grantId in
  match found with
  | inl c => Ret (share_refused c)
  | inr _ =>
      decide_and_audit deps grantId
        (if bool_decide (state = sh_done_manual) then "share.done_manual" else "share.skipped")%string
        (mkDecided state (sq_decidedBy deps) (truthy reason))
  end.
End statements.

(** ** What the statements do to a row *)

(** What identifies a row and what the gates read. *)
Definition grant_facts (r : share_row) :=
  (sg_id r, sg_subject r, sg_onLabel r, sg_grantee r, sg_role r, sg_viaLink r, sg_raw r, sg_verdict r,
   sg_verdictTarget r).

Definition decision_of (r : share_row) := (sg_state r, sg_stateReason r, sg_decidedBy r, sg_decidedAt r).

(** [share_grant_decided_check], and that a decision has its decider. *)
Definition decided_check (r : share_row) : Prop :=
  (sg_state r = sh_open <-> sg_decidedAt r = None) /\ (sg_state r = sh_open <-> sg_decidedBy r = None).

Definition row_kept (r r' : share_row) : Prop :=
  grant_facts r' = grant_facts r /\ (sg_state r <> sh_open -> decision_of r' = decision_of r).

Section table.
Context (newId : nat -> string) `{!Inj (=) (=) newId}.
Context (scan : gmap share_key share_row -> list (share_key * share_row)).
Hypothesis scan_perm : forall g, scan g ≡ₚ map_to_list g.

Record share_wf (s : SharePg) : Prop := {
  wf_drawn : forall k r, sh_grants s !! k = Some r -> exists i, (i < sh_next s)%nat /\ sg_id r = newId i;
  wf_unique : forall k k' r r', sh_grants s !! k = Some r -> sh_grants s !! k' = Some r' ->
                sg_id r = sg_id r' -> k = k';
  wf_check : forall k r, sh_grants s !! k = Some r -> decided_check r
}.

(** Any statement of any process; the clock and the audit log move freely. *)
Inductive share_step : SharePg -> SharePg -> Prop :=
| step_upsert t m g s : share_step s (upsert_grant newId t m g s).2
| step_decide t m i d s : dc_state d <> sh_open -> share_step s (decideShareGrant scan t m i d s).2
| step_other pg s : share_step s (s <| sh_pg := pg |>).

Definition keeps_rows (s s' : SharePg) : Prop :=
  forall k r, sh_grants s !! k = Some r -> exists r', sh_grants s' !! k = Some r' /\ row_kept r r'.

#[local] Instance keeps_rows_preorder : PreOrder keeps_rows.
Proof.
  split.
  - intros s k r H. exists r. done.
  - intros s1 s2 s3 H12 H23 k r H. destruct (H12 _ _ H) as (r2 & H2 & F2 & D2).
    destruct (H23 _ _ H2) as (r3 & H3 & F3 & D3). exists r3. split; [done|]. split; [congruence|].
    intros Hs. specialize (D2 Hs). rewrite <- D2. apply D3. unfold decision_of in D2.
    injection D2 as -> _ _ _. done.
Qed.

Lemma settle_facts d now r : grant_facts (settle d now r) = grant_facts r.
Proof. unfold settle. by destruct (truthy _). Qed.

Lemma settle_decision d now r :
  sg_state (settle d now r) = dc_state d /\ sg_decidedBy (settle d now r) = Some (dc_by d)
  /\ sg_decidedAt (settle d now r) = Some now.
Proof. unfold settle. by destruct (truthy _). Qed.

Lemma settle_check d now r : dc_state d <> sh_open -> decided_check (settle d now r).
Proof.
  intros Hd. unfold decided_check. destruct (settle_decision d now r) as (-> & -> & ->). naive_solver.
Qed.

(** The rows the [WHERE] of [decideShareGrant] selects. *)
Lemma awaiting_rows t m i s kr :
  kr ∈ base.filter (awaits t m i) (scan (sh_grants s)) <-> sh_grants s !! kr.1 = Some kr.2 /\ awaits t m i kr.
Proof using scan_perm. destruct kr as [k r]. rewrite list_elem_of_filter, scan_perm, elem_of_map_to_list. naive_solver. Qed.

Lemma decide_lookup t m i d s k :
  sh_grants (decideShareGrant scan t m i d s).2 !! k =
  (fun r => if bool_decide (awaits t m i (k, r)) then settle d (pg_now (sh_pg s)) r else r) <$> sh_grants s !! k.
Proof. cbn. rewrite map_lookup_imap. by destruct (sh_grants s !! k). Qed.

(** The update wins exactly when an open row of the mapping has the id, and
    then it changes that row alone. *)
Lemma decide_spec t m i d s : share_wf s ->
  match (decideShareGrant scan t m i d s).1 with
  | Some rec => exists k r, sh_grants s !! k = Some r /\ awaits t m i (k, r)
      /\ rec = share_record (k, settle d (pg_now (sh_pg s)) r)
      /\ sh_grants (decideShareGrant scan t m i d s).2 = <[k := settle d (pg_now (sh_pg s)) r]> (sh_grants s)
  | None => (forall k r, sh_grants s !! k = Some r -> ~ awaits t m i (k, r))
      /\ sh_grants (decideShareGrant scan t m i d s).2 = sh_grants s
  end.
Proof using scan_perm.
  intros Hwf. pose proof (awaiting_rows t m i s) as Hrows.
  cbn [decideShareGrant fst]. destruct (base.filter _ _) as [|[k r] l] eqn:E; cbn.
  - assert (Hno : forall k r, sh_grants s !! k = Some r -> ~ awaits t m i (k, r)).
    { intros k r Hk Ha. by apply (not_elem_of_nil (k, r)), Hrows. }
    split; [done|]. apply map_eq; intros k. rewrite map_lookup_imap.
    destruct (sh_grants s !! k) as [r|] eqn:Ek; [|done]. cbn.
    rewrite bool_decide_false; [done|]. by apply Hno.
  - destruct (proj1 (Hrows (k, r))) as [Hk Ha]; [by left|]. cbn in Hk. exists k, r. split_and!; [done..|].
    apply map_eq; intros k'. rewrite map_lookup_imap. destruct (decide (k' = k)) as [->|Hne].
    + rewrite Hk, lookup_insert_eq. cbn. by rewrite bool_decide_true.
    + rewrite lookup_insert_ne by done. destruct (sh_grants s !! k') as [r'|] eqn:Ek'; [|done]. cbn.
      rewrite bool_decide_false; [done|]. intros Ha'. apply Hne.
      apply (wf_unique _ Hwf _ _ _ _ Ek' Hk). destruct Ha as (_ & Ha & _), Ha' as (_ & Ha' & _). cbn in *. congruence.
Qed.

Lemma share_step_keeps s s' : share_step s s' -> share_wf s -> keeps_rows s s' /\ share_wf s'.
Proof using All.
  intros [t m g s0|t m i d s0 Hd|pg s0] Hwf; clear s s'.
  - unfold upsert_grant. set (k := (t, m, in_grantHash g) : share_key). destruct (sh_grants s0 !! k) as [r|] eqn:E; cbn [snd].
    + set (r1 := r <| sg_scannedAt := pg_now (sh_pg s0) |>).
      assert (Hb : forall k' r', <[k := r1]> (sh_grants s0) !! k' = Some r' ->
                exists r0, sh_grants s0 !! k' = Some r0 /\ sg_id r0 = sg_id r' /\ (decided_check r0 -> decided_check r')).
      { intros k' r' [[<- <-]|[_ H]]%lookup_insert_Some; eauto. }
      match goal with |- keeps_rows _ ?s1 /\ _ =>
        assert (Hg : sh_grants s1 = <[k := r1]> (sh_grants s0)) by done; assert (Hn : sh_next s1 = sh_next s0) by done
      end.
      split; [|split]; unfold keeps_rows; rewrite ?Hg, ?Hn.
      * intros k' r' Hk'. destruct (decide (k = k')) as [<-|Hne].
        -- injection (eq_trans (eq_sym E) Hk') as <-. exists r1. rewrite lookup_insert_eq. split; [done|]. by split.
        -- exists r'. by rewrite lookup_insert_ne.
      * intros k' r' (r0 & H0 & <- & _)%Hb. by apply (wf_drawn _ Hwf _ _ H0).
      * intros k1 k2 x1 x2 (a & Ha & <- & _)%Hb (b & Hb' & <- & _)%Hb Hid. by apply (wf_unique _ Hwf _ _ _ _ Ha Hb').
      * intros k' r' (r0 & H0 & _ & Hc)%Hb. by apply Hc, (wf_check _ Hwf _ _ H0).
    + match goal with |- keeps_rows _ ?s1 /\ _ =>
        assert (Hg : sh_grants s1 = <[k := fresh_share g (newId (sh_next s0)) (pg_now (sh_pg s0))]> (sh_grants s0)) by done;
        assert (Hn : sh_next s1 = S (sh_next s0)) by done
      end.
      split; [|split]; unfold keeps_rows; rewrite ?Hg, ?Hn.
      * intros k' r' Hk'. exists r'. rewrite lookup_insert_ne by congruence. done.
      * intros k' r' [[<- <-]|[_ H]]%lookup_insert_Some; [by exists (sh_next s0); split; [lia|]|].
        destruct (wf_drawn _ Hwf _ _ H) as (n & Hlt & ?). exists n. split; [lia|done].
      * assert (Hnew : forall k' r', sh_grants s0 !! k' = Some r' -> sg_id r' <> newId (sh_next s0)).
        { intros k' r' H Hid. destruct (wf_drawn _ Hwf _ _ H) as (n & Hlt & Hid'). rewrite Hid in Hid'.
          apply (inj newId) in Hid'. lia. }
        intros k1 k2 r1 r2 [[<- <-]|[_ H1]]%lookup_insert_Some [[<- <-]|[_ H2]]%lookup_insert_Some Hid;
          cbn in Hid; [done|by destruct (Hnew _ _ H2)|by destruct (Hnew _ _ H1)|].
        by apply (wf_unique _ Hwf _ _ _ _ H1 H2).
      * intros k' r' [[<- <-]|[_ H]]%lookup_insert_Some; [done|by apply (wf_check _ Hwf _ _ H)].
  - pose proof (decide_spec t m i d s0 Hwf) as Hspec.
    set (s1 := (decideShareGrant scan t m i d s0).2) in *.
    assert (Hnext : sh_next s1 = sh_next s0) by done.
    destruct (decideShareGrant scan t m i d s0).1 as [rec|].
    + destruct Hspec as (k & r & Hk & Ha & _ & Hs1).
      assert (Hb : forall k' r', sh_grants s1 !! k' = Some r' -> exists r0, sh_grants s0 !! k' = Some r0
                   /\ grant_facts r' = grant_facts r0 /\ decided_check r').
      { intros k' r'. rewrite Hs1. intros [[<- <-]|[_ H]]%lookup_insert_Some.
        - exists r. split_and!; [done|apply settle_facts|by apply settle_check].
        - exists r'. split_and!; [done..|]. by apply (wf_check _ Hwf k' r'). }
      split; [|split].
      * intros k' r' Hk'. rewrite Hs1. destruct (decide (k = k')) as [<-|Hne].
        -- injection (eq_trans (eq_sym Hk) Hk') as <-. exists (settle d (pg_now (sh_pg s0)) r).
           rewrite lookup_insert_eq. split; [done|]. split; [apply settle_facts|]. destruct Ha as (_ & _ & Ha). done.
        -- exists r'. by rewrite lookup_insert_ne.
      * intros k' r' (r0 & H0 & Hf & _)%Hb. rewrite Hnext. destruct (wf_drawn _ Hwf _ _ H0) as (n & ? & ?).
        exists n. split; [done|]. unfold grant_facts in Hf. congruence.
      * intros k1 k2 r1 r2 (a & Ha1 & Hf1 & _)%Hb (b & Hb2 & Hf2 & _)%Hb Hid.
        apply (wf_unique _ Hwf _ _ _ _ Ha1 Hb2). unfold grant_facts in *. congruence.
      * by intros k' r' (r0 & _ & _ & ?)%Hb.
    + destruct Hspec as [_ Hs1]. split; [intros k r Hk; exists r; by rewrite Hs1|].
      destruct Hwf. split; rewrite ?Hs1, ?Hnext; done.
  - split; [by intros k r Hk; exists r|]. by destruct Hwf.
Qed.

Lemma share_steps_keep s s' : rtc share_step s s' -> share_wf s -> keeps_rows s s' /\ share_wf s'.
Proof using All.
  induction 1 as [s|s1 s2 s3 H12 _ IH]; intros Hwf; [done|].
  destruct (share_step_keeps _ _ H12 Hwf) as [H1 Hwf2], (IH Hwf2) as [H2 Hwf3]. split; [by etrans|done].
Qed.

(** ** The decisions *)

(** What was settled stays settled.  Whatever rescans, decisions and other
    statements any processes run, in any order: no row goes away, none changes
    its identity or what the gates read, a settled row keeps its state, its
    reason, its decider and its date, and every row has a decider and a date
    exactly when it is not open.  Of all who ever decide about one row at most
    one is told that he did. *)
Theorem settled_stays_settled s s' : share_wf s -> rtc share_step s s' ->
  (share_wf s' /\ keeps_rows s s')
  /\ forall t m i d t' m' d', dc_state d <> sh_open ->
       is_Some (decideShareGrant scan t m i d s).1 ->
       rtc share_step (decideShareGrant scan t m i d s).2 s' ->
       (decideShareGrant scan t' m' i d' s').1 = None.
Proof using All.
  intros Hwf Hrtc. destruct (share_steps_keep _ _ Hrtc Hwf) as [Hkeep Hwf']. split; [done|].
  intros t m i d t' m' d' Hd [rec Hrec] Hlater.
  pose proof (decide_spec t m i d s Hwf) as Hspec. rewrite Hrec in Hspec.
  destruct Hspec as (k & r & _ & (_ & Hid & _) & _ & Hs1).
  destruct (share_step_keeps _ _ (step_decide t m i d s Hd) Hwf) as [_ Hwf1].
  destruct (share_steps_keep _ _ Hlater Hwf1) as [Hkeep' _].
  destruct (Hkeep' k (settle d (pg_now (sh_pg s)) r)) as (r' & Hr' & Hf & Hdec); [by rewrite Hs1, lookup_insert_eq|].
  rewrite settle_facts in Hf. destruct (settle_decision d (pg_now (sh_pg s)) r) as (Hst & _ & _).
  rewrite Hst in Hdec. specialize (Hdec Hd).
  pose proof (decide_spec t' m' i d' s' Hwf') as Hspec'. destruct (decideShareGrant scan t' m' i d' s').1; [|done].
  destruct Hspec' as (k2 & r2 & Hk2 & (_ & Hid2 & Hopen) & _). exfalso. cbn in *.
  unfold grant_facts in Hf. unfold decision_of in Hdec.
  assert (k2 = k) as -> by (apply (wf_unique _ Hwf' _ _ _ _ Hk2 Hr'); congruence).
  congruence.
Qed.

Context (collate : string -> string -> comparison) {Env : Type}.

Lemma listed_rows t m s rec : rec ∈ listShareGrants scan collate t m s <->
  exists k r, sh_grants s !! k = Some r /\ k.1 = (t, m) /\ rec = share_record (k, r).
Proof using scan_perm.
  unfold listShareGrants. rewrite list_elem_of_fmap. setoid_rewrite (merge_sort_Permutation (checklist_order collate) _).
  split.
  - intros ([k r] & -> & H). rewrite list_elem_of_filter, scan_perm, elem_of_map_to_list in H. naive_solver.
  - intros (k & r & Hk & Hm & ->). exists (k, r). split; [done|].
    rewrite list_elem_of_filter, scan_perm, elem_of_map_to_list. naive_solver.
Qed.

Lemma share_record_fields k r :
  sr_id (share_record (k, r)) = sg_id r /\ sr_state (share_record (k, r)) = sg_state r
  /\ sr_viaLink (share_record (k, r)) = sg_viaLink r /\ sr_verdict (share_record (k, r)) = sg_verdict r.
Proof. by destruct k as [[t m] h]. Qed.

(** What [findOpenRow] finds. *)
Lemma found_row t m i s : share_wf s ->
  match base.filter (fun r => sr_id r = i) (listShareGrants scan collate t m s) with
  | [] => forall k r, sh_grants s !! k = Some r -> k.1 = (t, m) -> sg_id r <> i
  | rec :: _ => exists k r, sh_grants s !! k = Some r /\ k.1 = (t, m) /\ sg_id r = i /\ rec = share_record (k, r)
  end.
Proof using scan_perm.
  intros Hwf. destruct (base.filter _ _) as [|rec l] eqn:E.
  - intros k r Hk Hm Hid. apply (not_elem_of_nil (share_record (k, r))). rewrite <- E, list_elem_of_filter, listed_rows.
    split; [|by exists k, r]. rewrite <- Hid. apply share_record_fields.
  - assert (H : rec ∈ rec :: l) by left. rewrite <- E, list_elem_of_filter, listed_rows in H.
    destruct H as [Hid (k & r & Hk & Hm & ->)]. exists k, r. split_and!; [done..| |done].
    rewrite <- Hid. symmetry. apply share_record_fields.
Qed.

(** What applying a grant does, run alone, to every row and whatever the
    target answers.  Nothing changes and nobody is asked unless the row is an
    open one of the mapping, is no link, has a clean equivalent, the migration
    is finished and the target has a share API; a refusal of the target leaves
    the row open; otherwise the row is settled in the owner's name and the
    audit log has one more entry. *)
Theorem applyShareGrant_effect (deps : ApplyShareDeps) i (w : SharePg * Env) : share_wf w.1 ->
  ((forall k r, sh_grants w.1 !! k = Some r -> k.1 = (sq_tenantId deps, sq_mappingId deps) -> sg_id r <> i) ->
   run (applyShareGrant scan collate deps i) w = (inr (share_refused row_not_found), w))
  /\ forall k r, sh_grants w.1 !! k = Some r -> k.1 = (sq_tenantId deps, sq_mappingId deps) -> sg_id r = i ->
     let rec := share_record (k, r) in
     let settled := settle (mkDecided sh_applied (sq_decidedBy deps) None) (pg_now (sh_pg w.1)) r in
     run (applyShareGrant scan collate deps i) w =
     if negb (bool_decide (sg_state r = sh_open)) then (inr (share_refused already_settled), w)
     else match share_gate deps rec, as_createShare deps with
     | Some c, _ => (inr (share_refused c), w)
     | None, None => (inr (share_refused no_share_api), w)
     | None, Some f =>
         match f rec w.2 with
         | (inl reason, e) | (inr (Some reason), e) => (inr (share_refused (target_refused reason)), (w.1, e))
         | (inr None, e) =>
             (inr (share_ok (share_record (k, settled))),
              (share_audit (sq_tenantId deps) (share_event deps "share.applied" (share_record (k, settled)))
                 (w.1 <| sh_grants ::= <[k := settled]> |>), e))
         end
     end.
Proof using scan_perm.
  destruct w as [s e]; cbn [fst snd]. intros Hwf. unfold applyShareGrant, findOpenRow. rewrite !run_bind. cbn [run ask_share act pbind fst].
  pose proof (found_row (sq_tenantId deps) (sq_mappingId deps) i s Hwf) as Hfound.
  destruct (base.filter _ _) as [|rec l] eqn:E.
  - split; [done|]. intros k r Hk Hm Hid. by destruct (Hfound k r Hk Hm).
  - destruct Hfound as (k0 & r0 & Hk0 & Hm0 & Hid0 & ->).
    destruct (share_record_fields k0 r0) as (_ & Hst & _ & _).
    split; [intros Hno; by destruct (Hno k0 r0)|]. intros k r Hk Hm Hid.
    set (rec := share_record (k, r)). set (settled := settle (mkDecided _ _ _) _ r).
    assert (k0 = k) as -> by (apply (wf_unique _ Hwf _ _ _ _ Hk0 Hk); congruence).
    assert (r0 = r) as -> by congruence. fold rec. change (sr_state rec = sg_state r) in Hst. rewrite Hst.
    case_bool_decide as Hopen; cbn [negb]; [|done].
    destruct (share_gate deps rec) as [c|]; [done|]. destruct (as_createShare deps) as [f|]; [|done].
    rewrite run_bind. cbn [run create_share act fst snd]. destruct (f rec e) as [[reason|[reason|]] e']; [done..|].
    unfold decide_and_audit. rewrite run_bind. cbn [run tell_share act fst snd].
    pose proof (decide_spec (sq_tenantId deps) (sq_mappingId deps) i (mkDecided sh_applied (sq_decidedBy deps) None) s Hwf) as Hspec.
    destruct (decideShareGrant _ _ _ _ _ _) as [o s1] eqn:Ed. cbn [fst snd] in Hspec.
    destruct o as [rec'|]; [|by destruct (proj1 Hspec k r Hk)].
    destruct Hspec as (k2 & r2 & Hk2 & (_ & Hid2 & _) & -> & Hs1). cbn in Hid2.
    assert (k2 = k) as -> by (apply (wf_unique _ Hwf _ _ _ _ Hk2 Hk); congruence).
    injection (eq_trans (eq_sym Hk) Hk2) as <-.
    assert (s1 = s <| sh_grants ::= <[k := settled]> |>) as ->.
    { replace s1 with (mkSharePg (sh_grants s1) (sh_next s) (sh_pg s)) by (by injection Ed as _ <-). by rewrite Hs1. }
    done.
Qed.

(** ** Applying while others work on the queue *)

(** The others: any statements, and anything at all outside. *)
Definition others (w w' : SharePg * Env) : Prop := rtc share_step w.1 w'.1.

#[local] Instance others_preorder : PreOrder others.
Proof. split; [by intros w; apply rtc_refl|intros w1 w2 w3 H12 H23; unfold others in *; by etrans]. Qed.

(** The row licenses the call: found open since the action began, in this
    mapping, under this id, and with every gate passed. *)
Definition share_licence (deps : ApplyShareDeps (Env := Env)) (i : string) (s0 s : SharePg) (k : share_key) (r : share_row) : Prop :=
  (exists s1, rtc share_step s0 s1 /\ rtc share_step s1 s /\ sh_grants s1 !! k = Some r)
  /\ k.1 = (sq_tenantId deps, sq_mappingId deps) /\ sg_id r = i /\ sg_state r = sh_open
  /\ sg_viaLink r = false /\ sg_verdict r = clean /\ as_lifecycleDone deps = true.

Definition licensed_call (deps : ApplyShareDeps (Env := Env)) (i : string) (w0 w w' : SharePg * Env) : Prop :=
  rtc share_step w.1 w'.1
  /\ (w'.2 = w.2
      \/ exists k r f, share_licence deps i w0.1 w.1 k r /\ as_createShare deps = Some f
                       /\ w'.2 = (f (share_record (k, r)) w.2).2).

Definition settled_by (who i : string) (st : ShareState) (s : SharePg) : Prop :=
  exists k r, sh_grants s !! k = Some r /\ sg_id r = i /\ sg_state r = st /\ sg_decidedBy r = Some who.

Lemma settled_by_stays who i st s s' : st <> sh_open -> share_wf s -> rtc share_step s s' ->
  settled_by who i st s -> settled_by who i st s'.
Proof using All.
  intros Hst Hwf Hrtc (k & r & Hk & Hid & Hs & Hby).
  destruct (share_steps_keep _ _ Hrtc Hwf) as [Hkeep _]. destruct (Hkeep k r Hk) as (r' & Hk' & Hf & Hd).
  exists k, r'. split; [done|]. unfold grant_facts in Hf.
  assert (Hd' : decision_of r' = decision_of r) by (apply Hd; congruence). unfold decision_of in Hd'.
  split_and!; congruence.
Qed.

Lemma decide_and_audit_rg (deps : ShareQueueDeps) i action d (G : SharePg * Env -> SharePg * Env -> Prop) w :
  dc_state d <> sh_open -> share_wf w.1 ->
  (forall w1 w2, others w w1 -> rtc share_step w1.1 w2.1 -> w2.2 = w1.2 -> G w1 w2) ->
  rg others G (decide_and_audit scan deps i action d)
    (fun o w' => match o with share_ok _ => settled_by (dc_by d) i (dc_state d) w'.1 | _ => True end)
    (fun _ _ => False) w.
Proof using All.
  intros Hd Hwf HG. unfold decide_and_audit. apply rg_bind; [apply _|]. apply rg_act. intros w1 o w2 Hw1 Hf.
  destruct (share_steps_keep _ _ Hw1 Hwf) as [_ Hwf1].
  pose proof (decide_spec (sq_tenantId deps) (sq_mappingId deps) i d w1.1 Hwf1) as Hspec.
  pose proof (step_decide (sq_tenantId deps) (sq_mappingId deps) i d w1.1 Hd) as Hstep.
  destruct (decideShareGrant _ _ _ _ _ _) as [o' s2]. injection Hf as <- <-. cbn [fst snd] in *.
  split; [apply HG; [done|by apply rtc_once|done]|]. intros w3 Hw3.
  destruct o' as [rec|]; [|by intros w' _]. cbn [audit tell_share pbind act].
  destruct Hspec as (k & r & _ & (_ & Hid & _) & _ & Hs2). cbn in Hid.
  assert (Hset : settled_by (dc_by d) i (dc_state d) s2).
  { destruct (settle_decision d (pg_now (sh_pg w1.1)) r) as (Hst & Hby & _).
    exists k, (settle d (pg_now (sh_pg w1.1)) r). rewrite Hs2, lookup_insert_eq. split_and!; [done| |done..].
    pose proof (settle_facts d (pg_now (sh_pg w1.1)) r) as Hf. unfold grant_facts in Hf. congruence. }
  destruct (share_step_keeps _ _ Hstep Hwf1) as [_ Hwf2].
  intros w4 Hw4. assert (Hrtc : rtc share_step s2 w4.1) by (etrans; [exact Hw3|exact Hw4]).
  split.
  - apply HG; [|apply rtc_once, (step_other _ w4.1)|done].
    unfold others in *. etrans; [exact Hw1|]. etrans; [by apply rtc_once|done].
  - intros w5 Hw5. apply (settled_by_stays _ _ _ s2); [done..| |done].
    transitivity w4.1; [exact Hrtc|]. unfold others in Hw5. cbn [fst] in Hw5.
    eapply rtc_l; [apply step_other|exact Hw5].
Qed.

(** C37: nobody is invited without a licence.  Whatever other sessions do to the
    queue and the target meanwhile, applying a grant calls the target only for
    a row it found open under that id in that mapping, that is no link, has a
    clean equivalent, on a migration that is finished; and when it answers
    that the share was applied, the table says so in the owner's name from
    then on. *)
Theorem share_needs_licence (deps : ApplyShareDeps (Env := Env)) i (w : SharePg * Env) : share_wf w.1 ->
  rg others (licensed_call deps i w) (applyShareGrant scan collate deps i)
    (fun o w' => match o with share_ok _ => settled_by (sq_decidedBy deps) i sh_applied w'.1 | _ => True end)
    (fun _ _ => False) w.
Proof using All.
  intros Hwf. unfold applyShareGrant, findOpenRow. apply rg_bind; [apply _|]. apply rg_bind; [apply _|]. apply rg_act.
  intros w1 rows w2 Hw1 [= <- <-]. split; [split; [done|by left]|]. intros w3 Hw3.
  destruct (share_steps_keep _ _ Hw1 Hwf) as [_ Hwf1].
  pose proof (found_row (sq_tenantId deps) (sq_mappingId deps) i w1.1 Hwf1) as Hfound.
  destruct (base.filter _ _) as [|rec l]; intros w4 Hw4; [by intros w' _|].
  destruct Hfound as (k & r & Hk & Hm & Hid & ->).
  assert (Hw14 : others w1 w4) by (by etrans). destruct k as [[t m] h].
  case_bool_decide as Hopen; [|by intros w' _]. cbn in Hopen.
  destruct (share_gate deps _) as [c|] eqn:Hgate; [by intros w' _|].
  destruct (as_createShare deps) as [f|] eqn:Hf; [|by intros w' _].
  assert (Hpass : sg_viaLink r = false /\ sg_verdict r = clean /\ as_lifecycleDone deps = true).
  { unfold share_gate in Hgate. cbn in Hgate. destruct (sg_viaLink r); [done|].
    case_bool_decide; [|done]. by destruct (as_lifecycleDone deps). }
  apply rg_bind; [apply _|]. apply rg_act. intros w5 refusal w6 Hw5 Hcall.
  destruct (f _ w5.2) as [res e] eqn:Hres. injection Hcall as <- <-. split.
  - split; [done|]. right. exists (t, m, h), r, f. split; [|split; [done|exact (eq_sym (f_equal snd Hres))]].
    split; [|naive_solver]. exists w1.1. split_and!; [exact Hw1| |done]. etrans; [exact Hw14|exact Hw5].
  - intros w7 Hw7. assert (Hw67 : others w w7).
    { unfold others in *. cbn in Hw7. do 3 (etrans; [done|]). done. }
    destruct (share_steps_keep _ _ Hw67 Hwf) as [_ Hwf7].
    destruct (match res with inl err => Some err | inr o => o end); [by intros w' _|].
    apply (decide_and_audit_rg deps i "share.applied" (mkDecided sh_applied (sq_decidedBy deps) None)); [done..|].
    intros wa wb _ Hstep He. split; [done|by left].
Qed.
End table.

(** ** Rescans *)

Section rescan.
Context (newId : nat -> string) {Env : Type}.

(** What a rescan may do to a row. *)
Definition rescanned (r r' : share_row) : Prop :=
  grant_facts r' = grant_facts r /\ decision_of r' = decision_of r.

Definition row_open (s : SharePg) (k : share_key) : bool :=
  match sh_grants s !! k with Some r => bool_decide (sg_state r = sh_open) | None => false end.

Definition key_of (t m : string) (g : ShareGrantInput) : share_key := (t, m, in_grantHash g).

(** The effect of upserting [gs], and the count. *)
Record upserted (t m : string) (gs : list ShareGrantInput) (s s' : SharePg) (n : Z) : Prop := {
  up_kept : forall k r, sh_grants s !! k = Some r -> exists r', sh_grants s' !! k = Some r' /\ rescanned r r';
  up_there : forall g, g ∈ gs -> is_Some (sh_grants s' !! key_of t m g);
  up_new : forall k r', sh_grants s !! k = None -> sh_grants s' !! k = Some r' ->
    exists g id, g ∈ gs /\ k = key_of t m g /\ rescanned (fresh_share g id (pg_now (sh_pg s))) r';
  up_count : n = Z.of_nat (length (base.filter (fun g => row_open s' (key_of t m g) = true) gs));
  up_rest : sh_pg s' = sh_pg s
}.

Definition checks_hold (s : SharePg) : Prop := forall k r, sh_grants s !! k = Some r -> decided_check r.

Lemma upsert_grant_spec t m g s : checks_hold s ->
  let '(b, s') := upsert_grant newId t m g s in
  checks_hold s' /\ b = row_open s' (key_of t m g) /\ sh_pg s' = sh_pg s
  /\ exists r', sh_grants s' = <[key_of t m g := r']> (sh_grants s)
     /\ match sh_grants s !! key_of t m g with
        | Some r => rescanned r r'
        | None => exists id, r' = fresh_share g id (pg_now (sh_pg s))
        end.
Proof.
  intros Hc. unfold upsert_grant. fold (key_of t m g). set (k := key_of t m g).
  destruct (sh_grants s !! k) as [r|] eqn:E; cbn [fst snd].
  - set (r' := r <| sg_scannedAt := _ |>).
    assert (Hg : sh_grants (s <| sh_grants ::= <[k := r']> |>) = <[k := r']> (sh_grants s)) by done.
    split_and!; [| |done|by exists r'].
    + intros k' x. rewrite Hg. intros [[<- <-]|[_ H]]%lookup_insert_Some; [exact (Hc _ _ E)|exact (Hc _ _ H)].
    + unfold row_open. rewrite Hg, lookup_insert_eq. cbn. destruct (proj1 (Hc _ _ E)) as [H1 H2].
      case_bool_decide as Ho; [|done]. by rewrite (H1 Ho).
  - set (r' := fresh_share g _ _).
    set (s' := s <| sh_grants ::= <[k := r']> |> <| sh_next ::= S |>).
    assert (Hg : sh_grants s' = <[k := r']> (sh_grants s)) by done.
    split_and!; [| |done|by exists r'; split; [|eexists]].
    + intros k' x. rewrite Hg. intros [[<- <-]|[_ H]]%lookup_insert_Some; [by split|exact (Hc _ _ H)].
    + unfold row_open. by rewrite Hg, lookup_insert_eq.
Qed.

Lemma rescanned_refl r : rescanned r r.
Proof. done. Qed.

Lemma rescanned_trans r1 r2 r3 : rescanned r1 r2 -> rescanned r2 r3 -> rescanned r1 r3.
Proof. unfold rescanned. intros [-> ->] [-> ->]. done. Qed.

Lemma rescanned_open s s' k r : sh_grants s !! k = Some r ->
  (forall k r, sh_grants s !! k = Some r -> exists r', sh_grants s' !! k = Some r' /\ rescanned r r') ->
  row_open s' k = row_open s k.
Proof.
  intros Hk H. destruct (H k r Hk) as (r' & Hk' & _ & Hd). unfold row_open. rewrite Hk, Hk'.
  unfold decision_of in Hd. by injection Hd as -> _ _ _.
Qed.

Lemma upsert_from_spec t m gs : forall c s (e : Env), checks_hold s ->
  exists n s', run (upsert_from newId t m c gs) (s, e) = (inr (c + n), (s', e)) /\ upserted t m gs s s' n.
Proof.
  induction gs as [|g gs IH]; intros c s e Hc; cbn [upsert_from].
  - exists 0, s. rewrite Z.add_0_r. split; [done|]. split; [|set_solver| |done|done].
    + intros k r H. by exists r.
    + congruence.
  - rewrite run_bind. cbn [run tell_share act fst snd].
    pose proof (upsert_grant_spec t m g s Hc) as Hg. destruct (upsert_grant newId t m g s) as [b s1].
    destruct Hg as (Hc1 & Hb & Hpg & r1 & Hs1 & Hr1).
    destruct (IH (if b then c + 1 else c) s1 e Hc1) as (n & s' & Hrun & [Hk Ht Hn Hcnt Hrest]).
    assert (Hr1' : sh_grants s1 !! key_of t m g = Some r1) by (by rewrite Hs1, lookup_insert_eq).
    exists ((if b then 1 else 0) + n), s'. rewrite Hrun. cbn [run]. split; [by destruct b; do 2 f_equal; lia|].
    split.
    + intros k r Hkr. destruct (decide (k = key_of t m g)) as [->|Hne].
      * rewrite Hkr in Hr1. destruct (Hk _ _ Hr1') as (r' & ? & ?). exists r'. split; [done|].
        by eapply rescanned_trans.
      * apply Hk. by rewrite Hs1, lookup_insert_ne.
    + intros g' [->|Hg']%elem_of_cons; [|by apply Ht]. destruct (Hk _ _ Hr1') as (r' & -> & _). eauto.
    + intros k r' Hnone Hsome. destruct (decide (k = key_of t m g)) as [->|Hne].
      * rewrite Hnone in Hr1. destruct Hr1 as [id ->]. exists g, id. destruct (Hk _ _ Hr1') as (r2 & H2 & ?).
        split_and!; [by left|done|]. congruence.
      * destruct (Hn k r') as (g' & id & Hg' & ? & ?); [by rewrite Hs1, lookup_insert_ne|done|].
        exists g', id. rewrite <- Hpg. split_and!; [by right|done|done].
    + rewrite Hcnt, Hb, <- (rescanned_open s1 s' _ _ Hr1' Hk), filter_cons. destruct (row_open s' (key_of t m g)); cbn.
      * rewrite decide_True by done. cbn. lia.
      * rewrite decide_False by done. lia.
    + congruence.
Qed.

(** The scans alone: all listings in order, or the first error. *)
Fixpoint ask_all (scans : list (Env -> (string + Listing) * Env)) (e : Env) : (string + list Listing) * Env :=
  match scans with
  | [] => (inr [], e)
  | f :: scans' =>
      match f e with
      | (inl err, e1) => (inl err, e1)
      | (inr l, e1) => match ask_all scans' e1 with
                       | (inl err, e2) => (inl err, e2)
                       | (inr ls, e2) => (inr (l :: ls), e2)
                       end
      end
  end.

Definition grants_of (ls : list Listing) : list PermissionGrant :=
  concat ((fun l => match l with listed gs => gs | not_discoverable _ => [] end) <$> ls).

Definition reasons_of (ls : list Listing) : list string :=
  omap (fun l => match l with listed _ => None | not_discoverable r => Some r end) ls.

Context (rt : Runtime).

Lemma run_scans_spec scans : forall rows blind s (e : Env),
  run (run_scans rt scans rows blind) (s, e) =
  match ask_all scans e with
  | (inl err, e') => (inl err, (s, e'))
  | (inr ls, e') => (inr (rows ++ (shareGrantRowFrom rt <$> grants_of ls), blind ++ reasons_of ls), (s, e'))
  end.
Proof.
  induction scans as [|f scans IH]; intros rows blind s e; cbn [run_scans ask_all].
  - cbn. by rewrite !app_nil_r.
  - rewrite run_bind. cbn [run try_act fst snd]. destruct (f e) as [[err|[gs|reason]] e1]; cbn [run]; [done| |];
      rewrite IH; destruct (ask_all scans e1) as [[err|ls] e2]; try done.
    + unfold grants_of. cbn. by rewrite fmap_app, app_assoc.
    + cbn. by rewrite <- app_assoc.
Qed.

(** Looking again never takes a decision back.  A refresh that fails has
    changed nothing; one that answers has kept every row with its decision,
    every grant listed has its row, each new row is an open one made from a
    listed grant with the verdict of the table of equivalents, the blind spots
    are the reasons given, and [open] counts the listed grants - with their
    repetitions - whose row is open. *)
Theorem refresh_keeps_decisions t m scans s (e : Env) : checks_hold s ->
  match run (refreshShareGrants newId rt t m scans) (s, e) with
  | (inl err, w') => exists e', w' = (s, e') /\ ask_all scans e = (inl err, e')
  | (inr (n, blind), (s', e')) => exists ls,
      ask_all scans e = (inr ls, e') /\ blind = reasons_of ls
      /\ upserted t m (shareGrantRowFrom rt <$> grants_of ls) s s' n
  end.
Proof.
  intros Hc. unfold refreshShareGrants. rewrite run_bind, run_scans_spec.
  destruct (ask_all scans e) as [[err|ls] e'] eqn:E; [by exists e'|]. cbn [app fst snd].
  rewrite run_bind. destruct (upsert_from_spec t m (shareGrantRowFrom rt <$> grants_of ls) 0 s e' Hc)
    as (n & s' & Hrun & Hup). unfold upsertShareGrants. rewrite Hrun. cbn [run]. by exists ls.
Qed.
End rescan.

(** ** Identity of a grant *)

Fixpoint has_nul (s : string) : bool :=
  match s with String a s' => bool_decide (a = Ascii.ascii_of_nat 0) || has_nul s' | EmptyString => false end.

Lemma cut_at_nul a : forall b x y, has_nul a = false -> has_nul b = false ->
  (a ++ nul ++ x = b ++ nul ++ y)%string -> a = b /\ x = y.
Proof.
  induction a as [|c a IH]; intros [|c' b] x y Ha Hb H; cbn in *.
  - by injection H.
  - injection H as <- _. by rewrite bool_decide_true in Hb.
  - injection H as -> _. by rewrite bool_decide_true in Ha.
  - injection H as -> H. apply orb_false_iff in Ha as [_ Ha], Hb as [_ Hb].
    by destruct (IH b x y Ha Hb H) as [-> ->].
Qed.

(** What the module's comment calls a grant's identity. *)
Definition grant_identity (g : PermissionGrant) :=
  (gr_subject g, gr_on g, nullish (gr_grantee g) ""%string, gr_role g, nullish (gr_viaLink g) false).

Definition nul_free (g : PermissionGrant) : Prop :=
  has_nul (gr_on g) = false /\ has_nul (nullish (gr_grantee g) ""%string) = false /\ has_nul (gr_role g) = false.

(** A row is a grant.  Where SHA-256 does not collide on the two texts
    hashed and no field contains the separator, two grants share their row
    exactly when they agree on subject, object, grantee, role and link-ness. *)
Theorem hash_is_identity rt g g' : nul_free g -> nul_free g' ->
  (sha256Hex rt (grant_text g) = sha256Hex rt (grant_text g') -> grant_text g = grant_text g') ->
  (shareGrantHash rt g = shareGrantHash rt g' <-> grant_identity g = grant_identity g').
Proof.
  intros (Ho & Hg & Hr) (Ho' & Hg' & Hr') Hinj. unfold shareGrantHash. split.
  - intros H%Hinj. unfold grant_text in H. cbn [String.concat] in H.
    apply cut_at_nul in H as [Hs H]; [|by destruct (gr_subject g)|by destruct (gr_subject g')].
    apply cut_at_nul in H as [H1 H]; [|done..]. apply cut_at_nul in H as [H2 H]; [|done..].
    apply cut_at_nul in H as [H3 H4]; [|done..]. unfold grant_identity. rewrite H1, H2, H3.
    assert (gr_subject g = gr_subject g') as -> by (by destruct (gr_subject g), (gr_subject g')).
    by destruct (nullish (gr_viaLink g) false), (nullish (gr_viaLink g') false).
  - unfold grant_identity, grant_text. intros H. injection H as -> -> -> -> ->. done.
Qed.

(** The checklist's counts add up. *)
Lemma summary_adds_up rows : let s := summariseShareGrants rows in
  ss_total s = ss_open s + ss_applied s + ss_doneManual s + ss_skipped s
  /\ 0 <= ss_openManual s <= ss_open s.
Proof.
  unfold summariseShareGrants, count_rows, has_state; cbn.
  induction rows as [|r rows [IH1 IH2]]; [done|].
  rewrite !filter_cons. cbn [length]. destruct (sr_state r), (sr_verdict r); cbn in *;
    repeat (destruct (decide _) as [?|?]; try done; cbn [length]); lia.
Qed.

(** ** Instances *)

Definition sample_id (n : nat) : string := String.string_of_list_ascii (replicate n Ascii.Space).

#[local] Instance sample_id_inj : Inj (=) (=) sample_id.
Proof.
  intros n n' H. rewrite <- (length_replicate n Ascii.Space), <- (length_replicate n' Ascii.Space).
  unfold sample_id in H. apply (f_equal String.list_ascii_of_string) in H.
  rewrite !String.list_ascii_of_string_of_list_ascii in H. by rewrite H.
Qed.

Definition sample_hash : Runtime := mkRuntime (fun s => s) (fun s => s).

Definition anna : PermissionGrant :=
  mkPermissionGrant drive_item "plan.odt" (Some "anna@example.org"%string) "writer" "{}" None.

Definition shared_plan : SharePg :=
  (upsert_grant sample_id "t" "m" (shareGrantRowFrom sample_hash anna)
     (mkSharePg ∅ 0 (mkPgState ∅ [] 5))).2.

(** A target that sends an invitation for every share. *)
Definition inviting (row : ShareGrantRow) (sent : nat) : (string + option string) * nat := (inr None, S sent).

Definition owner_deps : ApplyShareDeps (Env := nat) :=
  mkApplyShareDeps (mkShareQueueDeps "t" "m" "owner") true (Some inviting).

Lemma shared_plan_wf : share_wf sample_id shared_plan.
Proof.
  apply (share_step_keeps sample_id (fun g => map_to_list g) (fun g => reflexivity _) _ _ (step_upsert _ _ _ _ _ _)).
  split; intros * H; discriminate H.
Qed.

(** The share is created before the row is decided: two sessions that apply
    the same row at once both have the target invite, and one is told that the
    other settled it. *)
Example invited_twice :
  snd ∘ snd <$> mapWithConcurrency ["";""]%string
    (fun i _ => applyShareGrant (fun g => map_to_list g) string_compare owner_deps i ;;; Ret tt)
    2 [0; 1; 0; 1; 0; 1; 0; 0; 0; 0; 1; 1; 1; 1; 1; 0; 0]%nat (shared_plan, 0%nat) = Some 2%nat.
Proof. vm_compute. reflexivity. Qed.

Lemma settled_stays_settled_witness :
  (share_wf sample_id shared_plan /\ keeps_rows shared_plan shared_plan)
  /\ forall t m i d t' m' d', dc_state d <> sh_open ->
       is_Some (decideShareGrant (fun g => map_to_list g) t m i d shared_plan).1 ->
       rtc (share_step sample_id (fun g => map_to_list g))
         (decideShareGrant (fun g => map_to_list g) t m i d shared_plan).2 shared_plan ->
       (decideShareGrant (fun g => map_to_list g) t' m' i d' shared_plan).1 = None.
Proof.
  apply (settled_stays_settled sample_id (fun g => map_to_list g) (fun g => reflexivity _) shared_plan shared_plan).
  - exact shared_plan_wf.
  - apply rtc_refl.
Defined.

Lemma applyShareGrant_effect_witness :
  exists r, run (applyShareGrant (fun g => map_to_list g) string_compare owner_deps "") (shared_plan, 7%nat)
            = (inr (share_ok r), ((share_audit "t" (share_event owner_deps "share.applied" r)
                (shared_plan <| sh_grants ::= <[("t"%string, "m"%string, shareGrantHash sample_hash anna) :=
                   settle (mkDecided sh_applied "owner" None) 5
                     (fresh_share (shareGrantRowFrom sample_hash anna) "" 5)]> |>)), 8%nat)).
Proof.
  eexists.
  exact (proj2 (applyShareGrant_effect sample_id (fun g => map_to_list g) (fun g => reflexivity _) string_compare
                  owner_deps "" (shared_plan, 7%nat) shared_plan_wf)
           ("t"%string, "m"%string, shareGrantHash sample_hash anna)
           (fresh_share (shareGrantRowFrom sample_hash anna) "" 5) eq_refl eq_refl eq_refl).
Defined.

Lemma share_needs_licence_witness :
  rg (others sample_id (fun g => map_to_list g)) (licensed_call sample_id (fun g => map_to_list g) owner_deps "" (shared_plan, 0%nat))
    (applyShareGrant (fun g => map_to_list g) string_compare owner_deps "")
    (fun o w' => match o with share_ok _ => settled_by "owner" "" sh_applied w'.1 | _ => True end)
    (fun _ _ => False) (shared_plan, 0%nat).
Proof.
  apply (share_needs_licence sample_id (fun g => map_to_list g) (fun g => reflexivity _) string_compare
           owner_deps "" (shared_plan, 0%nat)).
  exact shared_plan_wf.
Defined.

Lemma refresh_keeps_decisions_witness :
  match run (refreshShareGrants sample_id sample_hash "t" "m" [fun e : nat => (inr (listed [anna]), e)]) (shared_plan, 0%nat) with
  | (inl err, w') => exists e', w' = (shared_plan, e')
      /\ ask_all [fun e : nat => (inr (listed [anna]), e)] 0%nat = (inl err, e')
  | (inr (n, blind), (s', e')) => exists ls,
      ask_all [fun e : nat => (inr (listed [anna]), e)] 0%nat = (inr ls, e') /\ blind = reasons_of ls
      /\ upserted "t" "m" (shareGrantRowFrom sample_hash <$> grants_of ls) shared_plan s' n
  end.
Proof.
  apply (refresh_keeps_decisions sample_id sample_hash "t" "m" [fun e : nat => (inr (listed [anna]), e)] shared_plan 0%nat).
  intros k r H. by apply (wf_check _ _ shared_plan_wf k r).
Defined.

Lemma hash_is_identity_witness :
  shareGrantHash sample_hash anna = shareGrantHash sample_hash anna <-> grant_identity anna = grant_identity anna.
Proof.
  apply (hash_is_identity sample_hash anna anna); [by split_and!|by split_and!|done].
Defined.
