(* ===== verification/SetupSteps.v ===== *)
(** * The setup checklist ([listSetupSteps] and [setSetupStepState] of
    [packages/ledger/src/ledger.ts], [summariseSetup] of
    [packages/shared/src/provider-setup.ts])

    The steps themselves are prose; what is modelled is the table of answers
    and the progress drawn from them. *)

From S2P Require Import Prelude Ports.

Open Scope Z_scope.

Inductive SetupSide := source_side | target_side.

#[export] Instance SetupSide_eq_dec : EqDecision SetupSide.
Proof. solve_decision. Defined.

#[export] Instance SetupSide_countable : Countable SetupSide.
Proof.
  refine (inj_countable' (fun s => match s with source_side => true | target_side => false end)
            (fun b : bool => if b then source_side else target_side) _). by intros [].
Defined.

Inductive SetupStepState := step_open | step_done | step_skipped.

#[export] Instance SetupStepState_eq_dec : EqDecision SetupStepState.
Proof. solve_decision. Defined.

Definition setup_key : Type := string * SetupSide * string * string.

Record setup_row := mk_setup_row {
  su_id : nat;
  su_state : SetupStepState;
  su_decidedBy : option string;
  su_decidedAt : option instant
}.

(** [su_next]: ids drawn so far. *)
Record SetupPg := mkSetupPg { su_steps : gmap setup_key setup_row; su_next : nat }.

#[export] Instance eta_SetupPg : Eta SetupPg := fun s => mkSetupPg (su_steps s) (su_next s).

Record SetupStepRow := mkSetupStepRow {
  ur_id : nat; ur_side : SetupSide; ur_provider : string; ur_stepKey : string;
  ur_state : SetupStepState; ur_decidedBy : option string; ur_decidedAt : option instant
}.

Definition setup_record (kr : setup_key * setup_row) : SetupStepRow :=
  let '((_, side, provider, stepKey), r) := kr in
  mkSetupStepRow (su_id r) side provider stepKey (su_state r) (truthy (su_decidedBy r)) (su_decidedAt r).

Definition listSetupSteps (scan : gmap setup_key setup_row -> list (setup_key * setup_row))
    (t : string) (side : SetupSide) (provider : string) (s : SetupPg) : list SetupStepRow :=
  setup_record <$> base.filter (fun kr => kr.1.1 = (t, side, provider)) (scan (su_steps s)).

Definition answer (state : SetupStepState) (decidedBy : string) (now : instant) (id : nat) : setup_row :=
  if bool_decide (state = step_open) then mk_setup_row id state None None
  else mk_setup_row id state (Some decidedBy) (Some now).

(** [INSERT ... ON CONFLICT DO UPDATE ... RETURNING *] *)
Definition setSetupStepState (k : setup_key) (state : SetupStepState) (decidedBy : string) (now : instant)
    (s : SetupPg) : SetupStepRow * SetupPg :=
  match su_steps s !! k with
  | Some r => let r' := answer state decidedBy now (su_id r) in
              (setup_record (k, r'), s <| su_steps ::= <[k := r']> |>)
  | None => let r' := answer state decidedBy now (su_next s) in
            (setup_record (k, r'), s <| su_steps ::= <[k := r']> |> <| su_next ::= S |>)
  end.

(** One step with the owner's answer; [needsAnotherPerson] is the step's. *)
Record SetupStepStatus := mkSetupStepStatus { us_needsAnotherPerson : bool; us_state : SetupStepState }.

Record SetupProgress := mkSetupProgress {
  up_total : Z; up_done : Z; up_skipped : Z; up_open : Z; up_blockedOnOthers : Z; up_complete : bool
}.

Definition count_steps (P : SetupStepStatus -> bool) (l : list SetupStepStatus) : Z :=
  zsum (fun x => if P x then 1 else 0) l.

Definition in_state (st : SetupStepState) (x : SetupStepStatus) : bool := bool_decide (us_state x = st).

Definition summariseSetup (l : list SetupStepStatus) : SetupProgress :=
  let open := count_steps (in_state step_open) l in
  {| up_total := Z.of_nat (length l);
     up_done := count_steps (in_state step_done) l;
     up_skipped := count_steps (in_state step_skipped) l;
     up_open := open;
     up_blockedOnOthers := count_steps (fun x => in_state step_open x && us_needsAnotherPerson x) l;
     up_complete := (open =? 0) && (0 <? Z.of_nat (length l)) |}.

Lemma progress_adds_up l : let p := summariseSetup l in
  up_total p = up_done p + up_skipped p + up_open p /\ 0 <= up_blockedOnOthers p <= up_open p.
Proof.
  cbn. unfold count_steps, zsum, in_state. induction l as [|x l [IH1 IH2]]; [done|].
  cbn [foldr length] in *. rewrite Nat2Z.inj_succ.
  destruct (us_state x), (us_needsAnotherPerson x); repeat case_bool_decide; try congruence; cbn [andb]; lia.
Qed.

(** ** The table holds everyone's last answer *)

Record SetupCall := mkSetupCall { sc_key : setup_key; sc_state : SetupStepState; sc_by : string; sc_now : instant }.

Definition call_setup (s : SetupPg) (c : SetupCall) : SetupPg :=
  (setSetupStepState (sc_key c) (sc_state c) (sc_by c) (sc_now c) s).2.

Definition last_call (k : setup_key) (l : list SetupCall) : option SetupCall :=
  last (base.filter (fun c => sc_key c = k) l).

(** Whatever is answered in whatever order, a step's row holds its last answer:
    decider and date exactly when it is settled, under the id of its first. *)
Theorem setup_answer_is_last l k :
  match last_call k l, su_steps (foldl call_setup (mkSetupPg ∅ 0) l) !! k with
  | None, None => True
  | Some c, Some r => r = answer (sc_state c) (sc_by c) (sc_now c) (su_id r)
                      /\ (su_state r = step_open <-> su_decidedAt r = None)
  | _, _ => False
  end.
Proof.
  induction l as [|c l IH] using rev_ind; [done|].
  rewrite foldl_app. unfold last_call in *. rewrite filter_app. cbn [foldl].
  set (s := foldl call_setup _ l) in *. unfold call_setup, setSetupStepState.
  assert (Hanswer : forall id, let r := answer (sc_state c) (sc_by c) (sc_now c) id in
            r = answer (sc_state c) (sc_by c) (sc_now c) (su_id r) /\ (su_state r = step_open <-> su_decidedAt r = None)).
  { intros id. unfold answer. case_bool_decide; naive_solver. }
  destruct (decide (sc_key c = k)) as [<-|Hne].
  - rewrite filter_cons_True by done. change (base.filter _ []) with (@nil SetupCall). rewrite last_snoc.
    destruct (su_steps s !! sc_key c) as [r|]; cbn [snd su_steps];
      match goal with |- context [su_steps ?s1 !! _] => assert (Hs : exists id, su_steps s1 =
          <[sc_key c := answer (sc_state c) (sc_by c) (sc_now c) id]> (su_steps s)) by (by eexists) end;
      destruct Hs as [id ->]; rewrite lookup_insert_eq; apply Hanswer.
  - rewrite filter_cons_False by done. change (base.filter _ []) with (@nil SetupCall). rewrite app_nil_r.
    destruct (su_steps s !! sc_key c) as [r|]; cbn [snd];
      match goal with |- context [su_steps ?s1 !! _] => assert (Hs : exists r1, su_steps s1 =
          <[sc_key c := r1]> (su_steps s)) by (by eexists) end;
      destruct Hs as [r1 ->]; by rewrite lookup_insert_ne.
Qed.
