(* ===== verification/Cutover.v ===== *)
(** * The cutover state machine and its store

    [packages/core/src/cutover-state.ts] and
    [packages/ledger/src/cutover-store.ts].  The [cutover_state] table is a map
    from (tenant, mapping) to its columns, [cutover_event] an append-only list.
    Every statement is one atomic step; [transitionState] is three of them
    (read, log, save), with no transaction around them. *)

From S2P Require Import Prelude Prog Concurrency Ports.

Open Scope Z_scope.

(** ** States *)

Inductive CutoverState :=
| PREPARING | READY_FOR_CUTOVER | APPROVED | CUTOVER_IN_PROGRESS | GRACE_PERIOD | COMPLETED
| ROLLED_BACK | FAILED.

#[export] Instance CutoverState_eq_dec : EqDecision CutoverState.
Proof. solve_decision. Defined.

Inductive CutoverPhase :=
| PREPARATION | VERIFICATION | CUTOVER | GRACE | COMPLETION | ROLLBACK | ERROR.

#[export] Instance CutoverPhase_eq_dec : EqDecision CutoverPhase.
Proof. solve_decision. Defined.

Definition VALID_TRANSITIONS (from : CutoverState) : list CutoverState :=
  match from with
  | PREPARING => [READY_FOR_CUTOVER; FAILED]
  | READY_FOR_CUTOVER => [APPROVED; PREPARING; FAILED]
  | APPROVED => [CUTOVER_IN_PROGRESS; READY_FOR_CUTOVER; FAILED; ROLLED_BACK]
  | CUTOVER_IN_PROGRESS => [GRACE_PERIOD; FAILED; ROLLED_BACK]
  | GRACE_PERIOD => [COMPLETED; ROLLED_BACK; FAILED]
  | COMPLETED => []
  | ROLLED_BACK => []
  | FAILED => [PREPARING; ROLLED_BACK]
  end.

Definition STATE_TO_PHASE (s : CutoverState) : CutoverPhase :=
  match s with
  | PREPARING => PREPARATION
  | READY_FOR_CUTOVER | APPROVED => VERIFICATION
  | CUTOVER_IN_PROGRESS => CUTOVER
  | GRACE_PERIOD => GRACE
  | COMPLETED => COMPLETION
  | ROLLED_BACK => ROLLBACK
  | FAILED => ERROR
  end.

Definition isValidTransition (from to : CutoverState) : bool :=
  bool_decide (to ∈ VALID_TRANSITIONS from).

Definition getStatePhase (s : CutoverState) : CutoverPhase := STATE_TO_PHASE s.

Definition canRollback (s : CutoverState) : bool :=
  bool_decide (s = CUTOVER_IN_PROGRESS) || bool_decide (s = GRACE_PERIOD).

Definition isTerminalState (s : CutoverState) : bool :=
  bool_decide (s = COMPLETED) || bool_decide (s = ROLLED_BACK) || bool_decide (s = FAILED).

Inductive VerificationState := V_PENDING | V_PASS | V_WARN | V_FAIL.

(** The JSON object of the [metadata] column. *)
Record StoredMetadata := mkStoredMetadata {
  gracePeriodDurationHours : option Z;
  autoCompleteAfterGrace : bool;
  sm_errorMessage : option string;
  sm_errorDetails : option string
}.

Record CutoverStatus := mkCutoverStatus {
  cs_tenantId : string;
  cs_mappingId : string;
  cs_state : CutoverState;
  cs_phase : CutoverPhase;
  startedAt : instant;
  updatedAt : instant;
  completedAt : option instant;
  verificationStatus : VerificationState;
  verificationReport : option string;
  gracePeriodStartedAt : option instant;
  gracePeriodCompletedAt : option instant;
  totalItemsMigrated : Z;
  itemsVerified : Z;
  discrepanciesFound : Z;
  errorMessage : option string;
  errorDetails : option string;
  rollbackAvailable : bool;
  rollbackReason : option string;
  currentState : option CutoverState;
  targetMailServer : option string;
  startedBy : option string;
  rolledBackAt : option instant;
  failedAt : option instant;
  failureReason : option string;
  cs_metadata : option StoredMetadata
}.

#[export] Instance eta_CutoverStatus : Eta CutoverStatus := fun s =>
  mkCutoverStatus (cs_tenantId s) (cs_mappingId s) (cs_state s) (cs_phase s) (startedAt s) (updatedAt s)
    (completedAt s) (verificationStatus s) (verificationReport s) (gracePeriodStartedAt s)
    (gracePeriodCompletedAt s) (totalItemsMigrated s) (itemsVerified s) (discrepanciesFound s)
    (errorMessage s) (errorDetails s) (rollbackAvailable s) (rollbackReason s) (currentState s)
    (targetMailServer s) (startedBy s) (rolledBackAt s) (failedAt s) (failureReason s) (cs_metadata s).

(** [updateCutoverStatus]; [None] where it throws. *)
Definition updateCutoverStatus (status : CutoverStatus) (newState : CutoverState) (reason : option string)
    (now : instant) : option CutoverStatus :=
  if negb (isValidTransition (cs_state status) newState) then None
  else
    let s := status <| cs_state := newState |> <| currentState := Some newState |>
                    <| cs_phase := getStatePhase newState |> <| updatedAt := now |>
                    <| rollbackAvailable := canRollback newState |> in
    let s := if bool_decide (newState = COMPLETED) then s <| completedAt := Some now |> else s in
    let s := if defined (truthy reason) then s <| errorMessage := None |> <| errorDetails := None |> else s in
    let s := if bool_decide (newState = FAILED)
             then s <| failedAt := Some now |> <| failureReason := reason |> else s in
    Some (if bool_decide (newState = ROLLED_BACK)
          then s <| rolledBackAt := Some now |> <| rollbackReason := reason |> else s).

(** ** The tables *)

(** A [jsonb] value: a string, or the canonical text of anything else. *)
Inductive jsonb := JString (s : string) | JText (text : string).

Inductive DbPhase := db_verification | db_approval | db_cutover | db_grace | db_completion | db_rollback.
Inductive DbVerification := db_pending | db_pass | db_fail | db_warn | db_skipped.

(** One row of [cutover_state], without its key. *)
Record cutover_row := mk_cutover_row {
  crow_state : CutoverState;
  crow_phase : DbPhase;
  crow_verificationStatus : DbVerification;
  crow_verificationReport : jsonb;
  crow_gracePeriodHours : Z;
  crow_gracePeriodStartedAt : option instant;
  crow_gracePeriodCompletedAt : option instant;
  crow_targetMailServer : option string;
  crow_metadata : StoredMetadata;
  crow_createdAt : instant;
  crow_updatedAt : instant
}.

#[export] Instance eta_cutover_row : Eta cutover_row := fun r =>
  mk_cutover_row (crow_state r) (crow_phase r) (crow_verificationStatus r) (crow_verificationReport r)
    (crow_gracePeriodHours r) (crow_gracePeriodStartedAt r) (crow_gracePeriodCompletedAt r)
    (crow_targetMailServer r) (crow_metadata r) (crow_createdAt r) (crow_updatedAt r).

(** The members of the object a caller hands to [transitionState]. *)
Inductive meta_entry :=
| m_state (s : CutoverState)
| m_reason (s : string)
| m_failureReason (s : string)
| m_rollbackReason (s : string)
| m_startedAt (t : instant)
| m_completedAt (t : instant)
| m_gracePeriodStartedAt (t : instant)
| m_gracePeriodCompletedAt (t : instant)
| m_failedAt (t : instant)
| m_rolledBackAt (t : instant)
| m_targetMailServer (s : string)
| m_other (key : string).

Inductive EventType := CUTOVER_INITIALIZED | STATE_TRANSITION.

(** One row of [cutover_event]. *)
Record cutover_event_row := mk_cutover_event_row {
  ev_tenantId : string;
  ev_mappingId : string;
  ev_timestamp : instant;
  ev_fromState : option CutoverState;
  ev_toState : CutoverState;
  ev_triggeredBy : string;
  ev_reason : option string;
  ev_eventType : EventType;
  ev_metadata : list meta_entry
}.

Record CutoverDb := mkCutoverDb {
  cutover_rows : gmap (string * string) cutover_row;
  cutover_events : list cutover_event_row;
  cutover_now : instant
}.

#[export] Instance eta_CutoverDb : Eta CutoverDb := fun d =>
  mkCutoverDb (cutover_rows d) (cutover_events d) (cutover_now d).

(** ** The mappings between the two *)

Definition mapStateToDb (s : CutoverState) : CutoverState :=
  match s with
  | PREPARING => PREPARING | READY_FOR_CUTOVER => READY_FOR_CUTOVER | APPROVED => APPROVED
  | CUTOVER_IN_PROGRESS => CUTOVER_IN_PROGRESS | GRACE_PERIOD => GRACE_PERIOD
  | COMPLETED => COMPLETED | FAILED => FAILED | ROLLED_BACK => ROLLED_BACK
  end.

Definition mapPhaseToDb (p : CutoverPhase) : DbPhase :=
  match p with
  | PREPARATION | VERIFICATION => db_verification
  | CUTOVER => db_cutover
  | GRACE => db_grace
  | COMPLETION => db_completion
  | ROLLBACK | ERROR => db_rollback
  end.

Definition mapVerificationStatus (v : VerificationState) : DbVerification :=
  match v with V_PENDING => db_pending | V_PASS => db_pass | V_WARN => db_warn | V_FAIL => db_fail end.

Definition dbPhaseToPhase (p : DbPhase) : CutoverPhase :=
  match p with
  | db_verification | db_approval => PREPARATION
  | db_cutover => CUTOVER
  | db_grace => GRACE
  | db_completion => COMPLETION
  | db_rollback => ROLLBACK
  end.

Definition verificationStatusMap (v : DbVerification) : VerificationState :=
  match v with
  | db_pending | db_skipped => V_PENDING
  | db_pass => V_PASS
  | db_warn => V_WARN
  | db_fail => V_FAIL
  end.

(** [meta.gracePeriodDurationHours || 72] *)
Definition extractGracePeriodHours (status : CutoverStatus) : Z :=
  match cs_metadata status ≫= gracePeriodDurationHours with
  | Some h => if h =? 0 then 72 else h
  | None => 72
  end.

Definition buildMetadata (status : CutoverStatus) : StoredMetadata :=
  {| gracePeriodDurationHours := Some 72; autoCompleteAfterGrace := true;
     sm_errorMessage := truthy (errorMessage status); sm_errorDetails := truthy (errorDetails status) |}.

(** [typeof report === 'string' ? report : JSON.stringify(report || {})] *)
Definition report_text (j : jsonb) : string :=
  match j with
  | JString s => s
  | JText t => if bool_decide (t ∈ ["null"; "false"; "0"]%string) then "{}"%string else t
  end.

Definition mapRowToStatus (k : string * string) (row : cutover_row) : CutoverStatus :=
  {| cs_tenantId := k.1; cs_mappingId := k.2; cs_state := crow_state row;
     cs_phase := dbPhaseToPhase (crow_phase row);
     startedAt := crow_createdAt row; updatedAt := crow_updatedAt row;
     completedAt := crow_gracePeriodCompletedAt row;
     verificationStatus := verificationStatusMap (crow_verificationStatus row);
     verificationReport := Some (report_text (crow_verificationReport row));
     gracePeriodStartedAt := crow_gracePeriodStartedAt row; gracePeriodCompletedAt := None;
     totalItemsMigrated := 0; itemsVerified := 0; discrepanciesFound := 0;
     errorMessage := None; errorDetails := None; rollbackAvailable := false; rollbackReason := None;
     currentState := Some (crow_state row); targetMailServer := crow_targetMailServer row;
     startedBy := None; rolledBackAt := None; failedAt := None; failureReason := None;
     cs_metadata := Some (crow_metadata row) |}.

(** ** The store *)

(** [metadataOrReason] *)
Inductive MetadataOrReason := no_reason | reason_string (s : string) | metadata_object (m : list meta_entry).

(** [Object.assign(updated, metadata)], member by member. *)
Definition assign_entry (s : CutoverStatus) (e : meta_entry) : CutoverStatus :=
  match e with
  | m_state st => s <| cs_state := st |>
  | m_failureReason x => s <| failureReason := Some x |>
  | m_rollbackReason x => s <| rollbackReason := Some x |>
  | m_startedAt t => s <| startedAt := t |>
  | m_completedAt t => s <| completedAt := Some t |>
  | m_gracePeriodStartedAt t => s <| gracePeriodStartedAt := Some t |>
  | m_gracePeriodCompletedAt t => s <| gracePeriodCompletedAt := Some t |>
  | m_failedAt t => s <| failedAt := Some t |>
  | m_rolledBackAt t => s <| rolledBackAt := Some t |>
  | m_targetMailServer x => s <| targetMailServer := Some x |>
  | m_reason _ | m_other _ => s
  end.

(** A member by its name. *)
Definition meta_string (pick : meta_entry -> option string) (m : list meta_entry) : option string :=
  fold_left (fun acc e => match pick e with Some x => Some x | None => acc end) m None.

Definition pick_reason e := match e with m_reason s => Some s | _ => None end.
Definition pick_failureReason e := match e with m_failureReason s => Some s | _ => None end.
Definition pick_rollbackReason e := match e with m_rollbackReason s => Some s | _ => None end.

(** [metadata.reason || metadata.failureReason || metadata.rollbackReason] *)
Definition metadata_reason (m : list meta_entry) : option string :=
  match truthy (meta_string pick_reason m) with
  | Some r => Some r
  | None => match truthy (meta_string pick_failureReason m) with
            | Some r => Some r
            | None => meta_string pick_rollbackReason m
            end
  end.

Section store.
(** [JSON.parse], with the value as [jsonb] stores it; [None] where it throws. *)
Variable parse : string -> option jsonb.

Abbreviation dbprog := (prog CutoverDb string).

Definition load_status (t m : string) (d : CutoverDb) : option CutoverStatus :=
  mapRowToStatus (t, m) <$> cutover_rows d !! (t, m).

Definition loadCutoverState (t m : string) : dbprog (option CutoverStatus) :=
  act (fun d => (load_status t m d, d)).

(** The columns the upsert writes. *)
Definition row_of_status (status : CutoverStatus) (report : jsonb) (now : instant) : cutover_row :=
  {| crow_state := mapStateToDb (cs_state status); crow_phase := mapPhaseToDb (cs_phase status);
     crow_verificationStatus := mapVerificationStatus (verificationStatus status);
     crow_verificationReport := report;
     crow_gracePeriodHours := extractGracePeriodHours status;
     crow_gracePeriodStartedAt := gracePeriodStartedAt status;
     crow_gracePeriodCompletedAt := gracePeriodCompletedAt status;
     crow_targetMailServer := targetMailServer status;
     crow_metadata := buildMetadata status; crow_createdAt := now; crow_updatedAt := now |}.

(** [status.verificationReport ? JSON.parse(status.verificationReport) : {}] *)
Definition saved_report (status : CutoverStatus) : option jsonb :=
  match truthy (verificationReport status) with
  | Some text => parse text
  | None => Some (JText "{}")
  end.

Definition save_status (status : CutoverStatus) (d : CutoverDb) : (string + unit) * CutoverDb :=
  match saved_report status with
  | None => (inl "SyntaxError"%string, d)
  | Some report =>
      let k := (cs_tenantId status, cs_mappingId status) in
      let row := row_of_status status report (cutover_now d) in
      let row := match cutover_rows d !! k with
                 | Some old => row <| crow_createdAt := crow_createdAt old |>   (* ON CONFLICT DO UPDATE *)
                 | None => row
                 end in
      (inr tt, d <| cutover_rows ::= <[k := row]> |>)
  end.

Definition saveCutoverState (status : CutoverStatus) : dbprog unit := try_act (save_status status).

Definition logCutoverEvent (e : instant -> cutover_event_row) : dbprog unit :=
  upd (fun d => d <| cutover_events ::= fun es => es ++ [e (cutover_now d)] |>).

Definition initial_status (t m : string) (server startedBy : option string) (now : instant) : CutoverStatus :=
  {| cs_tenantId := t; cs_mappingId := m; cs_state := PREPARING; cs_phase := PREPARATION;
     startedAt := now; updatedAt := now; completedAt := None; verificationStatus := V_PENDING;
     verificationReport := None; gracePeriodStartedAt := None; gracePeriodCompletedAt := None;
     totalItemsMigrated := 0; itemsVerified := 0; discrepanciesFound := 0; errorMessage := None;
     errorDetails := None; rollbackAvailable := false; rollbackReason := None;
     currentState := Some PREPARING; targetMailServer := server; startedBy := startedBy;
     rolledBackAt := None; failedAt := None; failureReason := None; cs_metadata := None |}.

Definition the_clock : dbprog instant := act (fun d => (cutover_now d, d)).

Definition initializeCutover (t m : string) (server startedBy : option string) : dbprog CutoverStatus :=
  let! existing := loadCutoverState t m in
  match existing with
  | Some status => Ret status
  | None =>
      let! now := the_clock in
      let status := initial_status t m server startedBy now in
      saveCutoverState status ;;;
      logCutoverEvent (fun _ => {| ev_tenantId := t; ev_mappingId := m; ev_timestamp := now;
        ev_fromState := None; ev_toState := PREPARING;
        ev_triggeredBy := nullish (truthy startedBy) "system"%string; ev_reason := None;
        ev_eventType := CUTOVER_INITIALIZED; ev_metadata := [] |}) ;;;
      Ret status
  end.

Definition reason_of (arg : MetadataOrReason) : option string :=
  match arg with
  | no_reason => None
  | reason_string s => Some s
  | metadata_object m => metadata_reason m
  end.

Definition transition_event (t m : string) (from to : CutoverState) (arg : MetadataOrReason) (now : instant)
    : cutover_event_row :=
  {| ev_tenantId := t; ev_mappingId := m; ev_timestamp := now;
     ev_fromState := Some (mapStateToDb from); ev_toState := mapStateToDb to;
     ev_triggeredBy := match arg with reason_string _ => "system" | _ => "cli" end;
     ev_reason := truthy (reason_of arg); ev_eventType := STATE_TRANSITION;
     ev_metadata := match arg with metadata_object m => m | _ => [] end |}.

Definition transitionState (t m : string) (to : CutoverState) (arg : MetadataOrReason) : dbprog CutoverStatus :=
  let! found := loadCutoverState t m in
  match found with
  | None => Throw ("No cutover state found for mapping " ++ m)%string
  | Some current =>
      if negb (isValidTransition (cs_state current) to) then Throw "Invalid transition"%string
      else
        logCutoverEvent (transition_event t m (cs_state current) to arg) ;;;
        let! now := the_clock in
        match updateCutoverStatus current to (reason_of arg) now with
        | None => Throw "Invalid state transition"%string
        | Some next =>
            let next := match arg with
                        | metadata_object m => fold_left assign_entry m next
                        | _ => next
                        end in
            saveCutoverState next ;;; Ret next
        end
  end.
End store.

(** ** The machine *)

Lemma valid_transition_pred from to :
  isValidTransition from to = true ->
  match to with
  | COMPLETED => from = GRACE_PERIOD
  | GRACE_PERIOD => from = CUTOVER_IN_PROGRESS
  | CUTOVER_IN_PROGRESS => from = APPROVED
  | APPROVED => from = READY_FOR_CUTOVER
  | READY_FOR_CUTOVER => from = PREPARING \/ from = APPROVED
  | PREPARING => from = READY_FOR_CUTOVER \/ from = FAILED
  | ROLLED_BACK => from = APPROVED \/ from = FAILED \/ canRollback from = true
  | FAILED => isTerminalState from = false
  end.
Proof.
  unfold isValidTransition. rewrite bool_decide_eq_true.
  destruct from, to; simpl; rewrite ?elem_of_cons, ?elem_of_nil; try tauto; intuition discriminate.
Qed.

(** The history of a mapping: an initialisation, then valid transitions, each
    from where the one before it arrived. *)
Inductive chain : list cutover_event_row -> CutoverState -> Prop :=
| chain_init e : ev_fromState e = None -> ev_toState e = PREPARING -> chain [e] PREPARING
| chain_step es s e : chain es s -> ev_fromState e = Some s ->
    isValidTransition s (ev_toState e) = true -> chain (es ++ [e]) (ev_toState e).

Lemma chain_extend es s e s' :
  chain es s -> ev_fromState e = Some s -> ev_toState e = s' -> isValidTransition s s' = true ->
  chain (es ++ [e]) s'.
Proof. intros Hc Hf <- Hv. by apply (chain_step es s). Qed.

(** ** The store *)
Section store_theorems.
Variable parse : string -> option jsonb.
Hypothesis parse_object : parse "{}" = Some (JText "{}").

Definition of_mapping (k : string * string) (e : cutover_event_row) : Prop :=
  (ev_tenantId e, ev_mappingId e) = k.

#[export] Instance of_mapping_dec k e : Decision (of_mapping k e).
Proof. unfold of_mapping. apply _. Defined.

Definition events_of (k : string * string) (d : CutoverDb) : list cutover_event_row :=
  base.filter (of_mapping k) (cutover_events d).

(** No caller hands over a [state] member, or a report. *)
Definition state_free (arg : MetadataOrReason) : Prop :=
  match arg with metadata_object m => Forall (fun e => forall s, e <> m_state s) m | _ => True end.

Record cutover_wf (d : CutoverDb) : Prop := {
  wf_rows k row : cutover_rows d !! k = Some row ->
    chain (events_of k d) (crow_state row) /\ crow_verificationReport row = JText "{}";
  wf_none k : cutover_rows d !! k = None -> events_of k d = []
}.

Lemma mapStateToDb_id s : mapStateToDb s = s.
Proof. by destruct s. Qed.

Lemma save_loaded status d :
  verificationReport status = Some "{}"%string \/ verificationReport status = None ->
  exists row, save_status parse status d =
      (inr tt, d <| cutover_rows ::= <[(cs_tenantId status, cs_mappingId status) := row]> |>) /\
    crow_state row = cs_state status /\ crow_verificationReport row = JText "{}" /\
    (row = (row_of_status status (JText "{}") (cutover_now d))
             <| crow_createdAt := match cutover_rows d !! (cs_tenantId status, cs_mappingId status) with
                                  | Some old => crow_createdAt old | None => cutover_now d end |>).
Proof.
  intros Hr. assert (Hs : saved_report parse status = Some (JText "{}")).
  { unfold saved_report. by destruct Hr as [-> | ->]. }
  unfold save_status. rewrite Hs. cbv zeta. rewrite <- (mapStateToDb_id (cs_state status)).
  destruct (cutover_rows d !! _) as [old|]; eexists; by split_and!.
Qed.

Lemma assign_keeps m status :
  Forall (fun e => forall s, e <> m_state s) m ->
  let status' := fold_left assign_entry m status in
  cs_state status' = cs_state status /\ cs_tenantId status' = cs_tenantId status /\
  cs_mappingId status' = cs_mappingId status /\ verificationReport status' = verificationReport status /\
  currentState status' = currentState status.
Proof.
  revert status; induction m as [|e m IH]; intros status; [done|].
  rewrite Forall_cons. intros [He Hm]. simpl. destruct (IH (assign_entry status e) Hm) as (-> & -> & -> & -> & ->).
  destruct e; try done. by destruct (He s).
Qed.

Lemma update_fields status to reason now :
  isValidTransition (cs_state status) to = true ->
  exists status', updateCutoverStatus status to reason now = Some status' /\
    cs_state status' = to /\ cs_tenantId status' = cs_tenantId status /\
    cs_mappingId status' = cs_mappingId status /\ verificationReport status' = verificationReport status /\
    currentState status' = Some to.
Proof.
  intros Hv. unfold updateCutoverStatus. rewrite Hv. cbv zeta. eexists. split; [reflexivity|].
  repeat case_bool_decide; destruct (defined (truthy reason)); by split_and!.
Qed.

Lemma run_transition t m to arg d row :
  state_free arg -> crow_verificationReport row = JText "{}" ->
  cutover_rows d !! (t, m) = Some row -> isValidTransition (crow_state row) to = true ->
  exists status row', run (transitionState parse t m to arg) d =
      (inr status, d <| cutover_events ::= fun es => es ++ [transition_event t m (crow_state row) to arg (cutover_now d)] |>
                     <| cutover_rows ::= <[(t, m) := row']> |>) /\
    cs_state status = to /\ crow_state row' = to /\ crow_verificationReport row' = JText "{}" /\
    currentState status = Some to.
Proof.
  intros Hfree Hrep Hrow Hv. unfold transitionState. cbn -[updateCutoverStatus save_status isValidTransition].
  unfold load_status. rewrite Hrow. cbn -[updateCutoverStatus save_status isValidTransition]. rewrite Hv.
  cbn -[updateCutoverStatus save_status isValidTransition].
  destruct (update_fields (mapRowToStatus (t, m) row) to (reason_of arg) (cutover_now d) Hv)
    as (status & Hu & Hs & Ht & Hm & Hr & Hcur). rewrite Hu.
  assert (Hst : let status' := match arg with metadata_object m => fold_left assign_entry m status | _ => status end in
    cs_state status' = to /\ cs_tenantId status' = t /\ cs_mappingId status' = m /\
    verificationReport status' = Some "{}"%string /\ currentState status' = Some to).
  { cbn in Ht, Hm, Hr. rewrite Hrep in Hr. destruct arg as [| |me]; [done..|]. simpl in Hfree.
    destruct (assign_keeps me status Hfree) as (E1 & E2 & E3 & E4 & E5). cbv zeta in *.
    rewrite E1, E2, E3, E4, E5. by split_and!. }
  cbv zeta in Hst. set (status' := match arg with metadata_object _ => _ | _ => _ end) in *.
  destruct Hst as (Hs' & Ht' & Hm' & Hr' & Hcur').
  destruct (save_loaded status' (d <| cutover_events ::= fun es => es ++
    [transition_event t m (crow_state row) to arg (cutover_now d)] |>) (or_introl Hr')) as (row' & Hsave & H1 & H2 & _).
  rewrite Ht', Hm' in Hsave. cbn -[save_status] in Hsave |- *.
  rewrite Hsave. exists status', row'. split_and!; [done|done|congruence|done|done].
Qed.

Lemma run_transition_refused t m to arg d row :
  cutover_rows d !! (t, m) = Some row -> isValidTransition (crow_state row) to = false ->
  run (transitionState parse t m to arg) d = (inl "Invalid transition"%string, d).
Proof.
  intros Hrow Hv. unfold transitionState. cbn -[isValidTransition]. unfold load_status. rewrite Hrow.
  cbn -[isValidTransition]. by rewrite Hv.
Qed.

Lemma run_transition_missing t m to arg d :
  cutover_rows d !! (t, m) = None ->
  run (transitionState parse t m to arg) d = (inl ("No cutover state found for mapping " ++ m)%string, d).
Proof. intros Hrow. unfold transitionState. cbn. unfold load_status. by rewrite Hrow. Qed.

Lemma run_initialize_existing t m server by' d row :
  cutover_rows d !! (t, m) = Some row ->
  run (initializeCutover parse t m server by') d = (inr (mapRowToStatus (t, m) row), d).
Proof. intros Hrow. unfold initializeCutover. cbn. unfold load_status. by rewrite Hrow. Qed.

Lemma run_initialize_fresh t m server by' d :
  cutover_rows d !! (t, m) = None ->
  exists row e, run (initializeCutover parse t m server by') d =
      (inr (initial_status t m server by' (cutover_now d)),
       d <| cutover_rows ::= <[(t, m) := row]> |> <| cutover_events ::= fun es => es ++ [e] |>) /\
    crow_state row = PREPARING /\ crow_verificationReport row = JText "{}" /\
    of_mapping (t, m) e /\ ev_fromState e = None /\ ev_toState e = PREPARING.
Proof.
  intros Hrow. unfold initializeCutover. cbn -[save_status]. unfold load_status. rewrite Hrow. cbn -[save_status].
  destruct (save_loaded (initial_status t m server by' (cutover_now d)) d (or_intror eq_refl))
    as (row & Hsave & Hs & Hr & _).
  rewrite Hsave. cbn. eexists row, _. split; [reflexivity|]. by split_and!.
Qed.

Lemma events_of_app k d e :
  events_of k (d <| cutover_events ::= fun es => es ++ [e] |>) =
  events_of k d ++ (if decide (of_mapping k e) then [e] else []).
Proof. unfold events_of. simpl. by rewrite filter_app. Qed.

Lemma wf_extend d t m row e :
  cutover_wf d -> of_mapping (t, m) e ->
  chain (events_of (t, m) d ++ [e]) (crow_state row) -> crow_verificationReport row = JText "{}" ->
  cutover_wf (d <| cutover_events ::= fun es => es ++ [e] |> <| cutover_rows ::= <[(t, m) := row]> |>).
Proof.
  intros [Hrows Hnone] He Hc Hr.
  assert (Hev : forall k, events_of k (d <| cutover_events ::= fun es => es ++ [e] |>
            <| cutover_rows ::= <[(t, m) := row]> |>) = events_of k d ++ (if decide (of_mapping k e) then [e] else []))
    by (intros k; apply events_of_app).
  split.
  - intros k row'. simpl. rewrite lookup_insert_Some, Hev. intros [[<- <-]|[Hne Hrow]].
    + by rewrite decide_True.
    + rewrite decide_False, app_nil_r; [by apply Hrows|]. unfold of_mapping in *. congruence.
  - intros k. simpl. rewrite lookup_insert_None, Hev. intros [Hrow Hne].
    rewrite decide_False, app_nil_r; [by apply Hnone|]. unfold of_mapping in *. congruence.
Qed.

(** A call nobody interferes with keeps the invariant. *)
Lemma initialize_wf t m server by' d :
  cutover_wf d -> cutover_wf (snd (run (initializeCutover parse t m server by') d)).
Proof.
  intros Hwf. destruct (cutover_rows d !! (t, m)) as [row|] eqn:Hrow; [by rewrite (run_initialize_existing _ _ _ _ _ row)|].
  destruct (run_initialize_fresh t m server by' d Hrow) as (row & e & -> & Hs & Hr & He & Hf & Ht). simpl.
  apply (wf_extend d t m row e); try done. rewrite Hs, (wf_none _ Hwf) by done. by apply chain_init.
Qed.

Lemma transition_wf t m to arg d :
  state_free arg -> cutover_wf d -> cutover_wf (snd (run (transitionState parse t m to arg) d)).
Proof.
  intros Hfree Hwf. destruct (cutover_rows d !! (t, m)) as [row|] eqn:Hrow; [|by rewrite run_transition_missing].
  destruct (isValidTransition (crow_state row) to) eqn:Hv; [|by rewrite (run_transition_refused _ _ _ _ _ row)].
  destruct (wf_rows _ Hwf _ _ Hrow) as [Hc Hr].
  destruct (run_transition t m to arg d row Hfree Hr Hrow Hv) as (status & row' & -> & _ & Hs' & Hr' & _). simpl.
  apply wf_extend; try done. rewrite Hs'. apply (chain_extend _ (crow_state row)); try done; simpl.
  - by rewrite mapStateToDb_id.
  - apply mapStateToDb_id.
Qed.
End store_theorems.

(** ** The audit trail, whoever else is at work

    [initializeCutover] and [transitionState] read, log and save in separate
    statements and no transaction holds them together, so two calls on one
    mapping interleave and a process can die between the log and the save.
    What survives all of that, for a mapping [k0] that is not deleted and whose
    tenant is not erased: an event is only ever logged from a state the mapping is known to
    have been sent to. *)
Definition edge (e : cutover_event_row) : option CutoverState * CutoverState := (ev_fromState e, ev_toState e).

(** The mapping was sent to [s], or [s] is where every mapping begins. *)
Definition arrived (s : CutoverState) (es : list cutover_event_row) : Prop :=
  s = PREPARING \/ exists e, e ∈ es /\ ev_toState e = s.

Inductive trail : list cutover_event_row -> Prop :=
| trail_nil : trail []
| trail_init es e : trail es -> edge e = (None, PREPARING) -> trail (es ++ [e])
| trail_move es e s : trail es -> arrived s es -> ev_fromState e = Some s ->
    isValidTransition s (ev_toState e) = true -> trail (es ++ [e]).

Lemma arrived_app s es es' : arrived s es -> arrived s (es ++ es').
Proof. intros [?|(e & He & Hs)]; [by left|right]. exists e. split; [|done]. apply elem_of_app. by left. Qed.

Lemma trail_back es s :
  trail es -> arrived s es -> s <> PREPARING ->
  exists es1 e es2 from, es = es1 ++ e :: es2 /\ trail es1 /\ arrived from es1 /\
    isValidTransition from s = true /\ edge e = (Some from, s).
Proof.
  intros Ht Ha Hs. destruct Ha as [Ha|(e & He & Hto)]; [done|]. revert e He Hto.
  induction Ht as [|es e0 Ht IH Hed|es e0 from Ht IH Harr Hf Hv]; intros e He Hto.
  - by apply elem_of_nil in He.
  - apply elem_of_app in He as [He|He%list_elem_of_singleton].
    + destruct (IH _ He Hto) as (es1 & e1 & es2 & from & -> & H). exists es1, e1, (es2 ++ [e0]), from.
      by rewrite <- app_assoc.
    + subst e. injection Hed as _ Hp. congruence.
  - apply elem_of_app in He as [He|He%list_elem_of_singleton].
    + destruct (IH _ He Hto) as (es1 & e1 & es2 & from' & -> & H). exists es1, e1, (es2 ++ [e0]), from'.
      by rewrite <- app_assoc.
    + subst e. exists es, e0, [], from. rewrite Hto in Hv. unfold edge. rewrite Hf, Hto. by split_and!.
Qed.

Lemma sublist_edge l e es1 es2 :
  l `sublist_of` (edge <$> es1) -> (l ++ [edge e]) `sublist_of` (edge <$> (es1 ++ e :: es2)).
Proof.
  intros Hl. rewrite fmap_app, fmap_cons. apply sublist_app; [done|].
  apply sublist_skip. apply sublist_nil_l.
Qed.

(** What a mapping went through that has been sent to COMPLETED. *)
Definition completing_edges : list (option CutoverState * CutoverState) :=
  [(Some READY_FOR_CUTOVER, APPROVED); (Some APPROVED, CUTOVER_IN_PROGRESS);
   (Some CUTOVER_IN_PROGRESS, GRACE_PERIOD); (Some GRACE_PERIOD, COMPLETED)].

Lemma trail_completed es :
  trail es -> arrived COMPLETED es -> completing_edges `sublist_of` (edge <$> es).
Proof.
  intros Ht Ha.
  destruct (trail_back es COMPLETED Ht Ha) as (es4 & e4 & r4 & s4 & -> & Ht4 & Ha4 & Hv4 & He4); [done|].
  apply valid_transition_pred in Hv4 as ->.
  destruct (trail_back es4 GRACE_PERIOD Ht4 Ha4) as (es3 & e3 & r3 & s3 & -> & Ht3 & Ha3 & Hv3 & He3); [done|].
  apply valid_transition_pred in Hv3 as ->.
  destruct (trail_back es3 CUTOVER_IN_PROGRESS Ht3 Ha3) as (es2 & e2 & r2 & s2 & -> & Ht2 & Ha2 & Hv2 & He2); [done|].
  apply valid_transition_pred in Hv2 as ->.
  destruct (trail_back es2 APPROVED Ht2 Ha2) as (es1 & e1 & r1 & s1 & -> & _ & _ & Hv1 & He1); [done|].
  apply valid_transition_pred in Hv1 as ->.
  unfold completing_edges. rewrite <- He4. apply (sublist_edge [_; _; _]).
  rewrite <- He3. apply (sublist_edge [_; _]). rewrite <- He2. apply (sublist_edge [_]).
  rewrite <- He1. apply (sublist_edge []). apply sublist_nil_l.
Qed.

Section audit_trail.
Abbreviation dbprog := (prog CutoverDb string).
Variable parse : string -> option jsonb.
Variable k0 : string * string.

(** The calls anybody makes. *)
Inductive cutover_call : dbprog unit -> Prop :=
| call_initialize t m server by' : cutover_call (initializeCutover parse t m server by' ;;; Ret tt)
| call_transition t m to arg : state_free arg -> cutover_call (transitionState parse t m to arg ;;; Ret tt).

(** What else moves the tables: time, and the removal of what is known about
    other mappings - a deletion or an erasure is a sequence of these, the events
    and the row of a mapping one after the other. *)
Inductive cutover_others : CutoverDb -> CutoverDb -> Prop :=
| other_tick now d : cutover_now d <= now -> cutover_others d (d <| cutover_now := now |>)
| other_events_gone k d : k <> k0 ->
    cutover_others d (d <| cutover_events ::= base.filter (fun e => ~ of_mapping k e) |>)
| other_row_gone k d : k <> k0 -> cutover_others d (d <| cutover_rows ::= delete k |>).

Definition trail_ok (d : CutoverDb) : Prop :=
  trail (events_of k0 d) /\
  forall row, cutover_rows d !! k0 = Some row -> arrived (crow_state row) (events_of k0 d).

(** What every statement of every call guarantees. *)
Definition trail_grows (d d' : CutoverDb) : Prop :=
  (trail_ok d -> trail_ok d') /\ exists es, events_of k0 d' = events_of k0 d ++ es.

#[export] Instance trail_grows_preorder : PreOrder trail_grows.
Proof.
  split.
  - intros d. split; [done|]. exists []. by rewrite app_nil_r.
  - intros d1 d2 d3 [H1 [es1 He1]] [H2 [es2 He2]]. split; [by auto|].
    exists (es1 ++ es2). by rewrite He2, He1, <- app_assoc.
Qed.

(** The mapping, if it is [k0], was sent to [s]; nothing is claimed of others. *)
Definition sent (t m : string) (s : CutoverState) (d : CutoverDb) : Prop :=
  (t, m) = k0 -> arrived s (events_of k0 d).

Lemma sent_stable t m s : stable trail_grows (sent t m s).
Proof. intros d d' Hs [_ [es He]] Hk. rewrite He. by apply arrived_app, Hs. Qed.

Lemma trail_ok_stable : stable trail_grows trail_ok.
Proof. intros d d' H [Hok _]. auto. Qed.

Lemma same_events_grow d d' :
  events_of k0 d' = events_of k0 d ->
  (forall row, cutover_rows d' !! k0 = Some row -> cutover_rows d !! k0 = Some row) ->
  trail_grows d d'.
Proof.
  intros He Hr. split.
  - intros [Ht Ha]. unfold trail_ok. rewrite He. split; [done|]. intros row Hrow. eauto.
  - exists []. by rewrite app_nil_r, He.
Qed.

Lemma others_grow d d' : cutover_others d d' -> trail_grows d d'.
Proof.
  intros [now d1 _|k d1 Hne|k d1 Hne]; apply same_events_grow; try done.
  - unfold events_of. simpl. rewrite list_filter_filter. apply list_filter_iff. intros e.
    split; [tauto|]. intros He. split; [done|]. unfold of_mapping in *. congruence.
  - intros row. simpl. by rewrite lookup_delete_ne.
Qed.

Lemma log_grows t m e d :
  of_mapping (t, m) e ->
  (edge e = (None, PREPARING) \/ exists s, ev_fromState e = Some s /\ isValidTransition s (ev_toState e) = true /\
     sent t m s d) ->
  trail_grows d (d <| cutover_events ::= fun es => es ++ [e] |>).
Proof.
  intros Hof He. split; [|rewrite events_of_app; by eexists].
  intros [Ht Ha]. unfold trail_ok. rewrite events_of_app. split; [|intros row Hrow; by apply arrived_app, Ha].
  destruct (decide (of_mapping k0 e)) as [Hm|Hm]; [|by rewrite app_nil_r].
  assert (Hk : (t, m) = k0) by (unfold of_mapping in *; congruence).
  destruct He as [He|(s & Hf & Hv & Hs)]; [by apply trail_init|]. apply (trail_move _ _ s); auto.
Qed.

Lemma save_grows status d :
  sent (cs_tenantId status) (cs_mappingId status) (cs_state status) d ->
  trail_grows d (snd (save_status parse status d)).
Proof.
  intros Hs. unfold save_status. destruct (saved_report parse status) as [report|]; [|reflexivity].
  split; [|exists []; by rewrite app_nil_r]. intros [Ht Ha]. split; [done|]. intros row. simpl.
  rewrite lookup_insert_Some. intros [[Hk <-]|[_ Hrow]]; [|by apply Ha]. specialize (Hs Hk). clear Ha.
  change (events_of _ _) with (events_of k0 d).
  destruct (cutover_rows d !! (cs_tenantId status, cs_mappingId status)); simpl; rewrite mapStateToDb_id; exact Hs.
Qed.

Definition found_sent (t m : string) (found : option CutoverStatus) (d : CutoverDb) : Prop :=
  forall current, found = Some current ->
    cs_tenantId current = t /\ cs_mappingId current = m /\ sent t m (cs_state current) d.

Lemma load_triple t m : triple trail_grows trail_ok (loadCutoverState t m) (found_sent t m).
Proof.
  apply triple_act; [exact trail_ok_stable| |].
  - intros found d d' Hf Hg current ->. destruct (Hf current eq_refl) as (? & ? & Hs). split_and!; [done..|].
    by eapply sent_stable.
  - intros d Hok. split; [reflexivity|]. simpl. unfold load_status. intros current.
    destruct (cutover_rows d !! (t, m)) as [row|] eqn:Hrow; [|done]. intros [= <-]. split_and!; [done..|].
    intros Hk. apply (proj2 Hok). by rewrite <- Hk.
Qed.

Lemma save_triple status t m s :
  cs_tenantId status = t -> cs_mappingId status = m -> cs_state status = s ->
  triple trail_grows (sent t m s) (saveCutoverState parse status) (fun _ _ => True).
Proof.
  intros <- <- <-. apply triple_try; [apply sent_stable|by intros ? ? ?|].
  intros d Hs. split; [by apply save_grows|by destruct (fst _)].
Qed.

Lemma initialize_triple t m server by' :
  triple trail_grows trail_ok (initializeCutover parse t m server by') (fun _ _ => True).
Proof.
  eapply triple_bind; [exact _|apply load_triple|]. intros [status|]; [by apply triple_ret|].
  apply (triple_weaken _ _ (fun _ => True) _ _ (fun _ _ => True)); [|done..].
  eapply triple_bind; [exact _|apply (triple_act _ _ _ (fun _ _ => True)); done|]. intros now.
  eapply triple_bind with (B := fun _ _ => True); [exact _| |].
  { eapply triple_weaken; [apply (save_triple _ t m PREPARING); reflexivity| |done].
    intros d _ _. by left. }
  intros _. eapply triple_bind with (B := fun _ _ => True); [exact _| |intros _; by apply triple_ret].
  apply triple_upd; [done..|]. intros d _. split; [|done]. apply (log_grows t m); [done|by left].
Qed.

Lemma transition_triple t m to arg :
  state_free arg -> triple trail_grows trail_ok (transitionState parse t m to arg) (fun _ _ => True).
Proof.
  intros Hfree. eapply triple_bind; [exact _|apply load_triple|]. intros [current|]; [|apply triple_throw].
  destruct (isValidTransition (cs_state current) to) eqn:Hv; cbn [negb]; [|apply triple_throw].
  intros d Hf. destruct (Hf current eq_refl) as (Ht & Hm & Hs). clear Hf. revert d Hs.
  change (triple trail_grows (sent t m (cs_state current))
    (logCutoverEvent (transition_event t m (cs_state current) to arg) ;;;
     let! now := the_clock in
     match updateCutoverStatus current to (reason_of arg) now with
     | None => Throw "Invalid state transition"%string
     | Some next => let next := match arg with metadata_object m => fold_left assign_entry m next | _ => next end in
                    saveCutoverState parse next ;;; Ret next
     end) (fun _ _ => True)).
  eapply triple_bind with (B := fun _ => sent t m to); [exact _| |].
  - apply triple_upd; [apply sent_stable..|]. intros d Hs.
    assert (Hto : ev_toState (transition_event t m (cs_state current) to arg (cutover_now d)) = to)
      by apply mapStateToDb_id.
    split.
    + apply (log_grows t m); [done|]. right. exists (cs_state current). rewrite Hto. split_and!; [|done|done].
      simpl. by rewrite mapStateToDb_id.
    + intros Hk. right. exists (transition_event t m (cs_state current) to arg (cutover_now d)). split; [|done].
      rewrite events_of_app, decide_True by exact Hk. apply elem_of_app. right. by apply list_elem_of_singleton.
  - intros _. eapply triple_bind; [exact _|apply (triple_act _ _ _ (fun _ => sent t m to));
      [apply sent_stable|intros ?; apply sent_stable|done]|]. intros now.
    destruct (update_fields current to (reason_of arg) now Hv) as (next & -> & Hs & Ht' & Hm' & _).
    eapply triple_bind with (B := fun _ _ => True); [exact _| |intros _; by apply triple_ret].
    apply save_triple; destruct arg as [| |me]; try congruence;
      destruct (assign_keeps me next Hfree) as (E1 & E2 & E3 & _); cbv zeta in *; congruence.
Qed.

Lemma cutover_calls_ok p d : cutover_call p -> trail_ok d ->
  rg trail_grows trail_grows p (fun _ _ => True) (fun _ _ => True) d.
Proof.
  intros [t m server by'|t m to arg Hfree] Hok; apply rg_bind; try exact _.
  - eapply rg_mono; [by apply initialize_triple|by intros ? ? _ ? _|done].
  - eapply rg_mono; [by apply transition_triple|by intros ? ? _ ? _|done].
Qed.
End audit_trail.

(** ** Theorems *)

Definition empty_cutover : CutoverDb := mkCutoverDb ∅ [] 0.


(** [transitionState] refines the state machine.  Without a row, or asked
    for a transition [VALID_TRANSITIONS] does not list, it rejects and nothing
    changes; otherwise it answers the new state, the row of this mapping is in
    it, exactly one event - from the old state to the new - is appended, and no
    other mapping's row changes. *)
Theorem transitionState_refines parse t m to arg d :
  parse "{}" = Some (JText "{}") -> state_free arg -> cutover_wf d ->
  match run (transitionState parse t m to arg) d with
  | (inl _, d') => d' = d /\
      (cutover_rows d !! (t, m) = None \/
       exists row, cutover_rows d !! (t, m) = Some row /\ isValidTransition (crow_state row) to = false)
  | (inr status, d') => exists row row',
      cutover_rows d !! (t, m) = Some row /\ isValidTransition (crow_state row) to = true /\
      cs_state status = to /\ crow_state row' = to /\
      cutover_rows d' = <[(t, m) := row']> (cutover_rows d) /\
      cutover_events d' = cutover_events d ++ [transition_event t m (crow_state row) to arg (cutover_now d)]
  end.
Proof.
  intros Hp Hfree Hwf. destruct (cutover_rows d !! (t, m)) as [row|] eqn:Hrow.
  - destruct (isValidTransition (crow_state row) to) eqn:Hv.
    + destruct (wf_rows _ Hwf _ _ Hrow) as [_ Hr].
      destruct (run_transition parse Hp t m to arg d row Hfree Hr Hrow Hv) as (status & row' & -> & Hs & Hs' & _).
      exists row, row'. by split_and!.
    + rewrite (run_transition_refused parse t m to arg d row Hrow Hv). split; [done|]. right. by exists row.
  - rewrite (run_transition_missing parse t m to arg d Hrow). split; [done|by left].
Qed.

(** [initializeCutover] never revokes anything.  Called again, whatever has
    happened to the cutover since, it answers the row as it stands and writes
    nothing; the first call leaves PREPARING and one event. *)
Theorem initializeCutover_idempotent parse t m server by1 d :
  parse "{}" = Some (JText "{}") ->
  match cutover_rows d !! (t, m) with
  | Some row => run (initializeCutover parse t m server by1) d = (inr (mapRowToStatus (t, m) row), d)
  | None => exists status d' row e, run (initializeCutover parse t m server by1) d = (inr status, d') /\
      cs_state status = PREPARING /\
      cutover_rows d' = <[(t, m) := row]> (cutover_rows d) /\ crow_state row = PREPARING /\
      cutover_events d' = cutover_events d ++ [e] /\
      forall server' by2, run (initializeCutover parse t m server' by2) d' = (inr (mapRowToStatus (t, m) row), d')
  end.
Proof.
  intros Hp. destruct (cutover_rows d !! (t, m)) as [row|] eqn:Hrow; [by apply run_initialize_existing|].
  destruct (run_initialize_fresh parse Hp t m server by1 d Hrow) as (row & e & Hr & Hs & _).
  eexists _, _, row, e. split; [exact Hr|]. split; [done|]. split; [done|]. split; [done|]. split; [done|].
  intros server' by2. apply run_initialize_existing. simpl. apply lookup_insert_eq.
Qed.

(** What the table remembers of a status.  Loaded after a save, a status
    has the state, the grace period's start, the mail server and the
    verification status it was saved with, and the time of the save; but not
    its phase (VERIFICATION comes back as PREPARATION, ERROR as ROLLBACK), its
    completion time or whether it can be rolled back, which is always denied. *)
Theorem load_after_save parse status d :
  parse "{}" = Some (JText "{}") ->
  verificationReport status = Some "{}"%string \/ verificationReport status = None ->
  exists d' s, save_status parse status d = (inr tt, d') /\
    load_status (cs_tenantId status) (cs_mappingId status) d' = Some s /\
    cs_state s = cs_state status /\ currentState s = Some (cs_state status) /\
    gracePeriodStartedAt s = gracePeriodStartedAt status /\ targetMailServer s = targetMailServer status /\
    verificationStatus s = verificationStatus status /\ updatedAt s = cutover_now d /\
    (cs_phase s = cs_phase status <-> cs_phase status <> VERIFICATION /\ cs_phase status <> ERROR) /\
    completedAt s = gracePeriodCompletedAt status /\ rollbackAvailable s = false.
Proof.
  intros Hp Hr. destruct (save_loaded parse Hp status d Hr) as (row & Hsave & _ & _ & Hrow).
  rewrite Hsave. eexists _, _. split; [reflexivity|].
  split; [unfold load_status; simpl; rewrite lookup_insert_eq; reflexivity|].
  rewrite Hrow. destruct status as [? ? st ph ? ? ? vs]. simpl. destruct ph, st, vs; simpl; intuition congruence.
Qed.

(** *** Samples *)

Definition sample_parse (s : string) : option jsonb :=
  if String.eqb s "{}" then Some (JText s) else None.

Definition in_state (s : CutoverState) : CutoverDb :=
  mkCutoverDb {[ ("t", "m")%string := mk_cutover_row s db_grace db_pending (JText "{}") 72 None None None
    (mkStoredMetadata (Some 72) true None None) 0 0 ]} [] 1.

(** Terminal states are terminal only while nobody else is at work.
    Reading, checking and saving are separate statements: two transitions from
    GRACE_PERIOD can both be found valid, and then both succeed - a cutover
    reported COMPLETED ends up ROLLED_BACK, with two events that both start
    at GRACE_PERIOD. *)
Theorem concurrent_transitions_collide :
  exists sched d', mapWithConcurrency [COMPLETED; ROLLED_BACK]
      (fun to _ => transitionState sample_parse "t" "m" to no_reason ;;; Ret tt) 2 sched (in_state GRACE_PERIOD)
    = Some (inr tt, d') /\
    crow_state <$> (cutover_rows d' !! ("t", "m")%string) = Some ROLLED_BACK /\
    (fun e => (ev_fromState e, ev_toState e)) <$> cutover_events d' =
      [(Some GRACE_PERIOD, COMPLETED); (Some GRACE_PERIOD, ROLLED_BACK)] /\
    isTerminalState COMPLETED = true /\ VALID_TRANSITIONS COMPLETED = [].
Proof.
  exists ([0; 1; 0; 1] ++ replicate 10 0 ++ replicate 10 1)%nat.
  eexists. split; [vm_compute; reflexivity|]. by vm_compute.
Qed.

(** A call that is left to run to its end. *)
Lemma calls_run {W E} (issued : prog W E unit -> Prop) others p (w : W) :
  issued p -> rtc (calls_step issued others) ([], w) ([], snd (run p w)).
Proof.
  intros Hp. eapply rtc_l; [apply (call_begins _ _ p []); exact Hp|]. clear Hp.
  revert w; induction p as [a|e|X f k IH]; intros w.
  - apply rtc_once. apply (call_ends _ _ (Ret a) [] []).
  - apply rtc_once. apply (call_ends _ _ (Throw e) [] []).
  - eapply rtc_l; [apply (call_moves _ _ X f k [] [])|]. simpl. destruct (f w) as [b w']. apply IH.
Qed.

(** A whole cutover, one call after the other. *)
Definition sample_moves : list CutoverState :=
  [READY_FOR_CUTOVER; APPROVED; CUTOVER_IN_PROGRESS; GRACE_PERIOD; COMPLETED].

Definition sample_cutover (moves : list CutoverState) (d : CutoverDb) : CutoverDb :=
  fold_left (fun d to => snd (run (transitionState sample_parse "t" "m" to no_reason ;;; Ret tt) d)) moves d.

Lemma sample_cutover_reached moves d :
  rtc (calls_step (cutover_call sample_parse) (cutover_others ("t", "m")%string)) ([], d) ([], sample_cutover moves d).
Proof.
  revert d; induction moves as [|to moves IH]; intros d; [apply rtc_refl|].
  etrans; [|apply IH]. apply calls_run. apply call_transition. exact Logic.I.
Qed.


Definition sample_initialized : CutoverDb :=
  snd (run (initializeCutover sample_parse "t" "m" None None) empty_cutover).

Lemma empty_cutover_wf : cutover_wf empty_cutover.
Proof. split; [intros k row H; discriminate H|reflexivity]. Qed.

Lemma transitionState_refines_witness :
  exists status d', run (transitionState sample_parse "t" "m" READY_FOR_CUTOVER no_reason) sample_initialized =
      (inr status, d') /\
    cs_state status = READY_FOR_CUTOVER /\ length (cutover_events d') = 2%nat.
Proof.
  assert (Hwf : cutover_wf sample_initialized).
  { apply (initialize_wf sample_parse eq_refl). exact empty_cutover_wf. }
  pose proof (transitionState_refines sample_parse "t" "m" READY_FOR_CUTOVER no_reason sample_initialized
                eq_refl Logic.I Hwf) as H.
  assert (Hok : match run (transitionState sample_parse "t" "m" READY_FOR_CUTOVER no_reason) sample_initialized with
                | (inr _, _) => true | _ => false end = true) by (vm_compute; reflexivity).
  destruct (run (transitionState sample_parse "t" "m" READY_FOR_CUTOVER no_reason) sample_initialized)
    as [[e|status] d']; [discriminate Hok|].
  destruct H as (row & row' & _ & _ & Hs & _ & _ & He). exists status, d'.
  split; [reflexivity|]. split; [exact Hs|]. rewrite He, length_app. reflexivity.
Defined.

Lemma initializeCutover_idempotent_witness :
  run (initializeCutover sample_parse "t" "m" None None) (in_state APPROVED)
  = (inr (mapRowToStatus ("t", "m")%string (mk_cutover_row APPROVED db_grace db_pending (JText "{}") 72 None None None
      (mkStoredMetadata (Some 72) true None None) 0 0)), in_state APPROVED).
Proof. exact (initializeCutover_idempotent sample_parse "t" "m" None None (in_state APPROVED) eq_refl). Defined.

Lemma load_after_save_witness :
  exists d' s, save_status sample_parse (initial_status "t" "m" None None 0) empty_cutover = (inr tt, d') /\
    load_status "t" "m" d' = Some s /\ cs_state s = PREPARING.
Proof.
  destruct (load_after_save sample_parse (initial_status "t" "m" None None 0) empty_cutover eq_refl (or_intror eq_refl))
    as (d' & s & Hs & Hl & Hst & _).
  exists d', s. split; [exact Hs|]. split; [exact Hl|exact Hst].
Defined.
