(* ===== verification/CutoverJobs.v ===== *)
(** * The operators of a cutover

    [apps/worker/src/jobs/run-cutover.ts] (preparation), [run-rollback.ts] and
    [apps/worker/src/cli/cutover-commands.ts]: who asks the store of [Cutover]
    for which transition, and under which conditions.  The verification gate,
    the final sync and the DNS lookups are calls outside; what the commands
    print is left out.  A [process.exit] ends the command: it is the rejection
    ["exit"], which the commands' [catch] blocks would only repeat. *)

From S2P Require Import Prelude Prog Ports Verification Cutover.

Open Scope Z_scope.

(** [verification.overallStatus === 'FAIL' || !verification.canProceedToCutover] *)
Definition gate_refuses (v : VerificationResult) : bool :=
  bool_decide (overallStatus v = O_FAIL) || negb (canProceedToCutover v).

Section jobs.
Context {Env : Type}.
Variable parse : string -> option jsonb.

Record JobWorld := mkJobWorld {
  jw_db : CutoverDb;
  jw_mappingStatus : gmap (string * string) string;
  jw_env : Env
}.

#[export] Instance eta_JobWorld : Eta JobWorld := fun w =>
  mkJobWorld (jw_db w) (jw_mappingStatus w) (jw_env w).

Abbreviation jprog := (prog JobWorld string).

Definition on_db {A} (p : prog CutoverDb string A) : jprog A :=
  plift jw_db (fun d w => w <| jw_db := d |>) p.

Definition outside_call {A} (f : Env -> (string + A) * Env) : jprog A :=
  try_act (fun w => let '(r, e) := f (jw_env w) in (r, w <| jw_env := e |>)).

Definition job_clock : jprog instant := act (fun w => (cutover_now (jw_db w), w)).

Definition transition (t m : string) (to : CutoverState) (arg : MetadataOrReason) : jprog CutoverStatus :=
  on_db (transitionState parse t m to arg).

(** ** The preparation job *)

Record CutoverPreparationDeps := mkPreparationDeps {
  cp_tenantId : string;
  cp_mappingId : string;
  cp_runFinalSync : option (Env -> (string + (Z * Z)) * Env);
  cp_runGate : option (Env -> (string + VerificationResult) * Env)
}.

Record CutoverPreparationResult := mkPreparationResult {
  pr_ready : bool;
  pr_state : CutoverState;
  pr_finalSync : option (Z * Z);
  pr_verification : option VerificationResult
}.

Definition prepareCutover (deps : CutoverPreparationDeps) : jprog CutoverPreparationResult :=
  let t := cp_tenantId deps in
  let m := cp_mappingId deps in
  on_db (initializeCutover parse t m None (Some "trigger-job"%string)) ;;;
  let! sync := match cp_runFinalSync deps with
               | Some f => let! r := outside_call f in Ret (Some r)
               | None => Ret None
               end in
  let! verification := match cp_runGate deps with
                       | Some f =>
                           let! v := outside_call f in
                           if gate_refuses v then Throw "Cutover verification failed"%string else Ret (Some v)
                       | None => Ret None
                       end in
  let! now := job_clock in
  let! ready := transition t m READY_FOR_CUTOVER (metadata_object [m_other "readyAt"]) in
  Ret {| pr_ready := true; pr_state := nullish (currentState ready) (cs_state ready);
         pr_finalSync := sync; pr_verification := verification |}.

(** The task around it: a failure marks the cutover FAILED, best effort. *)
Definition runCutover (deps : CutoverPreparationDeps) : jprog CutoverPreparationResult :=
  pcatch (prepareCutover deps) (fun message =>
    let! now := job_clock in
    pcatch (transition (cp_tenantId deps) (cp_mappingId deps) FAILED
              (metadata_object [m_failedAt now; m_failureReason message]) ;;; Ret tt)
           (fun _ => Ret tt) ;;;
    Throw message).

(** ** The rollback job *)

Definition runRollback (t m reason : string) : jprog unit :=
  pcatch
    (let! state := on_db (loadCutoverState t m) in
     match state with
     | None => Throw "No cutover state found - nothing to rollback"%string
     | Some _ =>
         upd (fun w => w <| jw_mappingStatus ::= <[(t, m) := "active"%string]> |>) ;;;
         let! now := job_clock in
         transition t m ROLLED_BACK
           (metadata_object [m_rolledBackAt now; m_other "rolledBackBy"; m_rollbackReason reason]) ;;;
         Ret tt
     end)
    (fun message =>
       let! now := job_clock in
       pcatch (transition t m FAILED
                 (metadata_object [m_failedAt now; m_failureReason ("Rollback failed: " ++ message)%string]) ;;;
               Ret tt)
              (fun _ => Ret tt) ;;;
       Throw message).

(** ** The command line *)

Record CutoverCliDeps := mkCliDeps {
  cl_tenantId : string;
  cl_mappingId : string;
  cl_targetMailServer : string;
  cl_assumeYes : option bool;
  cl_verifyAllDns : Env -> (string + bool) * Env;
  cl_runDataVerification : option (Env -> (string + VerificationResult) * Env);
  cl_checkPropagation : Env -> (string + bool) * Env
}.

Definition process_exit {A} : jprog A := Throw "exit"%string.

(** [try { p } catch { ...; process.exit(1) }] *)
Definition or_exit {A} (p : jprog A) : jprog A := pcatch p (fun _ => process_exit).

Definition confirmed (deps : CutoverCliDeps) : bool := nullish (cl_assumeYes deps) false.

Definition startCutover (deps : CutoverCliDeps) : jprog unit :=
  or_exit (on_db (initializeCutover parse (cl_tenantId deps) (cl_mappingId deps)
                    (Some (cl_targetMailServer deps)) (Some "cli"%string)) ;;; Ret tt).

(** A check that could not run has not passed. *)
Definition check_of (p : jprog bool) : jprog bool := pcatch p (fun _ => Ret false).

Definition verifyCutover (deps : CutoverCliDeps) : jprog bool :=
  let t := cl_tenantId deps in
  let m := cl_mappingId deps in
  let! dns := check_of (outside_call (cl_verifyAllDns deps)) in
  let! data := match cl_runDataVerification deps with
               | None => Ret false
               | Some f => check_of (let! v := outside_call f in Ret (negb (gate_refuses v)))
               end in
  let! known := check_of (let! state := on_db (loadCutoverState t m) in Ret (defined state)) in
  if negb (dns && data && known) then Ret false
  else
    check_of
      (let! state := on_db (loadCutoverState t m) in
       match state with
       | Some status =>
           if bool_decide (nullish (currentState status) (cs_state status) = PREPARING)
           then transition t m READY_FOR_CUTOVER (metadata_object [m_other "readyAt"; m_other "verifiedBy"]) ;;;
                Ret true
           else Ret true
       | None => Ret true
       end).

(** [approve], [execute] and [complete] start alike: the state they need, then
    the operator's consent. *)
Definition gated (deps : CutoverCliDeps) (needed : CutoverState) (p : jprog unit) : jprog unit :=
  or_exit
    (let! state := on_db (loadCutoverState (cl_tenantId deps) (cl_mappingId deps)) in
     match state with
     | None => process_exit
     | Some status =>
         if negb (bool_decide (currentState status = Some needed)) then process_exit
         else if negb (confirmed deps) then process_exit else p
     end).

Definition approveCutover (deps : CutoverCliDeps) : jprog unit :=
  gated deps READY_FOR_CUTOVER
    (transition (cl_tenantId deps) (cl_mappingId deps) APPROVED
       (metadata_object [m_other "approvedBy"; m_other "timestamp"]) ;;; Ret tt).

Definition executeCutover (deps : CutoverCliDeps) : jprog unit :=
  let t := cl_tenantId deps in
  let m := cl_mappingId deps in
  gated deps APPROVED
    (let! now := job_clock in
     transition t m CUTOVER_IN_PROGRESS (metadata_object [m_startedAt now]) ;;;
     let! propagated := outside_call (cl_checkPropagation deps) in
     let! now := job_clock in
     if (propagated : bool)
     then transition t m GRACE_PERIOD (metadata_object [m_gracePeriodStartedAt now]) ;;; Ret tt
     else transition t m FAILED
            (metadata_object [m_failedAt now; m_failureReason "DNS propagation timeout"]) ;;; process_exit).

Definition completeCutover (deps : CutoverCliDeps) : jprog unit :=
  gated deps GRACE_PERIOD
    (let! now := job_clock in
     transition (cl_tenantId deps) (cl_mappingId deps) COMPLETED
       (metadata_object [m_completedAt now; m_other "completedBy"]) ;;; Ret tt).

Definition rollbackCutover (deps : CutoverCliDeps) : jprog unit :=
  let t := cl_tenantId deps in
  let m := cl_mappingId deps in
  or_exit
    (let! state := on_db (loadCutoverState t m) in
     match state with
     | None => process_exit
     | Some _ =>
         if negb (confirmed deps) then process_exit
         else
           let! now := job_clock in
           transition t m ROLLED_BACK (metadata_object [m_rolledBackAt now; m_other "rolledBackBy"]) ;;; Ret tt
     end).
End jobs.

Arguments JobWorld Env : clear implicits.
Arguments CutoverPreparationDeps Env : clear implicits.
Arguments CutoverCliDeps Env : clear implicits.

(** ** Running them *)
Section job_theorems.
Context {Env : Type}.
Variable parse : string -> option jsonb.
Hypothesis parse_object : parse "{}" = Some (JText "{}").

Implicit Types w : JobWorld Env.

Definition state_at (t m : string) w : option CutoverState := crow_state <$> cutover_rows (jw_db w) !! (t, m).

Lemma run_on_db {A} (p : prog CutoverDb string A) w :
  run (on_db p) w = ((run p (jw_db w)).1, w <| jw_db := (run p (jw_db w)).2 |>).
Proof.
  unfold on_db. apply run_plift with (put := fun d (w : JobWorld Env) => w <| jw_db := d |>); [done|done|].
  by intros [].
Qed.

Lemma run_load t m w : run (on_db (loadCutoverState t m)) w = (inr (load_status t m (jw_db w)), w).
Proof. rewrite run_on_db. by destruct w. Qed.

Lemma load_status_state t m w :
  match load_status t m (jw_db w) with
  | Some status => state_at t m w = Some (cs_state status) /\ currentState status = Some (cs_state status)
  | None => state_at t m w = None
  end.
Proof. unfold load_status, state_at. by destruct (cutover_rows (jw_db w) !! (t, m)). Qed.

Lemma transition_ok t m s to arg w :
  cutover_wf (jw_db w) -> state_at t m w = Some s -> isValidTransition s to = true -> state_free arg ->
  exists status d', run (transition parse t m to arg) w = (inr status, w <| jw_db := d' |>) /\
    cutover_wf d' /\ state_at t m (w <| jw_db := d' |>) = Some to /\ currentState status = Some to.
Proof.
  intros Hwf Hs Hv Hfree. unfold transition. rewrite run_on_db. unfold state_at in *.
  destruct (cutover_rows (jw_db w) !! (t, m)) as [row|] eqn:Hrow; [|done]. injection Hs as <-.
  pose proof (transition_wf parse parse_object t m to arg (jw_db w) Hfree Hwf) as Hwf'.
  destruct (wf_rows _ Hwf _ _ Hrow) as [_ Hr].
  destruct (run_transition parse parse_object t m to arg (jw_db w) row Hfree Hr Hrow Hv)
    as (status & row' & Hrun & _ & Hs' & _ & Hcur).
  rewrite Hrun in *. eexists _, _. split; [reflexivity|]. split; [exact Hwf'|]. split; [|exact Hcur].
  change (crow_state <$> <[(t, m) := row']> (cutover_rows (jw_db w)) !! (t, m) = Some to).
  by rewrite lookup_insert_eq, <- Hs'.
Qed.

Lemma transition_refused t m s to arg w :
  state_at t m w = Some s -> isValidTransition s to = false ->
  run (transition parse t m to arg) w = (inl "Invalid transition"%string, w).
Proof.
  intros Hs Hv. unfold transition. rewrite run_on_db. unfold state_at in *.
  destruct (cutover_rows (jw_db w) !! (t, m)) as [row|] eqn:Hrow; [|done]. injection Hs as <-.
  rewrite (run_transition_refused parse t m to arg (jw_db w) row Hrow Hv). by destruct w.
Qed.

Lemma initialize_existing t m server by' s w :
  state_at t m w = Some s -> exists status, run (on_db (initializeCutover parse t m server by')) w = (inr status, w).
Proof.
  intros Hs. rewrite run_on_db. unfold state_at in Hs.
  destruct (cutover_rows (jw_db w) !! (t, m)) as [row|] eqn:Hrow; [|done].
  rewrite (run_initialize_existing parse t m server by' (jw_db w) row Hrow). destruct w. by eexists.
Qed.

(** *** The command line *)

Lemma run_gated deps needed p w :
  run (gated deps needed p) w =
  if bool_decide (state_at (cl_tenantId deps) (cl_mappingId deps) w = Some needed) && confirmed deps
  then match run p w with (inl _, w') => (inl "exit"%string, w') | r => r end
  else (inl "exit"%string, w).
Proof.
  unfold gated, or_exit. rewrite run_catch, run_bind, run_load.
  pose proof (load_status_state (cl_tenantId deps) (cl_mappingId deps) w) as Hl.
  destruct (load_status _ _ _) as [status|].
  - destruct Hl as [-> ->]. case_bool_decide; simpl; [|reflexivity].
    destruct (confirmed deps); simpl; [|reflexivity]. by destruct (run p w) as [[e|a] w'].
  - rewrite Hl. reflexivity.
Qed.

(** Nothing happens without [--yes].  Without it the four commands that
    change state exit, with the database, the mapping and the world as they
    were - before the first lookup, whatever state the cutover is in. *)
Theorem unconfirmed_commands_change_nothing deps w p :
  p ∈ [approveCutover parse deps; executeCutover parse deps; completeCutover parse deps;
       rollbackCutover parse deps] ->
  cl_assumeYes deps <> Some true -> run p w = (inl "exit"%string, w).
Proof.
  intros Hp Hy. assert (Hc : confirmed deps = false) by (unfold confirmed; by destruct (cl_assumeYes deps) as [[]|]).
  rewrite !elem_of_cons, elem_of_nil in Hp. destruct Hp as [->|[->|[->|[->|[]]]]];
    try (unfold approveCutover, executeCutover, completeCutover; cbv zeta; rewrite run_gated, Hc, andb_false_r;
         reflexivity).
  unfold rollbackCutover, or_exit. cbv zeta. rewrite run_catch, run_bind, run_load.
  destruct (load_status _ _ _); [|reflexivity]. by rewrite Hc.
Qed.

(** What the operator's commands may do to a state, the propagation check
    having answered [propagated]. *)
Inductive Command := cmd_approve | cmd_execute | cmd_complete | cmd_rollback.

Definition command_program (c : Command) (deps : CutoverCliDeps Env) : prog (JobWorld Env) string unit :=
  match c with
  | cmd_approve => approveCutover parse deps
  | cmd_execute => executeCutover parse deps
  | cmd_complete => completeCutover parse deps
  | cmd_rollback => rollbackCutover parse deps
  end.

Definition command_target (c : Command) (propagated : bool) (s : CutoverState) : option CutoverState :=
  match c, s with
  | cmd_approve, READY_FOR_CUTOVER => Some APPROVED
  | cmd_execute, APPROVED => Some (if propagated then GRACE_PERIOD else FAILED)
  | cmd_complete, GRACE_PERIOD => Some COMPLETED
  | cmd_rollback, (APPROVED | CUTOVER_IN_PROGRESS | GRACE_PERIOD | FAILED) => Some ROLLED_BACK
  | _, _ => None
  end.

Lemma run_job_clock {A} (k : instant -> prog (JobWorld Env) string A) w :
  run (let! now := job_clock in k now) w = run (k (cutover_now (jw_db w))) w.
Proof. reflexivity. Qed.

(** A transition that may be made, and the rest of the program. *)
Lemma run_then {A} t m s to arg w (k : CutoverStatus -> prog (JobWorld Env) string A)
    (Q : (string + A) * JobWorld Env -> Prop) :
  state_at t m w = Some s -> cutover_wf (jw_db w) -> isValidTransition s to = true -> state_free arg ->
  (forall status d', cutover_wf d' -> state_at t m (w <| jw_db := d' |>) = Some to ->
     currentState status = Some to -> Q (run (k status) (w <| jw_db := d' |>))) ->
  Q (run (let! x := transition parse t m to arg in k x) w).
Proof.
  intros Hs Hwf Hv Hfree HQ. destruct (transition_ok t m s to arg w Hwf Hs Hv Hfree) as (status & d' & Hr & H1 & H2 & H3).
  rewrite run_bind, Hr. by apply HQ.
Qed.

(** One that may not. *)
Lemma run_then_refused {A} t m s to arg w (k : CutoverStatus -> prog (JobWorld Env) string A) :
  state_at t m w = Some s -> isValidTransition s to = false ->
  run (let! x := transition parse t m to arg in k x) w = (inl "Invalid transition"%string, w).
Proof. intros Hs Hv. by rewrite run_bind, (transition_refused t m s to arg w Hs Hv). Qed.

Ltac meta_free := repeat constructor; discriminate.

(** Takes the next transition, from the state [Hs] records. *)
Ltac take_transition Hs Hwf status d Hwf' Hs' Hcur :=
  match goal with |- context [run (pbind (transition parse ?t ?m ?to ?arg) ?k) ?w] =>
    pattern (run (pbind (transition parse t m to arg) k) w);
    eapply (run_then _ _ _ to arg w k _ Hs); [exact Hwf|try reflexivity; try assumption|meta_free|];
    intros status d Hwf' Hs' Hcur
  end.

(** The commands follow the machine.  Confirmed, from a well-formed
    database: each command moves the cutover exactly where [command_target]
    says - approve only what is ready, execute only what is approved, into the
    grace period if the DNS change is seen and to FAILED if not, complete only
    out of the grace period, roll back only what [VALID_TRANSITIONS] lets - and
    from any other state it exits and changes nothing. *)
Theorem commands_follow_the_machine c deps w s propagated e :
  cutover_wf (jw_db w) -> cl_assumeYes deps = Some true ->
  state_at (cl_tenantId deps) (cl_mappingId deps) w = Some s ->
  cl_checkPropagation deps (jw_env w) = (inr propagated, e) ->
  match run (command_program c deps) w with
  | (r, w') =>
      match command_target c propagated s with
      | Some s' => state_at (cl_tenantId deps) (cl_mappingId deps) w' = Some s' /\ cutover_wf (jw_db w') /\
          (r = inr tt <-> s' <> FAILED)
      | None => r = inl "exit"%string /\ w' = w
      end
  end.
Proof.
  intros Hwf Hy Hs He. set (t := cl_tenantId deps) in *. set (m := cl_mappingId deps) in *.
  assert (Hc : confirmed deps = true) by (unfold confirmed; by rewrite Hy).
  destruct c; cbn [command_program].
  - unfold approveCutover. rewrite run_gated, Hc, andb_true_r. fold t m. rewrite Hs.
    case_bool_decide as Hn; [injection Hn as ->|by destruct s].
    take_transition Hs Hwf st1 d1 Hwf1 Hs1 Hc1. by split_and!.
  - unfold executeCutover. cbv zeta. rewrite run_gated, Hc, andb_true_r. fold t m. rewrite Hs.
    case_bool_decide as Hn; [injection Hn as ->|by destruct s]. rewrite run_job_clock.
    take_transition Hs Hwf st1 d1 Hwf1 Hs1 Hc1.
    rewrite run_bind. cbn -[transition]. rewrite He. cbn -[transition].
    change (state_at t m (mkJobWorld d1 (jw_mappingStatus w) e) = Some CUTOVER_IN_PROGRESS) in Hs1.
    destruct propagated; take_transition Hs1 Hwf1 st2 d2 Hwf2 Hs2 Hc2; by split_and!.
  - unfold completeCutover. rewrite run_gated, Hc, andb_true_r. fold t m. rewrite Hs.
    case_bool_decide as Hn; [injection Hn as ->|by destruct s]. rewrite run_job_clock.
    take_transition Hs Hwf st1 d1 Hwf1 Hs1 Hc1. by split_and!.
  - unfold rollbackCutover, or_exit. cbv zeta. fold t m. rewrite run_catch, run_bind, run_load.
    pose proof (load_status_state t m w) as Hl. destruct (load_status t m (jw_db w)) as [status|]; [|congruence].
    rewrite Hc. simpl negb. cbv iota. rewrite run_job_clock.
    destruct (isValidTransition s ROLLED_BACK) eqn:Hv.
    + take_transition Hs Hwf st1 d1 Hwf1 Hs1 Hc1. destruct s; try discriminate Hv; by split_and!.
    + rewrite (run_then_refused t m s) by done. by destruct s.
Qed.

(** *** The jobs *)

(** What the sync and the gate of a preparation come to, and the world they
    leave; the gate is not asked after a failed sync. *)
Definition preparation_checks (deps : CutoverPreparationDeps Env) (e : Env) : bool * Env :=
  let '(synced, e1) := match cp_runFinalSync deps with
                       | None => (true, e)
                       | Some f => match f e with (inr _, e1) => (true, e1) | (inl _, e1) => (false, e1) end
                       end in
  match synced, cp_runGate deps with
  | true, Some g => match g e1 with
                    | (inr v, e2) => (negb (gate_refuses v), e2)
                    | (inl _, e2) => (false, e2)
                    end
  | _, _ => (synced, e1)
  end.

Definition move_or_fail (allowed : bool) (to s : CutoverState) : CutoverState :=
  if allowed && isValidTransition s to then to
  else if isValidTransition s FAILED then FAILED else s.

(** The handler of both jobs. *)
Lemma run_mark_failed t m s reason reason' w :
  cutover_wf (jw_db w) -> state_at t m w = Some s ->
  match run (let! now := job_clock in
             pcatch (transition parse t m FAILED (metadata_object [m_failedAt now; m_failureReason reason]) ;;; Ret tt)
                    (fun _ => Ret tt) ;;;
             (Throw reason' : prog (JobWorld Env) string unit)) w with
  | (r, w') => r = inl reason' /\ cutover_wf (jw_db w') /\ jw_env w' = jw_env w /\
      jw_mappingStatus w' = jw_mappingStatus w /\
      state_at t m w' = Some (if isValidTransition s FAILED then FAILED else s)
  end.
Proof.
  intros Hwf Hs. rewrite run_job_clock, run_bind, run_catch.
  destruct (isValidTransition s FAILED) eqn:Hv.
  - take_transition Hs Hwf st1 d1 Hwf1 Hs1 Hc1. by split_and!.
  - rewrite (run_then_refused t m s) by done. by split_and!.
Qed.

(** The database the preparation starts from: as it was, or freshly initialised. *)
Lemma initialize_any t m server by' w :
  cutover_wf (jw_db w) ->
  exists status d', run (on_db (initializeCutover parse t m server by')) w = (inr status, w <| jw_db := d' |>) /\
    cutover_wf d' /\ state_at t m (w <| jw_db := d' |>) = Some (nullish (state_at t m w) PREPARING).
Proof.
  intros Hwf.
  pose proof (initialize_wf parse parse_object t m server by' (jw_db w) Hwf) as Hwf'.
  rewrite run_on_db. destruct (cutover_rows (jw_db w) !! (t, m)) as [row|] eqn:Hrow.
  - rewrite (run_initialize_existing parse t m server by' _ row Hrow) in *. eexists _, _.
    split; [reflexivity|]. split; [done|]. unfold state_at. simpl. by rewrite Hrow.
  - destruct (run_initialize_fresh parse parse_object t m server by' _ Hrow) as (row & e & Hr & Hst & _).
    rewrite Hr in *. eexists _, _. split; [reflexivity|]. split; [exact Hwf'|]. unfold state_at at 2. rewrite Hrow.
    change (crow_state <$> <[(t, m) := row]> (cutover_rows (jw_db w)) !! (t, m) = Some PREPARING).
    by rewrite lookup_insert_eq, <- Hst.
Qed.

Lemma run_checks_sync (deps : CutoverPreparationDeps Env) w :
  run (match cp_runFinalSync deps with
       | Some f => let! r := outside_call f in Ret (Some r)
       | None => Ret None
       end) w =
  match cp_runFinalSync deps with
  | None => (inr None, w)
  | Some f => match f (jw_env w) with
              | (inr r, e) => (inr (Some r), w <| jw_env := e |>)
              | (inl x, e) => (inl x, w <| jw_env := e |>)
              end
  end.
Proof. destruct (cp_runFinalSync deps) as [f|]; [|done]. cbn. by destruct (f (jw_env w)) as [[]]. Qed.

Lemma run_checks_gate (deps : CutoverPreparationDeps Env) w :
  run (match cp_runGate deps with
       | Some f => let! v := outside_call f in
                   if gate_refuses v then Throw "Cutover verification failed"%string else Ret (Some v)
       | None => Ret None
       end) w =
  match cp_runGate deps with
  | None => (inr None, w)
  | Some f => match f (jw_env w) with
              | (inr v, e) => (if gate_refuses v then inl "Cutover verification failed"%string else inr (Some v),
                               w <| jw_env := e |>)
              | (inl x, e) => (inl x, w <| jw_env := e |>)
              end
  end.
Proof.
  destruct (cp_runGate deps) as [f|]; [|done]. cbn. destruct (f (jw_env w)) as [[x|v] e]; [done|].
  cbn. by destruct (gate_refuses v).
Qed.

(** Where the preparation stops short, the database is the one it started from. *)
Ltac stopped Hwf Hs :=
  split; [exact Hwf|]; split; [reflexivity|]; split; [reflexivity|]; split; [by eexists|exact Hs].

Lemma run_prepareCutover deps w s :
  cutover_wf (jw_db w) -> nullish (state_at (cp_tenantId deps) (cp_mappingId deps) w) PREPARING = s ->
  match run (prepareCutover parse deps) w, preparation_checks deps (jw_env w) with
  | (r, w'), (ok, e) =>
      cutover_wf (jw_db w') /\ jw_env w' = e /\ jw_mappingStatus w' = jw_mappingStatus w /\
      if ok && isValidTransition s READY_FOR_CUTOVER
      then (exists res, r = inr res /\ pr_ready res = true /\ pr_state res = READY_FOR_CUTOVER) /\
           state_at (cp_tenantId deps) (cp_mappingId deps) w' = Some READY_FOR_CUTOVER
      else (exists x, r = inl x) /\ state_at (cp_tenantId deps) (cp_mappingId deps) w' = Some s
  end.
Proof.
  intros Hwf Hs. unfold prepareCutover, preparation_checks. cbv zeta.
  set (t := cp_tenantId deps) in *. set (m := cp_mappingId deps) in *.
  destruct (initialize_any t m None (Some "trigger-job"%string) w Hwf) as (st0 & d0 & Hi & Hwf0 & Hs0).
  rewrite run_bind, Hi, run_bind, run_checks_sync. rewrite Hs in Hs0.
  assert (Hgo : forall (sync : option (Z * Z)) (gate : option VerificationResult) e,
    match run (let! now := job_clock in
               let! ready := transition parse t m READY_FOR_CUTOVER (metadata_object [m_other "readyAt"]) in
               Ret (mkPreparationResult true (nullish (currentState ready) (cs_state ready)) sync gate))
            (mkJobWorld d0 (jw_mappingStatus w) e) with
    | (r, w') => cutover_wf (jw_db w') /\ jw_env w' = e /\ jw_mappingStatus w' = jw_mappingStatus w /\
      if isValidTransition s READY_FOR_CUTOVER
      then (exists res, r = inr res /\ pr_ready res = true /\ pr_state res = READY_FOR_CUTOVER) /\
           state_at t m w' = Some READY_FOR_CUTOVER
      else (exists x, r = inl x) /\ state_at t m w' = Some s
    end).
  { intros sync gate e. rewrite run_job_clock. change (state_at t m (mkJobWorld d0 (jw_mappingStatus w) e) = Some s) in Hs0.
    destruct (isValidTransition s READY_FOR_CUTOVER) eqn:Hv.
    - take_transition Hs0 Hwf0 st1 d1 Hwf1 Hs1 Hc1. cbn -[state_at]. rewrite Hc1. split_and!; try done. by eexists.
    - rewrite (run_then_refused t m s) by done. split_and!; try done. by eexists. }
  change (w <| jw_db := d0 |>) with (mkJobWorld d0 (jw_mappingStatus w) (jw_env w)) in *.
  destruct (cp_runFinalSync deps) as [f|].
  - cbn [jw_env]. destruct (f (jw_env w)) as [[x|r] e1].
    + stopped Hwf0 Hs0.
    + rewrite run_bind, run_checks_gate. destruct (cp_runGate deps) as [g|]; [|apply Hgo].
      cbn. destruct (g e1) as [[x|v] e2]; cbn; [stopped Hwf0 Hs0|].
      destruct (gate_refuses v); cbn; [stopped Hwf0 Hs0|apply Hgo].
  - rewrite run_bind, run_checks_gate. destruct (cp_runGate deps) as [g|]; [|apply Hgo].
    cbn. destruct (g (jw_env w)) as [[x|v] e2]; cbn; [stopped Hwf0 Hs0|].
    destruct (gate_refuses v); cbn; [stopped Hwf0 Hs0|apply Hgo].
Qed.

(** What the preparation job does to a cutover.  From a well-formed
    database, with the state [s] the mapping is in (PREPARING if it has none):
    the job answers ready exactly when the final sync and the gate it was given
    pass and [VALID_TRANSITIONS] lets [s] become READY_FOR_CUTOVER, and then
    that is the state; otherwise it rejects and leaves the cutover FAILED,
    where [s] may become FAILED, or as it was.  It never goes past
    READY_FOR_CUTOVER.  In particular a second run, all checks passing, turns
    READY_FOR_CUTOVER, CUTOVER_IN_PROGRESS and GRACE_PERIOD into FAILED, and
    takes an APPROVED cutover's approval back. *)
Theorem runCutover_effect deps w s :
  cutover_wf (jw_db w) -> nullish (state_at (cp_tenantId deps) (cp_mappingId deps) w) PREPARING = s ->
  match run (runCutover parse deps) w, preparation_checks deps (jw_env w) with
  | (r, w'), (ok, e) =>
      cutover_wf (jw_db w') /\ jw_env w' = e /\ jw_mappingStatus w' = jw_mappingStatus w /\
      state_at (cp_tenantId deps) (cp_mappingId deps) w' = Some (move_or_fail ok READY_FOR_CUTOVER s) /\
      ((exists res, r = inr res) <-> ok = true /\ isValidTransition s READY_FOR_CUTOVER = true)
  end.
Proof.
  intros Hwf Hs. pose proof (run_prepareCutover deps w s Hwf Hs) as Hp.
  unfold runCutover. rewrite run_catch. destruct (run (prepareCutover parse deps) w) as [r w1].
  destruct (preparation_checks deps (jw_env w)) as [ok e]. destruct Hp as (Hwf1 & He & Hm & Hp).
  unfold move_or_fail.
  destruct (ok && isValidTransition s READY_FOR_CUTOVER) eqn:Hok.
  - destruct Hp as [(res & -> & _) Hst]. apply andb_true_iff in Hok.
    split_and!; [done..|]. split; [done|by eexists].
  - destruct Hp as [[x ->] Hst]. apply andb_false_iff in Hok.
    rewrite run_job_clock, run_bind, run_catch.
    destruct (isValidTransition s FAILED) eqn:Hv.
    + take_transition Hst Hwf1 st2 d2 Hwf2 Hs2 Hc2. cbn -[state_at].
      split_and!; [done..|]. split; [by intros [? [=]]|]. intuition congruence.
    + rewrite (run_then_refused _ _ s) by done. cbn.
      split_and!; [done..|]. split; [by intros [? [=]]|]. intuition congruence.
Qed.

(** What the rollback job does.  The mapping is set active before the
    transition is tried, so it ends active whatever follows; the cutover ends
    ROLLED_BACK where the machine lets it, else FAILED where it lets it, else
    as it was - a COMPLETED cutover stays COMPLETED with its mapping syncing
    again.  The job answers exactly when the transition was made. *)
Theorem runRollback_effect t m reason w s :
  cutover_wf (jw_db w) -> state_at t m w = Some s ->
  match run (runRollback parse t m reason) w with
  | (r, w') => cutover_wf (jw_db w') /\ jw_env w' = jw_env w /\
      jw_mappingStatus w' !! (t, m) = Some "active"%string /\
      state_at t m w' = Some (move_or_fail true ROLLED_BACK s) /\
      (r = inr tt <-> isValidTransition s ROLLED_BACK = true)
  end.
Proof.
  intros Hwf Hs. unfold runRollback. rewrite run_catch, run_bind, run_load.
  pose proof (load_status_state t m w) as Hl. destruct (load_status t m (jw_db w)) as [status|]; [|congruence].
  set (w1 := w <| jw_mappingStatus ::= <[(t, m) := "active"%string]> |>).
  assert (Hact : jw_mappingStatus w1 !! (t, m) = Some "active"%string) by apply lookup_insert_eq.
  assert (Hrun : forall p : prog (JobWorld Env) string unit,
    run (upd (fun w => w <| jw_mappingStatus ::= <[(t, m) := "active"%string]> |>) ;;; p) w = run p w1) by done.
  rewrite Hrun, run_job_clock. clear Hrun. unfold move_or_fail. cbn [andb].
  change (state_at t m w1 = Some s) in Hs. change (cutover_wf (jw_db w1)) in Hwf.
  change (jw_env w) with (jw_env w1). clearbody w1.
  destruct (isValidTransition s ROLLED_BACK) eqn:Hv.
  - take_transition Hs Hwf st1 d1 Hwf1 Hs1 Hc1. by split_and!.
  - rewrite (run_then_refused t m s) by done.
    pose proof (run_mark_failed t m s ("Rollback failed: " ++ "Invalid transition")%string
                  "Invalid transition" w1 Hwf Hs) as Hf.
    destruct (run _ w1) as [r w2]. destruct Hf as (-> & Hwf2 & He2 & Hm2 & Hs2).
    split_and!; [done|done|by rewrite Hm2|done|done].
Qed.

(** What the checks of [verify] come to; data verification that is not wired up
    has not passed. *)
Definition verify_checks (deps : CutoverCliDeps Env) (e : Env) : bool * Env :=
  let '(r1, e1) := cl_verifyAllDns deps e in
  let dns := match r1 with inr b => b | inl _ => false end in
  match cl_runDataVerification deps with
  | None => (false, e1)
  | Some g => let '(r2, e2) := g e1 in
              (dns && match r2 with inr v => negb (gate_refuses v) | inl _ => false end, e2)
  end.

Lemma run_check_of_call {A} (f : Env -> (string + A) * Env) (k : A -> bool) w :
  run (check_of (let! a := outside_call f in Ret (k a))) w =
  (inr (match fst (f (jw_env w)) with inr a => k a | inl _ => false end), w <| jw_env := snd (f (jw_env w)) |>).
Proof. unfold check_of. cbn. by destruct (f (jw_env w)) as [[x|a] e]. Qed.

(** [verify] never reports a verdict it did not measure.  It answers, and
    never rejects; it answers true exactly when the MX check passed, the data
    verification ran, did not fail and lets the cutover proceed, and the mapping
    has a cutover; and only then, and only from PREPARING, does the state
    become READY_FOR_CUTOVER. *)
Theorem verifyCutover_effect deps w :
  cutover_wf (jw_db w) ->
  let t := cl_tenantId deps in let m := cl_mappingId deps in
  match run (verifyCutover parse deps) w, verify_checks deps (jw_env w) with
  | (r, w'), (ok, e) =>
      r = inr (ok && defined (state_at t m w)) /\ jw_env w' = e /\ cutover_wf (jw_db w') /\
      state_at t m w' = if ok && bool_decide (state_at t m w = Some PREPARING)
                        then Some READY_FOR_CUTOVER else state_at t m w
  end.
Proof.
  intros Hwf t m. unfold verifyCutover, verify_checks. cbv zeta. fold t m.
  assert (Hdns : run (check_of (outside_call (cl_verifyAllDns deps))) w =
    (inr (match fst (cl_verifyAllDns deps (jw_env w)) with inr b => b | inl _ => false end),
     w <| jw_env := snd (cl_verifyAllDns deps (jw_env w)) |>)).
  { unfold check_of. cbn. by destruct (cl_verifyAllDns deps (jw_env w)) as [[x|a] e]. }
  rewrite run_bind, Hdns. clear Hdns. destruct (cl_verifyAllDns deps (jw_env w)) as [r1 e1].
  cbn [fst snd]. set (dns := match r1 with inr b => b | inl _ => false end). clearbody dns.
  assert (Hrest : forall data e,
    match run (let! known := check_of (let! state := on_db (loadCutoverState t m) in Ret (defined state)) in
               if negb (dns && data && known) then Ret false
               else check_of
                 (let! state := on_db (loadCutoverState t m) in
                  match state with
                  | Some status =>
                      if bool_decide (nullish (currentState status) (cs_state status) = PREPARING)
                      then transition parse t m READY_FOR_CUTOVER
                             (metadata_object [m_other "readyAt"; m_other "verifiedBy"]) ;;; Ret true
                      else Ret true
                  | None => Ret true
                  end)) (mkJobWorld (jw_db w) (jw_mappingStatus w) e) with
    | (r, w') => r = inr ((dns && data) && defined (state_at t m w)) /\ jw_env w' = e /\ cutover_wf (jw_db w') /\
        state_at t m w' = if (dns && data) && bool_decide (state_at t m w = Some PREPARING)
                          then Some READY_FOR_CUTOVER else state_at t m w
    end).
  { intros data e. set (w1 := mkJobWorld (jw_db w) (jw_mappingStatus w) e).
    change (state_at t m w) with (state_at t m w1). change (cutover_wf (jw_db w1)) in Hwf.
    change e with (jw_env w1). clearbody w1. unfold check_of.
    rewrite run_bind, run_catch, run_bind, run_load. cbn [run].
    pose proof (load_status_state t m w1) as Hl. destruct (dns && data).
    - destruct (load_status t m (jw_db w1)) as [status|] eqn:Hload; cbn [defined negb andb].
      + destruct Hl as [Hs Hcur]. rewrite Hs. rewrite run_catch, run_bind, run_load, Hload, Hcur.
        change (nullish (Some (cs_state status)) (cs_state status)) with (cs_state status).
        destruct (decide (cs_state status = PREPARING)) as [Hst|Hst].
        * rewrite !bool_decide_true by congruence. rewrite Hst in Hs.
          take_transition Hs Hwf st2 d2 Hwf2 Hs2 Hc2. by split_and!.
        * rewrite !bool_decide_false by congruence. by split_and!.
      + rewrite Hl. cbn. rewrite bool_decide_false by congruence. by split_and!.
    - cbn [andb]. destruct (negb _) eqn:Hn; [by split_and!|]. done. }
  destruct (cl_runDataVerification deps) as [g|].
  - rewrite run_bind, run_check_of_call. cbn [jw_env field_update]. cbn.
    destruct (g e1) as [r2 e2]. cbn. apply Hrest.
  - rewrite run_bind. specialize (Hrest false e1). destruct dns; exact Hrest.
Qed.
End job_theorems.

(** ** A sample cutover, and what the operators make of it *)

Definition sample_job_world (d : CutoverDb) : JobWorld unit := mkJobWorld d ∅ tt.

(** Initialised, found ready, approved. *)
Definition sample_ready : CutoverDb :=
  snd (run (transitionState sample_parse "t" "m" READY_FOR_CUTOVER no_reason) sample_initialized).

Definition sample_approved : CutoverDb :=
  snd (run (transitionState sample_parse "t" "m" APPROVED no_reason) sample_ready).

Lemma sample_initialized_wf : cutover_wf sample_initialized.
Proof. apply (initialize_wf sample_parse eq_refl). exact empty_cutover_wf. Qed.

Lemma sample_ready_wf : cutover_wf sample_ready.
Proof.
  apply (transition_wf sample_parse eq_refl); [exact Logic.I|exact sample_initialized_wf].
Qed.

Lemma sample_approved_wf : cutover_wf sample_approved.
Proof.
  apply (transition_wf sample_parse eq_refl); [exact Logic.I|exact sample_ready_wf].
Qed.

Definition sample_cli (yes propagated : bool) : CutoverCliDeps unit :=
  {| cl_tenantId := "t"; cl_mappingId := "m"; cl_targetMailServer := "mx.example"; cl_assumeYes := Some yes;
     cl_verifyAllDns := fun e => (inr true, e); cl_runDataVerification := None;
     cl_checkPropagation := fun e => (inr propagated, e) |}%string.

(** A report on a mapping that holds nothing. *)
Definition sample_report : VerificationResult :=
  let nothing d := notMeasured d u_SKIPPED "nothing recorded" 0 in
  conclude (sample_verification (W := unit)) 0 (nothing dt_mail) (nothing dt_calendar) (nothing dt_contacts)
    (nothing dt_files).

Definition passing_preparation : CutoverPreparationDeps unit :=
  {| cp_tenantId := "t"; cp_mappingId := "m"; cp_runFinalSync := None;
     cp_runGate := Some (fun e => (inr (sample_report), e)) |}%string.

Lemma unconfirmed_commands_change_nothing_witness :
  run (approveCutover sample_parse (sample_cli false true)) (sample_job_world sample_ready)
    = (inl "exit"%string, sample_job_world sample_ready).
Proof.
  apply (unconfirmed_commands_change_nothing sample_parse (sample_cli false true)); [|discriminate].
  apply elem_of_cons. left. reflexivity.
Defined.

(** An unpropagated DNS change. *)
Lemma commands_follow_the_machine_witness :
  state_at "t" "m" (snd (run (command_program sample_parse cmd_execute (sample_cli true false))
                           (sample_job_world sample_approved))) = Some FAILED.
Proof.
  pose proof (commands_follow_the_machine sample_parse eq_refl cmd_execute (sample_cli true false)
    (sample_job_world sample_approved) APPROVED false tt sample_approved_wf eq_refl) as H.
  assert (Hs : state_at "t" "m" (sample_job_world sample_approved) = Some APPROVED) by (vm_compute; reflexivity).
  specialize (H Hs eq_refl).
  destruct (run (command_program sample_parse cmd_execute (sample_cli true false)) (sample_job_world sample_approved))
    as [r w']. exact (proj1 H).
Defined.

(** The preparation run once too often. *)
Lemma runCutover_effect_witness :
  state_at "t" "m" (snd (run (runCutover sample_parse passing_preparation) (sample_job_world sample_ready)))
    = Some FAILED /\
  state_at "t" "m" (snd (run (runCutover sample_parse passing_preparation) (sample_job_world sample_approved)))
    = Some READY_FOR_CUTOVER.
Proof.
  assert (H1 : nullish (state_at "t" "m" (sample_job_world sample_ready)) PREPARING = READY_FOR_CUTOVER)
    by (vm_compute; reflexivity).
  assert (H2 : nullish (state_at "t" "m" (sample_job_world sample_approved)) PREPARING = APPROVED)
    by (vm_compute; reflexivity).
  pose proof (runCutover_effect sample_parse eq_refl passing_preparation (sample_job_world sample_ready) _ sample_ready_wf H1) as E1.
  pose proof (runCutover_effect sample_parse eq_refl passing_preparation (sample_job_world sample_approved) _ sample_approved_wf H2) as E2.
  change (jw_db (sample_job_world sample_ready)) with sample_ready in E1.
  destruct (run (runCutover sample_parse passing_preparation) (sample_job_world sample_ready)) as [r1 w1].
  destruct (run (runCutover sample_parse passing_preparation) (sample_job_world sample_approved)) as [r2 w2].
  destruct E1 as (_ & _ & _ & E1 & _). destruct E2 as (_ & _ & _ & E2 & _). split; [exact E1|exact E2].
Defined.

Lemma runRollback_effect_witness :
  state_at "t" "m" (snd (run (runRollback sample_parse "t" "m" "mail is bouncing") (sample_job_world sample_approved)))
    = Some ROLLED_BACK.
Proof.
  assert (Hs : state_at "t" "m" (sample_job_world sample_approved) = Some APPROVED) by (vm_compute; reflexivity).
  pose proof (runRollback_effect sample_parse eq_refl "t" "m" "mail is bouncing" (sample_job_world sample_approved) _
    sample_approved_wf Hs) as H.
  change (jw_db (sample_job_world sample_approved)) with sample_approved in H.
  destruct (run (runRollback sample_parse "t" "m" "mail is bouncing") (sample_job_world sample_approved)) as [r w'].
  destruct H as (_ & _ & _ & H & _). exact H.
Defined.

(** A verification nobody wired up. *)
Lemma verifyCutover_effect_witness :
  run (verifyCutover sample_parse (sample_cli true true)) (sample_job_world sample_initialized)
    = (inr false, snd (run (verifyCutover sample_parse (sample_cli true true)) (sample_job_world sample_initialized))) /\
  state_at "t" "m" (snd (run (verifyCutover sample_parse (sample_cli true true)) (sample_job_world sample_initialized)))
    = Some PREPARING.
Proof.
  pose proof (verifyCutover_effect sample_parse eq_refl (sample_cli true true) (sample_job_world sample_initialized)
    sample_initialized_wf) as H. cbv zeta in H.
  assert (Hs : state_at "t" "m" (sample_job_world sample_initialized) = Some PREPARING) by (vm_compute; reflexivity).
  destruct (run (verifyCutover sample_parse (sample_cli true true)) (sample_job_world sample_initialized)) as [r w'].
  destruct H as (Hr & _ & _ & H). rewrite Hr. split; [reflexivity|]. cbn [snd]. etransitivity; [exact H|exact Hs].
Defined.
