(* ===== verification/DavCanonical.v ===== *)
(** * Canonical fingerprints ([packages/shared/src/dav-canonical.ts])

    What is compared of a calendar object or a contact after a server has
    rewritten it.  Strings are UTF-8; everything the module looks for is ASCII,
    so bytes will do, and [Array.sort] compares UTF-16 code units, which is the
    order of the bytes but for two lead bytes ([utf16_compare]).
    [String.toUpperCase] and SHA-256 are parameters. *)

From S2P Require Import Prelude Keys.
From Stdlib Require Import Ascii.

#[local] Open Scope string_scope.

Definition CALENDAR_FINGERPRINT_VERSION : string := "cal1".
Definition CONTACT_FINGERPRINT_VERSION : string := "card1".
Definition CALENDAR_PROPERTIES : list string := ["UID"; "SUMMARY"; "DESCRIPTION"; "LOCATION"].
Definition CONTACT_PROPERTIES : list string := ["UID"; "FN"; "N"; "EMAIL"; "TEL"; "ORG"; "TITLE"; "NOTE"].

Definition lf : ascii := ascii_of_nat 10.
Definition cr : ascii := ascii_of_nat 13.
Definition tab : ascii := ascii_of_nat 9.

(** ** The order of [sort()] *)

(** A code point from U+10000 on has its surrogates below U+E000 to U+FFFF,
    whose UTF-8 starts with 0xEE or 0xEF. *)
Definition surrogates_first (a : ascii) : ascii :=
  let n := nat_of_ascii a in
  if Nat.leb 238 n && Nat.leb n 239 then ascii_of_nat (n + 5)
  else if Nat.leb 240 n && Nat.leb n 244 then ascii_of_nat (n - 2)
  else a.

Fixpoint string_map (f : ascii -> ascii) (s : string) : string :=
  match s with String a s' => String (f a) (string_map f s') | "" => "" end.

Definition utf16_compare (a b : string) : comparison :=
  string_compare (string_map surrogates_first a) (string_map surrogates_first b).

#[export] Instance utf16_comparator : Comparator utf16_compare.
Proof. unfold utf16_compare. apply (comparator_on (string_map surrogates_first) string_compare), _. Qed.

(** ** The module *)

(** The first [c], as [indexOf] finds it, cuts the string. *)
Fixpoint cut (c : ascii) (s : string) : option (string * string) :=
  match s with
  | "" => None
  | String a s' => if decide (a = c) then Some ("", s')
                   else match cut c s' with Some (x, y) => Some (String a x, y) | None => None end
  end.

(** [s.split(c)]: a first piece and the others. *)
Fixpoint split_first (c : ascii) (s : string) : string * list string :=
  match s with
  | "" => ("", [])
  | String a s' => let '(x, l) := split_first c s' in
                   if decide (a = c) then ("", x :: l) else (String a x, l)
  end.

Definition split (c : ascii) (s : string) : list string := let '(x, l) := split_first c s in x :: l.

(** [.replace(/\r\n/g, '\n')] *)
Fixpoint replace_crlf (s : string) : string :=
  match s with
  | String a ((String b s'') as s') =>
      if decide (a = cr /\ b = lf) then String lf (replace_crlf s'') else String a (replace_crlf s')
  | _ => s
  end.

(** [.replace(/\r/g, '\n')] *)
Definition replace_cr (s : string) : string := string_map (fun a => if decide (a = cr) then lf else a) s.

(** [.replace(/\n[ \t]/g, '')] *)
Fixpoint drop_folds (s : string) : string :=
  match s with
  | String a ((String b s'') as s') =>
      if decide (a = lf /\ (b = " "%char \/ b = tab)) then drop_folds s'' else String a (drop_folds s')
  | _ => s
  end.

Definition blank (line : string) : bool := String.eqb (trim line) "".

Definition unfold_lines (source : string) : list string :=
  base.filter (fun line => blank line = false) (split lf (drop_folds (replace_cr (replace_crlf source)))).

Fixpoint unescapeText (value : string) : string :=
  match value with
  | String a ((String b s'') as s') =>
      if decide (a = "\"%char) then
        if decide (b = "n"%char \/ b = "N"%char) then String lf (unescapeText s'')
        else if decide (b = ","%char \/ b = ";"%char \/ b = "\"%char) then String b (unescapeText s'')
        else String a (unescapeText s')
      else String a (unescapeText s')
  | _ => value
  end.

Section canonical.
Context (rt : Runtime) (toUpperCase : string -> string).

(** One turn of the loop: what a line adds to [out]. *)
Definition contribution (allowed : list string) (line : string) : option string :=
  match cut ":" line with
  | None | Some ("", _) => None
  | Some (before, after) =>
      let name := toUpperCase (trim (nullish (head (split ";" before)) "")) in
      if decide (name ∈ allowed) then
        let value := trim (unescapeText after) in
        if String.eqb value "" then None else Some (name ++ ":" ++ value)
      else None
  end.

Definition canonicalLines (source : string) (properties : list string) : string :=
  String.concat (String lf "") (stable_sort utf16_compare (omap (contribution properties) (unfold_lines source))).

Definition calendarFingerprint (icalendar : string) : string :=
  CALENDAR_FINGERPRINT_VERSION ++ ":" ++ sha256Hex rt (canonicalLines icalendar CALENDAR_PROPERTIES).

Definition contactFingerprint (vcard : string) : string :=
  CONTACT_FINGERPRINT_VERSION ++ ":" ++ sha256Hex rt (canonicalLines vcard CONTACT_PROPERTIES).
End canonical.

(** ** The order is total and told apart *)

Definition surrogates_back (a : ascii) : ascii :=
  let n := nat_of_ascii a in
  if Nat.leb 238 n && Nat.leb n 242 then ascii_of_nat (n + 2)
  else if Nat.leb 243 n && Nat.leb n 244 then ascii_of_nat (n - 5)
  else a.

Lemma surrogates_first_inj a b : surrogates_first a = surrogates_first b -> a = b.
Proof.
  assert (H : forall a, surrogates_back (surrogates_first a) = a)
    by (intros [[] [] [] [] [] [] [] []]; reflexivity).
  intros Hab. by rewrite <- (H a), Hab, H.
Qed.

Lemma utf16_compare_eq a b : utf16_compare a b = Eq -> a = b.
Proof.
  intros H%string_compare_eq. revert b H. induction a as [|x a IH]; intros [|y b] H; cbn in H; try done.
  injection H as Hx H. apply surrogates_first_inj in Hx as ->. by rewrite (IH b H).
Qed.

(** ** What a server may do to a text *)

(** The three line ends, a folded line - a first piece and, behind each fold,
    a white-space character and the next piece -, and a text of such lines
    with the line ends the server chose; the last may have none. *)
Inductive Eol := eol_crlf | eol_lf | eol_cr.

Definition eol_text (e : Eol) : string :=
  match e with
  | eol_crlf => String cr (String lf "")
  | eol_lf => String lf ""
  | eol_cr => String cr ""
  end.

Record Fold := mkFold { fo_eol : Eol; fo_tab : bool; fo_piece : string }.

Record Folded := mkFolded { fd_first : string; fd_folds : list Fold }.

Definition fold_text (f : Fold) : string :=
  eol_text (fo_eol f) ++ String (if fo_tab f then tab else " "%char) (fo_piece f).

Definition folds_text (fs : list Fold) : string := foldr (fun f s => fold_text f ++ s) "" fs.

Definition folded_text (l : Folded) : string := fd_first l ++ folds_text (fd_folds l).

(** The line itself. *)
Definition line_of (l : Folded) : string := fd_first l ++ foldr (fun f s => fo_piece f ++ s) "" (fd_folds l).

Definition rendering (ls : list (Folded * Eol)) (final : option Folded) : string :=
  foldr (fun le s => folded_text le.1 ++ eol_text le.2 ++ s)
    (match final with Some l => folded_text l | None => "" end) ls.

Fixpoint no_breaks (s : string) : bool :=
  match s with
  | String a s' => negb (bool_decide (a = lf)) && negb (bool_decide (a = cr)) && no_breaks s'
  | "" => true
  end.

(** No line end inside a piece, and no first piece that would read as a
    continuation. *)
Definition proper_start (s : string) : bool :=
  match s with
  | String a _ => negb (bool_decide (a = " "%char)) && negb (bool_decide (a = tab))
  | "" => false
  end.

Definition proper (l : Folded) : Prop :=
  proper_start (fd_first l) = true /\ no_breaks (fd_first l) = true
  /\ Forall (fun f => no_breaks (fo_piece f) = true) (fd_folds l).

(** *** Reading it back *)

Definition newline (s : string) : string := String lf s.

Definition normalised (s : string) : string := replace_cr (replace_crlf s).

Lemma string_app_assoc (a b c : string) : (a ++ b) ++ c = a ++ (b ++ c).
Proof. induction a as [|x a IH]; [done|]. exact (f_equal (String x) IH). Qed.

Lemma string_app_nil_r (a : string) : a ++ "" = a.
Proof. induction a as [|x a IH]; [done|]. exact (f_equal (String x) IH). Qed.

Lemma string_app_cons a (x y : string) : String a x ++ y = String a (x ++ y).
Proof. reflexivity. Qed.

Lemma replace_cr_cons a s : replace_cr (String a s) = String (if decide (a = cr) then lf else a) (replace_cr s).
Proof. reflexivity. Qed.

Definition begins (c : ascii) (s : string) : Prop := match s with String a _ => a = c | "" => False end.

Lemma replace_crlf_plain a s : a <> cr -> replace_crlf (String a s) = String a (replace_crlf s).
Proof. intros H. destruct s as [|b s]; cbn; [done|]. by rewrite decide_False by naive_solver. Qed.

Lemma replace_crlf_alone s : ~ begins lf s -> replace_crlf (String cr s) = String cr (replace_crlf s).
Proof. intros H. destruct s as [|b s]; cbn; [done|]. by rewrite decide_False by naive_solver. Qed.

Lemma normalised_piece p s : no_breaks p = true -> normalised (p ++ s) = p ++ normalised s.
Proof.
  unfold normalised. induction p as [|a p IH]; [done|]. cbn [no_breaks].
  intros [[Ha Hb]%andb_true_iff Hp]%andb_true_iff. apply negb_true_iff, bool_decide_eq_false in Ha, Hb.
  rewrite !string_app_cons, replace_crlf_plain, replace_cr_cons, decide_False by done. by rewrite (IH Hp).
Qed.

Lemma normalised_eol e s : ~ begins lf s -> normalised (eol_text e ++ s) = newline (normalised s).
Proof.
  intros Hs. unfold normalised. destruct e; unfold eol_text; rewrite !string_app_cons.
  - reflexivity.
  - by rewrite replace_crlf_plain.
  - change ("" ++ s) with s. by rewrite replace_crlf_alone.
Qed.

(** With every line end the same. *)
Definition folds_lf (fs : list Fold) : string :=
  foldr (fun f s => newline (String (if fo_tab f then tab else " "%char) (fo_piece f ++ s))) "" fs.

Definition fold_space (f : Fold) : ascii := if fo_tab f then tab else " "%char.

Lemma normalised_folds fs s : Forall (fun f => no_breaks (fo_piece f) = true) fs ->
  normalised (folds_text fs ++ s) = folds_lf fs ++ normalised s.
Proof.
  induction 1 as [|f fs Hf _ IH]; [done|].
  change (folds_text (f :: fs)) with (fold_text f ++ folds_text fs).
  change (folds_lf (f :: fs)) with (newline (String (fold_space f) (fo_piece f ++ folds_lf fs))).
  unfold fold_text. rewrite !string_app_assoc, !string_app_cons. fold (fold_space f).
  rewrite normalised_eol by (unfold fold_space; by destruct (fo_tab f); intros [=]).
  change (String (fold_space f) ?x) with (String (fold_space f) "" ++ x).
  rewrite normalised_piece by (unfold fold_space; by destruct (fo_tab f)). rewrite normalised_piece by done.
  unfold newline. rewrite !string_app_cons, IH, <- (string_app_assoc (fo_piece f)). reflexivity.
Qed.

Definition lines_lf (ls : list Folded) (final : option Folded) : string :=
  foldr (fun l s => fd_first l ++ folds_lf (fd_folds l) ++ newline s)
    (match final with Some l => fd_first l ++ folds_lf (fd_folds l) | None => "" end) ls.

Lemma proper_no_lf s x : proper_start s = true -> no_breaks s = true -> ~ begins lf (s ++ x).
Proof.
  destruct s as [|a s]; [done|]. cbn. intros _ [[H _]%andb_true_iff _]%andb_true_iff ->.
  by rewrite bool_decide_true in H.
Qed.

Lemma normalised_folded l s : proper l ->
  normalised (folded_text l ++ s) = fd_first l ++ folds_lf (fd_folds l) ++ normalised s.
Proof.
  intros (Hs & Hb & Hf). unfold folded_text. rewrite string_app_assoc, normalised_piece by done.
  by rewrite normalised_folds.
Qed.

Lemma normalised_rendering ls final : Forall (fun le => proper le.1) ls -> (forall l, final = Some l -> proper l) ->
  normalised (rendering ls final) = lines_lf ls.*1 final.
Proof.
  intros Hls Hfinal. induction Hls as [|[l e] ls Hl Hls IH]; cbn [rendering lines_lf foldr fmap list_fmap].
  - destruct final as [l|]; [|done]. rewrite <- (string_app_nil_r (folded_text l)).
    rewrite (normalised_folded l "" (Hfinal l eq_refl)). cbn. by rewrite string_app_nil_r.
  - rewrite (normalised_folded l _ Hl). f_equal. f_equal. cbn [fst snd].
    rewrite normalised_eol; [by f_equal|]. destruct Hls as [|[l' e'] ls (Hs & Hb & _) _]; cbn.
    + destruct final as [l'|]; [|by intros []]. destruct (Hfinal l' eq_refl) as (Hs & Hb & _).
      by apply proper_no_lf.
    + unfold folded_text. rewrite string_app_assoc. by apply proper_no_lf.
Qed.

Lemma drop_folds_plain a s : a <> lf -> drop_folds (String a s) = String a (drop_folds s).
Proof. intros H. destruct s as [|b s]; cbn; [done|]. by rewrite decide_False by naive_solver. Qed.

Lemma drop_folds_fold a s : a = " "%char \/ a = tab -> drop_folds (newline (String a s)) = drop_folds s.
Proof. intros H. cbn. by rewrite decide_True by done. Qed.

Lemma drop_folds_newline s : ~ begins " " s -> ~ begins tab s -> drop_folds (newline s) = newline (drop_folds s).
Proof. intros H1 H2. destruct s as [|b s]; cbn; [done|]. by rewrite decide_False by naive_solver. Qed.

Lemma drop_folds_piece p s : no_breaks p = true -> drop_folds (p ++ s) = p ++ drop_folds s.
Proof.
  induction p as [|a p IH]; [done|]. cbn [no_breaks]. intros [[Ha _]%andb_true_iff Hp]%andb_true_iff.
  apply negb_true_iff, bool_decide_eq_false in Ha.
  rewrite !string_app_cons, drop_folds_plain by done. by rewrite (IH Hp).
Qed.

Definition pieces (fs : list Fold) : string := foldr (fun f s => fo_piece f ++ s) "" fs.

Lemma drop_folds_folds fs s : Forall (fun f => no_breaks (fo_piece f) = true) fs ->
  drop_folds (folds_lf fs ++ s) = pieces fs ++ drop_folds s.
Proof.
  induction 1 as [|f fs Hf _ IH]; [done|].
  change (folds_lf (f :: fs)) with (newline (String (fold_space f) (fo_piece f ++ folds_lf fs))).
  change (pieces (f :: fs)) with (fo_piece f ++ pieces fs).
  unfold newline. rewrite !string_app_cons. fold (newline (String (fold_space f) ((fo_piece f ++ folds_lf fs) ++ s))).
  rewrite drop_folds_fold by (unfold fold_space; destruct (fo_tab f); auto).
  rewrite string_app_assoc, drop_folds_piece by done. by rewrite IH, string_app_assoc.
Qed.

Definition joined (ls : list string) (final : string) : string := foldr (fun l s => l ++ newline s) final ls.

Lemma proper_no_space s x : proper_start s = true -> ~ begins " " (s ++ x) /\ ~ begins tab (s ++ x).
Proof.
  destruct s as [|a s]; [done|]. cbn. intros [Ha Hb]%andb_true_iff.
  apply negb_true_iff, bool_decide_eq_false in Ha, Hb. done.
Qed.

Lemma drop_folds_line l s : proper l ->
  drop_folds (fd_first l ++ folds_lf (fd_folds l) ++ s) = line_of l ++ drop_folds s.
Proof.
  intros (_ & Hb & Hf). rewrite drop_folds_piece, drop_folds_folds by done.
  unfold line_of. by rewrite string_app_assoc.
Qed.

Lemma drop_folds_lines ls final : Forall proper ls -> (forall l, final = Some l -> proper l) ->
  drop_folds (lines_lf ls final) = joined (line_of <$> ls) (from_option line_of "" final).
Proof.
  intros Hls Hfinal. induction Hls as [|l ls Hl Hls IH].
  - destruct final as [l|]; [|done]. cbn. rewrite <- (string_app_nil_r (folds_lf (fd_folds l))).
    rewrite (drop_folds_line l "" (Hfinal l eq_refl)). by rewrite string_app_nil_r.
  - change (lines_lf (l :: ls) final) with (fd_first l ++ folds_lf (fd_folds l) ++ newline (lines_lf ls final)).
    rewrite (drop_folds_line l _ Hl). change (joined _ _) with
      (line_of l ++ newline (joined (line_of <$> ls) (from_option line_of "" final))). f_equal.
    assert (Hstart : ~ begins " " (lines_lf ls final) /\ ~ begins tab (lines_lf ls final)).
    { destruct Hls as [|l' ls (Hs & _) _]; [|by apply proper_no_space]. cbn.
      destruct final as [l'|]; [|by split; intros []].
      destruct (Hfinal l' eq_refl) as (Hs & _). by apply proper_no_space. }
    rewrite drop_folds_newline by apply Hstart. by rewrite IH.
Qed.

Lemma no_breaks_app a b : no_breaks (a ++ b) = no_breaks a && no_breaks b.
Proof. induction a as [|x a IH]; [done|]. rewrite string_app_cons. cbn [no_breaks]. by rewrite IH, andb_assoc. Qed.

Lemma no_breaks_line l : proper l -> no_breaks (line_of l) = true.
Proof.
  intros (_ & Hb & Hf). unfold line_of. rewrite no_breaks_app, Hb. cbn. fold (pieces (fd_folds l)).
  induction Hf as [|f fs Hf' _ IH]; [done|]. change (pieces (f :: fs)) with (fo_piece f ++ pieces fs).
  by rewrite no_breaks_app, Hf'.
Qed.

Lemma split_line l s : no_breaks l = true -> split lf (l ++ newline s) = l :: split lf s.
Proof.
  unfold split. induction l as [|a l IH]; intros H.
  - change ("" ++ newline s) with (String lf s). cbn [split_first].
    destruct (split_first lf s). by rewrite decide_True.
  - cbn [no_breaks] in H. apply andb_true_iff in H as [[Ha _]%andb_true_iff H].
    apply negb_true_iff, bool_decide_eq_false in Ha. specialize (IH H).
    rewrite string_app_cons. cbn [split_first]. destruct (split_first lf (l ++ newline s)) as [x y].
    injection IH as -> ->. by rewrite decide_False.
Qed.

Lemma split_last l : no_breaks l = true -> split lf l = [l].
Proof.
  unfold split. induction l as [|a l IH]; intros H; [done|].
  cbn [no_breaks] in H. apply andb_true_iff in H as [[Ha _]%andb_true_iff H].
  apply negb_true_iff, bool_decide_eq_false in Ha. specialize (IH H).
  cbn [split_first]. destruct (split_first lf l) as [x y]. injection IH as -> ->. by rewrite decide_False.
Qed.

Lemma split_joined ls final : Forall (fun l => no_breaks l = true) ls -> no_breaks final = true ->
  split lf (joined ls final) = (ls ++ [final])%list.
Proof.
  intros Hls Hf. induction Hls as [|l ls Hl _ IH]; [by apply split_last|].
  change (joined (l :: ls) final) with (l ++ newline (joined ls final)). rewrite split_line by done. by rewrite IH.
Qed.

(** Unfolding reads the lines whatever the line ends and the folds. *)
Lemma unfold_rendering ls final : Forall (fun le => proper le.1) ls -> (forall l, final = Some l -> proper l) ->
  unfold_lines (rendering ls final) =
  base.filter (fun line => blank line = false) (line_of <$> (ls.*1 ++ option_list final)%list).
Proof.
  intros Hls Hfinal. assert (Hls' : Forall proper ls.*1) by (by apply Forall_fmap).
  unfold unfold_lines. fold (normalised (rendering ls final)).
  rewrite (normalised_rendering ls final Hls Hfinal), (drop_folds_lines _ _ Hls' Hfinal), split_joined.
  - rewrite fmap_app, !filter_app. f_equal. destruct final as [l|]; [done|]. reflexivity.
  - apply Forall_fmap. eapply Forall_impl; [exact Hls'|]. apply no_breaks_line.
  - destruct final as [l|]; [|done]. by apply no_breaks_line, Hfinal.
Qed.

(** ** What the fingerprint says *)

(** *** What a text means

    The formats' own reading, written without the code's functions: a value is
    a sequence of characters, each written as itself, as an escape of the
    formats ([\n], [\N], [\,], [\;], [\\]), or - a backslash in front of
    anything else - as a backslash that escapes nothing. *)
Inductive Glyph :=
| g_plain (a : ascii)
| g_newline (capital : bool)
| g_escaped (a : ascii)
| g_lone.

Definition glyph_text (g : Glyph) : string :=
  match g with
  | g_plain a => String a ""
  | g_newline true => "\N"
  | g_newline false => "\n"
  | g_escaped a => String "\" (String a "")
  | g_lone => "\"
  end.

Definition glyph_means (g : Glyph) : ascii :=
  match g with g_plain a => a | g_newline _ => lf | g_escaped a => a | g_lone => "\"%char end.

Definition value_text (v : list Glyph) : string := foldr (fun g s => glyph_text g ++ s) "" v.

Definition value_means (v : list Glyph) : string := foldr (fun g s => String (glyph_means g) s) "" v.

Definition escapable (a : ascii) : Prop := a = ","%char \/ a = ";"%char \/ a = "\"%char.

Definition escapes (a : ascii) : Prop := a = "n"%char \/ a = "N"%char \/ escapable a.

Fixpoint proper_value (v : list Glyph) : Prop :=
  match v with
  | [] => True
  | g :: v' =>
      match g with
      | g_plain a => a <> "\"%char
      | g_newline _ => True
      | g_escaped a => escapable a
      | g_lone => match value_text v' with String b _ => ~ escapes b | "" => True end
      end /\ proper_value v'
  end.

Definition without (c : ascii) (s : string) : Prop := cut c s = None.

(** A property: a name, parameters, a value.  The formats allow a colon in a
    quoted parameter; those properties the code misreads
    ([quoted_colon_is_content]) and they have no spelling here. *)
Record Property := mkProperty { pr_name : string; pr_params : list string; pr_value : list Glyph }.

Inductive LineContent := c_property (p : Property) | c_other (line : string).

Definition params_text (ps : list string) : string := foldr (fun p s => ";" ++ p ++ s) "" ps.

Definition content_text (c : LineContent) : string :=
  match c with
  | c_property p => pr_name p ++ params_text (pr_params p) ++ ":" ++ value_text (pr_value p)
  | c_other line => line
  end.

Definition proper_content (c : LineContent) : Prop :=
  match c with
  | c_property p => pr_name p ++ params_text (pr_params p) <> "" /\ without ":" (pr_name p) /\ without ";" (pr_name p)
                    /\ Forall (without ":") (pr_params p) /\ proper_value (pr_value p)
  | c_other line => without ":" line \/ begins ":" line
  end.

#[export] Instance escapable_dec a : Decision (escapable a).
Proof. unfold escapable. apply _. Defined.

#[export] Instance proper_value_dec v : Decision (proper_value v).
Proof.
  induction v as [|g v IH]; [apply _|]. apply and_dec; [|exact IH].
  destruct g; cbn; unfold escapes; [apply _..|]. destruct (value_text v); apply _.
Defined.

#[export] Instance proper_content_dec c : Decision (proper_content c).
Proof. unfold proper_content, without, begins. destruct c as [p|[|a line]]; apply _. Defined.

Lemma unescape_plain a s : a <> "\"%char -> unescapeText (String a s) = String a (unescapeText s).
Proof. intros H. destruct s as [|b s]; cbn; [done|]. by rewrite decide_False. Qed.

Lemma unescape_lone s : (match s with String b _ => ~ escapes b | "" => True end) ->
  unescapeText (String "\" s) = String "\" (unescapeText s).
Proof.
  unfold escapes, escapable. destruct s as [|b s]; cbn; [done|]. intros H.
  rewrite decide_True by done. rewrite !decide_False by naive_solver. reflexivity.
Qed.

(** The code undoes exactly the escapes. *)
Lemma unescape_value v : proper_value v -> unescapeText (value_text v) = value_means v.
Proof.
  induction v as [|g v IH]; [done|]. intros [Hg Hv]. specialize (IH Hv).
  change (value_text (g :: v)) with (glyph_text g ++ value_text v).
  change (value_means (g :: v)) with (String (glyph_means g) (value_means v)). rewrite <- IH.
  destruct g as [a|[]|a|]; cbn [glyph_text glyph_means].
  - by apply unescape_plain.
  - reflexivity.
  - reflexivity.
  - destruct Hg as [->|[->| ->]]; reflexivity.
  - by apply unescape_lone.
Qed.

Lemma glyph_spelling s : exists v, proper_value v /\ value_text v = s.
Proof.
  remember (String.length s) as n eqn:Hn. revert s Hn. induction n as [n IH] using lt_wf_ind. intros s Hn.
  assert (Hshort : forall t, (String.length t < String.length s)%nat -> exists v, proper_value v /\ value_text v = t)
    by (intros t Ht; apply (IH (String.length t)); [lia|done]). clear IH Hn.
  destruct s as [|a s]; [by exists []|]. destruct (decide (a = "\"%char)) as [->|Ha].
  - destruct s as [|b s]; [by exists [g_lone]|].
    assert (Hs : exists v, proper_value v /\ value_text v = s) by (apply Hshort; cbn; lia).
    destruct Hs as (v & Hv & <-).
    destruct (decide (b = "n"%char)) as [->|Hn]; [by exists (g_newline false :: v)|].
    destruct (decide (b = "N"%char)) as [->|HN]; [by exists (g_newline true :: v)|].
    destruct (decide (escapable b)) as [He|He]; [by exists (g_escaped b :: v)|].
    destruct (Hshort (String b (value_text v))) as (w & Hw & Hb); [cbn; lia|].
    exists (g_lone :: w). split.
    + split; [|done]. rewrite Hb. unfold escapes. tauto.
    + change (value_text (g_lone :: w)) with (String "\" (value_text w)). by rewrite Hb.
  - destruct (Hshort s) as (v & Hv & <-); [cbn; lia|]. by exists (g_plain a :: v).
Qed.

Lemma cut_app c x s : without c x -> cut c (x ++ String c s) = Some (x, s).
Proof.
  unfold without. induction x as [|a x IH]; intros H.
  - change ("" ++ String c s) with (String c s). cbn [cut]. by rewrite decide_True.
  - rewrite string_app_cons. cbn [cut] in H |- *. destruct (decide (a = c)); [done|].
    destruct (cut c x) as [[? ?]|]; [done|]. by rewrite IH.
Qed.

Lemma cut_Some c s x y : cut c s = Some (x, y) -> without c x /\ s = x ++ String c y.
Proof.
  unfold without. revert x y. induction s as [|a s IH]; intros x y H; cbn in H; [done|].
  destruct (decide (a = c)) as [->|Ha]; [by injection H as <- <-|].
  destruct (cut c s) as [[x' y']|]; [|done]. injection H as <- <-. destruct (IH x' y' eq_refl) as [Hx ->].
  cbn. by rewrite decide_False, Hx.
Qed.

Lemma without_app c a b : without c (a ++ b) <-> without c a /\ without c b.
Proof.
  unfold without. induction a as [|x a IH]; [by cbn; naive_solver|].
  rewrite string_app_cons. cbn [cut]. destruct (decide (x = c)); [naive_solver|].
  destruct (cut c (a ++ b)) as [[? ?]|], (cut c a) as [[? ?]|]; naive_solver.
Qed.

(** Every line has a spelling. *)
Lemma content_spelling line : exists c, proper_content c /\ content_text c = line.
Proof.
  destruct (cut ":" line) as [[x y]|] eqn:Hcut; [|by exists (c_other line); split; [left|]].
  apply cut_Some in Hcut as [Hx ->].
  destruct (decide (x = "")) as [->|Hne]; [by exists (c_other (String ":" y)); split; [right|]|].
  destruct (glyph_spelling y) as (v & Hv & <-). destruct (cut ";" x) as [[n ps]|] eqn:Hn.
  - apply cut_Some in Hn as [Hn ->]. exists (c_property (mkProperty n [ps] v)). apply without_app in Hx as [Hx Hps].
    change (String ";" ps) with (String ";" "" ++ ps) in Hps. apply without_app in Hps as [_ Hps].
    assert (Hv' : proper_content (c_property (mkProperty n [ps] v))).
    { refine (conj _ (conj Hx (conj Hn (conj _ Hv)))); [|by constructor]. cbn. by rewrite string_app_nil_r. }
    split; [exact Hv'|]. cbn. rewrite string_app_nil_r.
    rewrite !string_app_assoc. reflexivity.
  - exists (c_property (mkProperty x [] v)). split; [|done].
    refine (conj _ (conj Hx (conj Hn (conj _ Hv)))); [|by constructor]. cbn. by rewrite string_app_nil_r.
Qed.

(** *** What the code makes of it *)

Lemma split_without c x : without c x -> split c x = [x].
Proof.
  unfold without, split. induction x as [|a x IH]; cbn; [done|].
  destruct (decide (a = c)); [done|]. destruct (cut c x) as [[? ?]|]; [done|]. intros _. specialize (IH eq_refl).
  destruct (split_first c x) as [y l]. by injection IH as -> ->.
Qed.

Lemma split_app c x s : without c x -> split c (x ++ String c s) = x :: split c s.
Proof.
  unfold without, split. induction x as [|a x IH].
  - intros _. change ("" ++ String c s) with (String c s). cbn [split_first].
    destruct (split_first c s). by rewrite decide_True.
  - cbn. destruct (decide (a = c)) as [|Hne]; [done|]. destruct (cut c x) as [[? ?]|]; [done|]. intros _.
    specialize (IH eq_refl). change (String a x ++ String c s) with (String a (x ++ String c s)). cbn [split_first].
    destruct (split_first c (x ++ String c s)) as [y l]. injection IH as -> ->. by rewrite decide_False.
Qed.

Lemma split_concat c l : l <> [] -> Forall (without c) l -> split c (String.concat (String c "") l) = l.
Proof.
  intros Hl H. induction H as [|x l Hx H IH]; [done|]. destruct l as [|y l]; [by apply split_without|].
  change (String.concat (String c "") (x :: y :: l)) with (x ++ String c (String.concat (String c "") (y :: l))).
  rewrite split_app by done. f_equal. by apply IH.
Qed.

(** Lines joined by a character none of them has. *)
Lemma concat_inj c l l' : Forall (without c) l -> Forall (without c) l' -> "" ∉ l -> "" ∉ l' ->
  String.concat (String c "") l = String.concat (String c "") l' -> l = l'.
Proof.
  intros Hl Hl' He He' H. destruct l as [|x l], l' as [|x' l']; [done| | |].
  - apply (f_equal (split c)) in H. rewrite (split_concat c (x' :: l')) in H by done. cbn in H.
    injection H as <- _. by destruct He'; left.
  - apply (f_equal (split c)) in H. rewrite (split_concat c (x :: l)) in H by done. cbn in H.
    injection H as -> _. by destruct He; left.
  - apply (f_equal (split c)) in H. by rewrite !split_concat in H by done.
Qed.

Lemma strip_prefix_split p s r : strip_prefix p s = Some r -> s = p ++ r.
Proof.
  revert s; induction p as [|a p IH]; intros s; [by intros [= ->]|]. destruct s as [|b s]; [done|]. simpl.
  case_decide as Hab; [|done]. intros Hr. rewrite string_app_cons, Hab. by rewrite (IH _ Hr).
Qed.

Lemma strip_many_with c n ps s : Forall (without c) ps -> ~ without c s -> ~ without c (strip_many n ps s).
Proof.
  intros Hps. revert s. induction n as [|n IH]; intros s Hs; [done|]. cbn.
  assert (Hone : forall r, strip_any ps s = Some r -> ~ without c r).
  { clear IH. induction Hps as [|p ps Hp _ IH]; intros r Hr; [done|]. cbn in Hr.
    destruct (strip_prefix p s) as [r'|] eqn:He; [|by apply IH]. injection Hr as <-.
    apply strip_prefix_split in He as ->. rewrite without_app in Hs. tauto. }
  destruct (strip_any ps s) as [r|]; [|done]. apply IH, Hone, eq_refl.
Qed.

Lemma without_rev c s : without c (String.rev s) <-> without c s.
Proof.
  assert (H : forall t, without c (String.rev_app s t) <-> without c s /\ without c t).
  { induction s as [|a s IH]; intros t; [by unfold without; cbn; tauto|].
    change (String.rev_app (String a s) t) with (String.rev_app s (String a t)). rewrite IH.
    change (String a t) with (String a "" ++ t). change (String a s) with (String a "" ++ s).
    rewrite !without_app. tauto. }
  unfold String.rev. rewrite H. unfold without at 2. cbn. tauto.
Qed.

Lemma trim_with_colon s : ~ without ":" s -> ~ without ":" (trim s).
Proof.
  intros H. unfold trim, trimEnd, trimStart. rewrite without_rev. apply strip_many_with.
  { apply (bool_decide_unpack _). vm_compute. exact I. }
  rewrite without_rev. apply strip_many_with; [|done]. apply (bool_decide_unpack _). vm_compute. exact I.
Qed.

Section fingerprints.
Context (rt : Runtime) (toUpperCase : string -> string).

(** What one line says of the properties compared: the name in upper case and
    the meaning of the value, both without the white space around them.  An
    empty value says nothing. *)
Definition told_by (properties : list string) (c : LineContent) : option (string * string) :=
  match c with
  | c_property p =>
      let name := toUpperCase (trim (pr_name p)) in
      let value := trim (value_means (pr_value p)) in
      if decide (name ∈ properties /\ value <> "") then Some (name, value) else None
  | c_other _ => None
  end.

Definition told (properties : list string) (cs : list LineContent) : list (string * string) :=
  omap (told_by properties) cs.

Definition well_formed (ls : list (Folded * Eol)) (final : option Folded) : Prop :=
  Forall (fun le => proper le.1) ls /\ forall l, final = Some l -> proper l.

(** The lines, unfolded, are these contents. *)
Definition spells (cs : list LineContent) (ls : list (Folded * Eol)) (final : option Folded) : Prop :=
  well_formed ls final /\ Forall proper_content cs
  /\ line_of <$> (ls.*1 ++ option_list final)%list = content_text <$> cs.

Lemma every_text_spelled ls final : well_formed ls final -> exists cs, spells cs ls final.
Proof.
  intros H. assert (Hc : forall lines, exists cs, Forall proper_content cs /\ content_text <$> cs = lines).
  { induction lines as [|l lines (cs & Hcs & IH)]; [by exists []|]. destruct (content_spelling l) as (c & Hc & Hl).
    exists (c :: cs). split; [by constructor|]. cbn. by rewrite Hl, IH. }
  destruct (Hc (line_of <$> (ls.*1 ++ option_list final)%list)) as (cs & Hcs & Hl). by exists cs.
Qed.

Definition entry_text (e : string * string) : string := e.1 ++ ":" ++ e.2.

Lemma first_of_split c x : head (split c x) = Some (match cut c x with Some (y, _) => y | None => x end).
Proof.
  destruct (cut c x) as [[y z]|] eqn:Hc; [|by rewrite split_without].
  apply cut_Some in Hc as [Hy ->]. by rewrite split_app.
Qed.

Lemma name_cut p : without ";" (pr_name p) ->
  head (split ";" (pr_name p ++ params_text (pr_params p))) = Some (pr_name p).
Proof.
  intros H. destruct (pr_params p) as [|q qs].
  - cbn. rewrite string_app_nil_r. by rewrite split_without.
  - change (params_text (q :: qs)) with (String ";" (q ++ params_text qs)). by rewrite split_app.
Qed.

Lemma params_without c ps : without c (String ";" "") -> Forall (without c) ps -> without c (params_text ps).
Proof.
  intros Hc. induction 1 as [|p ps Hp _ IH]; [done|].
  change (params_text (p :: ps)) with (String ";" "" ++ (p ++ params_text ps)). by rewrite !without_app.
Qed.

(** The loop reads a spelled line as it is meant. *)
Lemma contribution_told properties c : proper_content c ->
  contribution toUpperCase properties (content_text c) = entry_text <$> told_by properties c.
Proof.
  destruct c as [p|line]; cbn [proper_content content_text told_by]; unfold contribution.
  - intros (Hne & Hcolon & Hsemi & Hps & Hv).
    rewrite <- string_app_assoc. change (":" ++ value_text (pr_value p)) with (String ":" (value_text (pr_value p))).
    rewrite cut_app by (apply without_app; split; [done|by apply params_without]).
    destruct (pr_name p ++ params_text (pr_params p)) as [|a x] eqn:Hx; [done|]. rewrite <- Hx, name_cut by done.
    change (nullish (Some (pr_name p)) "") with (pr_name p). rewrite unescape_value by done.
    destruct (decide (toUpperCase (trim (pr_name p)) ∈ properties)) as [Hin|Hin];
      [|by rewrite decide_False by (intros [? ?]; done)].
    destruct (String.eqb_spec (trim (value_means (pr_value p))) "") as [He|He].
    + by rewrite decide_False by (intros [? ?]; done).
    + by rewrite decide_True.
  - intros [H|H]; [by rewrite H|]. destruct line as [|a s]; [done|]. cbn in H. subst a. reflexivity.
Qed.

Lemma nonblank_property p : proper_content (c_property p) -> blank (content_text (c_property p)) = false.
Proof.
  intros (Hne & Hcolon & Hsemi & Hps & Hv). apply String.eqb_neq. intros H.
  apply (trim_with_colon (content_text (c_property p))); [|by rewrite H].
  cbn [content_text]. rewrite <- string_app_assoc. unfold without.
  change (":" ++ value_text (pr_value p)) with (String ":" (value_text (pr_value p))).
  by rewrite cut_app by (apply without_app; split; [done|by apply params_without]).
Qed.

Lemma canonical_told properties cs ls final : spells cs ls final ->
  canonicalLines toUpperCase (rendering ls final) properties =
  String.concat (String lf "") (stable_sort utf16_compare (entry_text <$> told properties cs)).
Proof.
  intros ([Hls Hf] & Hcs & Hlines). unfold canonicalLines. rewrite unfold_rendering by done. rewrite Hlines.
  f_equal. f_equal. clear ls final Hls Hf Hlines. unfold told. induction Hcs as [|c cs Hc _ IH]; [done|].
  change (content_text <$> c :: cs) with (content_text c :: (content_text <$> cs)). rewrite filter_cons.
  change (omap (told_by properties) (c :: cs)) with
    (match told_by properties c with
     | Some e => e :: omap (told_by properties) cs
     | None => omap (told_by properties) cs
     end).
  destruct (decide (blank (content_text c) = false)) as [Hb|Hb].
  - cbn [omap list_omap]. rewrite contribution_told by done. destruct (told_by properties c); cbn; by rewrite IH.
  - destruct c as [p|line]; [by rewrite nonblank_property in Hb|]. exact IH.
Qed.

(** Names a fingerprint compares have no colon and no line break. *)
Definition clear_name (name : string) : Prop := without ":" name /\ without lf name.

Lemma told_names properties cs : Forall clear_name properties -> Forall (fun e => clear_name e.1) (told properties cs).
Proof.
  intros Hp. apply Forall_forall. intros e He. unfold told in He. rewrite list_elem_of_omap in He.
  destruct He as (c & _ & He). destruct c as [p|line]; [|done]. cbn in He. case_decide as Hin; [|done].
  injection He as <-. exact (proj1 (Forall_forall _ _) Hp _ (proj1 Hin)).
Qed.

(** An entry can be read back from its text. *)
Lemma entries_read (l : list (string * string)) :
  Forall (fun e => clear_name e.1) l -> omap (cut ":") (entry_text <$> l) = l.
Proof.
  induction 1 as [|[n v] l [Hn _] _ IH]; [done|]. cbn [fmap list_fmap omap list_omap].
  unfold entry_text at 1. cbn [fst snd]. change (":" ++ v) with (String ":" v). rewrite cut_app by done. by rewrite IH.
Qed.

Lemma entry_nonempty (l : list (string * string)) : "" ∉ entry_text <$> l.
Proof. intros ([n v] & H & _)%list_elem_of_fmap. by destruct n. Qed.

Lemma entries_without_breaks (l : list (string * string)) :
  Forall (fun e => clear_name e.1) l -> Forall (without lf) l.*2 ->
  Forall (without lf) (entry_text <$> l).
Proof.
  intros Hn Hv. apply Forall_fmap, Forall_forall. intros e He.
  unfold compose, entry_text. apply without_app. split; [exact (proj2 (proj1 (Forall_forall _ _) Hn e He))|].
  change (":" ++ e.2) with (String ":" "" ++ e.2). apply without_app. split; [done|].
  exact (proj1 (Forall_forall _ _) Hv e.2 (list_elem_of_fmap_2 snd l e He)).
Qed.

Lemma append_same (v x y : string) : v ++ x = v ++ y -> x = y.
Proof. induction v as [|a v IH]; intros H; [done|]. injection H as H. by apply IH. Qed.

(** Equal texts are texts of the same entries. *)
Lemma joined_entries (l l' : list (string * string)) :
  Forall (without lf) (entry_text <$> l) -> Forall (without lf) (entry_text <$> l') ->
  String.concat (String lf "") (stable_sort utf16_compare (entry_text <$> l))
  = String.concat (String lf "") (stable_sort utf16_compare (entry_text <$> l')) ->
  (entry_text <$> l) ≡ₚ (entry_text <$> l').
Proof.
  intros Hl Hl' H. apply concat_inj in H.
  - by rewrite <- (stable_sort_perm utf16_compare (entry_text <$> l)), H, stable_sort_perm.
  - by rewrite stable_sort_perm.
  - by rewrite stable_sort_perm.
  - rewrite stable_sort_perm. apply entry_nonempty.
  - rewrite stable_sort_perm. apply entry_nonempty.
Qed.

End fingerprints.

(** ** Instances *)

Definition sample_runtime : Runtime := mkRuntime (fun s => s) (fun s => s).

Definition plain (s : string) : Folded * Eol := (mkFolded s [], eol_crlf).

Definition event : list (Folded * Eol) :=
  [plain "BEGIN:VEVENT"; plain "UID:seed-1"; plain "SUMMARY:Quarterly planning"; plain "LOCATION:Room 3\; upstairs";
   plain "END:VEVENT"].

Definition text (s : string) : list Glyph := g_plain <$> String.list_ascii_of_string s.

Definition property (name value : string) : LineContent := c_property (mkProperty name [] (text value)).

Definition event_contents : list LineContent :=
  [property "BEGIN" "VEVENT"; property "UID" "seed-1"; property "SUMMARY" "Quarterly planning";
   c_property (mkProperty "LOCATION" [] (text "Room 3" ++ [g_escaped ";"] ++ text " upstairs"));
   property "END" "VEVENT"].

(** The same event, reordered, refolded, re-escaped, with bare line feeds, a
    parameter and a property of the server's own. *)
Definition event_again : list (Folded * Eol) :=
  [(mkFolded "BEGIN:VEVENT" [], eol_lf); (mkFolded "X-SERVER:1" [], eol_lf);
   (mkFolded "LOCATION:Room 3; upstairs" [], eol_lf);
   (mkFolded "SUMMARY;LANGUAGE=en:Qua" [mkFold eol_lf false "rterly"; mkFold eol_lf true " planning"], eol_lf);
   (mkFolded "UID:seed-1" [], eol_lf)].

Definition event_end : option Folded := Some (mkFolded "END:VEVENT" []).

Definition event_again_contents : list LineContent :=
  [property "BEGIN" "VEVENT"; property "X-SERVER" "1"; property "LOCATION" "Room 3; upstairs";
   c_property (mkProperty "SUMMARY" ["LANGUAGE=en"] (text "Quarterly planning")); property "UID" "seed-1";
   property "END" "VEVENT"].

Example same_event : calendarFingerprint sample_runtime (fun s => s) (rendering event None)
                     = calendarFingerprint sample_runtime (fun s => s) (rendering event_again event_end).
Proof. vm_compute. reflexivity. Qed.


(** The first colon of a quoted parameter value is taken for the end of the
    parameters: dropping the parameter changes the fingerprint. *)
Definition quote : string := String (ascii_of_nat 34) "".

Example quoted_colon_is_content :
  contribution (fun s => s) CALENDAR_PROPERTIES ("SUMMARY;ALTREP=" ++ quote ++ "cid:part1" ++ quote ++ ":Hi")
  = Some ("SUMMARY:part1" ++ quote ++ ":Hi")
  /\ contribution (fun s => s) CALENDAR_PROPERTIES "SUMMARY:Hi" = Some "SUMMARY:Hi".
Proof. vm_compute. by split. Qed.

(** A line break inside a value reads like the end of the entry: a location
    moved into the description is not noticed. *)
Example moved_into_description :
  canonicalLines (fun s => s) ("DESCRIPTION:Agenda\nLOCATION:Room 3" ++ String lf "") CALENDAR_PROPERTIES
  = canonicalLines (fun s => s) ("DESCRIPTION:Agenda" ++ String lf "LOCATION:Room 3") CALENDAR_PROPERTIES.
Proof. vm_compute. reflexivity. Qed.

(** Fingerprints of one domain are comparable, those of two are not. *)
Lemma fingerprint_versions rt up a b :
  versionOf (calendarFingerprint rt up a) = Some "cal1" /\ versionOf (contactFingerprint rt up b) = Some "card1".
Proof. by split. Qed.
