(* ===== verification/Dav.v ===== *)
(** * Talking to a DAV server ([packages/engines/src/dav-retry.ts],
    [packages/engines/src/dav-target-version.ts], [packages/engines/src/dav-remove.ts])

    What the three DAV writers share: requests and their retries, ETags and
    the check that a copy is still ours, and the removal of one resource.  The
    server is whatever the HTTP client does to a state [Srv] ([HttpClient]);
    [HttpServer] lists the sentences of RFC 9110, RFC 4918 and RFC 4791 the
    theorems rely on.  Waiting between attempts is an [await], at which others
    may run; error messages are shortened. *)

From S2P Require Import Prelude Prog Keys Ports.
From Stdlib Require Import Ascii.

Open Scope Z_scope.
#[local] Open Scope string_scope.

(** [HttpRequestOptions], [HttpResponse] *)
Record Request := mkRequest {
  rq_method : string;
  rq_url : string;
  rq_headers : list (string * string);
  rq_body : option string
}.

Record Response := mkResponse {
  rsp_status : Z;
  rsp_body : string;
  rsp_headers : list (string * string);
  rsp_bodyBytes : option string
}.

(** [HttpClient.request]: an answer, or the error [fetch] rejects with. *)
Class HttpClient (Srv : Type) := request : Request -> Srv -> (string + Response) * Srv.

(** ** ETags and ownership *)

Definition quotation_mark : ascii := ascii_of_nat 34.

Definition ascii_lower (a : ascii) : ascii :=
  let n := nat_of_ascii a in if Nat.leb 65 n && Nat.leb n 90 then ascii_of_nat (n + 32) else a.

Fixpoint lower (s : string) : string :=
  match s with String a s' => String (ascii_lower a) (lower s') | "" => "" end.

Definition strip_weak (s : string) : string :=
  match s with
  | String a (String "/"%char s') => if decide (a = "W"%char \/ a = "w"%char) then s' else s
  | _ => s
  end.

Definition strip_quote (s : string) : string :=
  match s with String a s' => if decide (a = quotation_mark) then s' else s | "" => "" end.

Fixpoint readEtag_in (headers : list (string * string)) : option string :=
  match headers with
  | [] => None
  | (key, value) :: headers' =>
      if String.eqb (lower key) "etag"
      then truthy (Some (String.rev (strip_quote (String.rev (strip_quote (strip_weak (trim value)))))))
      else readEtag_in headers'
  end.

Definition readEtag (response : Response) : option string := readEtag_in (rsp_headers response).

Inductive OwnershipVerdict := ours | changed.

#[export] Instance OwnershipVerdict_eq_dec : EqDecision OwnershipVerdict.
Proof. solve_decision. Defined.

Definition ownershipOf (expected current : option string) : OwnershipVerdict :=
  match expected, current with
  | Some e, Some c => if String.eqb e c then ours else changed
  | _, _ => ours
  end.

(** Two spellings of one version, and no version at all. *)
Definition quoted (s : string) : string := String quotation_mark (s ++ String quotation_mark "").

Example etag_spellings :
  readEtag (mkResponse 200 "" [("Date", "x"); ("ETag", " W/" ++ quoted "abc")] None) = Some "abc" /\
  readEtag (mkResponse 200 "" [("etag", "abc")] None) = Some "abc" /\
  readEtag (mkResponse 200 "" [("ETag", quoted "")] None) = None /\
  readEtag (mkResponse 200 "" [] None) = None.
Proof. by vm_compute. Qed.

Definition successful (status : Z) : bool := ((200 <=? status) && (status <? 300))%Z.

Definition isTransientDavStatus (status : Z) : bool :=
  ((500 <=? status) || (status =? 423) || (status =? 429))%Z.

Definition DEFAULT_ATTEMPTS : nat := 5.

(** [config.url.replace(/\/$/, '')] and [path.replace(/^\/+/, '')] *)
Definition slash : ascii := "/"%char.

Fixpoint drop_leading (c : ascii) (s : string) : string :=
  match s with String a s' => if decide (a = c) then drop_leading c s' else s | "" => "" end.

Definition drop_trailing (c : ascii) (s : string) : string := String.rev (drop_leading c (String.rev s)).

Definition drop_one_trailing (c : ascii) (s : string) : string :=
  match String.rev s with
  | String a r => if decide (a = c) then String.rev r else s
  | "" => ""
  end.

Definition buildUrl (base path : string) : string :=
  drop_one_trailing slash base ++ "/" ++ drop_leading slash path.

Section client.
Context {Srv : Type} `{HttpClient Srv}.

Abbreviation dav := (prog Srv string).

Definition send (options : Request) : dav Response := try_act (request options).

(** The loop of [requestWithDavRetry], with the attempts left. *)
Fixpoint retry_while_transient (attempt : dav Response) (left : nat) (response : Response) : dav Response :=
  match left with
  | O => Ret response
  | S left' =>
      if isTransientDavStatus (rsp_status response)
      then let! response := attempt in retry_while_transient attempt left' response
      else Ret response
  end.

Definition requestWithDavRetry (attempt : dav Response) : dav Response :=
  let! response := attempt in retry_while_transient attempt (DEFAULT_ATTEMPTS - 1) response.

Definition requestWithRetry (options : Request) : dav Response := requestWithDavRetry (send options).

Definition head_request (url authorization : string) : Request :=
  mkRequest "HEAD" url [("Authorization", authorization)] None.

Definition delete_request (url authorization : string) : Request :=
  mkRequest "DELETE" url [("Authorization", authorization)] None.

(** The version the target reports for a resource now. *)
Definition currentEtag (url authorization : string) : dav (option string) :=
  let! response := requestWithRetry (head_request url authorization) in
  Ret (if successful (rsp_status response) then readEtag response else None).

(** Is a resource we have a version of still the one we wrote? *)
Definition checkOwnership (url authorization : string) (expected : option string) : dav OwnershipVerdict :=
  match expected with
  | Some v => let! current := currentEtag url authorization in Ret (ownershipOf (Some v) current)
  | None => Ret ours
  end.

(** ** Removing one resource *)

(** [new URL(url).pathname], [None] when the constructor throws. *)
Variable url_pathname : string -> option string.

Fixpoint has_segment_after (p s : string) : bool :=
  match strip_prefix p s with
  | Some (String a _) => negb (bool_decide (a = slash))
  | _ => false
  end
  || match s with String _ s' => has_segment_after p s' | "" => false end.

Definition davDeleteIsRecoverable (url : string) : bool :=
  match url_pathname url with Some p => has_segment_after "/dav/files/" p | None => false end.

Definition assertRemovableTargetId (targetId : string) : dav unit :=
  if String.eqb (trim targetId) "" then Throw "Refusing to remove: no target handle" else Ret tt.

Definition removeDavResource (url authorization : string) (expectedTargetVersion : option string)
    (kind : option RemovalKind) : dav RemovalResult :=
  let! verdict := checkOwnership url authorization expectedTargetVersion in
  if decide (verdict = changed) then Ret (mkRemovalResult None true)
  else
    let! response := requestWithRetry (delete_request url authorization) in
    let status := rsp_status response in
    if ((status =? 404) || (status =? 410))%Z then Ret (mkRemovalResult (Some deleted) false)
    else if negb (successful status) then Throw ("DELETE failed for " ++ url)
    else Ret (mkRemovalResult
                (Some (nullish kind (if davDeleteIsRecoverable url then binned else deleted))) false).
End client.

(** ** What a server promises

    [stored u s] is the representation the server holds at the resource [u].
    A URL addresses [resource_of url]; a fragment is not part of a request. *)
Definition safe_methods : list string := ["HEAD"; "GET"; "PROPFIND"; "REPORT"].

Definition make_methods : list string := ["MKCOL"; "MKCALENDAR"].

Definition create_only : string * string := ("If-None-Match", "*").

(** A resource and the members of the collection it may be. *)
Definition at_or_below (u v : string) : Prop := u = v \/ exists x, v = drop_trailing slash u ++ "/" ++ x.

Class HttpServer (Srv : Type) `{HttpClient Srv} := {
  resource_of : string -> string;
  stored : string -> Srv -> option string;
  (** RFC 3986 §3.5, RFC 9110 §7.1 *)
  law_fragment url fragment : resource_of (url ++ "#" ++ fragment) = resource_of url;
  (** RFC 9110 §9.2.1, RFC 4918 §9.1, RFC 4791 §7.1 *)
  law_safe rq s u : rq_method rq ∈ safe_methods -> stored u (snd (request rq s)) = stored u s;
  (** RFC 9110 §9.3.4 *)
  law_put rq s u : rq_method rq = "PUT" -> u <> resource_of (rq_url rq) ->
    stored u (snd (request rq s)) = stored u s;
  (** RFC 9110 §13.1.2 *)
  law_create_only rq s : rq_method rq = "PUT" -> create_only ∈ rq_headers rq ->
    is_Some (stored (resource_of (rq_url rq)) s) ->
    stored (resource_of (rq_url rq)) (snd (request rq s)) = stored (resource_of (rq_url rq)) s;
  (** RFC 4918 §9.3, RFC 4791 §5.3.1 *)
  law_make rq s u : rq_method rq ∈ make_methods -> is_Some (stored u s) ->
    stored u (snd (request rq s)) = stored u s;
  (** RFC 4918 §9.6 *)
  law_delete rq s u : rq_method rq = "DELETE" -> ~ at_or_below (resource_of (rq_url rq)) u ->
    stored u (snd (request rq s)) = stored u s
}.

(** ** Conversations

    What a program says to the server and hears from it, whatever others do to
    the server between two of its requests: the program runs against a server
    that writes down its own requests, the environment may change everything
    but that record. *)
Definition Conversation : Type := list (Request * (string + Response)).

Section conversations.
Context {Srv : Type} `{HttpClient Srv}.

Abbreviation Recorded := (Srv * Conversation)%type.

#[export] Instance recorded : HttpClient Recorded := fun rq w =>
  let '(answer, s) := request rq w.1 in (answer, (s, w.2 ++ [(rq, answer)])%list).

Definition record_kept (w w' : Recorded) : Prop := w'.2 = w.2.

#[export] Instance record_kept_preorder : PreOrder record_kept.
Proof. split; unfold record_kept; [by intros w|intros w1 w2 w3 H1 H2; congruence]. Qed.

(** [converses p spec]: whenever [p] ends, with whatever others did meanwhile,
    its conversation [t] and its result [r] satisfy [spec t r]. *)
Definition converses {A} (p : prog Recorded string A) (spec : Conversation -> string + A -> Prop) : Prop :=
  forall s t0, rg record_kept (fun _ _ => True) p
    (fun a w => exists t, w.2 = (t0 ++ t)%list /\ spec t (inr a))
    (fun e w => exists t, w.2 = (t0 ++ t)%list /\ spec t (inl e)) (s, t0).

Lemma converses_ret {A} (a : A) : converses (Ret a) (fun t r => t = [] /\ r = inr a).
Proof. intros s t0 w Hw. exists []. unfold record_kept in Hw. simpl in Hw. by rewrite Hw, app_nil_r. Qed.

Lemma converses_throw {A} e : converses (Throw e : prog _ _ A) (fun t r => t = [] /\ r = inl e).
Proof. intros s t0 w Hw. exists []. unfold record_kept in Hw. simpl in Hw. by rewrite Hw, app_nil_r. Qed.

Lemma converses_send rq : converses (send rq) (fun t r => t = [(rq, r)]).
Proof.
  intros s t0. apply rg_try. intros w a w' Hw Hr. split; [done|]. intros w3 Hw3.
  unfold record_kept in *. unfold request, recorded in Hr. destruct (request rq w.1) as [b s'].
  injection Hr as <- <-. simpl in *. destruct b as [e|r];
    [exists [(rq, inl e)]|exists [(rq, inr r)]]; by rewrite Hw3, Hw.
Qed.

Lemma converses_mono {A} (p : prog Recorded string A) (spec spec' : Conversation -> string + A -> Prop) :
  converses p spec -> (forall t r, spec t r -> spec' t r) -> converses p spec'.
Proof. intros Hp Hs s t0. eapply rg_mono; [apply Hp| |]; naive_solver. Qed.

(** First [p], then [q] on its value. *)
Definition then_spec {A B} (S1 : Conversation -> string + A -> Prop)
    (S2 : A -> Conversation -> string + B -> Prop) (t : Conversation) (r : string + B) : Prop :=
  (exists e, r = inl e /\ S1 t (inl e)) \/
  (exists t1 t2 a, t = (t1 ++ t2)%list /\ S1 t1 (inr a) /\ S2 a t2 r).

Lemma converses_bind {A B} (p : prog Recorded string A) (q : A -> prog Recorded string B) S1 S2 :
  converses p S1 -> (forall a, converses (q a) (S2 a)) -> converses (pbind p q) (then_spec S1 S2).
Proof.
  intros Hp Hq s t0. apply rg_bind; [apply _|]. eapply rg_mono; [apply Hp| |].
  - intros a [s' t'] (t1 & Ht1 & HS1). simpl in Ht1. subst t'. eapply rg_mono; [apply Hq| |].
    + intros b w (t2 & Ht2 & HS2). exists (t1 ++ t2)%list. rewrite Ht2, app_assoc. split; [done|].
      right. eauto 6.
    + intros e w (t2 & Ht2 & HS2). exists (t1 ++ t2)%list. rewrite Ht2, app_assoc. split; [done|].
      right. eauto 6.
  - intros e w (t1 & Ht1 & HS1). exists t1. split; [done|]. left. eauto.
Qed.

(** What a run alone says is an instance. *)
Lemma rg_less_interference {W E A} (R R' G : W -> W -> Prop) (p : prog W E A) Q X w :
  (forall w1 w2, R' w1 w2 -> R w1 w2) -> rg R G p Q X w -> rg R' G p Q X w.
Proof.
  intros HR. revert w; induction p as [a|e|B f k IH]; simpl; intros w Hp w' Hw'; [by apply Hp, HR..|].
  specialize (Hp w' (HR _ _ Hw')). destruct (f w') as [b w'']. destruct Hp. split; [done|]. by apply IH.
Qed.

Lemma converses_run {A} (p : prog Recorded string A) spec s r w :
  converses p spec -> run p (s, []) = (r, w) -> spec w.2 r.
Proof.
  intros Hp Hr. specialize (Hp s []).
  apply (rg_less_interference record_kept eq) in Hp; [|by intros w1 w2 <-].
  assert (PreOrder (fun _ _ : Recorded => True)) by (by split).
  apply rg_run in Hp; [|done]. rewrite Hr in Hp.
  destruct r as [e|a]; destruct Hp as [(t & Ht & HS) _]; simpl in Ht; by subst t.
Qed.

(** *** Retries *)

Definition is_transient (answer : string + Response) : bool :=
  match answer with inr r => isTransientDavStatus (rsp_status r) | inl _ => false end.

(** At most [n] attempts at one request: all but the last were answered
    "busy", and the last one's answer is the result. *)
Definition attempts (n : nat) (rq : Request) (t : Conversation) (r : string + Response) : Prop :=
  exists busy, t = (busy ++ [(rq, r)])%list /\ (length t <= n)%nat /\
    Forall (fun x => x.1 = rq /\ is_transient x.2 = true) busy /\
    (length t = n \/ is_transient r = false).

Lemma converses_retry n rq first :
  converses (retry_while_transient (send rq) n first)
    (fun t r => t = [] /\ r = inr first /\ (n = O \/ is_transient r = false) \/
                is_transient (inr first) = true /\ attempts n rq t r).
Proof.
  revert first; induction n as [|n IH]; intros first; cbn [retry_while_transient].
  { eapply converses_mono; [apply converses_ret|]. naive_solver. }
  destruct (isTransientDavStatus (rsp_status first)) eqn:Ht.
  - eapply converses_mono; [eapply converses_bind; [apply converses_send|intros; apply IH]|].
    intros t r [(e & -> & ->)|(t1 & t2 & a & -> & -> & Hr)]; right; (split; [done|]).
    + exists []. split_and!; simpl; [done|lia|constructor|by right].
    + destruct Hr as [(-> & -> & Hend)|(Ha & busy & -> & Hn & Hb & Hend)].
      * exists []. split_and!; simpl; [done|lia|constructor|]. destruct Hend as [->|?]; auto.
      * exists ((rq, inr a) :: busy). split_and!; simpl in *; [done|lia|by constructor|].
        destruct Hend; auto.
  - eapply converses_mono; [apply converses_ret|]. intros t r [-> ->]. left. naive_solver.
Qed.

Lemma converses_requestWithRetry rq : converses (requestWithRetry rq) (attempts DEFAULT_ATTEMPTS rq).
Proof.
  eapply converses_mono; [eapply converses_bind; [apply converses_send|intros; apply converses_retry]|].
  intros t r [(e & -> & ->)|(t1 & t2 & a & -> & -> & Hr)].
  - exists []. split_and!; simpl; [done|unfold DEFAULT_ATTEMPTS; lia|constructor|by right].
  - destruct Hr as [(-> & -> & Hend)|(Ha & busy & -> & Hn & Hb & Hend)].
    + exists []. unfold DEFAULT_ATTEMPTS. split_and!; simpl; [done|lia|constructor|].
      destruct Hend as [?|?]; [done|by right].
    + exists ((rq, inr a) :: busy). unfold DEFAULT_ATTEMPTS in *.
      split_and!; simpl in *; [done|lia|by constructor|]. destruct Hend; [left; lia|by right].
Qed.

Lemma converses_currentEtag url auth :
  converses (currentEtag url auth)
    (fun t r => exists answer, attempts DEFAULT_ATTEMPTS (head_request url auth) t answer /\
       r = match answer with
           | inl e => inl e
           | inr h => inr (if successful (rsp_status h) then readEtag h else None)
           end).
Proof.
  eapply converses_mono; [eapply converses_bind; [apply converses_requestWithRetry|intros; apply converses_ret]|].
  intros t r [(e & -> & Ht)|(t1 & t2 & h & -> & Ht & -> & ->)]; [by exists (inl e)|].
  exists (inr h). by rewrite app_nil_r.
Qed.
End conversations.

(** ** Removing one resource *)
Section removal.
Context {Srv : Type} `{HttpClient Srv}.
Variable url_pathname : string -> option string.

Abbreviation Recorded := (Srv * Conversation)%type.

(** The version the last answer to a HEAD gave away. *)
Definition reported (answer : string + Response) : option string :=
  match answer with
  | inr h => if successful (rsp_status h) then readEtag h else None
  | inl _ => None
  end.

(** What the answer to the DELETE means. *)
Definition removal_result (url : string) (kind : option RemovalKind) (answer : string + Response)
    : string + RemovalResult :=
  match answer with
  | inl e => inl e
  | inr d =>
      if ((rsp_status d =? 404) || (rsp_status d =? 410))%Z then inr (mkRemovalResult (Some deleted) false)
      else if successful (rsp_status d)
      then inr (mkRemovalResult
                  (Some (nullish kind (if davDeleteIsRecoverable url_pathname url then binned else deleted))) false)
      else inl ("DELETE failed for " ++ url)
  end.

(** Another version than the one on record. *)
Definition edited (expected current : option string) : Prop :=
  exists v c, expected = Some v /\ current = Some c /\ c <> v.

Definition removal_spec (url auth : string) (expected : option string) (kind : option RemovalKind)
    (t : Conversation) (r : string + RemovalResult) : Prop :=
  exists heads (checked : string + option string) deletes, t = (heads ++ deletes)%list /\
  match expected with
  | None => heads = [] /\ checked = inr None
  | Some v => exists answer, attempts DEFAULT_ATTEMPTS (head_request url auth) heads answer /\
      checked = match answer with inl e => inl e | inr _ => inr (reported answer) end
  end /\
  match checked with
  | inl e => r = inl e /\ deletes = []
  | inr current =>
      (edited expected current -> r = inr (mkRemovalResult None true) /\ deletes = []) /\
      (~ edited expected current ->
         exists answer, attempts DEFAULT_ATTEMPTS (delete_request url auth) deletes answer /\
           r = removal_result url kind answer)
  end.

Lemma ownership_changed expected current :
  ownershipOf expected current = changed <-> edited expected current.
Proof.
  unfold edited.
  destruct expected as [v|], current as [c|]; simpl; try naive_solver.
  destruct (String.eqb_spec v c); naive_solver.
Qed.

Lemma converses_verdict url auth expected :
  converses (Srv:=Srv)
    (checkOwnership url auth expected)
    (fun t r => match expected with
     | None => t = [] /\ r = inr ours
     | Some v => exists answer, attempts DEFAULT_ATTEMPTS (head_request url auth) t answer /\
         r = match answer with inl e => inl e | inr _ => inr (ownershipOf (Some v) (reported answer)) end
     end).
Proof.
  unfold checkOwnership. destruct expected as [v|]; [|apply converses_ret].
  eapply converses_mono; [eapply converses_bind; [apply converses_currentEtag|intros; apply converses_ret]|].
  intros t r [(e & -> & [e'|h] & Ht & Hr)|(t1 & t2 & a & -> & ([e'|h] & Ht & Hr) & -> & ->)]; simplify_eq;
    rewrite ?app_nil_r; by eexists.
Qed.

Lemma converses_delete url auth kind verdict :
  converses (Srv:=Srv)
    (if decide (verdict = changed) then Ret (mkRemovalResult None true)
     else
       let! response := requestWithRetry (delete_request url auth) in
       let status := rsp_status response in
       if ((status =? 404) || (status =? 410))%Z then Ret (mkRemovalResult (Some deleted) false)
       else if negb (successful status) then Throw ("DELETE failed for " ++ url)
       else Ret (mkRemovalResult
                   (Some (nullish kind (if davDeleteIsRecoverable url_pathname url then binned else deleted))) false))
    (fun t r => if decide (verdict = changed) then r = inr (mkRemovalResult None true) /\ t = []
     else exists answer, attempts DEFAULT_ATTEMPTS (delete_request url auth) t answer /\
            r = removal_result url kind answer).
Proof.
  case_decide; [eapply converses_mono; [apply converses_ret|naive_solver]|].
  eapply converses_mono.
  { eapply (converses_bind _ _ _ (fun d t r => t = [] /\ r = removal_result url kind (inr d)));
      [apply converses_requestWithRetry|].
    intros d. unfold removal_result. cbv zeta. destruct (_ || _); [apply converses_ret|].
    destruct (successful (rsp_status d)); [apply converses_ret|apply converses_throw]. }
  intros t r [(e & -> & Ht)|(t1 & t2 & d & -> & Ht & -> & ->)]; [by exists (inl e)|].
  exists (inr d). by rewrite app_nil_r.
Qed.

(** C34: what a removal says to the server and what it makes of the answers,
    whatever others do to the resource between its requests.  With a version on
    record it asks for the present one first, at most five times while the
    server is busy; the removal is refused, and no DELETE is ever sent, exactly
    when the server answers with another version; a HEAD that fails ends it.
    Otherwise it sends a DELETE, at most five times, and reports a removal only
    when that was answered 2xx, or 404 or 410, which it calls deleted. *)
Theorem removal_conversation url auth expected kind :
  converses (Srv:=Srv) (removeDavResource url_pathname url auth expected kind)
    (removal_spec url auth expected kind).
Proof.
  unfold removeDavResource. eapply converses_mono; [eapply converses_bind|].
  - apply (converses_verdict url auth expected).
  - intros verdict. apply (converses_delete url auth kind verdict).
  - intros t r [(e & -> & Ht)|(t1 & t2 & verdict & -> & Ht1 & Ht2)].
    + destruct expected as [v|]; [|naive_solver]. destruct Ht as ([e'|h] & Ht & Hr); simplify_eq.
      exists t, (inl e'), []. rewrite app_nil_r. naive_solver.
    + destruct expected as [v|].
      * destruct Ht1 as ([e|h] & Ht1 & [= ->]). exists t1, (inr (reported (inr h))), t2.
        split; [done|]. split; [naive_solver|]. cbn iota. rewrite <- ownership_changed.
        case_decide; [by split|by split].
      * destruct Ht1 as [-> [= ->]]. exists [], (inr None), t2. split; [done|]. split; [done|].
        rewrite decide_False in Ht2 by done. split; [by intros (? & ? & ? & ? & _)|done].
Qed.
End removal.

(** ** What requests leave alone *)

Create HintDb dav discriminated.

Section requests.
Context {Srv : Type} `{HttpClient Srv}.

(** A step that is one request satisfying [P]. *)
Definition performs (P : Request -> Prop) (s s' : Srv) : Prop := exists rq, P rq /\ s' = snd (request rq s).

Lemma steps_send (P : Request -> Prop) rq : P rq -> steps_in (performs P) (send rq).
Proof. intros Hrq. apply steps_in_try. intros s. by exists rq. Qed.

Lemma steps_requestWithRetry (P : Request -> Prop) rq : P rq -> steps_in (performs P) (requestWithRetry rq).
Proof.
  intros Hrq. apply steps_in_bind; [by apply steps_send|]. generalize (DEFAULT_ATTEMPTS - 1)%nat. intros n.
  induction n as [|n IH]; intros first; cbn [retry_while_transient]; [done|].
  destruct (isTransientDavStatus _); [|done]. apply steps_in_bind; [by apply steps_send|done].
Qed.

Lemma steps_currentEtag (P : Request -> Prop) url auth :
  P (head_request url auth) -> steps_in (performs P) (currentEtag url auth).
Proof. intros HP. apply steps_in_bind; [by apply steps_requestWithRetry|done]. Qed.

Lemma steps_checkOwnership (P : Request -> Prop) url auth expected :
  P (head_request url auth) -> steps_in (performs P) (checkOwnership url auth expected).
Proof.
  intros HP. destruct expected as [v|]; [|done]. apply steps_in_bind; [by apply steps_currentEtag|done].
Qed.

Lemma steps_removeDavResource (P : Request -> Prop) url_pathname url auth expected kind :
  P (head_request url auth) -> P (delete_request url auth) ->
  steps_in (performs P) (removeDavResource url_pathname url auth expected kind).
Proof.
  intros Hh Hd. apply steps_in_bind; [by apply steps_checkOwnership|].
  intros verdict. case_decide; [done|]. apply steps_in_bind; [by apply steps_requestWithRetry|].
    intros d. cbv zeta. by repeat case_match.
Qed.
End requests.

#[export] Hint Resolve steps_send steps_requestWithRetry steps_currentEtag steps_checkOwnership : dav.

Section frames.
Context {Srv : Type} `{HS : HttpServer Srv}.

(** The resources of [K] are what they were. *)
Definition leaves (K : string -> Prop) (s s' : Srv) : Prop := forall u, K u -> stored u s' = stored u s.

(** So is everything there was. *)
Definition only_adds (s s' : Srv) : Prop := forall u, is_Some (stored u s) -> stored u s' = stored u s.

#[export] Instance leaves_preorder K : PreOrder (leaves K).
Proof. split; unfold leaves; [by intros s|]. intros s1 s2 s3 H1 H2 u Hu. by rewrite H2, H1. Qed.

#[export] Instance only_adds_preorder : PreOrder only_adds.
Proof.
  split; unfold only_adds; [by intros s|]. intros s1 s2 s3 H1 H2 u Hu.
  rewrite H2, H1; [done..|]. by rewrite H1.
Qed.

Definition is_safe (rq : Request) : Prop := rq_method rq ∈ safe_methods.

Definition is_make (rq : Request) : Prop := rq_method rq ∈ make_methods.

Definition is_create (rq : Request) : Prop := rq_method rq = "PUT" /\ create_only ∈ rq_headers rq.

Definition writes (u : string) (rq : Request) : Prop := rq_method rq = "PUT" /\ resource_of (rq_url rq) = u.

Definition removes (u : string) (rq : Request) : Prop := rq_method rq = "DELETE" /\ resource_of (rq_url rq) = u.

Lemma safe_leaves K s s' : performs is_safe s s' -> leaves K s s'.
Proof. intros (rq & Hrq & ->) u _. by apply law_safe. Qed.

Lemma make_only_adds s s' : performs (fun rq => is_safe rq \/ is_make rq) s s' -> only_adds s s'.
Proof. intros (rq & [Hrq|Hrq] & ->) u Hu; [by apply law_safe|by apply law_make]. Qed.

(** Create-only writes add. *)
Lemma create_only_adds s s' : performs (fun rq => is_safe rq \/ is_create rq) s s' -> only_adds s s'.
Proof.
  intros (rq & [Hrq|[Hm Hc]] & ->) u Hu; [by apply law_safe|].
  destruct (decide (u = resource_of (rq_url rq))) as [->|Hne]; [by apply law_create_only|by apply law_put].
Qed.

(** A write stays at its resource. *)
Lemma write_leaves u s s' : performs (fun rq => is_safe rq \/ writes u rq) s s' -> leaves (fun v => v <> u) s s'.
Proof. intros (rq & [Hrq|[Hm <-]] & ->) v Hv; [by apply law_safe|by apply law_put]. Qed.

Lemma removal_leaves u s s' :
  performs (fun rq => is_safe rq \/ removes u rq) s s' -> leaves (fun v => ~ at_or_below u v) s s'.
Proof. intros (rq & [Hrq|[Hm <-]] & ->) v Hv; [by apply law_safe|by apply law_delete]. Qed.

(** A removal stays at its resource. *)
Lemma removeDavResource_leaves url_pathname url auth expected kind :
  steps_in (leaves (fun v => ~ at_or_below (resource_of url) v))
    (removeDavResource url_pathname url auth expected kind).
Proof.
  eapply steps_in_mono; [apply removal_leaves|]. apply steps_removeDavResource; [left|by right].
  unfold is_safe, safe_methods. set_solver.
Qed.
End frames.
