(* ===== verification/DavText.v ===== *)
(** * What a DAV server answers ([packages/engines/src/dav-multistatus.ts],
    [packages/engines/src/dav-collection-path.ts])

    The regular expressions of the multi-status reader as scanners, and the
    names made of hrefs and folders.  Strings are UTF-8 bytes: everything the
    expressions look for is ASCII.  [new URL(u).pathname] is a parameter, and so
    is [String.toLowerCase]. *)

From S2P Require Import Prelude Keys DavCanonical Dav.
From Stdlib Require Import Ascii.

#[local] Open Scope string_scope.

(** ** Elements *)

(** [[A-Za-z0-9._-]] *)
Definition prefix_char (a : ascii) : bool :=
  is_alnum a || bool_decide (a = "."%char \/ a = "_"%char \/ a = "-"%char).

(** [[A-Za-z0-9._-]+:], what follows it. *)
Fixpoint after_prefix_chars (some : bool) (s : string) : option string :=
  match s with
  | String a s' =>
      if prefix_char a then after_prefix_chars true s'
      else if decide (a = ":"%char) then (if some then Some s' else None) else None
  | "" => None
  end.

(** The name under any prefix, or none; what follows it. *)
Definition tag_name (name s : string) : option string :=
  match after_prefix_chars false s with
  | Some s' => match strip_prefix name s' with Some r => Some r | None => strip_prefix name s end
  | None => strip_prefix name s
  end.

(** [[^>]*>] *)
Fixpoint after_gt (s : string) : option string :=
  match s with
  | String a s' => if decide (a = ">"%char) then Some s' else after_gt s'
  | "" => None
  end.

(** The optional attributes and the bracket that end an opening tag. *)
Definition tag_end (s : string) : option string :=
  match s with
  | String ">"%char s' => Some s'
  | _ => match strip_any js_spaces s with Some s' => after_gt s' | None => None end
  end.

Definition opening (name s : string) : option string :=
  match strip_prefix "<" s with
  | Some s1 => match tag_name name s1 with Some s2 => tag_end s2 | None => None end
  | None => None
  end.

Definition closing (name s : string) : option string :=
  match strip_prefix "</" s with
  | Some s1 => match tag_name name s1 with Some s2 => strip_prefix ">" s2 | None => None end
  | None => None
  end.

(** The text up to the first closing tag, and the rest. *)
Fixpoint up_to_closing (name s : string) : option (string * string) :=
  match closing name s with
  | Some rest => Some ("", rest)
  | None =>
      match s with
      | String a s' => match up_to_closing name s' with Some (x, rest) => Some (String a x, rest) | None => None end
      | "" => None
      end
  end.

(** The first match of [elementPattern(name)], and the rest. *)
Fixpoint first_element (name s : string) : option (string * string) :=
  match match opening name s with Some s1 => up_to_closing name s1 | None => None end with
  | Some r => Some r
  | None => match s with String _ s' => first_element name s' | "" => None end
  end.

Definition firstElementText (xml localName : string) : option string := fst <$> first_element localName xml.

(** [xml.matchAll(elementPattern(name, 'g'))].  Every match consumes a
    character, so the length of the text is enough fuel ([all_elements_enough]). *)
Fixpoint elements_in (fuel : nat) (name s : string) : list string :=
  match fuel with
  | O => []
  | S fuel' => match first_element name s with Some (x, rest) => x :: elements_in fuel' name rest | None => [] end
  end.

Definition all_elements (name s : string) : list string := elements_in (String.length s) name s.

#[local] Abbreviation len := String.length.

Lemma strip_prefix_length p s r : strip_prefix p s = Some r -> (len s = len p + len r)%nat.
Proof.
  revert s; induction p as [|a p IH]; intros [|b s]; simpl; try congruence.
  - by intros [= <-].
  - by intros [= <-].
  - case_decide; [|done]. intros Hr. by rewrite (IH _ Hr).
Qed.

Lemma strip_prefix_Some p s r : strip_prefix p s = Some r -> s = p ++ r.
Proof.
  revert s; induction p as [|a p IH]; intros s; [by intros [= ->]|]. destruct s as [|b s]; [done|]. simpl.
  case_decide as Hab; [|done]. intros Hr. rewrite string_app_cons, Hab. by rewrite (IH _ Hr).
Qed.

Lemma strip_prefix_app p r : strip_prefix p (p ++ r) = Some r.
Proof. induction p as [|a p IH]; [done|]. rewrite string_app_cons. simpl. by rewrite decide_True. Qed.

Lemma strip_any_length ps s r : strip_any ps s = Some r -> (len r <= len s)%nat.
Proof.
  induction ps as [|p ps IH]; simpl; [done|]. destruct (strip_prefix p s) eqn:Hp; [|done].
  intros [= <-]. apply strip_prefix_length in Hp. lia.
Qed.

Lemma after_prefix_chars_length some s r : after_prefix_chars some s = Some r -> (len r < len s)%nat.
Proof.
  revert some; induction s as [|a s IH]; intros some; simpl; [done|].
  destruct (prefix_char a); [intros Hr%IH; lia|]. case_decide; [|done]. destruct some; [|done]. intros [= <-]. lia.
Qed.

Lemma tag_name_length name s r : tag_name name s = Some r -> (len r <= len s)%nat.
Proof.
  unfold tag_name. assert (Hp : forall s, strip_prefix name s = Some r -> (len r <= len s)%nat).
  { intros s' Hr%strip_prefix_length. lia. }
  destruct (after_prefix_chars false s) as [s'|] eqn:Ha; [|apply Hp].
  apply after_prefix_chars_length in Ha. destruct (strip_prefix name s') eqn:Hs; [|apply Hp].
  intros [= <-]. apply Hp in Hs. lia.
Qed.

Lemma after_gt_length s r : after_gt s = Some r -> (len r < len s)%nat.
Proof. induction s as [|a s IH]; simpl; [done|]. case_decide; [intros [= <-]; lia|]. intros Hr%IH. lia. Qed.

Lemma tag_end_length s r : tag_end s = Some r -> (len r < len s)%nat.
Proof.
  assert (Hr : match strip_any js_spaces s with Some s' => after_gt s' | None => None end = Some r -> (len r < len s)%nat).
  { destruct (strip_any js_spaces s) eqn:Hs; [|done]. intros Hr%after_gt_length.
    apply strip_any_length in Hs. lia. }
  unfold tag_end. destruct s as [|a s]; [exact Hr|]. destruct (decide (a = ">"%char)) as [->|Hne].
  - intros [= <-]. simpl. lia.
  - intros H. apply Hr. by destruct a as [[] [] [] [] [] [] [] []].
Qed.

Lemma opening_length name s r : opening name s = Some r -> (len r < len s)%nat.
Proof.
  unfold opening. destruct (strip_prefix "<" s) as [s1|] eqn:H1; [|done]. apply strip_prefix_length in H1.
  destruct (tag_name name s1) as [s2|] eqn:H2; [|done]. apply tag_name_length in H2.
  intros H3%tag_end_length. simpl in H1. lia.
Qed.

Lemma closing_length name s r : closing name s = Some r -> (len r <= len s)%nat.
Proof.
  unfold closing. destruct (strip_prefix "</" s) as [s1|] eqn:H1; [|done]. apply strip_prefix_length in H1.
  destruct (tag_name name s1) as [s2|] eqn:H2; [|done]. apply tag_name_length in H2.
  intros H3%strip_prefix_length. simpl in *. lia.
Qed.

Lemma up_to_closing_length name s x r : up_to_closing name s = Some (x, r) -> (len r <= len s)%nat.
Proof.
  revert x; induction s as [|a s IH]; intros x; cbn [up_to_closing].
  - destruct (closing name "") eqn:Hc; [|done]. intros [= _ <-]. by apply closing_length in Hc.
  - destruct (closing name (String a s)) eqn:Hc; [intros [= _ <-]; by apply closing_length in Hc|].
    destruct (up_to_closing name s) as [[y r']|]; [|done]. intros [= _ <-]. specialize (IH _ eq_refl). simpl. lia.
Qed.

Lemma first_element_length name s x r : first_element name s = Some (x, r) -> (len r < len s)%nat.
Proof.
  assert (Hhere : forall s, match opening name s with Some s1 => up_to_closing name s1 | None => None end = Some (x, r) ->
    (len r < len s)%nat).
  { intros s'. destruct (opening name s') as [s1|] eqn:Ho; [|done]. apply opening_length in Ho.
    intros Hr%up_to_closing_length. lia. }
  induction s as [|a s IH]; cbn [first_element].
  - destruct (match opening name "" with Some _ => _ | None => _ end) eqn:Hm; [|done]. intros [= ->]. by apply Hhere.
  - destruct (match opening name (String a s) with Some _ => _ | None => _ end) eqn:Hm.
    + intros [= ->]. by apply Hhere.
    + intros Hr%IH. simpl. lia.
Qed.

Lemma elements_in_enough fuel fuel' name s :
  (len s <= fuel)%nat -> (fuel <= fuel')%nat -> elements_in fuel' name s = elements_in fuel name s.
Proof.
  revert fuel' s; induction fuel as [|fuel IH]; intros [|fuel'] s Hs Hf; try lia; [done| |];
    cbn [elements_in]; destruct (first_element name s) as [[x r]|] eqn:He; [|done| |done];
    apply first_element_length in He; [lia|]. f_equal. apply IH; lia.
Qed.

(** The text's own length is enough fuel for the scan. *)
Lemma all_elements_enough fuel name s : (len s <= fuel)%nat -> elements_in fuel name s = all_elements name s.
Proof. intros Hf. unfold all_elements. by apply elements_in_enough. Qed.

Record MultiStatusResponse := mkMultiStatusResponse { ms_href : string; ms_xml : string }.

Definition parseMultiStatus (xml : string) : list MultiStatusResponse :=
  omap (fun block => (fun href => mkMultiStatusResponse (trim href) block) <$> firstElementText block "href")
       (all_elements "response" xml).

(** An opening or an empty tag of that name, anywhere. *)
Definition empty_tag_end (s : string) : bool :=
  match s with
  | String ">"%char _ => true
  | String "/"%char (String ">"%char _) => true
  | _ => match strip_any js_spaces s with Some s' => defined (after_gt s') | None => false end
  end.

Fixpoint has_tag (name s : string) : bool :=
  match strip_prefix "<" s with
  | Some s1 => match tag_name name s1 with Some s2 => empty_tag_end s2 | None => false end
  | None => false
  end
  || match s with String _ s' => has_tag name s' | "" => false end.

Definition hasResourceType (responseXml localName : string) : bool :=
  match firstElementText responseXml "resourcetype" with Some t => has_tag localName t | None => false end.

Definition isCollection (responseXml : string) : bool := hasResourceType responseXml "collection".

(** ** Characters *)

(** [s.replace(/pattern/g, by)] for a literal, non-empty pattern; [skip] bytes
    of a match are still to be dropped. *)
Fixpoint replace_from (pattern by_ : string) (skip : nat) (s : string) : string :=
  match s with
  | "" => ""
  | String a s' =>
      match skip with
      | S k => replace_from pattern by_ k s'
      | O => match strip_prefix pattern s with
             | Some _ => by_ ++ replace_from pattern by_ (String.length pattern - 1) s'
             | None => String a (replace_from pattern by_ 0 s')
             end
      end
  end.

Definition replace_all (pattern by_ : string) : string -> string := replace_from pattern by_ 0.

Definition code_point (n : N) : string :=
  bytes (if n <? 128 then [n]
         else if n <? 2048 then [192 + n / 64; 128 + n mod 64]
         else if n <? 65536 then [224 + n / 4096; 128 + (n / 64) mod 64; 128 + n mod 64]
         else [240 + n / 262144; 128 + (n / 4096) mod 64; 128 + (n / 64) mod 64; 128 + n mod 64])%N.

Definition digit (a : ascii) : option N :=
  let n := N_of_ascii a in if ((48 <=? n) && (n <=? 57))%N then Some (n - 48)%N else None.

(** [(\d+);] read as a number, and what follows; [some] digits were seen. *)
Fixpoint reference (some : bool) (acc : N) (s : string) : option (N * string) :=
  match s with
  | String a s' =>
      match digit a with
      | Some d => reference true (10 * acc + d)%N s'
      | None => if decide (a = ";"%char) then (if some then Some (acc, s') else None) else None
      end
  | "" => None
  end.

(** [.replace(/&#(\d+);/g, String.fromCodePoint)], which throws beyond the
    last code point. *)
Fixpoint replace_references (skip : nat) (s : string) : option string :=
  match s with
  | "" => Some ""
  | String a s' =>
      match skip with
      | S k => replace_references k s'
      | O =>
          match match strip_prefix "&#" s with Some r => reference false 0 r | None => None end with
          | Some (n, rest) =>
              if (1114111 <? n)%N then None
              else String.append (code_point n) <$>
                   replace_references (String.length s' - String.length rest) s'
          | None => String a <$> replace_references 0 s'
          end
      end
  end.

Definition apos : string := "'".
Definition quot : string := String quotation_mark "".

(** The body of a text that is one CDATA section. *)
Fixpoint cdata_body (s : string) : option string :=
  match match strip_prefix "]]>" s with Some r => bool_decide (trim r = "") | None => false end with
  | true => Some ""
  | false => match s with String a s' => String a <$> cdata_body s' | "" => None end
  end.

Definition cdata (s : string) : option string :=
  match strip_prefix "<![CDATA[" (trimStart s) with Some r => cdata_body r | None => None end.

(** [None] is the [RangeError] of [fromCodePoint]. *)
Definition unescapeXml (text : string) : option string :=
  let raw := nullish (cdata text) text in
  replace_all "&amp;" "&" <$>
    replace_references 0
      (replace_all "&apos;" apos (replace_all "&quot;" quot (replace_all "&gt;" ">" (replace_all "&lt;" "<" raw)))).

(** Of the writers. *)
Definition escapeXml (str : string) : string :=
  replace_all apos "&apos;" (replace_all quot "&quot;" (replace_all ">" "&gt;" (replace_all "<" "&lt;"
    (replace_all "&" "&amp;" str)))).

(** ** Hrefs *)

Definition hex (a : ascii) : option N :=
  let n := N_of_ascii a in
  if ((48 <=? n) && (n <=? 57))%N then Some (n - 48)%N
  else if ((65 <=? n) && (n <=? 70))%N then Some (n - 55)%N
  else if ((97 <=? n) && (n <=? 102))%N then Some (n - 87)%N
  else None.

(** How many bytes follow a first byte of UTF-8, and the range of the next. *)
Definition utf8_first (b : N) : option (nat * N * N) :=
  (if b <? 128 then Some (0%nat, 0, 0)
   else if (194 <=? b) && (b <=? 223) then Some (1%nat, 128, 191)
   else if b =? 224 then Some (2%nat, 160, 191)
   else if b =? 237 then Some (2%nat, 128, 159)
   else if (225 <=? b) && (b <=? 239) then Some (2%nat, 128, 191)
   else if b =? 240 then Some (3%nat, 144, 191)
   else if (241 <=? b) && (b <=? 243) then Some (3%nat, 128, 191)
   else if b =? 244 then Some (3%nat, 128, 143)
   else None)%N.

(** [decodeURIComponent], [None] when it throws; [more] bytes of a character
    are still to come, the next between [lo] and [hi]. *)
Fixpoint decode_from (more : nat) (lo hi : N) (s : string) : option string :=
  match s with
  | "" => match more with O => Some "" | S _ => None end
  | String "%"%char (String h (String l s')) =>
      match hex h, hex l with
      | Some h, Some l =>
          let b := (16 * h + l)%N in
          match more with
          | O => match utf8_first b with
                 | Some (n, lo, hi) => String (ascii_of_N b) <$> decode_from n lo hi s'
                 | None => None
                 end
          | S n => if ((lo <=? b) && (b <=? hi))%N
                   then String (ascii_of_N b) <$> decode_from n 128 191 s' else None
          end
      | _, _ => None
      end
  | String a s' =>
      match more with
      | O => if decide (a = "%"%char) then None else String a <$> decode_from 0 0 0 s'
      | S _ => None
      end
  end.

Definition decodeURIComponent (s : string) : option string := decode_from 0 0 0 s.

Definition decodeHref (href : string) : string + string :=
  match decodeURIComponent href with
  | Some s => inr s
  | None => inl ("Cannot decode DAV href: " ++ href)
  end.

Definition starts_with (p s : string) : bool := defined (strip_prefix p s).

Section urls.
(** [new URL(u).pathname], [None] when the constructor throws. *)
Variable url_pathname : string -> option string.

Definition href_path (decoded : string) : option string :=
  if starts_with "http://" decoded || starts_with "https://" decoded then url_pathname decoded else Some decoded.

Definition hrefRelativeTo (href baseUrl : string) : string + option string :=
  match decodeHref href with
  | inl e => inl e
  | inr decoded =>
      match href_path decoded, url_pathname baseUrl with
      | Some hrefPath, Some pathname =>
          let basePath := drop_trailing slash pathname in
          let normalizedHref := drop_trailing slash hrefPath in
          inr (if decide (basePath = "" \/ basePath = "/") then Some (drop_leading slash normalizedHref)
               else if decide (normalizedHref = basePath) then Some ""
               else strip_prefix (basePath ++ "/") normalizedHref)
      | _, _ => inl "Invalid URL"
      end
  end.
End urls.

(** ** The UID of a body *)

(** [.replace(/\r\n[ \t]/g, '')] *)
Fixpoint drop_crlf_folds (s : string) : string :=
  match s with
  | String a ((String b (String c s'')) as s') =>
      if decide (a = cr /\ b = lf /\ (c = " "%char \/ c = tab)) then drop_crlf_folds s''
      else String a (drop_crlf_folds s')
  | _ => s
  end.

Fixpoint strip_lower (p s : string) : option string :=
  match p, s with
  | "", _ => Some s
  | String a p', String b s' => if decide (a = ascii_lower b) then strip_lower p' s' else None
  | String _ _, "" => None
  end.

Definition terminator_length (s : string) : nat :=
  match strip_any line_terminators s with Some s' => String.length s - String.length s' | None => 0 end.

(** [.*] *)
Fixpoint rest_of_line (s : string) : string :=
  match s with
  | String a s' => if Nat.eqb (terminator_length s) 0 then String a (rest_of_line s') else ""
  | "" => ""
  end.

(** [[^:\r\n]*:], what follows it. *)
Fixpoint after_parameters (s : string) : option string :=
  match s with
  | String a s' =>
      if decide (a = ":"%char) then Some s'
      else if decide (a = cr \/ a = lf) then None else after_parameters s'
  | "" => None
  end.

(** A match of [UID(?:;parameters)?:value] at the start of [s]. *)
Definition uid_line (s : string) : option string :=
  match strip_lower "uid" s with
  | Some (String ":"%char v) => Some (rest_of_line v)
  | Some (String ";"%char p) => rest_of_line <$> after_parameters p
  | _ => None
  end.

(** The first line that matches; [skip] bytes of a line terminator are left. *)
Fixpoint find_uid (at_start : bool) (skip : nat) (s : string) : option string :=
  match s with
  | "" => None
  | String _ s' =>
      match (if at_start then uid_line s else None) with
      | Some v => Some v
      | None => let skip := match skip with O => terminator_length s | S k => S k end in
                find_uid (Nat.eqb skip 1) (pred skip) s'
      end
  end.

Definition extractUid (body : string) : option string :=
  truthy (trim <$> find_uid true 0 (drop_folds (drop_crlf_folds body))).

(** [[^\r\n]+] at the start of a string. *)
Fixpoint until_break (s : string) : string :=
  match s with
  | String a s' => if decide (a = cr \/ a = lf) then "" else String a (until_break s')
  | "" => ""
  end.

(** ** A collection's name *)

Section slug.
Variable rt : Runtime.

Definition lastSegment (path : option string) : option string :=
  match truthy path with
  | Some p => list.last (base.filter (fun x => x <> "") (split slash p))
  | None => None
  end.

(** [[a-z0-9]] *)
Definition slug_char (a : ascii) : bool :=
  let n := N_of_ascii a in (((48 <=? n) && (n <=? 57)) || ((97 <=? n) && (n <=? 122)))%N.

(** [.replace(/[^a-z0-9]+/g, '-')]; [run] says that the character before was replaced. *)
Fixpoint dashes (run : bool) (s : string) : string :=
  match s with
  | String a s' =>
      if slug_char a then String a (dashes false s')
      else if run then dashes true s' else String "-" (dashes true s')
  | "" => ""
  end.

Definition collectionSlug (name path : option string) (fallback : string) : string :=
  let raw := nullish (match truthy (trim <$> name) with
                      | Some n => Some n
                      | None => lastSegment path
                      end) fallback in
  nullish (truthy (Some (drop_trailing "-" (drop_leading "-" (dashes false (toLowerCase rt raw)))))) fallback.
End slug.

(** ** Escaping and back

    An escaped text is a sequence of references and of characters. *)
Inductive entity := e_amp | e_lt | e_gt | e_quot | e_apos.

#[export] Instance entity_eq_dec : EqDecision entity.
Proof. solve_decision. Defined.

Definition entity_text (e : entity) : string :=
  match e with e_amp => "&amp;" | e_lt => "&lt;" | e_gt => "&gt;" | e_quot => "&quot;" | e_apos => "&apos;" end.

Definition entity_char (e : entity) : ascii :=
  match e with e_amp => "&" | e_lt => "<" | e_gt => ">" | e_quot => quotation_mark | e_apos => "'" end%char.

Definition piece : Type := ascii + entity.

Fixpoint spelled (ps : list piece) : string :=
  match ps with
  | [] => ""
  | inl a :: ps => String a (spelled ps)
  | inr e :: ps => entity_text e ++ spelled ps
  end.

Definition escaped (e : entity) (p : piece) : piece := if decide (p = inl (entity_char e)) then inr e else p.

Definition unescaped (e : entity) (p : piece) : piece := if decide (p = inr e) then inl (entity_char e) else p.

Definition char_pieces (s : string) : list piece := inl <$> String.list_ascii_of_string s.

Lemma spelled_chars s : spelled (char_pieces s) = s.
Proof. unfold char_pieces. induction s as [|a s IH]; [done|]. cbn. by f_equal. Qed.

(** One pass over the references. *)
Lemma replace_entity e ps :
  (inl "&"%char : piece) ∉ ps -> replace_all (entity_text e) (String (entity_char e) "") (spelled ps) = spelled (unescaped e <$> ps).
Proof.
  unfold replace_all. induction ps as [|[a|e'] ps IH]; intros Hp; [by destruct e|..];
    apply not_elem_of_cons in Hp as [Ha Hp]; specialize (IH Hp).
  - assert (a <> "&"%char) by congruence. rewrite fmap_cons. unfold unescaped at 1. rewrite decide_False by done.
    cbn [spelled]. rewrite <- IH. destruct e; cbn; by rewrite decide_False by done.
  - rewrite fmap_cons. destruct e, e'; cbn; rewrite <- IH; done.
Qed.

Lemma unescaped_plain e (ps : list piece) : e <> e_amp -> (inl "&"%char : piece) ∉ ps -> (inl "&"%char : piece) ∉ (unescaped e <$> ps).
Proof.
  intros He Hp (p & Hq & Hin)%list_elem_of_fmap. unfold unescaped in Hq. case_decide; [by destruct e|by subst].
Qed.

Lemma replace_char e ps :
  (e = e_amp -> forall e', inr e' ∉ ps) ->
  replace_all (String (entity_char e) "") (entity_text e) (spelled ps) = spelled (escaped e <$> ps).
Proof.
  unfold replace_all. induction ps as [|[a|e'] ps IH]; intros Hp; [by destruct e|..];
    (assert (IH' := IH ltac:(intros He e'' Hin; by eapply Hp; [|apply list_elem_of_further]))); clear IH;
    rewrite fmap_cons; unfold escaped at 1.
  - destruct (decide (a = entity_char e)) as [-> | Hne].
    + rewrite decide_True by done. cbn [spelled]. rewrite <- IH'. by destruct e.
    + rewrite decide_False by congruence. cbn [spelled]. rewrite <- IH'. cbn. by rewrite decide_False by done.
  - rewrite decide_False by done. cbn [spelled]. rewrite <- IH'.
    destruct e; [exfalso; eapply (Hp eq_refl), list_elem_of_here|..]; by destruct e'.
Qed.

Lemma references_kept (ps : list piece) : (inl "&"%char : piece) ∉ ps -> replace_references 0 (spelled ps) = Some (spelled ps).
Proof.
  induction ps as [|[a|e] ps IH]; intros Hp; [done|..]; apply not_elem_of_cons in Hp as [Ha Hp]; specialize (IH Hp).
  - cbn. rewrite decide_False by congruence. cbn. by rewrite IH.
  - destruct e; cbn [spelled entity_text]; lazy [String.append]; cbn; by rewrite IH.
Qed.

(** A text without brackets is no CDATA section. *)
Definition bracket_free (s : string) : Prop := "<"%char ∉ String.list_ascii_of_string s.

Lemma strip_prefix_free p s r : strip_prefix p s = Some r -> bracket_free s -> bracket_free r.
Proof.
  revert s; induction p as [|a p IH]; intros [|b s]; simpl; intros H Hs; try congruence.
  case_decide; [|done]. apply (IH s); [done|]. unfold bracket_free in *. cbn in Hs. set_solver.
Qed.

Lemma trimStart_free s : bracket_free s -> bracket_free (trimStart s).
Proof.
  unfold trimStart. generalize (String.length s) as n. intros n. revert s; induction n as [|n IH]; intros s Hs; cbn [strip_many]; [done|].
  destruct (strip_any js_spaces s) as [r|] eqn:Hr; [|done]. apply IH. revert Hr. generalize js_spaces as sp.
  induction sp as [|p sp IHp]; simpl; [done|]. destruct (strip_prefix p s) eqn:Hp; [|exact IHp].
  intros [= ->]. by eapply strip_prefix_free.
Qed.

Lemma no_cdata s : bracket_free s -> cdata s = None.
Proof.
  intros Hs%trimStart_free. unfold cdata. destruct (trimStart s) as [|a r]; [done|]. simpl.
  rewrite decide_False; [done|]. intros <-. apply Hs. apply list_elem_of_here.
Qed.

Lemma spelled_free ps : (inl "<"%char : piece) ∉ ps -> bracket_free (spelled ps).
Proof.
  unfold bracket_free. induction ps as [|[a|e] ps IH]; intros Hp; [apply not_elem_of_nil|..];
    apply not_elem_of_cons in Hp as [Ha Hp]; specialize (IH Hp).
  - cbn. apply not_elem_of_cons. split; [congruence|done].
  - destruct e; cbn [spelled entity_text]; lazy [String.append]; cbn; rewrite !not_elem_of_cons; by split_and!.
Qed.

(** What a character becomes. *)
Definition escape_piece (p : piece) : piece :=
  escaped e_apos (escaped e_quot (escaped e_gt (escaped e_lt (escaped e_amp p)))).

Lemma escape_pieces s : escapeXml s = spelled (escape_piece <$> char_pieces s).
Proof.
  unfold escapeXml. rewrite <- (spelled_chars s) at 1.
  rewrite (replace_char e_amp), (replace_char e_lt), (replace_char e_gt), (replace_char e_quot), (replace_char e_apos);
    try discriminate; [by rewrite <- !list_fmap_compose|].
  intros _ e (a & Ha & _)%list_elem_of_fmap. discriminate.
Qed.

Definition all_entities : list entity := [e_amp; e_lt; e_gt; e_quot; e_apos].

Lemma escape_piece_plain a e : e ∈ all_entities -> escape_piece (inl a) <> inl (entity_char e).
Proof.
  intros He. unfold escape_piece, escaped. repeat case_decide; try congruence; simplify_eq;
    repeat (apply elem_of_cons in He as [-> | He]; [congruence|]); by apply elem_of_nil in He.
Qed.

Lemma escape_piece_back a :
  unescaped e_amp (unescaped e_apos (unescaped e_quot (unescaped e_gt (unescaped e_lt (escape_piece (inl a)))))) = inl a.
Proof. destruct a as [[] [] [] [] [] [] [] []]; vm_compute; reflexivity. Qed.

(** What the writers escape, the reader of a multi-status reads back: every
    text comes back from [unescapeXml] as it went into [escapeXml], whatever
    references, markup or CDATA it spells itself. *)
Theorem escaped_text_comes_back s : unescapeXml (escapeXml s) = Some s.
Proof.
  assert (Hplain : forall e, e ∈ all_entities -> (inl (entity_char e) : piece) ∉ (escape_piece <$> char_pieces s)).
  { intros e He (p & Hp & (a & -> & _)%list_elem_of_fmap)%list_elem_of_fmap. by apply (escape_piece_plain a e). }
  pose proof (Hplain e_amp ltac:(by left)) as Hamp. pose proof (Hplain e_lt ltac:(by right; left)) as Hlt.
  rewrite escape_pieces. unfold unescapeXml. rewrite no_cdata by (by apply spelled_free).
  change (nullish None ?x) with x.
  rewrite (replace_entity e_lt), (replace_entity e_gt), (replace_entity e_quot), (replace_entity e_apos);
    repeat (apply unescaped_plain; [done|]); try done.
  rewrite references_kept by (repeat (apply unescaped_plain; [done|]); done). cbn [fmap option_fmap option_map].
  f_equal. rewrite (replace_entity e_amp) by (repeat (apply unescaped_plain; [done|]); done).
  rewrite <- !list_fmap_compose. etrans; [|apply spelled_chars]. f_equal.
  unfold char_pieces. rewrite <- !list_fmap_compose. apply list_fmap_ext. intros i a _. apply escape_piece_back.
Qed.
