(* ===== verification/DavWriter.v ===== *)
(** * What the DAV writers share

    The parts of the three writers of [packages/engines/src] that are one text:
    the configuration, the row a writer inserts, one PUT and the reading of its
    answer, the environment a writer works in.  A writer is a program over the
    ledger and a [DavEnv]: the server, what the writer remembers of it, and the
    clock. *)

From S2P Require Import Prelude Prog Keys Ports Dav DavText.

Open Scope Z_scope.
#[local] Open Scope string_scope.

(** Functions of the runtime: those of [Keys], Unicode upper case, the path of a
    URL, [Number(s)] where it is an integer. *)
Record Platform := mkPlatform {
  pf_runtime : Runtime;
  pf_toUpperCase : string -> string;
  pf_url_pathname : string -> option string;
  pf_number : string -> option Z
}.

Record DavConfig := mkDavConfig {
  dc_url : string;
  dc_username : string;
  (** [Basic] and the encoded credentials. *)
  dc_authorization : string
}.

(** The getcontentlength of a response, when it is a number. *)
Definition sizeOf (pf : Platform) (responseXml : string) : option Z :=
  match firstElementText responseXml "getcontentlength" with
  | Some raw => match pf_number pf (trim raw) with
                | Some n => if decide (0 <= n)%Z then Some n else None
                | None => None
                end
  | None => None
  end.

(** What an upload came to. *)
Record Written := mkWritten {
  wr_path : string;
  wr_etag : option string;
  wr_conflicted : bool
}.

(** The row a writer inserts, besides the status and the version. *)
Definition writer_row (t : TenantId) (m : MappingId) (d : domain) (key contentHash targetId : string)
    (size : Z) (options : UpsertOptions) (st : option status) (etag : option string) (now : instant)
    : LedgerRecord :=
  {| tenantId := t; mappingId := m; itemType := d; naturalKeyHash := key; contentHash := contentHash;
     targetId := targetId; createdAt := now; sizeBytes := Some size; rstatus := st;
     collection := uo_collection options; targetVersion := etag; sourceRef := uo_sourceRef options;
     absentPasses := None; deletionReportedAt := None; deletionTrashedAt := None;
     deletionAcknowledgedAt := None; deletionAppliedAt := None; movedToCollection := None;
     movedToNaturalKeyHash := None; movedRecordedAt := None; moveAcknowledgedAt := None;
     attemptCount := None; lastError := None; sourceVersion := uo_sourceVersion options |}.

(** A row whose item is on the target. *)
Definition on_target (known : option LedgerRecord) : option LedgerRecord :=
  match known with Some r => if isOnTarget (rstatus r) then Some r else None | None => None end.

Record DavEnv (Srv Memo : Type) := mkDavEnv { de_server : Srv; de_memo : Memo; de_now : instant }.
Arguments mkDavEnv {Srv Memo} _ _ _.
Arguments de_server {Srv Memo} _.
Arguments de_memo {Srv Memo} _.
Arguments de_now {Srv Memo} _.

#[export] Instance eta_DavEnv Srv Memo : Eta (DavEnv Srv Memo) := fun e =>
  mkDavEnv (de_server e) (de_memo e) (de_now e).

Definition put_request (url authorization contentType body : string) (overwrite : bool) : Request :=
  mkRequest "PUT" url
    (("Content-Type", contentType) :: (if overwrite then [] else [create_only])
       ++ [("Authorization", authorization)])%list (Some body).

Section put.
Context {Srv : Type} `{HttpClient Srv}.
Variable cfg : DavConfig.

Abbreviation url path := (buildUrl (dc_url cfg) path).
Abbreviation auth := (dc_authorization cfg).

(** One PUT of a whole body, and what its answer means. *)
Definition put_body (path contentType body : string) (overwrite : bool) : prog Srv string Written :=
  let! response := requestWithRetry (put_request (url path) auth contentType body overwrite) in
  let status := rsp_status response in
  if (status =? 412)%Z
  then if overwrite then Throw ("PUT refused with 412 on a deliberate rewrite: " ++ path)
       else Ret (mkWritten path None false)
  else if negb ((status =? 201) || (status =? 204))%Z then Throw ("PUT failed for " ++ path)
  else Ret (mkWritten path (readEtag response) false).

(** The check before a rewrite, when a version is on record. *)
Definition rewrite_check (path : string) (overwrite : bool) (expected : option string)
    : prog Srv string OwnershipVerdict :=
  if overwrite then checkOwnership (url path) auth expected else Ret ours.
End put.

Section writer.
Context {L Srv Memo : Type} `{Ledger L} `{HttpClient Srv}.

Abbreviation W := (L * DavEnv Srv Memo)%type.
Abbreviation program := (prog W string).

Definition on_server {A} (p : prog Srv string A) : program A :=
  plift (fun w => de_server w.2) (fun s w => (w.1, w.2 <| de_server := s |>)) p.

Definition find_row (t : TenantId) (m : MappingId) (d : domain) (key : string) : program (option LedgerRecord) :=
  act (fun w => (lg_find t m d key w.1, w)).

(** [ledger.recordIfAbsent], its record dated with the time of the call. *)
Definition record_now (row : instant -> LedgerRecord) : program LedgerRecord :=
  try_act (fun w => let '(r, l) := lg_recordIfAbsent (row (de_now w.2)) w.1 in (r, (l, w.2))).
End writer.

(** ** What a writer's steps may change

    A relation on the ledger and one on the server; the writer's own memory and
    the clock are nobody's business. *)
Section frames.
Context {L Srv Memo : Type} `{LL : LedgerLaws L} `{HS : HttpServer Srv}.

Abbreviation W := (L * DavEnv Srv Memo)%type.

Definition framed (R : L -> L -> Prop) (S : Srv -> Srv -> Prop) (w w' : W) : Prop :=
  R w.1 w'.1 /\ S (de_server w.2) (de_server w'.2).

#[export] Instance framed_preorder R S : PreOrder R -> PreOrder S -> PreOrder (framed R S).
Proof.
  intros HR HS'. split; unfold framed; [intros w; split; reflexivity|].
  intros w1 w2 w3 [? ?] [? ?]; split; by etrans.
Qed.

(** A statement that inserts at most one row, under a key. *)
Definition inserts (t : TenantId) (m : MappingId) (key : string) (l l' : L) : Prop :=
  only_key t m key l l' /\ forall d k, is_Some (lg_find t m d k l) -> lg_find t m d k l' = lg_find t m d k l.

#[export] Instance inserts_preorder t m key : PreOrder (inserts t m key).
Proof.
  split; unfold inserts, only_key.
  - by intros l.
  - intros l1 l2 l3 [H1 H1'] [H2 H2']. split.
    + intros t' m' d' k' Hne. by rewrite H2, H1.
    + intros d k Hs. rewrite H2', H1'; [done..|]. by rewrite H1'.
Qed.

Lemma recordIfAbsent_inserts r l :
  inserts (tenantId r) (mappingId r) (naturalKeyHash r) l (snd (lg_recordIfAbsent r l)).
Proof.
  destruct (lg_recordIfAbsent r l) as [x l'] eqn:Hr. simpl. split.
  - by eapply law_recordIfAbsent_other.
  - intros d k Hs. by eapply law_recordIfAbsent_keep.
Qed.

(** The records a writer inserts: under one key, adopted or with the default
    status, with the version the engine handed over. *)
Record insertable (t : TenantId) (m : MappingId) (d : domain) (key : string) (options : UpsertOptions)
    (r : LedgerRecord) : Prop := {
  in_tenant : tenantId r = t;
  in_mapping : mappingId r = m;
  in_domain : itemType r = d;
  in_key : naturalKeyHash r = key;
  in_status : rstatus r = Some adopted \/ rstatus r = None;
  in_version : sourceVersion r = uo_sourceVersion options
}.

Lemma writer_row_insertable t m d key ch tid size options st etag now :
  st = Some adopted \/ st = None ->
  insertable t m d key options (writer_row t m d key ch tid size options st etag now).
Proof. intros Hst. by split. Qed.

Lemma insertable_inserts t m d key options r l :
  insertable t m d key options r -> inserts t m key l (snd (lg_recordIfAbsent r l)).
Proof. intros [<- <- _ <- _ _]. apply recordIfAbsent_inserts. Qed.

Variables (R : L -> L -> Prop) (S : Srv -> Srv -> Prop).
Context `{!PreOrder R} `{!PreOrder S}.

Lemma steps_on_server {A} (p : prog Srv string A) :
  steps_in S p -> steps_in (framed R S) (on_server p : prog W string A).
Proof. apply steps_in_plift. intros w v HS'. by split. Qed.

Lemma steps_find_row t m d key : steps_in (framed R S) (find_row t m d key : prog W string _).
Proof. by apply steps_in_act. Qed.

Lemma steps_record_now row :
  (forall now l, R l (snd (lg_recordIfAbsent (row now) l))) ->
  steps_in (framed R S) (record_now row : prog W string _).
Proof.
  intros HR. apply steps_in_try. intros w. specialize (HR (de_now w.2) w.1).
  destruct (lg_recordIfAbsent (row (de_now w.2)) w.1) as [x l]. by split.
Qed.
End frames.

Section put_steps.
Context {Srv : Type} `{HttpClient Srv}.

Lemma steps_put_body (P : Request -> Prop) cfg path ct body overwrite :
  P (put_request (buildUrl (dc_url cfg) path) (dc_authorization cfg) ct body overwrite) ->
  steps_in (performs P) (put_body cfg path ct body overwrite : prog Srv string _).
Proof.
  intros HP. apply steps_in_bind; [by apply steps_requestWithRetry|]. intros r. cbv zeta.
  repeat (case_match; try done).
Qed.

Lemma steps_rewrite_check (P : Request -> Prop) cfg path overwrite expected :
  P (head_request (buildUrl (dc_url cfg) path) (dc_authorization cfg)) ->
  steps_in (performs P) (rewrite_check cfg path overwrite expected : prog Srv string _).
Proof. intros HP. unfold rewrite_check. destruct overwrite; [by apply steps_checkOwnership|done]. Qed.
End put_steps.

#[export] Hint Resolve steps_put_body steps_rewrite_check : dav.

(** The PUT of a new item is create-only; that of a rewrite stays at its URL. *)
Lemma put_is_create {Srv} `{HS : HttpServer Srv} url auth ct body :
  is_create (put_request url auth ct body false).
Proof. split; [done|]. simpl. set_solver. Qed.

Lemma put_writes {Srv} `{HS : HttpServer Srv} url auth ct body overwrite :
  writes (resource_of url) (put_request url auth ct body overwrite).
Proof. by split. Qed.

Lemma head_is_safe url auth : is_safe (head_request url auth).
Proof. unfold is_safe, safe_methods. set_solver. Qed.
