(* ===== verification/CollectionWriter.v ===== *)
(** * The CalDAV and CardDAV target writers
    ([packages/engines/src/caldav-target-writer.ts],
    [packages/engines/src/carddav-target-writer.ts])

    The two classes are one text up to names: a [Flavour] holds what differs -
    the key and the fingerprint, the paths, the media type and the bodies of
    the queries (without their white space; the description and the colour of a
    new calendar are left out).  A writer is a program over the ledger and its
    environment [DavEnv]: the server, the clock and [collectionKeys], the
    writer's map from a collection to the promise of its listing.  A promise is
    in the map once settled; concurrent callers share one request, so asking
    for the keys is one atomic step.  Log lines are left out, and error messages
    shortened. *)

From S2P Require Import Prelude Prog Keys Ports DavCanonical Dav DavText DavWriter DomainSync.
From Stdlib Require Import Ascii.

Open Scope Z_scope.
#[local] Open Scope string_scope.

Record Flavour := mkFlavour {
  fl_itemType : domain;
  fl_keyHash : Runtime -> string -> string;
  fl_contentHash : Platform -> string -> string;
  fl_home : string;
  fl_fallback : string;
  fl_extension : string;
  fl_contentType : string;
  fl_resourceType : string;
  fl_data : string;
  fl_makeMethod : string;
  fl_makeBody : string -> string;
  fl_uidQuery : string -> string;
  fl_listQuery : string
}.

Definition xml_head : string := "<?xml version=" ++ quoted "1.0" ++ " encoding=" ++ quoted "utf-8" ++ "?>".

Definition namespaces (c : string) : string :=
  " xmlns:D=" ++ quoted "DAV:" ++ " xmlns:C=" ++ quoted ("urn:ietf:params:xml:ns:" ++ c) ++ ">".

Definition named (element name : string) : string := "<C:" ++ element ++ " name=" ++ quoted name.

Definition uid_query (query ns data component part : string) (naturalKey : string) : string :=
  xml_head ++ "<C:" ++ query ++ namespaces ns ++ "<D:prop><D:resourcetype/><C:" ++ data ++ "/></D:prop><C:filter>"
  ++ named "comp-filter" component ++ ">" ++ named "comp-filter" part ++ ">" ++ named "prop-filter" "UID" ++ ">"
  ++ "<C:text-match>" ++ escapeXml naturalKey ++ "</C:text-match>"
  ++ "</C:prop-filter></C:comp-filter></C:comp-filter></C:filter></C:" ++ query ++ ">".

Definition caldav : Flavour := {|
  fl_itemType := Calendar;
  fl_keyHash := calendarNaturalKeyHash;
  fl_contentHash := fun pf => calendarFingerprint (pf_runtime pf) (pf_toUpperCase pf);
  fl_home := "calendars/";
  fl_fallback := "calendar";
  fl_extension := ".ics";
  fl_contentType := "text/calendar";
  fl_resourceType := "calendar";
  fl_data := "calendar-data";
  fl_makeMethod := "MKCALENDAR";
  fl_makeBody := fun name => xml_head ++ "<C:mkcalendar" ++ namespaces "caldav"
    ++ "<D:set><D:prop><D:displayname>" ++ escapeXml name ++ "</D:displayname></D:prop></D:set></C:mkcalendar>";
  fl_uidQuery := uid_query "calendar-query" "caldav" "calendar-data" "VCALENDAR" "VEVENT";
  fl_listQuery := xml_head ++ "<C:calendar-query" ++ namespaces "caldav"
    ++ "<D:prop><D:getetag/><D:getcontentlength/><C:calendar-data>" ++ named "comp" "VCALENDAR" ++ ">"
    ++ named "comp" "VEVENT" ++ ">" ++ named "prop" "UID" ++ "/></C:comp></C:comp></C:calendar-data></D:prop><C:filter>"
    ++ named "comp-filter" "VCALENDAR" ++ ">" ++ named "comp-filter" "VEVENT"
    ++ "/></C:comp-filter></C:filter></C:calendar-query>" |}.

Definition carddav : Flavour := {|
  fl_itemType := Contact;
  fl_keyHash := contactNaturalKeyHash;
  fl_contentHash := fun pf => contactFingerprint (pf_runtime pf) (pf_toUpperCase pf);
  fl_home := "addressbooks/users/";
  fl_fallback := "contacts";
  fl_extension := ".vcf";
  fl_contentType := "text/vcard";
  fl_resourceType := "addressbook";
  fl_data := "address-data";
  fl_makeMethod := "MKCOL";
  fl_makeBody := fun name => xml_head ++ "<D:mkcol" ++ namespaces "carddav"
    ++ "<D:set><D:prop><D:resourcetype><D:collection/><C:addressbook/></D:resourcetype><D:displayname>"
    ++ escapeXml name ++ "</D:displayname></D:prop></D:set></D:mkcol>";
  fl_uidQuery := uid_query "addressbook-query" "carddav" "address-data" "VADDRESSBOOK" "VCARD";
  fl_listQuery := xml_head ++ "<C:addressbook-query" ++ namespaces "carddav"
    ++ "<D:prop><D:getetag/><D:getcontentlength/><C:address-data>" ++ named "prop" "UID"
    ++ "/></C:address-data></D:prop></C:addressbook-query>" |}.


(** [normalizeCalendarPath], [normalizeAddressBookPath] *)
Definition ends_with (p s : string) : bool := starts_with (String.rev p) (String.rev s).

Definition backslash : ascii := ascii_of_nat 92.

Definition forward_slashes (path : string) : string :=
  string_map (fun a => if decide (a = backslash) then slash else a) path.

Definition normalizePath (fl : Flavour) (path : string) : string :=
  let normalized := forward_slashes path in
  let normalized := if starts_with "/" normalized then normalized else "/" ++ normalized in
  let normalized := if ends_with "/" normalized then normalized else normalized ++ "/" in
  if ends_with (fl_extension fl ++ "/") normalized
  then String.substring 0 (String.length normalized - 4) normalized else normalized.

(** The text behind the first [UID:] that has any, wherever it stands. *)
Fixpoint uid_text (s : string) : option string :=
  match truthy (until_break <$> strip_lower "uid:" s) with
  | Some v => Some v
  | None => match s with String _ s' => uid_text s' | "" => None end
  end.

(** [extractUidFromIcalendar], [extractUidFromVcard] *)
Definition extractUidFrom (body : string) : option string :=
  (fun v => trim (nullish (head (split ":" v)) "")) <$> uid_text body.

(** [/<D:href>([^<]+)<\/D:href>/g]: the first match that contains the UID. *)
Fixpoint until_lt (s : string) : string * string :=
  match s with
  | String a s' => if decide (a = "<"%char) then ("", s)
                   else let '(x, r) := until_lt s' in (String a x, r)
  | "" => ("", "")
  end.

Definition literal_href (s : string) : option string :=
  match strip_prefix "<D:href>" s with
  | Some s1 => let '(x, r) := until_lt s1 in
               if starts_with "</D:href>" r then truthy (Some x) else None
  | None => None
  end.

Definition includes (sub s : string) : bool := defined (String.index 0 sub s).

Fixpoint parseMultiStatusResponse (response searchUid : string) : option string :=
  match literal_href response with
  | Some href => if includes searchUid href then Some href
                 else match response with String _ r => parseMultiStatusResponse r searchUid | "" => None end
  | None => match response with String _ r => parseMultiStatusResponse r searchUid | "" => None end
  end.

(** The listings of the collections asked for: natural key to href, or nothing
    when the collection could not be listed. *)
Abbreviation CollectionKeys := (gmap string (option (gmap string string))) (only parsing).

Section writer.
Context {L Srv : Type} `{Ledger L} `{HttpClient Srv}.
Variables (pf : Platform) (fl : Flavour) (cfg : DavConfig) (tenant : TenantId) (mapping : MappingId).

Abbreviation dav := (prog Srv string).
Abbreviation Env := (DavEnv Srv CollectionKeys).
Abbreviation program := (prog (L * Env) string).
Abbreviation rt := (pf_runtime pf).
Abbreviation url path := (buildUrl (dc_url cfg) path).
Abbreviation auth := (dc_authorization cfg).

(** ** Collections *)

Definition xml_headers : list (string * string) := [("Content-Type", "application/xml"); ("Authorization", auth)].

Definition collectionExists (path : string) : dav bool :=
  pcatch
    (let! response := send (mkRequest "PROPFIND" (url path) [("Depth", "0"); ("Authorization", auth)] None) in
     Ret ((rsp_status response =? 207) || (rsp_status response =? 200))%Z)
    (fun _ => Ret false).

Definition createCollection (path : string) (folder : Folder) : dav unit :=
  let name := nullish (truthy (fo_name folder)) (nullish (fo_path folder) "") in
  let! response := requestWithRetry
    (mkRequest (fl_makeMethod fl) (url path) xml_headers (Some (fl_makeBody fl name))) in
  if (rsp_status response =? 201)%Z then Ret tt
  else Throw (fl_makeMethod fl ++ " failed for " ++ path).

(** [ensureCalendar], [ensureContactFolder] *)
Definition ensureCollection (folder : Folder) : dav string :=
  let path := normalizePath fl (fl_home fl ++ dc_username cfg ++ "/"
                ++ collectionSlug rt (fo_name folder) (fo_path folder) (fl_fallback fl)) in
  let! exists_ := collectionExists path in
  if exists_ then Ret path else createCollection path folder ;;; Ret path.

(** ** Listing *)

(** One response of the REPORT as an entry: [None] for one without data, an
    error for one without a UID. *)
Definition entry_of (collectionPath : string) (item : MultiStatusResponse) : string + option TargetEntry :=
  match firstElementText (ms_xml item) (fl_data fl) with
  | None => inr None
  | Some data =>
      match unescapeXml data with
      | None => inl "Invalid code point"
      | Some text =>
          match extractUid text with
          | None => inl ("resource " ++ ms_href item ++ " returned no UID")
          | Some uid =>
              match decodeHref (ms_href item) with
              | inl e => inl e
              | inr href => inr (Some (mkTargetEntry uid href collectionPath None (sizeOf pf (ms_xml item))))
              end
          end
      end
  end.

Fixpoint entries_of (collectionPath : string) (items : list MultiStatusResponse) : string + list TargetEntry :=
  match items with
  | [] => inr []
  | item :: items' =>
      match entry_of collectionPath item with
      | inl e => inl e
      | inr o => match entries_of collectionPath items' with
                 | inl e => inl e
                 | inr es => inr (match o with Some e => e :: es | None => es end)
                 end
      end
  end.

(** [listEventsIn], [listContactsIn]; a caller that stops at the error uses none
    of the entries before it. *)
Definition listItemsIn (collectionPath : string) : dav (list TargetEntry) :=
  let! response := send (mkRequest "REPORT" (url collectionPath) (("Depth", "1") :: xml_headers)
                           (Some (fl_listQuery fl))) in
  if negb (rsp_status response =? 207)%Z then Throw ("REPORT failed on " ++ collectionPath)
  else match entries_of collectionPath (parseMultiStatus (rsp_body response)) with
       | inl e => Throw e
       | inr es => Ret es
       end.

Fixpoint relative_paths (hrefs : list string) : string + list string :=
  match hrefs with
  | [] => inr []
  | href :: hrefs' =>
      match hrefRelativeTo (pf_url_pathname pf) href (url ""), relative_paths hrefs' with
      | inl e, _ => inl e
      | _, inl e => inl e
      | inr o, inr ps => inr (match truthy o with Some p => normalizePath fl p :: ps | None => ps end)
      end
  end.

(** [listCalendarCollections], [listAddressBooks] *)
Definition listCollections : dav (list string) :=
  let homeSet := normalizePath fl (fl_home fl ++ dc_username cfg) in
  let! response := send (mkRequest "PROPFIND" (url homeSet) (("Depth", "1") :: xml_headers)
    (Some (xml_head ++ "<D:propfind xmlns:D=" ++ quoted "DAV:" ++ "><D:prop><D:resourcetype/></D:prop></D:propfind>"))) in
  if negb (rsp_status response =? 207)%Z then Throw ("PROPFIND failed on " ++ homeSet)
  else match relative_paths (ms_href <$> base.filter (fun r => hasResourceType (ms_xml r) (fl_resourceType fl) = true)
                                          (parseMultiStatus (rsp_body response))) with
       | inl e => Throw e
       | inr ps => Ret (base.filter (fun p => p <> homeSet) ps)
       end.

Fixpoint list_each (collections : list string) : dav (list TargetEntry) :=
  match collections with
  | [] => Ret []
  | c :: cs => let! es := listItemsIn c in let! rest := list_each cs in Ret (es ++ rest)%list
  end.

Definition dav_listEntries (mailboxId : option string) : dav (list TargetEntry) :=
  let! collections := match truthy mailboxId with
                      | Some c => Ret [c]
                      | None => listCollections
                      end in
  list_each collections.

(** The fingerprint of one sampled item. *)
Definition dav_contentHashFor (entry : TargetEntry) : dav (option string) :=
  match hrefRelativeTo (pf_url_pathname pf) (te_targetId entry) (url "") with
  | inl e => Throw e
  | inr None => Ret None
  | inr (Some relative) =>
      pcatch
        (let! response := send (mkRequest "GET" (url relative) [("Authorization", auth)] None) in
         Ret (if (rsp_status response =? 200)%Z then Some (fl_contentHash fl pf (rsp_body response)) else None))
        (fun _ => Ret None)
  end.

(** ** What is already there *)

Definition keys_map (es : list TargetEntry) : gmap string string :=
  foldl (fun m e => <[te_naturalKey e := te_targetId e]> m) ∅ es.

(** [keysIn]: the settled promise, or one listing that settles it. *)
Definition keysIn (collectionId : string) : program (option (gmap string string)) :=
  act (fun w =>
    match de_memo w.2 !! collectionId with
    | Some keys => (keys, w)
    | None =>
        let '(r, s) := run (dav_listEntries (Some collectionId)) (de_server w.2) in
        let keys := match r with inr es => Some (keys_map es) | inl _ => None end in
        (keys, (w.1, w.2 <| de_server := s |> <| de_memo ::= <[collectionId := keys]> |>))
    end).

(** [(await this.keysIn(collectionId))?.set(naturalKey, path)] *)
Definition remember (collectionId naturalKey path : string) : program unit :=
  let! keys := keysIn collectionId in
  if defined keys
  then upd (fun w => (w.1, w.2 <| de_memo ::= alter (fmap <[naturalKey := path]>) collectionId |>))
  else Ret tt.

(** [findCalendarByNaturalKey], [findContactByNaturalKey] *)
Definition findByNaturalKey (collectionId naturalKey : string) : dav (option string) :=
  let! response := send (mkRequest "REPORT" (url collectionId) xml_headers (Some (fl_uidQuery fl naturalKey))) in
  Ret (if (rsp_status response =? 207)%Z then parseMultiStatusResponse (rsp_body response) naturalKey else None).

Definition existingTargetId (collectionId naturalKey : string) : program (option string) :=
  let! keys := keysIn collectionId in
  match keys with
  | Some keys => Ret (keys !! naturalKey)
  | None => on_server (findByNaturalKey collectionId naturalKey)
  end.

(** ** Writing *)

Definition item_path (collectionId uid : string) : string := collectionId ++ uid ++ fl_extension fl.

(** [uploadEvent], [uploadContact] *)
Definition uploadItem (collectionId text uid : string) (overwrite : bool) (expectedTargetVersion : option string)
    : dav Written :=
  let path := item_path collectionId uid in
  let! verdict := rewrite_check cfg path overwrite expectedTargetVersion in
  if decide (verdict = changed) then Ret (mkWritten path None true)
  else put_body cfg path (fl_contentType fl) text overwrite.

(** [upsertCalendarEvent], [upsertContact] *)
Definition upsertItem (collectionId text : string) (options : UpsertOptions) : program UpsertResult :=
  match extractUidFrom text with
  | None => Throw "Invalid data: missing UID"
  | Some uid =>
      let key := fl_keyHash fl rt uid in
      if uo_overwrite options
      then
        let! written := on_server (uploadItem collectionId text uid true (uo_expectedTargetVersion options)) in
        if wr_conflicted written then Ret (mkUpsertResult (wr_path written) false false None true false)
        else
          remember collectionId uid (wr_path written) ;;;
          Ret (mkUpsertResult (wr_path written) false false (wr_etag written) false true)
      else
        let! known := find_row tenant mapping (fl_itemType fl) key in
        match on_target known with
        | Some row => Ret (mkUpsertResult (targetId row) false false None false false)
        | None =>
            let row := writer_row tenant mapping (fl_itemType fl) key (fl_contentHash fl pf text) in
            let size := Z.of_nat (String.length text) in
            let! existing := existingTargetId collectionId uid in
            match truthy existing with
            | Some existingId =>
                record_now (row existingId size options (Some adopted) None) ;;;
                Ret (mkUpsertResult existingId false true None false false)
            | None =>
                let! written := on_server (uploadItem collectionId text uid false None) in
                remember collectionId uid (wr_path written) ;;;
                record_now (row (wr_path written) size options None (wr_etag written)) ;;;
                Ret (mkUpsertResult (wr_path written) true false (wr_etag written) false false)
            end
        end
  end.

(** ** Removing *)
Definition dav_removeItem (targetId : string) (expectedTargetVersion : option string) : dav RemovalResult :=
  assertRemovableTargetId targetId ;;;
  removeDavResource (pf_url_pathname pf) (url targetId) auth expectedTargetVersion (Some deleted).
End writer.

(** ** What a write may change *)
Section frames.
Context {L Srv : Type} `{LL : LedgerLaws L} `{HS : HttpServer Srv}.
Variables (pf : Platform) (fl : Flavour) (cfg : DavConfig) (tenant : TenantId) (mapping : MappingId).

Abbreviation W := (L * DavEnv Srv CollectionKeys)%type.
Abbreviation url path := (buildUrl (dc_url cfg) path).
Abbreviation auth := (dc_authorization cfg).
Abbreviation safely := (performs (Srv:=Srv) is_safe).

Lemma steps_listItemsIn path : steps_in safely (listItemsIn pf fl cfg path).
Proof.
  apply steps_in_bind; [apply steps_send; unfold is_safe, safe_methods; set_solver|].
  intros r. repeat (case_match; try done).
Qed.

Lemma steps_list_each paths : steps_in safely (list_each pf fl cfg paths).
Proof.
  induction paths as [|p ps IH]; [done|]. apply steps_in_bind; [apply steps_listItemsIn|].
  intros es. by apply steps_in_bind.
Qed.

Lemma steps_listEntries mailboxId : steps_in safely (dav_listEntries pf fl cfg mailboxId).
Proof.
  apply steps_in_bind; [|intros; apply steps_list_each]. destruct (truthy mailboxId); [done|].
  apply steps_in_bind; [apply steps_send; unfold is_safe, safe_methods; set_solver|].
  intros r. repeat (case_match; try done).
Qed.

Lemma steps_findByNaturalKey cid k : steps_in safely (findByNaturalKey fl cfg cid k).
Proof. apply steps_in_bind; [apply steps_send; unfold is_safe, safe_methods; set_solver|done]. Qed.

Section upsert.
Variables (R : L -> L -> Prop) (S : Srv -> Srv -> Prop).
Context `{!PreOrder R} `{!PreOrder S}.
Hypothesis S_safe : forall s s', safely s s' -> S s s'.

Lemma steps_keysIn cid : steps_in (framed R S) (keysIn pf fl cfg cid : prog W string _).
Proof.
  apply steps_in_act. intros [l e]. simpl. destruct (de_memo e !! cid); [by split|].
  assert (HS' : S (de_server e) (snd (run (dav_listEntries pf fl cfg (Some cid)) (de_server e)))).
  { apply steps_in_run; [done|]. eapply steps_in_mono; [exact S_safe|]. apply steps_listEntries. }
  destruct (run _ _) as [r s]. by split.
Qed.

Lemma steps_remember cid k p : steps_in (framed R S) (remember pf fl cfg cid k p : prog W string _).
Proof.
  apply steps_in_bind; [apply steps_keysIn|]. intros keys. destruct (defined keys); [|done].
  apply steps_in_upd. intros w. by split.
Qed.

Lemma steps_existingTargetId cid k :
  steps_in (framed R S) (existingTargetId pf fl cfg cid k : prog W string _).
Proof.
  apply steps_in_bind; [apply steps_keysIn|]. intros [keys|]; [done|].
  apply steps_on_server; [done|]. eapply steps_in_mono; [exact S_safe|]. apply steps_findByNaturalKey.
Qed.

(** The one request of a write that is not safe. *)
Definition item_put (cid text uid : string) (overwrite : bool) : Request :=
  put_request (url (item_path fl cid uid)) auth (fl_contentType fl) text overwrite.

Lemma steps_uploadItem cid text uid overwrite expected :
  (forall s s', performs (eq (item_put cid text uid overwrite)) s s' -> S s s') ->
  steps_in S (uploadItem fl cfg cid text uid overwrite expected).
Proof.
  intros HP.
  apply (steps_in_mono (performs (fun rq => is_safe rq \/ item_put cid text uid overwrite = rq))).
  { intros s s' (rq & [Hrq|Hrq] & ->); [apply S_safe|apply HP]; by eexists. }
  apply steps_in_bind; [apply steps_rewrite_check; left; apply head_is_safe|].
  intros verdict. case_decide; [done|]. apply steps_put_body. by right.
Qed.

(** Everything an upsert does lies in a frame that admits safe requests, its
    own PUT, and the insertion of its own row. *)
Lemma steps_upsertItem cid text options :
  (forall uid s s', extractUidFrom text = Some uid ->
     performs (eq (item_put cid text uid (uo_overwrite options))) s s' -> S s s') ->
  (forall uid r l, extractUidFrom text = Some uid ->
     insertable tenant mapping (fl_itemType fl) (fl_keyHash fl (pf_runtime pf) uid) options r ->
     R l (snd (lg_recordIfAbsent r l))) ->
  steps_in (framed R S) (upsertItem pf fl cfg tenant mapping cid text options : prog W string _).
Proof.
  intros HP HR. unfold upsertItem. destruct (extractUidFrom text) as [uid|]; [|done].
  specialize (HP uid). specialize (HR uid). cbv zeta. destruct (uo_overwrite options).
  - apply steps_in_bind; [apply steps_on_server; [done|]; apply steps_uploadItem; eauto|].
    intros wr. destruct (wr_conflicted wr); [done|]. apply steps_in_bind; [apply steps_remember|done].
  - assert (Hrow : forall tid size st etag, st = Some adopted \/ st = None ->
      steps_in (framed R S) (record_now (writer_row tenant mapping (fl_itemType fl)
        (fl_keyHash fl (pf_runtime pf) uid) (fl_contentHash fl pf text) tid size options st etag) : prog W string _)).
    { intros. apply steps_record_now; [done|]. intros now l. apply HR; [done..|].
      by apply writer_row_insertable. }
    apply steps_in_bind; [by apply steps_find_row|]. intros known. destruct (on_target known); [done|].
    apply steps_in_bind; [apply steps_existingTargetId|]. intros existing. destruct (truthy existing).
    + apply steps_in_bind; [apply Hrow; by left|done].
    + apply steps_in_bind; [apply steps_on_server; [done|]; apply steps_uploadItem; eauto|].
      intros wr. apply steps_in_bind; [apply steps_remember|]. intros [].
      apply steps_in_bind; [apply Hrow; by right|done].
Qed.
End upsert.

(** Hard rule 2, for events and contacts.  An upload that is not a rewrite
    replaces nothing: each of its steps, wherever others brought the server,
    leaves every resource that is there as it is, and inserts at most one row,
    under the key of its own UID. *)
Theorem upsertItem_only_adds cid text uid options :
  uo_overwrite options = false -> extractUidFrom text = Some uid ->
  steps_in (framed (inserts tenant mapping (fl_keyHash fl (pf_runtime pf) uid)) only_adds)
    (upsertItem pf fl cfg tenant mapping cid text options : prog W string _).
Proof.
  intros Ho Huid. apply steps_upsertItem; [apply _|apply _| | |].
  - intros s s' (rq & Hrq & ->). apply create_only_adds. exists rq. split; [by left|done].
  - intros uid' s s' _ (rq & <- & ->). unfold item_put. rewrite Ho. apply create_only_adds. eexists.
    split; [right; apply put_is_create|done].
  - intros uid' r l Hu. simplify_eq. apply insertable_inserts.
Qed.
End frames.
