(* ===== verification/WebdavWriter.v ===== *)
(** * The WebDAV target writer ([packages/engines/src/webdav-target-writer.ts])

    Files are keyed by their path under the root.  What the target holds is
    learnt by one walk over its directories, shared by all uploads: a promise
    in the class, a [RootKeys] here.  Whoever awaits the walk moves it on by one
    request at a time, which gives the same interleavings; a caller does so
    [turns] times, and [WebdavWalk] says how many are enough.  A chunk size is a whole number.  Log lines are left out, and error messages
    shortened. *)

From S2P Require Import Prelude Prog Keys Ports Dav DavText DavWriter DomainSync CollectionWriter.
From stdpp Require Import pretty.
From Stdlib Require Import Ascii.

Open Scope Z_scope.
#[local] Open Scope string_scope.

(** [WebDAVTargetConfig] *)
Record WebDAVConfig := mkWebDAVConfig {
  wd_dav : DavConfig;
  wd_chunkedUploads : bool;
  wd_chunkSize : option Z
}.

Record RawFileItem := mkRawFileItem {
  rf_path : string;
  rf_mimeType : option string;
  rf_content : option string
}.

(** [normalizeRelativePath] *)
Definition normalizeRelativePath (path : string) : string :=
  drop_trailing slash (drop_leading slash (forward_slashes path)).

Record Child := mkChild { ch_path : string; ch_isDirectory : bool; ch_sizeBytes : option Z }.

(** The variables of [listEntries] and what it has yielded. *)
Record Walk := mkWalk { wk_queue : list string; wk_seen : list string; wk_entries : list TargetEntry }.

Definition walk_start (mailboxId : string) : Walk :=
  let start := normalizeRelativePath mailboxId in mkWalk [start] [start] [].

(** The body of the loop over the children of [dir]. *)
Definition walk_child (dir : string) (x : Walk) (c : Child) : Walk :=
  if ch_isDirectory c
  then if decide (ch_path c ∈ wk_seen x) then x
       else mkWalk (wk_queue x ++ [ch_path c]) (wk_seen x ++ [ch_path c]) (wk_entries x)
  else mkWalk (wk_queue x) (wk_seen x)
         (wk_entries x ++ [mkTargetEntry (ch_path c) (ch_path c) dir None (ch_sizeBytes c)]).

(** [rootKeys]: not asked for yet, on its way, or settled. *)
Inductive RootKeys := not_asked | walking (x : Walk) | settled_keys (keys : option (gmap string string)).

Record RootMemo := mkRootMemo { rm_keys : RootKeys; rm_dirs : gset string }.

#[export] Instance eta_RootMemo : Eta RootMemo := fun m => mkRootMemo (rm_keys m) (rm_dirs m).

Definition DEFAULT_CHUNK : Z := 10 * 1024 * 1024.

(** [chunkSize || default] *)
Definition chunk_size (wcfg : WebDAVConfig) : Z :=
  match wd_chunkSize wcfg with Some n => if decide (n = 0)%Z then DEFAULT_CHUNK else n | None => DEFAULT_CHUNK end.

(** [Math.ceil(length / chunkSize)] *)
Definition total_chunks (len size : Z) : Z := (- ((- len) / size))%Z.

(** [content.slice(start, end)] *)
Definition slice (content : string) (start end_ : Z) : string :=
  String.substring (Z.to_nat start) (Z.to_nat (end_ - start)) content.

Definition content_range (start end_ len : Z) : string :=
  "bytes=" ++ pretty start ++ "-" ++ pretty (end_ - 1)%Z ++ "/" ++ pretty len.

Section writer.
Context {L Srv : Type} `{Ledger L} `{HttpClient Srv}.
Variables (pf : Platform) (wcfg : WebDAVConfig) (tenant : TenantId) (mapping : MappingId) (turns : nat).

Abbreviation dav := (prog Srv string).
Abbreviation W := (L * DavEnv Srv RootMemo)%type.
Abbreviation program := (prog W string).
Abbreviation rt := (pf_runtime pf).
Abbreviation cfg := (wd_dav wcfg).
Abbreviation url path := (buildUrl (dc_url cfg) path).
Abbreviation auth := (dc_authorization cfg).

(** ** Directories *)

Definition propfind (path depth : string) (extra : list (string * string)) (body : option string) : Request :=
  mkRequest "PROPFIND" (url path) (("Depth", depth) :: extra ++ [("Authorization", auth)])%list body.

Definition directoryExists (path : string) : dav bool :=
  pcatch
    (let! response := send (propfind path "0" [] None) in
     Ret ((rsp_status response =? 207) || (rsp_status response =? 200))%Z)
    (fun _ => Ret false).

(** The answer is not looked at. *)
Definition createDirectory (path : string) : dav unit :=
  let! _ := requestWithRetry (mkRequest "MKCOL" (url path) [("Authorization", auth)] None) in Ret tt.

Definition ensureDirectory (folderPath : string) : dav string :=
  let directoryPath := normalizeRelativePath folderPath in
  if decide (directoryPath = "") then Ret ""
  else
    let! exists_ := directoryExists directoryPath in
    if exists_ then Ret directoryPath else createDirectory directoryPath ;;; Ret directoryPath.

(** ** The walk *)

Definition listing_body : string :=
  xml_head ++ "<D:propfind xmlns:D=" ++ quoted "DAV:"
    ++ "><D:prop><D:resourcetype/><D:getcontentlength/></D:prop></D:propfind>".

Fixpoint children_of (self : string) (items : list MultiStatusResponse) : string + list Child :=
  match items with
  | [] => inr []
  | item :: items' =>
      match hrefRelativeTo (pf_url_pathname pf) (ms_href item) (url ""), children_of self items' with
      | inl e, _ => inl e
      | _, inl e => inl e
      | inr None, inr cs => inr cs
      | inr (Some relative), inr cs =>
          let path := normalizeRelativePath relative in
          inr (if decide (path = self) then cs
               else mkChild path (isCollection (ms_xml item)) (sizeOf pf (ms_xml item)) :: cs)
      end
  end.

Definition propfindChildren (dir : string) : dav (list Child) :=
  let! response := send (propfind dir "1" [("Content-Type", "application/xml")] (Some listing_body)) in
  if negb (rsp_status response =? 207)%Z then Throw ("PROPFIND failed on " ++ dir)
  else match children_of (normalizeRelativePath dir) (parseMultiStatus (rsp_body response)) with
       | inl e => Throw e
       | inr cs => Ret cs
       end.

Definition note_directories (cs : list Child) (m : RootMemo) : RootMemo :=
  m <| rm_dirs ::= fun ds =>
         list_to_set (normalizeRelativePath ∘ ch_path <$> base.filter (fun c => ch_isDirectory c = true) cs) ∪ ds |>.

(** One turn of the loop of [listEntries], on a queue with [dir] in front. *)
Definition walk_turn (dir : string) (queue : list string) (x : Walk) : program Walk :=
  let! cs := on_server (propfindChildren dir) in
  upd (fun w => (w.1, w.2 <| de_memo ::= note_directories cs |>)) ;;;
  Ret (foldl (walk_child dir) (mkWalk queue (wk_seen x) (wk_entries x)) cs).

Fixpoint walk_loop (n : nat) (x : Walk) : program (list TargetEntry) :=
  match wk_queue x with
  | [] => Ret (wk_entries x)
  | dir :: queue =>
      match n with
      | O => Throw "still walking"
      | S n' => let! x := walk_turn dir queue x in walk_loop n' x
      end
  end.

(** [listEntries] *)
Definition file_listEntries (mailboxId : option string) : program (list TargetEntry) :=
  walk_loop turns (walk_start (nullish mailboxId "")).

(** Moving the shared walk on by one request; an answer once it is settled. *)
Definition settle (keys : option (gmap string string)) (w : W) : option (option (gmap string string)) * W :=
  (Some keys, (w.1, w.2 <| de_memo ::= fun m => m <| rm_keys := settled_keys keys |> |>)).

Definition advance_walk (x : Walk) (w : W) : option (option (gmap string string)) * W :=
  match wk_queue x with
  | [] => settle (Some (keys_map (wk_entries x))) w
  | dir :: queue =>
      match run (walk_turn dir queue x) w with
      | (inl _, w') => settle None w'
      | (inr x', w') => (None, (w'.1, w'.2 <| de_memo ::= fun m => m <| rm_keys := walking x' |> |>))
      end
  end.

Definition walk_step (w : W) : option (option (gmap string string)) * W :=
  match rm_keys (de_memo w.2) with
  | settled_keys keys => (Some keys, w)
  | not_asked => advance_walk (walk_start "") w
  | walking x => advance_walk x w
  end.

Fixpoint await_walk (n : nat) : program (option (gmap string string)) :=
  let! settled := act walk_step in
  match settled with
  | Some keys => Ret keys
  | None => match n with O => Throw "still walking" | S n' => await_walk n' end
  end.

Definition keysUnderRoot : program (option (gmap string string)) := await_walk turns.

(** [(await this.keysUnderRoot())?.set(path, href)] *)
Definition remember_file (naturalKey path : string) : program unit :=
  let! keys := keysUnderRoot in
  if defined keys
  then upd (fun w => (w.1, w.2 <| de_memo ::= fun m =>
         match rm_keys m with
         | settled_keys (Some keys) => m <| rm_keys := settled_keys (Some (<[normalizeRelativePath naturalKey := path]> keys)) |>
         | _ => m
         end |>))
  else Ret tt.

(** The message is what the catch block recognises. *)
Definition directory_there (filePath : string) : string :=
  "Cannot write " ++ filePath ++ ": the target already holds a DIRECTORY at that path.".

Definition findFileByNaturalKey (naturalKey : string) : dav (option string) :=
  let filePath := normalizeRelativePath naturalKey in
  pcatch
    (let! response := send (propfind filePath "0" [] None) in
     if ((rsp_status response =? 207) || (rsp_status response =? 200))%Z
     then match head (parseMultiStatus (rsp_body response)) with
          | Some item => if isCollection (ms_xml item) then Throw (directory_there filePath) else Ret (Some filePath)
          | None => Ret (Some filePath)
          end
     else Ret None)
    (fun e => if starts_with "Cannot write " e then Throw e else Ret None).

Definition existingFile (naturalKey : string) : program (option string) :=
  let! keys := keysUnderRoot in
  match keys with
  | Some keys => Ret (keys !! normalizeRelativePath naturalKey)
  | None => on_server (findFileByNaturalKey naturalKey)
  end.

(** ** Writing *)

Definition chunk_request (path content : string) (size i : Z) : Request :=
  let len := Z.of_nat (String.length content) in
  let start := (i * size)%Z in
  let end_ := (start + size) `min` len in
  mkRequest "PUT" (url path)
    [("Content-Type", "application/octet-stream"); ("Content-Range", content_range start end_ len);
     ("Authorization", auth)] (Some (slice content start end_)).

Definition upload_chunk (path content : string) (size i : Z) : dav unit :=
  let! response := requestWithRetry (chunk_request path content size i) in
  let status := rsp_status response in
  if ((status =? 200) || (status =? 201) || (status =? 204))%Z then Ret tt
  else Throw ("Chunked PUT failed for " ++ path).

Definition uploadFileChunked (path content : string) : dav string :=
  let size := chunk_size wcfg in
  pfor (upload_chunk path content size)
    (seqZ 0 (total_chunks (Z.of_nat (String.length content)) size)) ;;;
  Ret path.

Definition uses_chunks (content : string) : bool :=
  wd_chunkedUploads wcfg && bool_decide (chunk_size wcfg < Z.of_nat (String.length content))%Z.

Definition uploadFile (raw : RawFileItem) (overwrite : bool) (expectedTargetVersion : option string) : dav Written :=
  let filePath := normalizeRelativePath (rf_path raw) in
  let! verdict := rewrite_check cfg filePath overwrite expectedTargetVersion in
  if decide (verdict = changed) then Ret (mkWritten filePath None true)
  else
    match rf_content raw with
    | Some content =>
        if uses_chunks content
        then let! path := uploadFileChunked filePath content in Ret (mkWritten path None false)
        else put_body cfg filePath (nullish (truthy (rf_mimeType raw)) "application/octet-stream") content overwrite
    | None => Ret (mkWritten filePath None false)
    end.

Definition fileContentHash (content : string) : string := sha256Hex rt content.

Definition upsertFile (raw : RawFileItem) (options : UpsertOptions) : program UpsertResult :=
  let naturalKey := rf_path raw in
  let key := fileNaturalKeyHash rt naturalKey in
  if uo_overwrite options
  then
    let! written := on_server (uploadFile raw true (uo_expectedTargetVersion options)) in
    if wr_conflicted written then Ret (mkUpsertResult (wr_path written) false false None true false)
    else
      remember_file naturalKey (wr_path written) ;;;
      Ret (mkUpsertResult (wr_path written) false false (wr_etag written) false true)
  else
    let! known := find_row tenant mapping File key in
    match on_target known with
    | Some row => Ret (mkUpsertResult (targetId row) false false None false false)
    | None =>
        let content := nullish (rf_content raw) "" in
        let row := writer_row tenant mapping File key (fileContentHash content) in
        let size := Z.of_nat (String.length content) in
        keysUnderRoot ;;;
        let! occupied := act (fun w => (bool_decide (normalizeRelativePath naturalKey ∈ rm_dirs (de_memo w.2)), w)) in
        if occupied : bool then Throw (directory_there naturalKey)
        else
          let! existing := existingFile naturalKey in
          match truthy existing with
          | Some existingId =>
              record_now (row existingId size options (Some adopted) None) ;;;
              Ret (mkUpsertResult existingId false true None false false)
          | None =>
              let! written := on_server (uploadFile raw false None) in
              remember_file naturalKey (wr_path written) ;;;
              record_now (row (wr_path written) size options None (wr_etag written)) ;;;
              Ret (mkUpsertResult (wr_path written) true false (wr_etag written) false false)
          end
    end.

(** ** Reading and removing one file *)

Definition file_contentHashFor (entry : TargetEntry) : dav (option string) :=
  let filePath := normalizeRelativePath (te_naturalKey entry) in
  pcatch
    (let! response := send (mkRequest "GET" (url filePath) [("Authorization", auth)] None) in
     Ret (if negb (rsp_status response =? 200)%Z then None else fileContentHash <$> rsp_bodyBytes response))
    (fun _ => Ret None).

Definition file_removeItem (targetId : string) (expectedTargetVersion : option string) : dav RemovalResult :=
  assertRemovableTargetId targetId ;;;
  removeDavResource (pf_url_pathname pf) (url (normalizeRelativePath targetId)) auth expectedTargetVersion None.

Definition file_hasItem (targetId : string) : dav bool :=
  let! response := send (head_request (url (normalizeRelativePath targetId)) auth) in
  let status := rsp_status response in
  if ((status =? 404) || (status =? 410))%Z then Ret false
  else if successful status then Ret true
  else Throw ("The target could not say whether it still holds " ++ targetId).
End writer.

(** ** What a write may change *)
Section frames.
Context {L Srv : Type} `{LL : LedgerLaws L} `{HS : HttpServer Srv}.
Variables (pf : Platform) (wcfg : WebDAVConfig) (tenant : TenantId) (mapping : MappingId) (turns : nat).

Abbreviation W := (L * DavEnv Srv RootMemo)%type.
Abbreviation cfg := (wd_dav wcfg).
Abbreviation url path := (buildUrl (dc_url cfg) path).
Abbreviation auth := (dc_authorization cfg).
Abbreviation safely := (performs (Srv:=Srv) is_safe).

Lemma steps_propfindChildren dir : steps_in safely (propfindChildren pf wcfg dir).
Proof.
  apply steps_in_bind; [apply steps_send; unfold is_safe, safe_methods; set_solver|].
  intros r. repeat (case_match; try done).
Qed.

Lemma steps_findFileByNaturalKey k : steps_in safely (findFileByNaturalKey wcfg k).
Proof.
  apply steps_in_catch; [|intros e; by case_match].
  apply steps_in_bind; [apply steps_send; unfold is_safe, safe_methods; set_solver|].
  intros r. repeat (case_match; try done).
Qed.

Section upsert.
Variables (R : L -> L -> Prop) (S : Srv -> Srv -> Prop).
Context `{!PreOrder R} `{!PreOrder S}.
Hypothesis S_safe : forall s s', safely s s' -> S s s'.

Lemma steps_walk_turn dir queue x : steps_in (framed R S) (walk_turn pf wcfg dir queue x : prog W string _).
Proof.
  apply steps_in_bind.
  - apply steps_on_server; [done|]. eapply steps_in_mono; [exact S_safe|]. apply steps_propfindChildren.
  - intros cs. apply steps_in_bind; [apply steps_in_upd; by intros w|done].
Qed.

Lemma steps_await_walk n : steps_in (framed R S) (await_walk pf wcfg n : prog W string _).
Proof.
  assert (Hstep : forall w : W, framed R S w (snd (walk_step pf wcfg w))).
  { assert (Ha : forall x (w : W), framed R S w (snd (advance_walk pf wcfg x w))).
    { intros x w. unfold advance_walk. destruct (wk_queue x) as [|dir queue]; [by split|].
      pose proof (steps_in_run _ _ w (steps_walk_turn dir queue x)) as Hr.
      destruct (run _ w) as [[e|x'] w']; destruct Hr; by split. }
    intros w. unfold walk_step. by destruct (rm_keys _). }
  induction n as [|n IH]; (apply steps_in_bind; [by apply steps_in_act|intros [keys|]; done]).
Qed.

Lemma steps_remember_file k p : steps_in (framed R S) (remember_file pf wcfg turns k p : prog W string _).
Proof.
  apply steps_in_bind; [apply steps_await_walk|]. intros keys. destruct (defined keys); [|done].
  apply steps_in_upd. by intros w.
Qed.

Lemma steps_existingFile k : steps_in (framed R S) (existingFile pf wcfg turns k : prog W string _).
Proof.
  apply steps_in_bind; [apply steps_await_walk|]. intros [keys|]; [done|].
  apply steps_on_server; [done|]. eapply steps_in_mono; [exact S_safe|]. apply steps_findFileByNaturalKey.
Qed.

(** The requests of an upload that are not safe: one PUT, or one per chunk. *)
Definition file_write (raw : RawFileItem) (overwrite : bool) (rq : Request) : Prop :=
  exists content, rf_content raw = Some content /\
  let path := normalizeRelativePath (rf_path raw) in
  if uses_chunks wcfg content
  then exists i, rq = chunk_request wcfg path content (chunk_size wcfg) i
  else rq = put_request (url path) auth (nullish (truthy (rf_mimeType raw)) "application/octet-stream")
              content overwrite.

Lemma steps_uploadFile raw overwrite expected :
  (forall s s', performs (file_write raw overwrite) s s' -> S s s') ->
  steps_in S (uploadFile wcfg raw overwrite expected).
Proof.
  intros HP. apply (steps_in_mono (performs (fun rq => is_safe rq \/ file_write raw overwrite rq))).
  { intros s s' (rq & [Hrq|Hrq] & ->); [apply S_safe|apply HP]; by eexists. }
  apply steps_in_bind; [apply steps_rewrite_check; left; apply head_is_safe|].
  intros verdict. case_decide; [done|]. destruct (rf_content raw) as [content|] eqn:Hc; [|done].
  destruct (uses_chunks wcfg content) eqn:Hu.
  - apply steps_in_bind; [|done]. apply steps_in_bind; [|done].
    induction (seqZ _ _) as [|i l IH]; [done|]. apply steps_in_bind; [|done].
    apply steps_in_bind; [|intros r; cbv zeta; by case_match].
    apply steps_requestWithRetry. right. exists content. split; [done|]. cbv zeta. rewrite Hu. by exists i.
  - apply steps_put_body. right. exists content. split; [done|]. cbv zeta. by rewrite Hu.
Qed.

Lemma steps_upsertFile raw options :
  (forall s s', performs (file_write raw (uo_overwrite options)) s s' -> S s s') ->
  (forall r l,
     insertable tenant mapping File (fileNaturalKeyHash (pf_runtime pf) (rf_path raw)) options r ->
     R l (snd (lg_recordIfAbsent r l))) ->
  steps_in (framed R S) (upsertFile pf wcfg tenant mapping turns raw options : prog W string _).
Proof.
  intros HP HR. unfold upsertFile. cbv zeta. destruct (uo_overwrite options).
  - apply steps_in_bind; [apply steps_on_server; [done|]; by apply steps_uploadFile|].
    intros wr. destruct (wr_conflicted wr); [done|]. apply steps_in_bind; [apply steps_remember_file|done].
  - assert (Hrow : forall ch tid size st etag, st = Some adopted \/ st = None ->
      steps_in (framed R S) (record_now (writer_row tenant mapping File
        (fileNaturalKeyHash (pf_runtime pf) (rf_path raw)) ch tid size options st etag) : prog W string _)).
    { intros. apply steps_record_now; [done|]. intros now l. apply HR.
      by apply writer_row_insertable. }
    apply steps_in_bind; [by apply steps_find_row|]. intros known. destruct (on_target known); [done|].
    apply steps_in_bind; [apply steps_await_walk|]. intros _.
    apply steps_in_bind; [by apply steps_in_act|]. intros occupied. destruct occupied; [done|].
    apply steps_in_bind; [apply steps_existingFile|]. intros existing. destruct (truthy existing).
    + apply steps_in_bind; [apply Hrow; by left|done].
    + apply steps_in_bind; [apply steps_on_server; [done|]; by apply steps_uploadFile|].
      intros wr. apply steps_in_bind; [apply steps_remember_file|]. intros [].
      apply steps_in_bind; [apply Hrow; by right|done].
Qed.
End upsert.

(** Hard rule 2, for files.  An upload that is not a rewrite - whatever the
    snapshot says, wherever others brought the server - replaces nothing: each
    of its steps leaves every resource that is there as it is, and inserts at
    most one row, under its own key.  Uploads in chunks are excepted: they send
    no precondition. *)
Theorem upsertFile_only_adds raw options :
  uo_overwrite options = false -> (forall content, rf_content raw = Some content -> uses_chunks wcfg content = false) ->
  steps_in (framed (inserts tenant mapping (fileNaturalKeyHash (pf_runtime pf) (rf_path raw))) only_adds)
    (upsertFile pf wcfg tenant mapping turns raw options : prog W string _).
Proof.
  intros Ho Hc. apply steps_upsertFile; [apply _|apply _| | |].
  - intros s s' (rq & Hrq & ->). apply create_only_adds. exists rq. split; [by left|done].
  - intros s s' (rq & (content & Hraw & Hrq) & ->). cbv zeta in Hrq. rewrite (Hc _ Hraw), Ho in Hrq. rewrite Hrq.
    apply create_only_adds. eexists. split; [right; apply put_is_create|done].
  - intros r l. apply insertable_inserts.
Qed.
End frames.

(** ** A write the server refuses *)
Section refused.
Context {L Srv : Type} `{Ledger L} `{HttpClient Srv}.
Variables (pf : Platform) (wcfg : WebDAVConfig) (tenant : TenantId) (mapping : MappingId) (turns : nat).

Abbreviation W := (L * DavEnv Srv RootMemo)%type.
Abbreviation cfg := (wd_dav wcfg).

Definition file_put (path : string) (raw : RawFileItem) (content : string) : Request :=
  put_request (buildUrl (dc_url cfg) path) (dc_authorization cfg)
    (nullish (truthy (rf_mimeType raw)) "application/octet-stream") content false.

Lemma await_settled keys n (w : W) :
  rm_keys (de_memo w.2) = settled_keys keys -> run (await_walk pf wcfg n : prog W string _) w = (inr keys, w).
Proof. intros Hk. destruct n; cbn [await_walk]; rewrite run_bind; simpl; unfold walk_step; by rewrite Hk. Qed.

Lemma run_remember_file k p keys (w : W) :
  rm_keys (de_memo w.2) = settled_keys (Some keys) ->
  exists m, run (remember_file pf wcfg turns k p) w = (inr tt, (w.1, w.2 <| de_memo := m |>)).
Proof.
  intros Hk. unfold remember_file, keysUnderRoot. rewrite run_bind, (await_settled (Some keys)) by done.
  cbn [defined run upd]. by eexists.
Qed.

Lemma run_record_now row (w : W) :
  run (record_now row) w = let '(r, l) := lg_recordIfAbsent (row (de_now w.2)) w.1 in (r, (l, w.2)).
Proof.
  unfold record_now, try_act. cbn [run]. destruct (lg_recordIfAbsent _ _) as [[x|r] l]; done.
Qed.

Lemma put_refused path ct content s answer s' :
  request (put_request (buildUrl (dc_url cfg) path) (dc_authorization cfg) ct content false) s = (inr answer, s') ->
  rsp_status answer = 412 ->
  run (put_body cfg path ct content false) s = (inr (mkWritten path None false), s').
Proof.
  intros Hr Ha. unfold put_body, requestWithRetry, requestWithDavRetry, send. rewrite run_bind, run_bind. simpl.
  rewrite Hr. simpl. unfold isTransientDavStatus. rewrite Ha. simpl. by rewrite Ha.
Qed.

(** A write the server refuses is counted as a creation.  When the snapshot
    has no file at a path and the create-only PUT is answered 412 - somebody
    else's file is there - the upload reports a file created, and records one
    of ours: copied, with the fingerprint of bytes that were never written and
    no version to notice later that they are not. *)
Theorem refused_write_counts_as_created raw content options keys l e answer s' :
  let path := normalizeRelativePath (rf_path raw) in
  let key := fileNaturalKeyHash (pf_runtime pf) (rf_path raw) in
  uo_overwrite options = false -> rf_content raw = Some content -> uses_chunks wcfg content = false ->
  lg_find tenant mapping File key l = None ->
  rm_keys (de_memo e) = settled_keys (Some keys) -> keys !! path = None -> path ∉ rm_dirs (de_memo e) ->
  request (file_put path raw content) (de_server e) = (inr answer, s') -> rsp_status answer = 412 ->
  let row := writer_row tenant mapping File key (fileContentHash pf content) path
               (Z.of_nat (String.length content)) options None None (de_now e) in
  exists e', de_server e' = s' /\
    run (upsertFile pf wcfg tenant mapping turns raw options) (l, e) =
      match lg_recordIfAbsent row l with
      | (inr _, l') => (inr (mkUpsertResult path true false None false false), (l', e'))
      | (inl x, l') => (inl x, (l', e'))
      end.
Proof.
  intros path key Ho Hraw Hch Hfind Hkeys Hnone Hdir Hreq Hst row.
  unfold upsertFile. cbv zeta. rewrite Ho. unfold find_row, act. rewrite run_bind. cbn [run fst snd].
  fold key. rewrite Hfind. cbn [on_target].
  rewrite run_bind. unfold keysUnderRoot. rewrite (await_settled (Some keys)) by done.
  rewrite run_bind. cbn [act run fst snd]. fold path. rewrite bool_decide_eq_false_2 by done.
  rewrite run_bind. unfold existingFile, keysUnderRoot. rewrite run_bind, (await_settled (Some keys)) by done.
  fold path. rewrite Hnone. cbn [run truthy].
  rewrite run_bind. unfold on_server. rewrite run_plift; [|done|done|by intros [? []]].
  unfold uploadFile, rewrite_check. cbn [run pbind]. rewrite decide_False by done. rewrite Hraw, Hch.
  fold path. cbn [snd de_server]. rewrite (put_refused _ _ _ _ _ _ Hreq Hst).
  cbn [run pbind fst snd wr_path wr_etag nullish]. rewrite run_bind.
  destruct (run_remember_file (rf_path raw) path keys (l, e <| de_server := s' |>)) as [m ->]; [done|].
  rewrite run_bind, run_record_now. exists (e <| de_server := s' |> <| de_memo := m |>). split; [done|].
  cbn [fst snd]. unfold row. destruct (lg_recordIfAbsent _ _) as [[x|r] l']; done.
Qed.
End refused.
