(* ===== verification/WebdavWalk.v ===== *)
(** * The walk that finds what the target holds

    [keysUnderRoot] of [packages/engines/src/webdav-target-writer.ts]: one walk,
    shared by all uploads, over a tree that may grow meanwhile.  It ends within
    as many requests as there can be directories, it finds every file that was
    there from the start, and an upload of such a file adopts it. *)

From S2P Require Import Prelude Prog Keys Ports Dav DavText DavWriter DomainSync CollectionWriter WebdavWriter.

Open Scope Z_scope.
#[local] Open Scope string_scope.

(** ** One turn of the loop *)

Definition child_found (x : Walk) (c : Child) : Prop :=
  if ch_isDirectory c then ch_path c ∈ wk_seen x
  else exists e, e ∈ wk_entries x /\ te_naturalKey e = ch_path c.

(** From [x] to [x'] by looking at directories of [P]. *)
Record grows (P : string -> Prop) (x x' : Walk) : Prop := {
  gr_seen d : d ∈ wk_seen x -> d ∈ wk_seen x';
  gr_queue d : d ∈ wk_queue x -> d ∈ wk_queue x';
  gr_entries e : e ∈ wk_entries x -> e ∈ wk_entries x';
  gr_new d : d ∈ wk_seen x' -> d ∈ wk_seen x \/ d ∈ wk_queue x' /\ P d;
  gr_queued d : d ∈ wk_queue x' -> d ∈ wk_queue x \/ d ∈ wk_seen x';
  gr_nodup : NoDup (wk_seen x) -> NoDup (wk_seen x');
  gr_count : (length (wk_queue x') + length (wk_seen x) = length (wk_queue x) + length (wk_seen x'))%nat;
  gr_targets : (forall e, e ∈ wk_entries x -> te_targetId e = te_naturalKey e) ->
    forall e, e ∈ wk_entries x' -> te_targetId e = te_naturalKey e
}.

#[export] Instance grows_preorder P : PreOrder (grows P).
Proof.
  split.
  - intros x. split; auto.
  - intros x y z H1 H2. split; intros; try (by apply H2, H1).
    + apply (gr_new _ _ _ H2) in H as [Hd|?]; [|by right].
      apply (gr_new _ _ _ H1) in Hd as [?|[? ?]]; [by left|right; split; [by apply H2|done]].
    + apply (gr_queued _ _ _ H2) in H as [Hd|?]; [|by right].
      apply (gr_queued _ _ _ H1) in Hd as [?|?]; [by left|right; by apply H2].
    + pose proof (gr_count _ _ _ H1). pose proof (gr_count _ _ _ H2). lia.
    + by apply (gr_targets _ _ _ H2); [apply (gr_targets _ _ _ H1)|].
Qed.

Lemma child_found_grows P x x' c : grows P x x' -> child_found x c -> child_found x' c.
Proof.
  intros Hg. unfold child_found. destruct (ch_isDirectory c); [apply Hg|].
  intros (e & He & Hk). exists e. split; [by apply Hg|done].
Qed.

Lemma walk_child_grows (P : string -> Prop) dir x c :
  (ch_isDirectory c = true -> P (ch_path c)) ->
  grows P x (walk_child dir x c) /\ child_found (walk_child dir x c) c.
Proof.
  intros HP. unfold walk_child, child_found. destruct (ch_isDirectory c); [case_decide as Hs|].
  - by split.
  - split; [|simpl; set_solver]. split; simpl; intros; try set_solver.
    + apply NoDup_app. split_and!; [done|set_solver|apply NoDup_singleton].
    + rewrite !length_app. simpl. lia.
  - split; [|simpl; eexists; split; [apply elem_of_app; right; apply list_elem_of_here|done]].
    split; simpl; intros; try set_solver.
Qed.

Lemma walk_children_grow (P : string -> Prop) dir cs x :
  (forall c, c ∈ cs -> ch_isDirectory c = true -> P (ch_path c)) ->
  grows P x (foldl (walk_child dir) x cs) /\ forall c, c ∈ cs -> child_found (foldl (walk_child dir) x cs) c.
Proof.
  revert x; induction cs as [|c cs IH]; intros x HP; simpl; [by split; [|intros c ?%elem_of_nil]|].
  destruct (walk_child_grows P dir x c) as [Hg Hc]; [apply HP, list_elem_of_here|].
  destruct (IH (walk_child dir x c)) as [Hgs Hcs]; [intros c' Hc'; apply HP; by apply list_elem_of_further|].
  split; [by etrans|]. intros c' [-> | Hc']%elem_of_cons; [by eapply child_found_grows|by apply Hcs].
Qed.

(** What the map of a walk's entries holds. *)
Lemma keys_map_lookup es k :
  (forall e, e ∈ es -> te_targetId e = te_naturalKey e) ->
  (exists e, e ∈ es /\ te_naturalKey e = k) -> keys_map es !! k = Some k.
Proof.
  intros Ht He. unfold keys_map. generalize (∅ : gmap string string). revert Ht He.
  assert (Hkeep : forall (es : list TargetEntry) (m : gmap string string), m !! k = Some k ->
    (forall e, e ∈ es -> te_targetId e = te_naturalKey e) ->
    foldl (fun m e => <[te_naturalKey e := te_targetId e]> m) m es !! k = Some k).
  { clear es. induction es as [|e es IH]; intros m Hm Ht; simpl; [done|]. apply IH; [|set_solver].
    destruct (decide (te_naturalKey e = k)) as [<-|Hne]; [rewrite lookup_insert_eq; f_equal; set_solver|].
    by rewrite lookup_insert_ne. }
  induction es as [|e es IH]; intros Ht (e' & He' & Hk) m; simpl; [by apply elem_of_nil in He'|].
  apply elem_of_cons in He' as [<-|He']; [|apply IH; [set_solver|by exists e']].
  apply Hkeep; [|set_solver]. rewrite Hk, lookup_insert_eq. f_equal. rewrite <- Hk. apply Ht. set_solver.
Qed.

Section walk.
Context {L Srv : Type} `{LL : LedgerLaws L} `{HS : HttpServer Srv}.
Variables (pf : Platform) (wcfg : WebDAVConfig) (tenant : TenantId) (mapping : MappingId) (turns : nat).

Abbreviation W := (L * DavEnv Srv RootMemo)%type.
Abbreviation server w := (de_server w.2).
Abbreviation memo w := (de_memo w.2).

(** While the server is [Quiet] - whatever else happens to it - every directory
    of [dirs] can be listed, no other directory turns up, and what the [tree]
    has is there. *)
Variables (Quiet : Srv -> Prop) (dirs : gset string) (tree : string -> Child -> Prop).

Record walkable : Prop := {
  wa_root : "" ∈ dirs;
  wa_normal d : d ∈ dirs -> normalizeRelativePath d = d;
  wa_list dir s : dir ∈ dirs -> Quiet s ->
    match run (propfindChildren pf wcfg dir) s with
    | (inr cs, s') => Quiet s' /\ (forall c, tree dir c -> c ∈ cs) /\
                      (forall c, c ∈ cs -> ch_isDirectory c = true -> ch_path c ∈ dirs)
    | (inl _, _) => False
    end
}.

Inductive reachable : string -> Prop :=
| reachable_root : reachable ""
| reachable_child d c : reachable d -> tree d c -> ch_isDirectory c = true -> reachable (ch_path c).

Record walk_ok (x : Walk) : Prop := {
  wo_root : "" ∈ wk_seen x;
  wo_dirs d : d ∈ wk_seen x -> d ∈ dirs;
  wo_queue d : d ∈ wk_queue x -> d ∈ wk_seen x;
  wo_nodup : NoDup (wk_seen x);
  wo_done d c : d ∈ wk_seen x -> d ∉ wk_queue x -> tree d c -> child_found x c;
  wo_targets e : e ∈ wk_entries x -> te_targetId e = te_naturalKey e
}.

(** The keys of every file there was. *)
Definition complete (keys : gmap string string) : Prop :=
  forall d c, reachable d -> tree d c -> ch_isDirectory c = false -> keys !! ch_path c = Some (ch_path c).

(** Requests still to come. *)
Definition walk_rank (x : Walk) : nat := length (wk_queue x) + (size dirs - length (wk_seen x)).

Definition memo_rank (m : RootMemo) : nat :=
  match rm_keys m with not_asked => size dirs | walking x => walk_rank x | settled_keys _ => 0 end.

Definition memo_ok (m : RootMemo) : Prop :=
  match rm_keys m with
  | not_asked => True
  | walking x => walk_ok x
  | settled_keys (Some keys) => complete keys
  | settled_keys None => False
  end /\ rm_dirs m ⊆ dirs.

Hypothesis WA : walkable.

Lemma walk_start_ok : walk_ok (walk_start "") /\ (walk_rank (walk_start "") <= size dirs)%nat.
Proof.
  change (walk_start "") with (mkWalk [""] [""] []). split.
  - split; simpl; try set_solver.
    + intros d ->%list_elem_of_singleton. apply (wa_root WA).
    + apply NoDup_singleton.
  - unfold walk_rank. simpl. assert (size dirs <> 0)%nat; [|lia].
    apply size_non_empty_iff. pose proof (wa_root WA). set_solver.
Qed.

Lemma seen_at_most x : walk_ok x -> (length (wk_seen x) <= size dirs)%nat.
Proof.
  intros Hx. rewrite <- (size_list_to_set (C:=gset string) _ (wo_nodup _ Hx)).
  apply subseteq_size. intros d Hd%elem_of_list_to_set. by apply Hx.
Qed.

Lemma walk_done x : walk_ok x -> wk_queue x = [] -> complete (keys_map (wk_entries x)).
Proof.
  intros Hx Hq d c Hd Hc Hf.
  assert (Hseen : d ∈ wk_seen x).
  { clear c Hc Hf. induction Hd as [|d c Hd IH Hc Hdir]; [apply Hx|].
    assert (Hfound : child_found x c) by (apply (wo_done _ Hx d c); [done|by rewrite Hq; apply not_elem_of_nil|done]).
    unfold child_found in Hfound. by rewrite Hdir in Hfound. }
  assert (Hfound : child_found x c) by (apply (wo_done _ Hx d c); [done|by rewrite Hq; apply not_elem_of_nil|done]).
  unfold child_found in Hfound. rewrite Hf in Hfound. apply keys_map_lookup; [apply Hx|done].
Qed.

Lemma walk_next x dir queue cs :
  walk_ok x -> wk_queue x = dir :: queue -> (forall c, tree dir c -> c ∈ cs) ->
  (forall c, c ∈ cs -> ch_isDirectory c = true -> ch_path c ∈ dirs) ->
  let x' := foldl (walk_child dir) (mkWalk queue (wk_seen x) (wk_entries x)) cs in
  walk_ok x' /\ walk_rank x = S (walk_rank x').
Proof.
  intros Hx Hq Htree Hdirs x'.
  destruct (walk_children_grow (fun d => d ∈ dirs) dir cs (mkWalk queue (wk_seen x) (wk_entries x))) as [Hg Hcs]; [done|].
  fold x' in Hg, Hcs. destruct Hg as [Hs Hqq He Hnew Hqd Hnd Hcount Ht]. simpl in *.
  assert (Hok : walk_ok x').
  { split.
    - apply Hs, Hx.
    - intros d [?|[_ ?]]%Hnew; [by apply Hx|done].
    - intros d [?|?]%Hqd; [|done]. apply Hs, Hx. rewrite Hq. by apply list_elem_of_further.
    - apply Hnd, Hx.
    - intros d c [Hd|[Hd _]]%Hnew Hnq Hc; [|done]. destruct (decide (d = dir)) as [->|Hne]; [by apply Hcs, Htree|].
      assert (Hf : child_found x c).
      { apply (wo_done _ Hx d c); [done| |done]. rewrite Hq. intros [?|?]%elem_of_cons; [done|]. by apply Hnq, Hqq. }
      unfold child_found in *. destruct (ch_isDirectory c); [by apply Hs|].
      destruct Hf as (e & Hf & Hk). exists e. split; [by apply He|done].
    - apply Ht, Hx. }
  split; [done|]. pose proof (seen_at_most _ Hok). pose proof (seen_at_most _ Hx). unfold walk_rank. rewrite Hq. simpl. lia.
Qed.

(** ** The shared walk *)

Definition in_order (w : W) : Prop := Quiet (server w) /\ memo_ok (memo w).

(** What the others may do, and what an upload does until it writes. *)
Definition advances (w w' : W) : Prop :=
  in_order w -> in_order w' /\ (memo_rank (memo w') <= memo_rank (memo w))%nat.

Definition unwritten (w w' : W) : Prop := forall u, stored u (server w') = stored u (server w).

#[export] Instance advances_preorder : PreOrder advances.
Proof.
  split; [by intros w|]. intros w1 w2 w3 H1 H2 Hw. destruct (H1 Hw) as [Hw2 ?]. destruct (H2 Hw2). split; [done|lia].
Qed.

Lemma walk_turn_run dir queue x (w : W) r w' :
  walk_ok x -> wk_queue x = dir :: queue -> in_order w -> run (walk_turn pf wcfg dir queue x) w = (r, w') ->
  exists x', r = inr x' /\ walk_ok x' /\ walk_rank x = S (walk_rank x') /\
    Quiet (server w') /\ unwritten w w' /\ w'.1 = w.1 /\
    rm_keys (memo w') = rm_keys (memo w) /\ rm_dirs (memo w') ⊆ dirs.
Proof.
  intros Hx Hq [Hw [_ Hd]]. unfold walk_turn, on_server.
  rewrite run_bind, run_plift; [|done|done|by intros [? []]].
  pose proof (wa_list WA dir (server w)) as Hl.
  pose proof (steps_in_run (leaves (fun _ => True)) _ (server w)
    (steps_in_mono _ _ _ (safe_leaves (fun _ => True)) (steps_propfindChildren pf wcfg dir))) as Hs.
  destruct (run (propfindChildren pf wcfg dir) (server w)) as [[e|cs] s].
  { destruct Hl; [|done]. apply (wo_dirs _ Hx), (wo_queue _ Hx). rewrite Hq. apply list_elem_of_here. }
  destruct Hl as (Hqs & Htree & Hdirs); [|done|].
  { apply (wo_dirs _ Hx), (wo_queue _ Hx). rewrite Hq. apply list_elem_of_here. }
  intros [= <- <-]. eexists. split; [done|].
  destruct (walk_next x dir queue cs Hx Hq Htree Hdirs) as [Hok Hrank].
  split_and!; [done..|by intros u; apply Hs|done|done|]. simpl.
  apply union_least; [|done]. intros d Hd'. apply elem_of_list_to_set, list_elem_of_fmap in Hd' as (c & -> & Hc).
  apply list_elem_of_filter in Hc as [Hdir Hc]. unfold compose. rewrite (wa_normal WA); by apply Hdirs.
Qed.

Lemma advance_walk_spec x (w : W) o w' :
  walk_ok x -> in_order w -> advance_walk pf wcfg x w = (o, w') ->
  in_order w' /\ unwritten w w' /\ w'.1 = w.1 /\
  match o with
  | Some keys => exists m, keys = Some m /\ complete m
  | None => (memo_rank (memo w') < walk_rank x)%nat
  end /\ (memo_rank (memo w') <= walk_rank x)%nat.
Proof.
  intros Hx Hw. unfold advance_walk. destruct (wk_queue x) as [|dir queue] eqn:Hq.
  - intros [= <- <-]. pose proof (walk_done x Hx Hq) as Hc. split_and!; try done.
    + split; [apply Hw|]. split; [done|apply Hw].
    + by eexists.
    + unfold memo_rank. simpl. lia.
  - destruct (run _ w) as [r w1] eqn:Hr.
    destruct (walk_turn_run dir queue x w r w1 Hx Hq Hw Hr) as (x' & -> & Hx' & Hrank & Hquiet & Hu & Hl & _ & Hd).
    intros [= <- <-]. unfold memo_rank. simpl. split_and!; [by split|done|done|lia|lia].
Qed.

Lemma walk_step_spec (w : W) o w' :
  in_order w -> walk_step pf wcfg w = (o, w') ->
  in_order w' /\ unwritten w w' /\ w'.1 = w.1 /\ (memo_rank (memo w') <= memo_rank (memo w))%nat /\
  match o with
  | Some keys => exists m, keys = Some m /\ complete m
  | None => (memo_rank (memo w') < memo_rank (memo w))%nat
  end.
Proof.
  intros Hw. pose proof Hw as [_ [Hk _]]. unfold walk_step. unfold memo_rank at 2 4.
  destruct (rm_keys (memo w)) as [|x|keys] eqn:Hkeys.
  - destruct walk_start_ok as [Hok Hrank]. intros Hs.
    destruct (advance_walk_spec _ w o w' Hok Hw Hs) as (Hw' & Hu & Hl & Ho & Hr).
    split_and!; [done..|lia|]. destruct o; [done|lia].
  - intros Hs. destruct (advance_walk_spec _ w o w' Hk Hw Hs) as (Hw' & Hu & Hl & Ho & Hr).
    by split_and!.
  - intros [= <- <-]. destruct keys as [keys|]; [|done]. split_and!; try done.
    + unfold memo_rank. by rewrite Hkeys.
    + by exists keys.
Qed.

(** The step of an upload until it writes. *)
Definition looks (w w' : W) : Prop := advances w w' /\ unwritten w w'.

#[export] Instance looks_preorder : PreOrder looks.
Proof.
  split; [intros w; split; [reflexivity|done]|]. intros w1 w2 w3 [Ha1 Hu1] [Ha2 Hu2].
  split; [by etrans|]. intros u. by rewrite Hu2, Hu1.
Qed.

(** An upload among others, run alone. *)
Lemma rg_alone {A} (p : prog W string A) Q X (w : W) :
  rg advances looks p Q X w ->
  match run p w with (inr a, w') => Q a w' /\ looks w w' | (inl e, w') => X e w' /\ looks w w' end.
Proof. intros Hp. apply rg_run; [apply _|]. eapply rg_less_interference; [|exact Hp]. by intros w1 w2 <-. Qed.

Lemma await_walk_rg n (w : W) :
  in_order w -> (memo_rank (memo w) <= n)%nat ->
  rg advances looks (await_walk pf wcfg n : prog W string _)
    (fun keys w' => in_order w' /\ (memo_rank (memo w') <= memo_rank (memo w))%nat /\ exists m, keys = Some m /\ complete m)
    (fun _ _ => False) w.
Proof.
  revert w; induction n as [|n IH]; intros w Hw Hrank; cbn [await_walk]; (apply rg_bind; [apply _|]);
    apply rg_act; intros w1 o w2 Ha Hstep; (destruct (Ha Hw) as [Hw1 Hr1]);
    destruct (walk_step_spec w1 o w2 Hw1 Hstep) as (Hw2 & Hu & _ & Hr2 & Ho);
    (split; [split; [intros _; by split|done]|]); intros w3 Ha3; (destruct (Ha3 Hw2) as [Hw3 Hr3]);
    destruct o as [keys|]; try lia.
  - intros w4 Ha4. destruct (Ha4 Hw3) as [Hw4 Hr4]. split_and!; [done|lia|done].
  - intros w4 Ha4. destruct (Ha4 Hw3) as [Hw4 Hr4]. split_and!; [done|lia|done].
  - eapply rg_mono; [apply IH; [done|lia]| |done]. intros keys w4 (Hw4 & Hr4 & Hk). split_and!; [done|lia|done].
Qed.

(** A step that leaves the server and the memory alone. *)
Lemma looks_local (w w' : W) : server w' = server w -> memo w' = memo w -> looks w w'.
Proof.
  intros Hs Hm. split; [|intros u; by rewrite Hs]. intros [Hq Hk]. unfold in_order. rewrite Hs, Hm. done.
Qed.

(** ** What there was is adopted *)
Section adoption.
Variables (raw : RawFileItem) (options : UpsertOptions) (d : string) (c : Child).
Hypothesis Hreach : reachable d.
Hypothesis Hchild : tree d c.
Hypothesis Hfile : ch_isDirectory c = false.
Hypothesis Hpath : normalizeRelativePath (rf_path raw) = ch_path c.

Definition ready (w : W) : Prop := in_order w /\ (memo_rank (memo w) <= turns)%nat.

Lemma ready_advances (w w' : W) : ready w -> advances w w' -> ready w'.
Proof. intros [Hw Hr] Ha. destruct (Ha Hw). split; [done|lia]. Qed.

Lemma keysUnderRoot_rg (w : W) :
  ready w -> rg advances looks (keysUnderRoot pf wcfg turns : prog W string _)
    (fun keys w' => ready w' /\ exists m, keys = Some m /\ complete m) (fun _ _ => False) w.
Proof.
  intros [Hw Hr]. eapply rg_mono; [by apply await_walk_rg| |done].
  intros keys w' (Hw' & Hr' & Hk). split; [split; [done|lia]|done].
Qed.

Lemma existingFile_rg (w : W) :
  ready w -> rg advances looks (existingFile pf wcfg turns (rf_path raw) : prog W string _)
    (fun found _ => found = Some (ch_path c)) (fun _ _ => False) w.
Proof.
  intros Hw. apply rg_bind; [apply _|]. eapply rg_mono; [by apply keysUnderRoot_rg| |done].
  intros keys w' (_ & m & -> & Hm) w'' _. rewrite Hpath. by eapply Hm.
Qed.

(** An error of the ledger. *)
Definition ledger_failed (e : string) : Prop := exists (r : LedgerRecord) (l l' : L), lg_recordIfAbsent r l = (inl e, l').

Lemma record_now_rg row (Q : LedgerRecord -> W -> Prop) (w : W) :
  (forall r w', Q r w') -> rg advances looks (record_now row : prog W string _) Q (fun e _ => ledger_failed e) w.
Proof.
  intros HQ. apply rg_try. intros w1 r w2 _ Hf. destruct (lg_recordIfAbsent (row (de_now w1.2)) w1.1) as [x l] eqn:Hr.
  injection Hf as <- <-. split; [by apply looks_local|]. intros w3 _. destruct x; [by eexists _, _, _|done].
Qed.

Lemma found_file_adopted (w : W) :
  ch_path c ∉ dirs -> ch_path c <> "" -> uo_overwrite options = false -> ready w ->
  rg advances looks (upsertFile pf wcfg tenant mapping turns raw options : prog W string _)
    (fun r _ => ur_created r = false /\ ur_updated r = false) (fun e _ => ledger_failed e) w.
Proof.
  intros Hnd Hne Ho Hw. unfold upsertFile. cbv zeta. rewrite Ho.
  apply rg_bind; [apply _|]. apply rg_act. intros w1 known w2 Hw1 [= <- <-]. split; [by apply looks_local|].
  intros w3 Hw3. assert (Hr3 : ready w3) by (eapply ready_advances; [eapply ready_advances; eassumption|exact Hw3]).
  destruct (on_target _) as [r|]; [by intros w4 _|].
  apply rg_bind; [apply _|]. eapply rg_mono; [by apply keysUnderRoot_rg| |by intros e w' []]. intros keys w4 [Hr4 _].
  apply rg_bind; [apply _|]. apply rg_act. intros w5 occupied w6 Hw5 [= <- <-]. split; [by apply looks_local|].
  intros w7 Hw7. assert (Hr5 : ready w5) by (eapply ready_advances; eassumption).
  assert (Hr7 : ready w7) by (eapply ready_advances; eassumption).
  rewrite bool_decide_eq_false_2; [|rewrite Hpath; intros Hin; apply Hnd; by apply Hr5].
  apply rg_bind; [apply _|]. eapply rg_mono; [by apply existingFile_rg| |by intros e w' []]. intros found w8 ->.
  unfold truthy. rewrite decide_False by done.
  apply rg_bind; [apply _|]. apply record_now_rg. intros r w9 w10 _. done.
Qed.
End adoption.

(** C33: the walk ends, and finds what there was.  Let every directory of a
    finite set be listable, no other turn up, and the tree be there whatever
    happens to the server meanwhile.  Then as many turns as there are
    directories are enough for [keysUnderRoot]; it says nothing to the server
    that writes, and the keys it answers - to whichever of the uploads that
    share the walk - have every file of the tree under its path. *)
Theorem walk_finds_everything (w : W) :
  rm_keys (memo w) = not_asked -> rm_dirs (memo w) ⊆ dirs -> Quiet (server w) -> (size dirs <= turns)%nat ->
  rg advances looks (keysUnderRoot pf wcfg turns : prog W string _)
    (fun keys _ => exists m, keys = Some m /\
       forall d c, reachable d -> tree d c -> ch_isDirectory c = false -> m !! ch_path c = Some (ch_path c))
    (fun _ _ => False) w.
Proof.
  intros Hk Hd Hq Hn. eapply rg_mono; [apply keysUnderRoot_rg| |done].
  - unfold ready, in_order, memo_ok, memo_rank. by rewrite Hk.
  - by intros keys w' [_ Hm].
Qed.

(** What there was is adopted.  While the walk finds what it may find, the
    upload of a file of the tree - not a rewrite, and no matter what others
    upload meanwhile - ends: it creates nothing, updates nothing, and never
    says anything to the server that writes; only the ledger can make it fail. *)
Theorem held_file_is_adopted raw options d c (w : W) :
  reachable d -> tree d c -> ch_isDirectory c = false -> normalizeRelativePath (rf_path raw) = ch_path c ->
  ch_path c ∉ dirs -> ch_path c <> "" -> uo_overwrite options = false ->
  in_order w -> (memo_rank (memo w) <= turns)%nat ->
  rg advances looks (upsertFile pf wcfg tenant mapping turns raw options : prog W string _)
    (fun r _ => ur_created r = false /\ ur_updated r = false) (fun e _ => ledger_failed e) w.
Proof. intros. by eapply found_file_adopted. Qed.
End walk.
