(* ===== verification/SampleServer.v ===== *)
(** * A small DAV server

    One that keeps the rules of [HttpServer]: resources and their versions, and
    collections.  The theorems are about any such server; this one is run on
    concrete requests, to show what they say and that their hypotheses can
    hold. *)

From stdpp Require Import pretty.
From S2P Require Import Prelude Keys DavCanonical Dav DavText DavWriter.
From Stdlib Require Import Ascii.

Open Scope Z_scope.
#[local] Open Scope string_scope.

Record Site := mkSite {
  st_files : gmap string (string * Z);
  st_collections : gset string;
  st_clock : Z;
  (** That many requests are still answered "busy". *)
  st_busy : nat
}.

#[export] Instance eta_Site : Eta Site := fun s => mkSite (st_files s) (st_collections s) (st_clock s) (st_busy s).

Definition origin : string := "https://dav.example".

Fixpoint before_hash (url : string) : string :=
  match url with
  | String a u => if decide (a = "#"%char) then "" else String a (before_hash u)
  | "" => ""
  end.

Definition member_of (c u : string) : option string := strip_prefix (drop_trailing slash c ++ "/") u.

(** Directly in it, not further down. *)
Definition child_of (c u : string) : bool :=
  match member_of c u with
  | Some name => negb (String.eqb name "") && bool_decide (split slash name = [name])
  | None => false
  end.

Definition etag_of (version : Z) : string := quoted ("v" ++ pretty version).

Definition answer (status : Z) (body : string) (headers : list (string * string)) : string + Response :=
  inr (mkResponse status body headers (Some body)).

Definition element (name body : string) : string := "<d:" ++ name ++ ">" ++ body ++ "</d:" ++ name ++ ">".

(** One resource and one collection in a multi-status. *)
Definition file_response (u body : string) : string :=
  element "response" (element "href" u ++ element "propstat" (element "prop"
    ("<d:resourcetype/>" ++ element "getcontentlength" (pretty (Z.of_nat (String.length body)))
      ++ element "calendar-data" (escapeXml body) ++ element "address-data" (escapeXml body)))).

Definition collection_response (u : string) : string :=
  element "response" (element "href" u ++ element "propstat" (element "prop"
    (element "resourcetype" "<d:collection/>"))).

Definition joined (xs : list string) : string := foldr String.append "" xs.

Definition listing (c : string) (s : Site) : string :=
  element "multistatus" (collection_response c
    ++ joined (collection_response <$> base.filter (fun d => child_of c d = true) (elements (st_collections s)))
    ++ joined ((fun x => file_response x.1 x.2.1) <$>
                 base.filter (fun x => child_of c x.1 = true) (map_to_list (st_files s)))).

Definition get (u : string) (s : Site) : string + Response :=
  match st_files s !! u with
  | Some (body, v) => answer 200 body [("ETag", etag_of v)]
  | None => answer 404 "" []
  end.

Definition find (c : string) (s : Site) : string + Response :=
  match st_files s !! c with
  | Some (body, _) => answer 207 (element "multistatus" (file_response c body)) []
  | None => if decide (drop_trailing slash c ∈ st_collections s) then answer 207 (listing c s) [] else answer 404 "" []
  end.

Definition put (u body : string) (s : Site) : (string + Response) * Site :=
  (answer (if defined (st_files s !! u) then 204 else 201) "" [("ETag", etag_of (st_clock s))],
   s <| st_files ::= <[u := (body, st_clock s)]> |> <| st_clock ::= Z.succ |>).

Definition make (c : string) (s : Site) : (string + Response) * Site :=
  if decide (drop_trailing slash c ∈ st_collections s) then (answer 405 "" [], s)
  else (answer 201 "" [], s <| st_collections ::= union {[ drop_trailing slash c ]} |>).

Definition at_or_below_b (u v : string) : bool := String.eqb u v || defined (member_of u v).

Definition delete (u : string) (s : Site) : (string + Response) * Site :=
  (answer (if defined (st_files s !! u) then 204 else 404) "" [],
   s <| st_files ::= base.filter (fun x => at_or_below_b u x.1 = false) |>).

Definition serve (rq : Request) (s : Site) : (string + Response) * Site :=
  let u := before_hash (rq_url rq) in
  match st_busy s with
  | S n => (answer 503 "busy" [], s <| st_busy := n |>)
  | O =>
      match rq_method rq with
      | "HEAD" | "GET" => (get u s, s)
      | "PROPFIND" | "REPORT" => (find u s, s)
      | "MKCOL" | "MKCALENDAR" => make u s
      | "DELETE" => delete u s
      | "PUT" =>
          if decide (create_only ∈ rq_headers rq /\ is_Some (st_files s !! u)) then (answer 412 "" [], s)
          else put u (nullish (rq_body rq) "") s
      | _ => (answer 405 "" [], s)
      end
  end.

#[export] Instance site_client : HttpClient Site := serve.

Lemma before_hash_fragment url fragment : before_hash (url ++ "#" ++ fragment) = before_hash url.
Proof. induction url as [|a u IH]; [done|]. simpl. case_decide; [done|]. by f_equal. Qed.

Lemma at_or_below_bool u v : at_or_below_b u v = true -> at_or_below u v.
Proof.
  unfold at_or_below_b, member_of. intros [H|H]%orb_prop; [left; by apply String.eqb_eq|right].
  destruct (strip_prefix _ v) as [x|] eqn:Hx; [|done]. exists x.
  rewrite (strip_prefix_Some _ _ _ Hx). by rewrite string_app_assoc.
Qed.

Ltac served s :=
  unfold request, site_client, serve; cbv zeta; destruct (st_busy s); [|done].

(** The server keeps the rules. *)
#[export] Program Instance site_server : HttpServer Site := {|
  resource_of := before_hash;
  stored := fun u s => fst <$> st_files s !! u
|}.
Next Obligation. apply before_hash_fragment. Qed.
Next Obligation.
  intros rq s u Hm. served s. unfold safe_methods in Hm.
  repeat (apply elem_of_cons in Hm as [-> | Hm]; [done|]). by apply elem_of_nil in Hm.
Qed.
Next Obligation.
  intros rq s u Hm Hu. served s. rewrite Hm. case_decide; [done|]. unfold put. cbn [snd]. f_equal.
  by apply (lookup_insert_ne (st_files s)).
Qed.
Next Obligation.
  intros rq s Hm Hc Hs. served s. rewrite Hm, decide_True; [done|]. split; [done|].
  by apply fmap_is_Some in Hs.
Qed.
Next Obligation.
  intros rq s u Hm _. served s. unfold make_methods in Hm.
  repeat (apply elem_of_cons in Hm as [-> | Hm]; [unfold make; by case_decide|]). by apply elem_of_nil in Hm.
Qed.
Next Obligation.
  intros rq s u Hm Hu. served s. rewrite Hm. unfold delete. cbn [snd]. f_equal. apply option_eq. intros x.
  etrans; [exact (map_lookup_filter_Some _ (st_files s) u x)|]. split; [by intros [? _]|]. intros Hx. split; [done|].
  apply not_true_is_false. intros Hb. by apply Hu, at_or_below_bool.
Qed.
