(* ===== verification/MessageId.v ===== *)
(** * Message-IDs ([packages/shared/src/generated-message-id.ts])

    A message is its bytes.  One without a Message-ID is given one made of the
    digest of its bytes, written into it as its first header line, so that
    whoever reads the copy back finds the key the ledger has.  The header
    section is decoded as latin1, one character to a byte. *)

From S2P Require Import Prelude Keys DavCanonical Dav DavText.
From Stdlib Require Import Ascii.

#[local] Open Scope string_scope.

Definition GENERATED_MESSAGE_ID_DOMAIN : string := "generated.openmigrate.invalid".

(** [findHeaderEnd]: the text in front of the first blank line. *)
Fixpoint header_section (s : string) : string :=
  match s with
  | String a s' =>
      if defined (strip_prefix (String cr (String lf (String cr (String lf "")))) s)
         || defined (strip_prefix (String lf (String lf "")) s)
      then "" else String a (header_section s')
  | "" => ""
  end.

Fixpoint latin1 (s : string) : string :=
  match s with String a s' => code_point (N_of_ascii a) ++ latin1 s' | "" => "" end.

Definition decodeHeaderSection (rfc822 : string) : string := latin1 (header_section rfc822).

Definition blank_char (a : ascii) : bool := bool_decide (a = " "%char \/ a = tab).

Definition starts_blank (s : string) : bool := match s with String a _ => blank_char a | "" => false end.

(** [.replace(/\r?\n[ \t]+/g, ' ')]; [skipping] the blanks of a fold. *)
Fixpoint unfold_header (skipping : bool) (s : string) : string :=
  match s with
  | String a s' =>
      if skipping && blank_char a then unfold_header true s'
      else if decide (a = lf) then
        if starts_blank s' then String " " (unfold_header true s') else String a (unfold_header false s')
      else match s' with
           | String b s'' =>
               if decide (a = cr /\ b = lf) then
                 if starts_blank s'' then String " " (unfold_header true s'')
                 else String a (unfold_header false s')
               else String a (unfold_header false s')
           | "" => String a ""
           end
  | "" => ""
  end.

(** [[ \t]*:], what follows it. *)
Fixpoint after_blanks_colon (s : string) : option string :=
  match s with
  | String a s' => if blank_char a then after_blanks_colon s' else if decide (a = ":"%char) then Some s' else None
  | "" => None
  end.

(** A match of the line at the start of [s]: the name, blanks, a colon, the rest. *)
Definition message_id_line (s : string) : option string :=
  match strip_lower "message-id" s with Some s' => rest_of_line <$> after_blanks_colon s' | None => None end.

Definition ends_line (a : ascii) : bool := bool_decide (a = lf \/ a = cr).

(** The first line that matches. *)
Fixpoint find_message_id (at_start : bool) (s : string) : option string :=
  match s with
  | String a s' =>
      match (if at_start then message_id_line s else None) with
      | Some v => Some v
      | None => find_message_id (ends_line a) s'
      end
  | "" => None
  end.

Definition readMessageId (rfc822 : string) : option string :=
  truthy (trim <$> find_message_id true (unfold_header false (decodeHeaderSection rfc822))).

Section generated.
Variable rt : Runtime.

Definition generateMessageId (rfc822 : string) : string :=
  "<" ++ sha256Hex rt rfc822 ++ "@" ++ GENERATED_MESSAGE_ID_DOMAIN ++ ">".

(** The character before the first line feed is a carriage return, or there is
    no line feed. *)
Fixpoint usesCrLf_after (before : bool) (s : string) : bool :=
  match s with
  | String a s' => if decide (a = lf) then before else usesCrLf_after (bool_decide (a = cr)) s'
  | "" => true
  end.

Definition usesCrLf (rfc822 : string) : bool := usesCrLf_after false rfc822.

Definition prependHeader (rfc822 headerLine : string) : string :=
  headerLine ++ (if usesCrLf rfc822 then String cr (String lf rfc822) else String lf rfc822).

Record EnsuredMessageId := mkEnsuredMessageId { en_rfc822 : string; en_messageId : string; en_generated : bool }.

Definition ensureMessageId (rfc822 : string) : EnsuredMessageId :=
  match readMessageId rfc822 with
  | Some existing => mkEnsuredMessageId rfc822 existing false
  | None =>
      let messageId := generateMessageId rfc822 in
      mkEnsuredMessageId (prependHeader rfc822 ("Message-ID: " ++ messageId)) messageId true
  end.
End generated.

Fixpoint includes_text (p s : string) : bool :=
  starts_with p s || match s with String _ s' => includes_text p s' | "" => false end.

Definition isGeneratedMessageId (messageId : string) : bool :=
  includes_text ("@" ++ GENERATED_MESSAGE_ID_DOMAIN) messageId.

Definition crlf_lines (ls : list string) : string := foldr (fun l s => l ++ String cr (String lf s)) "" ls.

Example reads_folded :
  readMessageId (crlf_lines ["Subject: x"; "message-ID :"; " <a@b>  "; ""; "Message-ID: <body@b>"]) = Some "<a@b>" /\
  readMessageId (crlf_lines ["Subject: x"; "Message-ID: "; ""; "Message-ID: <body@b>"]) = None.
Proof. by vm_compute. Qed.

(** ** A generated id is read back *)

Fixpoint all_chars (p : ascii -> bool) (s : string) : bool :=
  match s with String a s' => p a && all_chars p s' | "" => true end.

Lemma all_chars_app p s t : all_chars p (s ++ t) = all_chars p s && all_chars p t.
Proof. induction s as [|a s IH]; [done|]. rewrite string_app_cons. cbn [all_chars]. by rewrite IH, andb_assoc. Qed.

(** ASCII within a line. *)
Definition plain_char (a : ascii) : bool := (N_of_ascii a <? 128)%N && negb (ends_line a).

Definition plain (s : string) : bool := all_chars plain_char s.

(** The hexadecimal digits of a digest. *)
Definition hex_digit (a : ascii) : bool := defined (hex a).

Lemma hex_plain a : hex_digit a = true -> plain_char a = true.
Proof. destruct a as [[] [] [] [] [] [] [] []]; vm_compute; done. Qed.

Lemma all_chars_mono (p q : ascii -> bool) s :
  (forall a, p a = true -> q a = true) -> all_chars p s = true -> all_chars q s = true.
Proof. intros Hpq. induction s as [|a s IH]; [done|]. cbn. intros [Ha Hs]%andb_prop. by rewrite Hpq, IH. Qed.

Lemma plain_no_break a : plain_char a = true -> a <> cr /\ a <> lf.
Proof. destruct a as [[] [] [] [] [] [] [] []]; vm_compute; intros; try done; by split. Qed.

Lemma header_section_plain t r : plain t = true -> header_section (t ++ r) = t ++ header_section r.
Proof.
  induction t as [|a t IH]; [done|]. intros [Ha Ht]%andb_prop. apply plain_no_break in Ha as [Hcr Hlf].
  rewrite !string_app_cons. cbn [header_section strip_prefix]. rewrite !decide_False by congruence.
  cbn. by rewrite IH.
Qed.

Lemma latin1_plain t r : plain t = true -> latin1 (t ++ r) = t ++ latin1 r.
Proof.
  induction t as [|a t IH]; [done|]. intros [Ha Ht]%andb_prop. rewrite !string_app_cons. cbn [latin1].
  unfold plain_char in Ha. apply andb_prop in Ha as [Ha _]. unfold code_point. rewrite Ha. rewrite IH by done.
  unfold bytes. cbn. by rewrite ascii_N_embedding.
Qed.

Lemma unfold_header_plain t r : plain t = true -> unfold_header false (t ++ r) = t ++ unfold_header false r.
Proof.
  induction t as [|a t IH]; [done|]. intros [Ha Ht]%andb_prop. apply plain_no_break in Ha as [Hcr Hlf].
  rewrite !string_app_cons. cbn [unfold_header andb]. rewrite decide_False by done. rewrite IH by done.
  destruct (t ++ r) as [|b x] eqn:Hx; [|by rewrite decide_False by tauto].
  destruct t, r; done.
Qed.

(** Nothing, or the end of a line. *)
Definition opens_line (s : string) : bool := match s with String a _ => ends_line a | "" => true end.

Lemma starts_blank_latin1 s : starts_blank s = false -> starts_blank (latin1 (header_section s)) = false.
Proof.
  destruct s as [|a s]; [done|]. intros Ha. cbn [header_section]. destruct (_ || _); [done|]. cbn [latin1].
  revert Ha. destruct a as [[] [] [] [] [] [] [] []]; vm_compute; done.
Qed.

Definition eol_of (crlf : bool) (raw : string) : string :=
  if crlf then String cr (String lf raw) else String lf raw.

Lemma opens_after_eol crlf raw :
  starts_blank raw = false -> opens_line (unfold_header false (latin1 (header_section (eol_of crlf raw)))) = true.
Proof.
  intros Hb%starts_blank_latin1. unfold eol_of.
  assert (Hlf : forall r, latin1 (String lf r) = String lf (latin1 r)) by done.
  assert (Hcr : forall r, latin1 (String cr r) = String cr (latin1 r)) by done.
  destruct crlf; cbn [header_section].
  - destruct (_ || _); [done|]. destruct (_ || _); [done|]. rewrite Hcr, Hlf. cbn [unfold_header andb].
    rewrite (decide_False (P := cr = lf)) by done. rewrite decide_True by done. by rewrite Hb.
  - destruct (_ || _); [done|]. rewrite Hlf. cbn [unfold_header andb]. rewrite decide_True by done. by rewrite Hb.
Qed.

Lemma rest_of_line_plain t r : plain t = true -> opens_line r = true -> rest_of_line (t ++ r) = t.
Proof.
  intros Ht Hr. induction t as [|a t IH].
  - destruct r as [|b r]; [done|]. apply bool_decide_eq_true in Hr.
    assert (Hn : terminator_length (String b r) = 1%nat).
    { destruct Hr as [-> | ->]; unfold terminator_length; change (strip_any line_terminators _) with (Some r);
        cbn [String.length]; lia. }
    change ("" ++ String b r) with (String b r). cbn [rest_of_line]. by rewrite Hn.
  - apply andb_prop in Ht as [Ha Ht]. rewrite string_app_cons. cbn [rest_of_line]. rewrite IH by done.
    assert (Hn : terminator_length (String a (t ++ r)) = 0%nat); [|by rewrite Hn].
    revert Ha. destruct a as [[] [] [] [] [] [] [] []]; vm_compute; done.
Qed.

Lemma rev_app_app s t u : String.rev_app (s ++ t) u = String.rev_app t (String.rev_app s u).
Proof. revert u; induction s as [|a s IH]; intros u; [done|]. rewrite string_app_cons. apply IH. Qed.

Lemma rev_app_rev_app s u v : String.rev_app (String.rev_app s u) v = String.rev_app u (s ++ v).
Proof. revert u; induction s as [|a s IH]; intros u; [done|]. rewrite string_app_cons. apply IH. Qed.

Lemma rev_involutive s : String.rev (String.rev s) = s.
Proof. unfold String.rev. rewrite rev_app_rev_app. apply string_app_nil_r. Qed.

(** A text in angle brackets has nothing to trim. *)
Definition bracketed (m : string) : string := "<" ++ m ++ ">".

Lemma plain_bracketed p m : plain p = true -> plain m = true -> plain (p ++ bracketed m) = true.
Proof. unfold plain, bracketed. intros Hp Hm. by rewrite !all_chars_app, Hp, Hm. Qed.

Lemma strip_any_none_many n ps s : strip_any ps s = None -> strip_many n ps s = s.
Proof. destruct n; cbn; [done|]. by intros ->. Qed.

Lemma trim_bracketed m : trim (bracketed m) = bracketed m /\ trim (" " ++ bracketed m) = bracketed m.
Proof.
  assert (Hrev : String.rev (bracketed m) = String ">" (String.rev ("<" ++ m))).
  { unfold bracketed. rewrite <- string_app_assoc. unfold String.rev. by rewrite rev_app_app. }
  assert (Hend : trimEnd (bracketed m) = bracketed m).
  { unfold trimEnd. rewrite Hrev, strip_any_none_many by done. rewrite <- Hrev. apply rev_involutive. }
  assert (Hstart : forall n, strip_many n js_spaces (bracketed m) = bracketed m) by (intros n; by apply strip_any_none_many).
  split; unfold trim, trimStart; [by rewrite Hstart|].
  change (" " ++ bracketed m) with (String " " (bracketed m)). cbn [String.length strip_many].
  change (strip_any js_spaces (String " " (bracketed m))) with (Some (bracketed m)). cbn iota. by rewrite Hstart.
Qed.

Lemma find_message_id_first m y :
  plain m = true -> opens_line y = true ->
  find_message_id true ("Message-ID: " ++ bracketed m ++ y) = Some (" " ++ bracketed m).
Proof.
  intros Hm Hy. assert (Hl : plain (" " ++ bracketed m) = true) by (by apply plain_bracketed).
  change ("Message-ID: " ++ bracketed m ++ y) with ("Message-ID:" ++ (" " ++ bracketed m) ++ y).
  pose proof (rest_of_line_plain _ _ Hl Hy) as Hr. set (z := (" " ++ bracketed m) ++ y) in *.
  assert (Hmatch : message_id_line ("Message-ID:" ++ z) = Some (" " ++ bracketed m)) by (rewrite <- Hr; done).
  change ("Message-ID:" ++ z) with (String "M" ("essage-ID:" ++ z)) in *. cbn [find_message_id].
  by rewrite Hmatch.
Qed.

Lemma readMessageId_prepended m raw :
  plain m = true -> starts_blank raw = false ->
  readMessageId (prependHeader raw ("Message-ID: " ++ bracketed m)) = Some (bracketed m).
Proof.
  intros Hm Hb. unfold readMessageId, decodeHeaderSection, prependHeader.
  change (if usesCrLf raw then _ else _) with (eol_of (usesCrLf raw) raw).
  assert (Hl : plain ("Message-ID: " ++ bracketed m) = true) by (by apply plain_bracketed).
  rewrite header_section_plain, latin1_plain, unfold_header_plain by done.
  rewrite string_app_assoc, find_message_id_first by (try done; by apply opens_after_eol).
  cbn [fmap option_fmap option_map]. rewrite (proj2 (trim_bracketed m)). done.
Qed.

(** A digest is hexadecimal. *)
Definition hex_digests (rt : Runtime) : Prop := forall x, all_chars hex_digit (sha256Hex rt x) = true.

Definition generated_part (rt : Runtime) (raw : string) : string := sha256Hex rt raw ++ "@" ++ GENERATED_MESSAGE_ID_DOMAIN.

Lemma generated_bracketed rt raw : generateMessageId rt raw = bracketed (generated_part rt raw).
Proof. unfold generateMessageId, bracketed, generated_part. by rewrite !string_app_assoc. Qed.

Lemma generated_plain rt raw : hex_digests rt -> plain (generated_part rt raw) = true.
Proof.
  intros Hd. unfold plain, generated_part. rewrite all_chars_app.
  by rewrite (all_chars_mono hex_digit plain_char) by (apply hex_plain || apply Hd).
Qed.

(** C24: a generated Message-ID is read back.  Whatever the message - its header
    folded, its lines ended by LF or CRLF, without any header or any line - the
    copy [ensureMessageId] makes of one that has no id yields the very id the
    ledger is keyed by, the rest of it is the message byte for byte, and a
    second call changes nothing.  Only a message that begins with a blank is
    excepted: the blank would continue the new header. *)
Theorem ensured_id_is_read_back rt raw :
  hex_digests rt -> starts_blank raw = false ->
  let e := ensureMessageId rt raw in
  readMessageId (en_rfc822 e) = Some (en_messageId e) /\
  (exists header, en_rfc822 e = header ++ raw) /\
  ensureMessageId rt (en_rfc822 e) = mkEnsuredMessageId (en_rfc822 e) (en_messageId e) false.
Proof.
  intros Hd Hb. unfold ensureMessageId at 1. destruct (readMessageId raw) as [id|] eqn:Hr.
  - cbn zeta. cbn [en_rfc822 en_messageId]. split; [done|]. split; [by exists ""|].
    unfold ensureMessageId. by rewrite Hr.
  - cbn zeta. cbn [en_rfc822 en_messageId]. rewrite generated_bracketed.
    pose proof (readMessageId_prepended _ raw (generated_plain rt raw Hd) Hb) as Hread.
    split; [exact Hread|]. split; [|unfold ensureMessageId; by rewrite Hread].
    unfold prependHeader. destruct (usesCrLf raw).
    + exists (("Message-ID: " ++ bracketed (generated_part rt raw)) ++ String cr (String lf "")). by rewrite !string_app_assoc.
    + exists (("Message-ID: " ++ bracketed (generated_part rt raw)) ++ String lf ""). by rewrite !string_app_assoc.
Qed.

Definition sample_digest : Runtime := mkRuntime (fun _ => "00ff") (fun s => s).

Lemma ensured_id_is_read_back_witness :
  let e := ensureMessageId sample_digest (crlf_lines ["Subject: x"; ""; "Hello"]) in
  en_messageId e = "<00ff@generated.openmigrate.invalid>" /\ readMessageId (en_rfc822 e) = Some (en_messageId e).
Proof.
  split; [vm_compute; reflexivity|].
  exact (proj1 (ensured_id_is_read_back sample_digest (crlf_lines ["Subject: x"; ""; "Hello"])
    (fun _ => eq_refl) eq_refl)).
Defined.

(** The exception: the header's value runs on into the message. *)
Example leading_blank_continues_the_id :
  let e := ensureMessageId sample_digest (" oddly" ++ String cr (String lf "Subject: x")) in
  readMessageId (en_rfc822 e) = Some (en_messageId e ++ " oddly").
Proof. by vm_compute. Qed.
