(* ===== verification/ImapText.v ===== *)
(** * IMAP conventions ([packages/connectors/src/imap-conventions.ts])

    Cursors, flags, special-use attributes, and the two readings of a
    Message-ID.  A message is its bytes; [Buffer.toString('utf-8')] is written
    out.  Numbers are whole. *)

From stdpp Require Import pretty.
From S2P Require Import Prelude Keys DavCanonical Dav DavText MessageId.
From Stdlib Require Import Ascii.

Open Scope Z_scope.
#[local] Open Scope string_scope.

(** The types of [packages/shared/src/mail.ts] *)
Inductive SpecialUse := su_inbox | su_sent | su_drafts | su_archive | su_junk | su_trash | su_normal.

Inductive MailKeyword := kw_seen | kw_flagged | kw_draft | kw_answered.

Record MailFolder := mkMailFolder {
  mf_path : string;
  mf_name : option string;
  mf_specialUse : SpecialUse;
  mf_listAttributes : option (list string)
}.

Record MailItem := mkMailItem {
  mi_messageId : string;
  mi_folder : MailFolder;
  mi_keywords : list MailKeyword;
  mi_receivedAt : string;
  mi_size : option Z;
  mi_sourceRef : string
}.

Record RawMessage := mkRawMessage { rm_item : MailItem; rm_rfc822 : string }.

#[export] Instance SpecialUse_eq_dec : EqDecision SpecialUse.
Proof. solve_decision. Defined.

#[export] Instance MailKeyword_eq_dec : EqDecision MailKeyword.
Proof. solve_decision. Defined.

(** ** Numbers *)

Fixpoint read_digits (some : bool) (acc : Z) (s : string) : option Z :=
  match s with
  | String a s' =>
      match digit a with
      | Some d => read_digits true (10 * acc + Z.of_N d) s'
      | None => if some then Some acc else None
      end
  | "" => if some then Some acc else None
  end.

(** [parseInt(s, 10)], [None] for [NaN]. *)
Definition parseInt (s : string) : option Z :=
  match trimStart s with
  | String "-"%char s' => Z.opp <$> read_digits false 0 s'
  | String "+"%char s' => read_digits false 0 s'
  | s => read_digits false 0 s
  end.

(** ** Cursors *)

Definition colon : ascii := ":"%char.

Definition encodeImapCursor (uidValidity uidNext : Z) : string := pretty uidValidity ++ ":" ++ pretty uidNext.

(** [None] where the code throws. *)
Definition decodeImapCursor (cursor : string) : option (Z * Z) :=
  match split colon cursor with
  | [p0; p1] => match parseInt p0, parseInt p1 with Some v, Some n => Some (v, n) | _, _ => None end
  | _ => None
  end.

(** The UID of a [sourceRef], behind its last colon. *)
Definition uidFromSourceRef (sourceRef : string) : Z :=
  let part := nullish (truthy (list.last (split colon sourceRef))) "0" in
  nullish (parseInt part) 0.

(** ** Flags and attributes *)

Definition backslashed (s : string) : string := String (ascii_of_nat 92) s.

Definition KEYWORD_TO_FLAG (k : MailKeyword) : string :=
  backslashed (match k with
               | kw_seen => "Seen" | kw_flagged => "Flagged" | kw_draft => "Draft" | kw_answered => "Answered"
               end).

Definition keyword_of (flag : string) : option MailKeyword :=
  let lower := lower flag in
  if decide (lower = backslashed "seen") then Some kw_seen
  else if decide (lower = backslashed "flagged") then Some kw_flagged
  else if decide (lower = backslashed "draft") then Some kw_draft
  else if decide (lower = backslashed "answered") then Some kw_answered
  else None.

Definition mapImapFlagsToKeywords (flags : list string) : list MailKeyword := omap keyword_of flags.

Definition special_use_of (attr : string) : option SpecialUse :=
  let lower := lower attr in
  if decide (lower = backslashed "inbox") then Some su_inbox
  else if decide (lower = backslashed "sent") then Some su_sent
  else if decide (lower = backslashed "drafts") then Some su_drafts
  else if decide (lower = backslashed "archive") then Some su_archive
  else if decide (lower = backslashed "junk" \/ lower = backslashed "spam") then Some su_junk
  else if decide (lower = backslashed "trash" \/ lower = backslashed "deleted") then Some su_trash
  else None.

Definition mapImapSpecialUse (attributes : list string) : SpecialUse :=
  nullish (head (omap special_use_of attributes)) su_normal.

(** ** Message-IDs *)

(** [None] for [null]. *)
Definition messageIdFromEnvelopeValue (raw : option string) : option string :=
  match truthy raw with
  | Some raw => Some (if starts_with "<" raw && starts_with ">" (String.rev raw) then raw else "<" ++ raw ++ ">")
  | None => None
  end.

(** U+FFFD *)
Definition replacement : string := bytes [239; 191; 189]%N.

(** [Buffer.toString('utf-8')]: what is no UTF-8 is replaced, one character for
    every longest start of a character.  [held] are the bytes of a character
    whose [more] others are to come, the next between [lo] and [hi]. *)
Fixpoint decode_utf8_from (held : string) (more : nat) (lo hi : N) (s : string) : string :=
  match s with
  | "" => match more with O => "" | S _ => replacement end
  | String a s' =>
      let b := N_of_ascii a in
      let fresh :=
        match utf8_first b with
        | Some (O, _, _) => String a (decode_utf8_from "" 0 0 0 s')
        | Some (n, lo, hi) => decode_utf8_from (String a "") n lo hi s'
        | None => replacement ++ decode_utf8_from "" 0 0 0 s'
        end in
      match more with
      | O => fresh
      | S n =>
          if ((lo <=? b) && (b <=? hi))%N then
            match n with
            | O => held ++ String a (decode_utf8_from "" 0 0 0 s')
            | S _ => decode_utf8_from (held ++ String a "") n 128 191 s'
            end
          else replacement ++ fresh
      end
  end.

Definition decode_utf8 (s : string) : string := decode_utf8_from "" 0 0 0 s.

(** [/Message-ID:\s*([^\r\n]+)/i]: at the first match that has a character
    other than white space behind the colon, the text up to the line's end.
    When there is none, what the group would match is white space. *)
Fixpoint message_id_anywhere (s : string) : option string :=
  match truthy (trimStart <$> strip_lower "message-id:" s) with
  | Some v => Some (until_break v)
  | None => match s with String _ s' => message_id_anywhere s' | "" => None end
  end.

Definition strip_angles (s : string) : string := replace_all ">" "" (replace_all "<" "" s).

Definition extractMessageIdFromRfc822 (raw : string) : option string :=
  truthy (strip_angles ∘ trim <$> message_id_anywhere (decode_utf8 raw)).

(** ** Numbers come back *)

Lemma digit_char d : (d < 10)%N -> digit (pretty_N_char d) = Some d.
Proof.
  intros Hd. assert (d = 0 \/ d = 1 \/ d = 2 \/ d = 3 \/ d = 4 \/ d = 5 \/ d = 6 \/ d = 7 \/ d = 8 \/ d = 9)%N by lia.
  naive_solver.
Qed.

Lemma read_pretty_go x some s : (0 < x)%N -> read_digits some 0 (pretty_N_go x s) = read_digits true (Z.of_N x) s.
Proof.
  revert some s. induction (N.lt_wf_0 x) as [x _ IH]. intros some s Hx. rewrite pretty_N_go_step by done.
  assert (Hm : (x mod 10 < 10)%N) by (apply N.mod_lt; lia).
  assert (Hstep : forall some0 acc, read_digits some0 acc (String (pretty_N_char (x mod 10)) s)
    = read_digits true (10 * acc + Z.of_N (x mod 10)) s) by (intros; cbn [read_digits]; by rewrite digit_char).
  destruct (decide (x / 10 = 0)%N) as [H0|Hne].
  - rewrite H0, pretty_N_go_0, Hstep. f_equal. pose proof (N.div_mod x 10 ltac:(done)) as Hx'. rewrite H0 in Hx'. lia.
  - assert (Hlt : (x / 10 < x)%N) by (by apply N.div_lt). assert (Hpos : (0 < x / 10)%N) by (by apply N.neq_0_lt_0).
    rewrite IH by done. rewrite Hstep. f_equal. pose proof (N.div_mod x 10 ltac:(done)) as Hx'.
    generalize dependent (x / 10)%N. generalize dependent (x mod 10)%N. intros. lia.
Qed.

(** What may follow a number. *)
Definition no_digit (s : string) : bool := match s with String a _ => negb (defined (digit a)) | "" => true end.

Lemma read_digits_end acc s : no_digit s = true -> read_digits true acc s = Some acc.
Proof. destruct s as [|a s]; [done|]. cbn. by destruct (digit a). Qed.

Definition digits (s : string) : bool := all_chars (fun a => defined (digit a)) s.

Lemma pretty_go_digits x s : digits s = true -> digits (pretty_N_go x s) = true.
Proof.
  revert s. induction (N.lt_wf_0 x) as [x _ IH]. intros s Hs. destruct (decide (x = 0)%N) as [->|Hx]; [done|].
  rewrite pretty_N_go_step by lia. apply IH; [apply N.div_lt; lia|].
  unfold digits in *. cbn [all_chars]. rewrite Hs, digit_char by (apply N.mod_lt; lia). done.
Qed.

Lemma digit_trimmed a s : defined (digit a) = true -> strip_any js_spaces (String a s) = None.
Proof. destruct a as [[] [] [] [] [] [] [] []]; vm_compute; done. Qed.

Lemma digit_unsigned a : defined (digit a) = true -> a <> "-"%char /\ a <> "+"%char /\ a <> colon.
Proof. destruct a as [[] [] [] [] [] [] [] []]; vm_compute; intros; try done; by split_and!. Qed.

(** A whole number not below zero. *)
Lemma pretty_spelled z : 0 <= z -> digits (pretty z) = true /\ parseInt (pretty z) = Some z.
Proof.
  intros Hz. destruct z as [|p|p]; [by vm_compute| |lia].
  assert (Hp : pretty (Z.pos p) = pretty_N_go (N.pos p) "") by done. rewrite Hp.
  assert (Hd : digits (pretty_N_go (N.pos p) "") = true) by by apply pretty_go_digits.
  split; [done|].
  pose proof (read_pretty_go (N.pos p) false "" eq_refl) as Hread. cbn [read_digits] in Hread.
  unfold parseInt, trimStart. destruct (pretty_N_go (N.pos p) "") as [|a s] eqn:Hs.
  { cbn in Hread. discriminate. }
  unfold digits in Hd. cbn [all_chars] in Hd. apply andb_prop in Hd as [Ha _].
  rewrite strip_any_none_many by by apply digit_trimmed. etrans; [|exact Hread].
  destruct (digit_unsigned a Ha) as (H1 & H2 & _).
  revert H1 H2. by destruct a as [[] [] [] [] [] [] [] []].
Qed.

Lemma digits_without s : digits s = true -> without colon s.
Proof.
  unfold without, digits. induction s as [|a s IH]; [done|]. cbn [all_chars cut]. intros [Ha Hs]%andb_prop.
  rewrite decide_False by (by apply digit_unsigned). by rewrite IH.
Qed.

Lemma split_last_piece c p u : without c u -> list.last (split c (p ++ String c u)) = Some u.
Proof.
  intros Hu. assert (Hs : forall p, exists l, split c (p ++ String c u) = (l ++ [u])%list /\ l <> []).
  { clear p. induction p as [|a p [l [IH Hl]]].
    - exists [""]. split; [|done]. rewrite (split_app c "" u) by done. by rewrite split_without.
    - revert IH. unfold split. rewrite string_app_cons. cbn [split_first].
      destruct (split_first c (p ++ String c u)) as [x l'] eqn:Hf. intros IH. case_decide.
      + exists ("" :: l). split; [|done]. by rewrite IH.
      + destruct l as [|y l]; [done|]. injection IH as -> ->. by exists (String a y :: l). }
  destruct (Hs p) as (l & -> & _). by rewrite last_snoc.
Qed.

Lemma cursor_comes_back uidValidity uidNext :
  0 <= uidValidity -> 0 <= uidNext ->
  decodeImapCursor (encodeImapCursor uidValidity uidNext) = Some (uidValidity, uidNext).
Proof.
  intros Hv Hn. destruct (pretty_spelled _ Hv) as [Hdv Hpv]. destruct (pretty_spelled _ Hn) as [Hdn Hpn].
  unfold decodeImapCursor, encodeImapCursor. change (":" ++ ?x) with (String colon x).
  rewrite split_app, split_without by (by apply digits_without). by rewrite Hpv, Hpn.
Qed.

Lemma uid_comes_back path uid : 0 <= uid -> uidFromSourceRef (path ++ ":" ++ pretty uid) = uid.
Proof.
  intros Hu. destruct (pretty_spelled _ Hu) as [Hdu Hpu].
  unfold uidFromSourceRef. change (":" ++ ?x) with (String colon x).
  rewrite split_last_piece by (by apply digits_without).
  assert (Hne : pretty uid <> "") by (intros He; rewrite He in Hpu; by vm_compute in Hpu).
  unfold truthy. rewrite decide_False by done.
  change (nullish (Some (pretty uid)) "0") with (pretty uid). by rewrite Hpu.
Qed.

(** What a cursor and a source reference say is read back: the validity and
    the next UID of a mailbox, and the UID of a message, whatever colons and
    digits its folder's path holds. *)
Theorem handles_come_back uidValidity uidNext path uid :
  0 <= uidValidity -> 0 <= uidNext -> 0 <= uid ->
  decodeImapCursor (encodeImapCursor uidValidity uidNext) = Some (uidValidity, uidNext) /\
  uidFromSourceRef (path ++ ":" ++ pretty uid) = uid.
Proof. intros. split; [by apply cursor_comes_back|by apply uid_comes_back]. Qed.

(** The flags written for keywords are read as those keywords. *)
Lemma keywords_come_back ks : mapImapFlagsToKeywords (KEYWORD_TO_FLAG <$> ks) = ks.
Proof.
  unfold mapImapFlagsToKeywords. induction ks as [|k ks IH]; [done|]. cbn.
  replace (keyword_of (KEYWORD_TO_FLAG k)) with (Some k) by (by destruct k; vm_compute). by rewrite IH.
Qed.

Example reads_ids :
  extractMessageIdFromRfc822 (crlf_lines ["Subject: x"; "message-id:"; " <a@b> "; ""; "body"]) = Some "a@b" /\
  messageIdFromEnvelopeValue (Some "a@b") = Some "<a@b>" /\ messageIdFromEnvelopeValue (Some "<a@b>") = Some "<a@b>" /\
  decode_utf8 (bytes [226; 130; 65; 195; 169; 128]%N) = replacement ++ "A" ++ bytes [195; 169]%N ++ replacement.
Proof. by vm_compute. Qed.

(** The reading is not anchored: a resent message is read by the id of its
    resending, which stands above its own. *)
Example resent_id_is_read_first :
  let resent := crlf_lines ["Resent-Message-ID: <resent@b>"; "Message-ID: <a@b>"; ""; "body"] in
  extractMessageIdFromRfc822 resent = Some "resent@b" /\ readMessageId resent = Some "<a@b>".
Proof. by vm_compute. Qed.

Lemma handles_come_back_witness :
  decodeImapCursor (encodeImapCursor 1700000000 42) = Some (1700000000, 42) /\ uidFromSourceRef ("INBOX:2024:" ++ pretty 7%Z) = 7.
Proof. apply (handles_come_back 1700000000 42 "INBOX:2024" 7); lia. Defined.
