(* ===== verification/ImapTarget.v ===== *)
(** * The IMAP mail target ([packages/connectors/src/imapflow-dav-target.ts])

    The writer over [imapflow], a library: [ImapClient] has the calls the code
    makes, each what the server does with it; [ImapServer] the sentences of RFC
    3501, 4315 and 6851 the theorems rely on.  A mailbox is a map from UID to
    message bytes.  [getMailboxLock] selects a mailbox and keeps it selected;
    what others do to the mailbox it does not stop.  The environment is a
    [DavEnv] whose memory says whether the client is connected.  Error messages
    are shortened, log lines left out. *)

From stdpp Require Import pretty.
From S2P Require Import Prelude Prog Keys Ports DavText MessageId ImapText DavWriter DomainSync.
From S2P Require ApplyDeletion.
From Stdlib Require Import Ascii.

Open Scope Z_scope.
#[local] Open Scope string_scope.

Record Box := mkBox { bx_path : string; bx_name : string; bx_flags : list string }.

(** [client.mailbox], as of its selection. *)
Record Selected := mkSelected { sel_uidValidity : Z; sel_uidNext : Z; sel_exists : Z }.

Record Fetched := mkFetched {
  ft_uid : Z;
  ft_messageId : option string;
  ft_size : option Z;
  ft_flags : list string;
  ft_internalDate : option string
}.

Class ImapClient (Srv : Type) := {
  im_connect : Srv -> (string + unit) * Srv;
  im_list : Srv -> (string + list Box) * Srv;
  im_create : string -> Srv -> (string + unit) * Srv;
  (** [getMailboxLock] and [client.mailbox]; [None] for none open. *)
  im_select : string -> Srv -> (string + option Selected) * Srv;
  (** [fetchAll('1:*', ...)] *)
  im_fetchAll : string -> Srv -> (string + list Fetched) * Srv;
  (** [None] for a refusal; inside, the UID of [APPENDUID]. *)
  im_append : string -> string -> list string -> Srv -> (string + option (option Z)) * Srv;
  (** [search({ uid })], [None] for [false]. *)
  im_search : string -> Z -> Srv -> (string + option (list Z)) * Srv;
  im_move : string -> Z -> string -> Srv -> (string + bool) * Srv;
  im_delete : string -> Z -> Srv -> (string + bool) * Srv;
  im_uidplus : bool;
  (** [fetchOne(uid, { source: true })]: no message, no source, or its bytes. *)
  im_source : string -> Z -> Srv -> (string + option (option string)) * Srv
}.

(** [normaliseKey] *)
Definition normaliseKey (value : string) : string := trim (strip_angles value).

Definition names_message (wanted : string) (msg : Fetched) : Prop :=
  normaliseKey <$> ft_messageId msg = Some wanted.

#[export] Instance names_message_dec wanted msg : Decision (names_message wanted msg).
Proof. unfold names_message. apply _. Defined.

Section target.
Context {Srv : Type} `{ImapClient Srv}.
Variable rt : Runtime.

Abbreviation Env := (DavEnv Srv bool).
Abbreviation imap := (prog Env string).

(** One command. *)
Definition command {A} (f : Srv -> (string + A) * Srv) : imap A :=
  try_act (fun e => let '(r, s) := f (de_server e) in (r, e <| de_server := s |>)).

(** [live]: connect on first use, or again after an error dropped the client. *)
Definition live : imap unit :=
  try_act (fun e : Env =>
    if de_memo e then (inr tt, e)
    else let '(r, s) := im_connect (de_server e) in
         (r, e <| de_server := s |> <| de_memo := match r with inr _ => true | inl _ => false end |>)).

(** ** Mailboxes *)

Definition listMailboxes : imap (list MailFolder) :=
  live ;;;
  let! listed := command im_list in
  Ret ((fun box => mkMailFolder (bx_path box) (Some (bx_name box)) (mapImapSpecialUse (bx_flags box)) None) <$> listed).

Definition ensureMailbox (folder : Folder) : imap string :=
  live ;;;
  match truthy (fo_path folder), truthy (fo_name folder) with
  | None, None => Throw "Mailbox name or path is required"
  | Some mailboxName, _ | None, Some mailboxName =>
      let! existing := listMailboxes in
      if decide (mailboxName ∈ mf_path <$> existing) then Ret mailboxName
      else command (im_create mailboxName) ;;; Ret mailboxName
  end.

(** ** Lookup *)

Definition first_uid (wanted : string) (messages : list Fetched) : option string :=
  pretty ∘ ft_uid <$> head (base.filter (names_message wanted) messages).

Definition lookup_failed (naturalKey : string) : string :=
  "Lookup failed for Message-ID " ++ naturalKey ++ "; refusing to treat this as not present".

Definition findByNaturalKey (mailboxId naturalKey : string) : imap (option string) :=
  live ;;;
  pcatch
    (command (im_select mailboxId) ;;;
     let! messages := command (im_fetchAll mailboxId) in
     Ret (first_uid (normaliseKey naturalKey) messages))
    (fun _ => Throw (lookup_failed naturalKey)).

Definition uidValidityOf (mailbox : string) : imap string :=
  live ;;;
  let! box := command (im_select mailbox) in
  match box with
  | Some box => Ret (pretty (sel_uidValidity box))
  | None => Throw "No mailbox opened"
  end.

(** ** Writing *)

Definition append_flags (keywords : list MailKeyword) : list string :=
  match KEYWORD_TO_FLAG <$> keywords with [] => [backslashed "Seen"] | flags => flags end.

Definition upsertEmail (mailboxId rfc822 : string) (keywords : list MailKeyword) : imap UpsertResult :=
  live ;;;
  match extractMessageIdFromRfc822 rfc822 with
  | None => Throw "No Message-ID found in raw message"
  | Some messageId =>
      let! existingUid := findByNaturalKey mailboxId messageId in
      match truthy existingUid with
      | Some uid =>
          let! version := uidValidityOf mailboxId in
          Ret (mkUpsertResult uid false true (Some version) false false)
      | None =>
          let! targetVersion := uidValidityOf mailboxId in
          let! appended := command (im_append mailboxId rfc822 (append_flags keywords)) in
          match appended with
          | None => Throw "APPEND was refused by the server"
          | Some (Some uid) => Ret (mkUpsertResult (pretty uid) true false (Some targetVersion) false false)
          | Some None =>
              let! rescanned := findByNaturalKey mailboxId messageId in
              match truthy rescanned with
              | Some uid => Ret (mkUpsertResult uid true false (Some targetVersion) false false)
              | None => Throw "Appended the message but could not find it again"
              end
          end
      end
  end.

(** ** Reindex *)

Fixpoint mail_entries (boxName : string) (listed : list Fetched) : string + list TargetEntry :=
  match listed with
  | [] => inr []
  | msg :: listed' =>
      match truthy (ft_messageId msg) with
      | None => inl "No Message-ID header during reindex"
      | Some found =>
          match mail_entries boxName listed' with
          | inl e => inl e
          | inr es => inr (mkTargetEntry (normaliseKey found) (pretty (ft_uid msg)) boxName None (ft_size msg) :: es)
          end
      end
  end.

Definition entriesIn (boxName : string) : imap (list TargetEntry) :=
  command (im_select boxName) ;;;
  let! listed := command (im_fetchAll boxName) in
  match mail_entries boxName listed with inl e => Throw e | inr es => Ret es end.

Fixpoint entries_in_each (boxes : list string) : imap (list TargetEntry) :=
  match boxes with
  | [] => Ret []
  | box :: boxes' =>
      let! es := pcatch (entriesIn box) (fun _ => Throw ("Failed to list entries in mailbox " ++ box)) in
      let! rest := entries_in_each boxes' in
      Ret (es ++ rest)%list
  end.

(** [listEntries]; a caller that stops at the error uses none of the entries
    before it. *)
Definition mail_listEntries (mailboxId : option string) : imap (list TargetEntry) :=
  live ;;;
  let! mailboxNames :=
    match truthy mailboxId with
    | Some m => Ret [m]
    | None =>
        let! boxes := pcatch listMailboxes (fun _ => Throw "Could not enumerate mailboxes for reindex") in
        Ret (match mf_path <$> boxes with [] => ["INBOX"] | names => names end)
    end in
  entries_in_each mailboxNames.

(** ** Removal *)

Definition findBin : imap (option string) :=
  let! folders := listMailboxes in
  Ret (mf_path <$> head (base.filter (fun f => mf_specialUse f = su_trash) folders)).

Definition uidExists (mailbox : string) (uid : Z) : imap bool :=
  live ;;;
  command (im_select mailbox) ;;;
  let! found := command (im_search mailbox uid) in
  match found with
  | None => Throw "UID search was refused, so presence could not be checked"
  | Some uids => Ret (bool_decide (uid ∈ uids))
  end.

Definition verifyGone (mailbox : string) (uid : Z) : imap unit :=
  let! still := uidExists mailbox uid in
  if still : bool then Throw "accepted, but the message is still there" else Ret tt.

(** [Number(targetId)], where it is a positive integer. *)
Variable number : string -> option Z.

(** [bin && bin !== mailbox] *)
Definition other_than (mailbox : string) (bin : option string) : option string :=
  match bin with Some b => if decide (b = mailbox) then None else Some b | None => None end.

Definition remove_found (mailbox : string) (uid : Z) : imap RemovalResult :=
  let! bin := findBin in
  match other_than mailbox (truthy bin) with
  | Some bin =>
      command (im_select mailbox) ;;;
      let! ok := command (im_move mailbox uid bin) in
      if ok : bool then verifyGone mailbox uid ;;; Ret (mkRemovalResult (Some binned) false)
      else Throw "The server refused to move the message"
  | None =>
      if negb im_uidplus then Throw "Refusing to remove: no bin and no UIDPLUS"
      else
        command (im_select mailbox) ;;;
        let! ok := command (im_delete mailbox uid) in
        if ok : bool then verifyGone mailbox uid ;;; Ret (mkRemovalResult (Some deleted) false)
        else Throw "The server refused to expunge the message"
  end.

Definition mail_removeItem (targetId : string) (expectedTargetVersion collection : option string) : imap RemovalResult :=
  live ;;;
  match truthy collection with
  | None => Throw "Cannot remove: no mailbox was supplied"
  | Some mailbox =>
      match number targetId with
      | None => Throw "Cannot remove: not a UID"
      | Some uid =>
          if decide (uid <= 0) then Throw "Cannot remove: not a UID"
          else
            let! uidValidity := uidValidityOf mailbox in
            if match expectedTargetVersion with Some v => negb (String.eqb v uidValidity) | None => false end
            then Throw "Refusing to remove: the mailbox has been recreated"
            else
              let! there := uidExists mailbox uid in
              if there : bool then remove_found mailbox uid else Ret (mkRemovalResult None false)
      end
  end.

(** ** Verification *)

Definition mail_contentHashFor (entry : TargetEntry) : imap (option string) :=
  match number (te_targetId entry) with
  | None => Ret None
  | Some uid =>
      pcatch
        (live ;;;
         command (im_select (te_mailboxId entry)) ;;;
         let! msg := command (im_source (te_mailboxId entry) uid) in
         Ret (match msg with
              | Some (Some source) => if String.eqb source "" then None else Some (sha256Hex rt source)
              | _ => None
              end))
        (fun _ => Ret None)
  end.
End target.

(** ** What an IMAP server promises *)

(** A command that neither adds nor removes a message. *)
Inductive reads {Srv} `{ImapClient Srv} (s : Srv) : Srv -> Prop :=
| reads_connect : reads s (snd (im_connect s))
| reads_list : reads s (snd (im_list s))
| reads_create mailbox : reads s (snd (im_create mailbox s))
| reads_select mailbox : reads s (snd (im_select mailbox s))
| reads_fetchAll mailbox : reads s (snd (im_fetchAll mailbox s))
| reads_search mailbox uid : reads s (snd (im_search mailbox uid s))
| reads_source mailbox uid : reads s (snd (im_source mailbox uid s)).

(** [messages mailbox s]: what the mailbox holds, by UID; [validity] its
    UIDVALIDITY.  [envelope_id] is the Message-ID in a message's envelope. *)
Class ImapServer (Srv : Type) `{ImapClient Srv} := {
  messages : string -> Srv -> gmap Z string;
  validity : string -> Srv -> Z;
  envelope_id : string -> option string;
  (** The server has the MOVE command. *)
  has_move : bool;
  law_reads s s' mailbox : reads s s' -> messages mailbox s' = messages mailbox s;
  law_connect mailbox s : validity mailbox (snd (im_connect s)) = validity mailbox s;
  (** RFC 3501 §7.3.1; [getMailboxLock] does not select again what is selected,
      but §2.3.1.1: the value is that of a whole session. *)
  law_select mailbox s sel : fst (im_select mailbox s) = inr (Some sel) -> sel_uidValidity sel = validity mailbox s;
  (** RFC 3501 §6.4.5, §7.4.2 *)
  law_fetchAll mailbox s l : fst (im_fetchAll mailbox s) = inr l ->
    (forall uid body, messages mailbox s !! uid = Some body ->
       exists f, f ∈ l /\ ft_uid f = uid /\ ft_messageId f = envelope_id body) /\
    (forall f, f ∈ l -> exists body, messages mailbox s !! ft_uid f = Some body /\ ft_messageId f = envelope_id body);
  (** RFC 3501 §6.3.11: one new message in that mailbox, or none. *)
  law_append mailbox body flags s mailbox' uid b :
    messages mailbox' s !! uid = Some b -> messages mailbox' (snd (im_append mailbox body flags s)) !! uid = Some b;
  (** RFC 4315 §3 *)
  law_appenduid mailbox body flags s uid : fst (im_append mailbox body flags s) = inr (Some (Some uid)) ->
    messages mailbox (snd (im_append mailbox body flags s)) !! uid = Some body;
  (** RFC 3501 §6.4.4 *)
  law_search mailbox uid s l : fst (im_search mailbox uid s) = inr (Some l) ->
    uid ∈ l <-> is_Some (messages mailbox s !! uid);
  (** RFC 6851 §3.3.  Without MOVE imapflow's [messageMove] is a COPY and a
      [messageDelete], so that what holds of a deletion holds of it. *)
  law_move mailbox uid bin s mailbox' u b : has_move = true \/ im_uidplus = true ->
    (mailbox', u) <> (mailbox, uid) -> messages mailbox' s !! u = Some b ->
    messages mailbox' (snd (im_move mailbox uid bin s)) !! u = Some b;
  (** RFC 4315 §2.1; without it, a bare EXPUNGE. *)
  law_delete mailbox uid s mailbox' u b : im_uidplus = true ->
    (mailbox', u) <> (mailbox, uid) -> messages mailbox' s !! u = Some b ->
    messages mailbox' (snd (im_delete mailbox uid s)) !! u = Some b
}.

(** ** What the writer's steps may change *)
Section frames.
Context {Srv : Type} `{IS : ImapServer Srv}.

Abbreviation Env := (DavEnv Srv bool).
Abbreviation imap := (prog Env string).
Abbreviation holding mailbox e := (messages mailbox (de_server e)).

(** Every message but one is where it was. *)
Definition spares (mailbox : string) (uid : Z) (e e' : Env) : Prop :=
  forall mb u b, (mb, u) <> (mailbox, uid) -> holding mb e !! u = Some b -> holding mb e' !! u = Some b.

(** Every message is where it was. *)
Definition only_appends (e e' : Env) : Prop :=
  forall mb u b, holding mb e !! u = Some b -> holding mb e' !! u = Some b.

(** No message came or went. *)
Definition unchanged (e e' : Env) : Prop := forall mb, holding mb e' = holding mb e.

#[export] Instance spares_preorder mailbox uid : PreOrder (spares mailbox uid).
Proof. split; [by intros e mb u b _|]. intros e1 e2 e3 He1 He2 mb u b Hne Hb. by apply He2, He1. Qed.

#[export] Instance only_appends_preorder : PreOrder only_appends.
Proof. split; [by intros e mb u b|]. intros e1 e2 e3 He1 He2 mb u b Hb. by apply He2, He1. Qed.

#[export] Instance unchanged_preorder : PreOrder unchanged.
Proof. split; [by intros e mb|]. intros e1 e2 e3 He1 He2 mb. by rewrite He2, He1. Qed.

Lemma unchanged_appends e e' : unchanged e e' -> only_appends e e'.
Proof. intros He mb u b. by rewrite He. Qed.

Lemma unchanged_spares mailbox uid e e' : unchanged e e' -> spares mailbox uid e e'.
Proof. intros He mb u b _. by rewrite He. Qed.

Lemma steps_command {A} G (f : Srv -> (string + A) * Srv) :
  (forall e s', s' = snd (f (de_server e)) -> G e (e <| de_server := s' |>)) -> steps_in G (command f : imap A).
Proof.
  intros HG. apply steps_in_try. intros e. specialize (HG e). destruct (f (de_server e)) as [r s]. by apply HG.
Qed.

Lemma reads_unchanged {A} (f : Srv -> (string + A) * Srv) :
  (forall s, reads s (snd (f s))) -> steps_in unchanged (command f : imap A).
Proof. intros Hf. apply steps_command. intros e s' -> mb. simpl. apply law_reads, Hf. Qed.

Lemma live_unchanged : steps_in unchanged (live : imap unit).
Proof.
  apply steps_in_try. intros e. destruct (de_memo e); [done|]. pose proof (reads_connect (de_server e)) as Hr.
  destruct (im_connect (de_server e)) as [r s]. intros mb. simpl in *. by apply law_reads.
Qed.

#[local] Hint Resolve live_unchanged reads_unchanged : core.
#[local] Hint Constructors reads : core.

Lemma findByNaturalKey_unchanged mailbox key : steps_in unchanged (findByNaturalKey mailbox key : imap _).
Proof.
  apply steps_in_bind; [auto|]. intros _. apply steps_in_catch; [|done].
  apply steps_in_bind; [auto|]. intros _. apply steps_in_bind; [auto|done].
Qed.

Lemma uidValidityOf_unchanged mailbox : steps_in unchanged (uidValidityOf mailbox : imap _).
Proof. apply steps_in_bind; [auto|]. intros _. apply steps_in_bind; [auto|]. by intros []. Qed.

Lemma listMailboxes_unchanged : steps_in unchanged (listMailboxes : imap _).
Proof. apply steps_in_bind; [auto|]. intros _. apply steps_in_bind; [auto|done]. Qed.

Lemma ensureMailbox_unchanged folder : steps_in unchanged (ensureMailbox folder : imap _).
Proof.
  apply steps_in_bind; [auto|]. intros _.
  assert (Hc : forall n, steps_in unchanged (let! existing := listMailboxes in
    if decide (n ∈ mf_path <$> existing) then Ret n else command (im_create n) ;;; Ret n : imap string)).
  { intros n. apply steps_in_bind; [apply listMailboxes_unchanged|]. intros l. case_decide; [done|].
    apply steps_in_bind; [auto|done]. }
  destruct (truthy (fo_path folder)), (truthy (fo_name folder)); try apply Hc; done.
Qed.

Lemma uidExists_unchanged mailbox uid : steps_in unchanged (uidExists mailbox uid : imap _).
Proof.
  apply steps_in_bind; [auto|]. intros _. apply steps_in_bind; [auto|]. intros _.
  apply steps_in_bind; [auto|]. by intros [].
Qed.

Lemma upsertEmail_appends mailbox rfc822 keywords :
  steps_in only_appends (upsertEmail mailbox rfc822 keywords : imap _).
Proof.
  assert (Hu : forall A (p : imap A), steps_in unchanged p -> steps_in only_appends p)
    by (intros A p; apply steps_in_mono, unchanged_appends).
  apply steps_in_bind; [auto|]. intros _. destruct (extractMessageIdFromRfc822 rfc822) as [id|]; [|done].
  apply steps_in_bind; [apply Hu, findByNaturalKey_unchanged|]. intros found. destruct (truthy found).
  - apply steps_in_bind; [apply Hu, uidValidityOf_unchanged|done].
  - apply steps_in_bind; [apply Hu, uidValidityOf_unchanged|]. intros version.
    apply steps_in_bind.
    + apply steps_command. intros e s' -> mb u b. simpl. apply law_append.
    + intros [[uid|]|]; [done| |done].
      apply steps_in_bind; [apply Hu, findByNaturalKey_unchanged|]. intros again. by destruct (truthy again).
Qed.

(** Hard rule 2, for mail.  Whatever an upload of a message does, wherever
    others brought the server, every message of every mailbox stays where it
    was: the writer appends and never replaces. *)
Theorem upsertEmail_only_appends mailbox rfc822 keywords :
  steps_in only_appends (upsertEmail mailbox rfc822 keywords : imap _).
Proof. apply upsertEmail_appends. Qed.


(** ** Whom a handle names *)

Lemma pretty_not_empty (z : Z) : pretty z <> "".
Proof.
  destruct (decide (0 <= z)) as [Hz|Hz].
  - intros He. destruct (pretty_spelled z Hz) as [_ Hp]. rewrite He in Hp. by vm_compute in Hp.
  - destruct z as [|p|p]; [lia..|]. intros He. discriminate He.
Qed.

Definition has_id (key body : string) : Prop := normaliseKey <$> envelope_id body = Some (normaliseKey key).

Lemma first_uid_spec key mailbox s l :
  fst (im_fetchAll mailbox s) = inr l ->
  match first_uid (normaliseKey key) l with
  | Some t => exists uid body, t = pretty uid /\ messages mailbox s !! uid = Some body /\ has_id key body
  | None => forall uid body, messages mailbox s !! uid = Some body -> ~ has_id key body
  end.
Proof.
  intros Hl. destruct (law_fetchAll _ _ _ Hl) as [Hall Hin]. unfold first_uid.
  destruct (head (base.filter (names_message (normaliseKey key)) l)) as [f|] eqn:Hf; simpl.
  - apply head_Some_elem_of, list_elem_of_filter in Hf as [Hn Hf]. destruct (Hin f Hf) as (body & Hb & Hid).
    exists (ft_uid f), body. split_and!; [done..|]. unfold has_id. by rewrite <- Hid.
  - intros uid body Hb Hk. destruct (Hall uid body Hb) as (f & Hfl & _ & Hid).
    assert (Hx : f ∈ base.filter (names_message (normaliseKey key)) l).
    { apply list_elem_of_filter. split; [|done]. unfold names_message. by rewrite Hid. }
    destruct (base.filter _ l); [by apply elem_of_nil in Hx|done].
Qed.

(** A command, with the others appending. *)
Lemma rg_command {A} R G (f : Srv -> (string + A) * Srv) (Q : A -> Env -> Prop) X e :
  (forall e1 r s', R e e1 -> f (de_server e1) = (r, s') ->
     let e2 := e1 <| de_server := s' |> in
     G e1 e2 /\ forall e3, R e2 e3 -> match r with inr a => Q a e3 | inl x => X x e3 end) ->
  rg R G (command f : imap A) Q X e.
Proof.
  intros Hf. apply rg_try. intros e1 r e2 Ha Hr. destruct (f (de_server e1)) as [r' s'] eqn:Hs.
  injection Hr as -> <-. by apply Hf.
Qed.

Lemma rg_reads {A} R (f : Srv -> (string + A) * Srv) (Q : A -> Env -> Prop) e :
  (forall s, reads s (snd (f s))) ->
  (forall e1 a e3, R e e1 -> fst (f (de_server e1)) = inr a -> R (e1 <| de_server := snd (f (de_server e1)) |>) e3 -> Q a e3) ->
  rg R unchanged (command f : imap A) Q (fun _ _ => True) e.
Proof.
  intros Hreads HQ. apply rg_command. intros e1 r s' Ha Hs e2. specialize (Hreads (de_server e1)). specialize (HQ e1).
  rewrite Hs in *. split; [intros mb; simpl; by apply law_reads|]. intros e3 Ha3. destruct r; [done|]. by eapply HQ.
Qed.

Lemma rg_live R (Q : unit -> Env -> Prop) e :
  (forall e1 e2 e3, R e e1 -> unchanged e1 e2 ->
     de_server e2 = de_server e1 \/ de_server e2 = snd (im_connect (de_server e1)) -> R e2 e3 -> Q tt e3) ->
  rg R unchanged (live : imap unit) Q (fun _ _ => True) e.
Proof.
  intros HQ. apply rg_try. intros e1 r e2 Ha Hr. destruct (de_memo e1).
  - injection Hr as <- <-. split; [done|]. intros e3. apply (HQ e1); [done|done|by left].
  - pose proof (reads_connect (de_server e1)) as Hc. specialize (HQ e1). destruct (im_connect (de_server e1)) as [r' s'].
    injection Hr as -> <-. assert (Hu : unchanged e1 (e1 <| de_server := s' |> <| de_memo := match r with inr _ => true | inl _ => false end |>))
      by (intros mb; simpl; by apply law_reads).
    split; [done|]. intros e3 Ha3. destruct r as [|[]]; [done|]. eapply HQ; [done|exact Hu|by right|done].
Qed.

(** A message whose Message-ID is read as [key], by the writer's reading. *)
Definition named (mailbox key target : string) (e : Env) : Prop :=
  exists uid body, target = pretty uid /\ holding mailbox e !! uid = Some body /\ has_id key body.

Lemma named_appends mailbox key t e e' : named mailbox key t e -> only_appends e e' -> named mailbox key t e'.
Proof. intros (uid & body & -> & Hb & Hk) He. exists uid, body. split_and!; [done|by apply He|done]. Qed.

Lemma named_not_empty mailbox key t e : named mailbox key t e -> truthy (Some t) = Some t.
Proof. intros (uid & body & -> & _). unfold truthy. rewrite decide_False; [done|apply pretty_not_empty]. Qed.

(** An answer to a lookup that began in [e]. *)
Definition found_for (mailbox key : string) (e : Env) (r : option string) (e' : Env) : Prop :=
  match r with
  | Some t => named mailbox key t e'
  | None => forall uid body, holding mailbox e !! uid = Some body -> ~ has_id key body
  end.

Lemma found_for_appends mailbox key e r e1 e2 :
  found_for mailbox key e r e1 -> only_appends e1 e2 -> found_for mailbox key e r e2.
Proof. destruct r; [apply named_appends|done]. Qed.

(** What the lookup answers holds as long as nobody removes. *)
Lemma findByNaturalKey_rg mailbox key e :
  rg only_appends unchanged (findByNaturalKey mailbox key : imap _)
    (found_for mailbox key e) (fun _ _ => True) e.
Proof.
  apply rg_bind; [apply _|]. apply rg_live. intros e1 e2 e3 He1 He2 _ He3.
  assert (H03 : only_appends e e3) by (etrans; [exact He1|]; etrans; [by apply unchanged_appends|exact He3]).
  apply rg_catch; [apply _|]. apply rg_bind; [apply _|].
  eapply rg_mono; [apply (rg_reads _ _ (fun _ e' => only_appends e e')); [auto|]| |intros x e' _ e'' _; done].
  { intros e4 a e5 He4 _ He5. etrans; [exact H03|]. etrans; [exact He4|]. etrans; [|exact He5].
    apply unchanged_appends. intros mb. simpl. apply law_reads. auto. }
  intros sel e6 H06. apply rg_bind; [apply _|].
  eapply rg_mono; [apply (rg_reads _ _ (fun l e' => found_for mailbox key e (first_uid (normaliseKey key) l) e')); [auto|]| |].
  - intros e7 l e8 He7 Hl He8. eapply found_for_appends; [|exact He8].
    pose proof (first_uid_spec key mailbox _ _ Hl) as Hf. destruct (first_uid _ l) as [t|].
    + destruct Hf as (uid & body & -> & Hb & Hk). exists uid, body. split_and!; [done| |done].
      simpl. rewrite (law_reads (de_server e7)) by auto. exact Hb.
    + intros uid body Hb. apply (Hf uid). by apply He7, H06.
  - intros l e8 Hf e9 He9. eapply found_for_appends; [exact Hf|exact He9].
  - intros x e8 _ e9 _. done.
Qed.

Lemma uidValidityOf_rg R `{!PreOrder R} mailbox (F : Env -> Prop) e :
  F e -> (forall e1 e2, F e1 -> R e1 e2 -> F e2) -> (forall e1 e2, F e1 -> unchanged e1 e2 -> F e2) ->
  rg R unchanged (uidValidityOf mailbox : imap _) (fun _ e' => F e') (fun _ _ => True) e.
Proof.
  intros He HR HU. apply rg_bind; [apply _|]. apply rg_live. intros e1 e2 e3 He1 He2 _ He3.
  assert (H3 : F e3) by eauto. apply rg_bind; [apply _|]. apply rg_reads; [auto|]. intros e4 box e5 He4 _ He5.
  assert (H5 : F e5). { eapply HR; [|exact He5]. eapply HU; [by eapply HR|]. intros mb. simpl. apply law_reads. auto. }
  destruct box; intros e6 He6; [by eapply HR|done].
Qed.

(** A message the target has is adopted.  Let the mailbox hold a message
    whose envelope has the Message-ID the writer reads in the message to be
    uploaded.  Then, whatever others append meanwhile, the upload sends no
    APPEND: it fails, or it reports an adoption, with the UID of a message of
    that id. *)
Theorem held_mail_is_adopted mailbox rfc822 keywords id uid body e :
  extractMessageIdFromRfc822 rfc822 = Some id ->
  holding mailbox e !! uid = Some body -> has_id id body ->
  rg only_appends unchanged (upsertEmail mailbox rfc822 keywords : imap _)
    (fun r e' => ur_created r = false /\ ur_adopted r = true /\ named mailbox id (ur_targetId r) e')
    (fun _ _ => True) e.
Proof.
  intros Hid Hb Hk. apply rg_bind; [apply _|]. apply rg_live. intros e1 e2 e3 He1 He2 _ He3. rewrite Hid.
  assert (H03 : only_appends e e3) by (etrans; [exact He1|]; etrans; [by apply unchanged_appends|exact He3]).
  apply rg_bind; [apply _|]. eapply rg_mono; [apply findByNaturalKey_rg| |done].
  intros [t|] e4 Hfound; [|by destruct (Hfound uid body (H03 _ _ _ Hb))].
  rewrite (named_not_empty mailbox id t e4 Hfound). apply rg_bind; [apply _|].
  eapply rg_mono; [apply (uidValidityOf_rg _ mailbox (named mailbox id t)); [exact Hfound| |]| |done].
  - intros e5 e6. apply named_appends.
  - intros e5 e6 Hn Hu. eapply named_appends; [exact Hn|by apply unchanged_appends].
  - intros version e7 Hn e8 He8. cbn. split_and!; [done..|eapply named_appends; [exact Hn|exact He8]].
Qed.

Lemma rg_unchanged {A} R (p : imap A) Q X e : rg R unchanged p Q X e -> rg R only_appends p Q X e.
Proof. apply rg_guarantee, unchanged_appends. Qed.

(** A handle names the message it stands for.  Whatever others append
    meanwhile, the UID an upload of a message returns is that of a message in
    the mailbox: the one just appended, byte for byte, or one that has its
    Message-ID.  It is never a guess. *)
Theorem handles_name_messages mailbox rfc822 keywords e :
  rg only_appends only_appends (upsertEmail mailbox rfc822 keywords : imap _)
    (fun r e' => exists uid body, ur_targetId r = pretty uid /\ holding mailbox e' !! uid = Some body /\
       (ur_created r = true /\ body = rfc822 \/
        exists id, extractMessageIdFromRfc822 rfc822 = Some id /\ has_id id body))
    (fun _ _ => True) e.
Proof.
  apply rg_bind; [apply _|]. apply rg_unchanged, rg_live. intros e1 e2 e3 _ _ _ _.
  destruct (extractMessageIdFromRfc822 rfc822) as [id|]; [|by intros e' _].
  apply rg_bind; [apply _|]. eapply rg_mono; [apply rg_unchanged, findByNaturalKey_rg| |done].
  assert (Hdone : forall t (r : UpsertResult) e4, named mailbox id t e4 -> ur_targetId r = t ->
    rg only_appends only_appends (Ret r : imap UpsertResult)
      (fun r e' => exists uid body, ur_targetId r = pretty uid /\ holding mailbox e' !! uid = Some body /\
        (ur_created r = true /\ body = rfc822 \/ exists id0, Some id = Some id0 /\ has_id id0 body))
      (fun _ _ => True) e4).
  { intros t r e4 Hn Hr e5 He5. destruct (named_appends _ _ _ _ _ Hn He5) as (uid & body & Ht & Hb & Hk).
    exists uid, body. rewrite Hr. split_and!; [done..|]. right. by exists id. }
  intros [t|] e4 Hfound.
  - rewrite (named_not_empty mailbox id t e4 Hfound). apply rg_bind; [apply _|]. apply rg_unchanged.
    eapply rg_mono; [apply (uidValidityOf_rg _ mailbox (named mailbox id t)); [exact Hfound| |]| |done].
    + intros e5 e6. apply named_appends.
    + intros e5 e6 Hn Hu. eapply named_appends; [exact Hn|by apply unchanged_appends].
    + intros version e7 Hn e8 He8. destruct (Hdone t (mkUpsertResult t false true (Some version) false false) e7 Hn eq_refl e8 He8)
        as (uid & body & Ht & Hb & Hcase). by exists uid, body.
  - simpl truthy. apply rg_bind; [apply _|]. apply rg_unchanged.
    eapply rg_mono; [apply (uidValidityOf_rg _ mailbox (fun _ => True)); done| |done]. intros version e7 _.
    apply rg_bind; [apply _|]. apply rg_command. intros e8 r s' _ Hs e9.
    assert (Ha : only_appends e8 e9).
    { intros mb u b Hb. unfold e9. simpl. replace s' with (snd (im_append mailbox rfc822 (append_flags keywords) (de_server e8)))
        by (by rewrite Hs). by apply law_append. }
    split; [exact Ha|]. intros e10 He10. destruct r as [x|[[uid|]|]]; [done| |  |by intros e11 _].
    + intros e11 He11. exists uid, rfc822. split_and!; [done| |by left]. apply He11, He10. unfold e9. simpl.
      replace s' with (snd (im_append mailbox rfc822 (append_flags keywords) (de_server e8))) by (by rewrite Hs).
      apply law_appenduid. by rewrite Hs.
    + apply rg_bind; [apply _|]. eapply rg_mono; [apply rg_unchanged, findByNaturalKey_rg| |done].
      intros [t|] e11 Hfound'; [|by intros e12 _]. rewrite (named_not_empty mailbox id t e11 Hfound').
      by apply (Hdone t).
Qed.

(** ** Removal *)

(** A UID is not given to another message. *)
Definition stays_gone (mailbox : string) (uid : Z) (e e' : Env) : Prop :=
  holding mailbox e !! uid = None -> holding mailbox e' !! uid = None.

#[export] Instance stays_gone_preorder mailbox uid : PreOrder (stays_gone mailbox uid).
Proof. split; unfold stays_gone; [by intros e|]. intros e1 e2 e3 He1 He2 Hn. by apply He2, He1. Qed.

Lemma verifyGone_rg mailbox uid e :
  rg (stays_gone mailbox uid) unchanged (verifyGone mailbox uid : imap unit)
    (fun _ e' => holding mailbox e' !! uid = None) (fun _ _ => True) e.
Proof.
  apply rg_bind; [apply _|]. apply rg_bind; [apply _|]. apply rg_live. intros e1 e2 e3 _ _ _ _.
  apply rg_bind; [apply _|]. apply rg_reads; [auto|]. intros e4 sel e5 _ _ _.
  apply rg_bind; [apply _|]. apply rg_reads; [auto|]. intros e6 [l|] e7 _ Hl He7; [|by intros e8 _].
  destruct (decide (uid ∈ l)) as [Hin|Hout].
  - intros e8 He8. rewrite bool_decide_eq_true_2 by done. by intros e9 _.
  - intros e8 He8. rewrite bool_decide_eq_false_2 by done. intros e9 He9. apply He9, He8, He7. simpl.
    rewrite (law_reads (de_server e6)) by auto. apply eq_None_not_Some. by rewrite <- (law_search _ _ _ _ Hl).
Qed.

(** A removal that is reported has happened.  On a server with MOVE or
    UIDPLUS, if [removeItem] says binned
    or deleted, the mailbox does not hold the UID any more - whatever others do
    meanwhile, as long as the UID is not given to another message. *)
Theorem reported_removal_happened number targetId expected mailbox uid e :
  has_move = true \/ im_uidplus = true -> number targetId = Some uid ->
  rg (stays_gone mailbox uid) (spares mailbox uid)
    (mail_removeItem number targetId expected (Some mailbox) : imap _)
    (fun r e' => is_Some (rr_kind r) -> holding mailbox e' !! uid = None) (fun _ _ => True) e.
Proof.
  intros Hmoves Hnum.
  assert (Hsteps : forall A B (p : imap A) (k : A -> imap B) Q, steps_in unchanged p ->
    (forall a e', rg (stays_gone mailbox uid) (spares mailbox uid) (k a) Q (fun _ _ => True) e') ->
    forall e', rg (stays_gone mailbox uid) (spares mailbox uid) (pbind p k) Q (fun _ _ => True) e').
  { intros A B p k Q Hp Hk e'. apply rg_bind; [apply _|].
    eapply rg_mono; [eapply rg_guarantee; [apply unchanged_spares|by apply rg_steps]| |done]. intros a e'' _. apply Hk. }
  assert (Hgone : forall kind e', rg (stays_gone mailbox uid) (spares mailbox uid)
    (verifyGone mailbox uid ;;; Ret (mkRemovalResult kind false) : imap RemovalResult)
    (fun r e'' => is_Some (rr_kind r) -> holding mailbox e'' !! uid = None) (fun _ _ => True) e').
  { intros kind e'. apply rg_bind; [apply _|].
    eapply rg_mono; [eapply rg_guarantee; [apply unchanged_spares|apply verifyGone_rg]| |done].
    intros u0 e1 He1 e2 He2 _. by apply He2. }
  unfold mail_removeItem. apply Hsteps; [auto|]. intros _ e1. rewrite Hnum.
  destruct (truthy (Some mailbox)) as [m|] eqn:Hm; [|by intros e' _].
  assert (m = mailbox) as -> by (unfold truthy in Hm; case_decide; congruence).
  case_decide; [by intros e' _|]. apply Hsteps; [apply uidValidityOf_unchanged|]. intros version e2.
  destruct (match expected with Some _ => _ | None => _ end); [by intros e' _|].
  apply Hsteps; [apply uidExists_unchanged|]. intros [] e3; [|by intros e' _ [? ?]].
  apply Hsteps; [apply steps_in_bind; [apply listMailboxes_unchanged|done]|]. intros bin e4.
  destruct (other_than mailbox (truthy bin)) as [b|].
  - apply Hsteps; [auto|]. intros _ e5. apply rg_bind; [apply _|]. apply rg_command. intros e6 r s' _ Hs e7. split.
    { intros mb u x Hne. simpl. replace s' with (snd (im_move mailbox uid b (de_server e6))) by (by rewrite Hs). by apply law_move. }
    intros e8 _. destruct r as [|[]]; [done|apply Hgone|by intros e' _].
  - destruct im_uidplus eqn:Hplus; [|by intros e' _]. cbn [negb]. apply Hsteps; [auto|]. intros _ e5.
    apply rg_bind; [apply _|]. apply rg_command. intros e6 r s' _ Hs e7. split.
    { intros mb u x Hne. simpl. replace s' with (snd (im_delete mailbox uid (de_server e6))) by (by rewrite Hs). by apply law_delete. }
    intros e8 _. destruct r as [|[]]; [done|apply Hgone|by intros e' _].
Qed.

(** Two states in which a mailbox is the same incarnation. *)
Definition same_validity (mailbox : string) (e e' : Env) : Prop :=
  validity mailbox (de_server e') = validity mailbox (de_server e).

#[export] Instance same_validity_preorder mailbox : PreOrder (same_validity mailbox).
Proof. split; unfold same_validity; [done|]. intros e1 e2 e3 He1 He2. by rewrite He2. Qed.

Lemma rg_live_same mailbox (Q : unit -> Env -> Prop) e :
  (forall e', same_validity mailbox e e' -> Q tt e') ->
  rg (same_validity mailbox) unchanged (live : imap unit) Q (fun _ _ => True) e.
Proof.
  intros HQ. apply rg_live. intros e1 e2 e3 He1 _ [Hs|Hs] He3; apply HQ; etrans; [exact He1| |exact He1|]; (etrans; [|exact He3]);
    unfold same_validity; rewrite Hs; [done|apply law_connect].
Qed.

(** C23: a stale handle removes nothing.  When the mailbox has another
    UIDVALIDITY than the one on record - it was recreated, and every UID may
    name another message - the removal fails, and no message came or went by
    its doing, as long as nobody recreates the mailbox under it again. *)
Theorem stale_handle_removes_nothing number targetId recorded mailbox e :
  recorded <> pretty (validity mailbox (de_server e)) ->
  rg (same_validity mailbox) unchanged
    (mail_removeItem number targetId (Some recorded) (Some mailbox) : imap _)
    (fun _ _ => False) (fun _ _ => True) e.
Proof.
  intros Hstale. apply rg_bind; [apply _|]. apply rg_live_same. intros e1 He1.
  destruct (truthy (Some mailbox)) as [m|] eqn:Hm; [|by intros e' _].
  assert (m = mailbox) as -> by (unfold truthy in Hm; case_decide; congruence).
  destruct (number targetId) as [uid|]; [|by intros e' _]. case_decide; [by intros e' _|].
  apply rg_bind; [apply _|].
  eapply (rg_mono _ _ _ (fun v _ => v = pretty (validity mailbox (de_server e)))); [|intros v e2 -> |done].
  - apply rg_bind; [apply _|]. apply rg_live_same. intros e2 He2. apply rg_bind; [apply _|].
    eapply (rg_mono _ _ _ (fun b _ => from_option (fun s => sel_uidValidity s = validity mailbox (de_server e)) True b)); [| |done].
    + apply rg_reads; [auto using reads_select|]. intros e3 [sel|] e4 He3 Hsel _; [|done]. simpl.
      rewrite (law_select _ _ _ Hsel). unfold same_validity in *. congruence.
    + intros [sel|] e3 Hsel; [|by intros e' _]. intros e4 _. simpl in Hsel. by rewrite Hsel.
  - destruct (String.eqb_spec recorded (pretty (validity mailbox (de_server e)))) as [|_]; [done|]. by intros e' _.
Qed.
End frames.
