(* ===== verification/ImapSource.v ===== *)
(** * The IMAP source ([packages/connectors/src/imapflow-source.ts])

    The reader over [imapflow], a library: [ImapReader] has the calls the code
    makes, each what the server - or the token provider - does with it.  Every
    operation opens a connection of its own.  A message's date is given as the
    text [toISOString] makes of it.  The lock and the pauses between attempts
    are left out, and of the messages what no program reads. *)

From stdpp Require Import pretty.
From S2P Require Import Prelude Prog Keys Dav DavText MessageId ImapText ImapTarget.
From Stdlib Require Import Ascii.

Open Scope Z_scope.
#[local] Open Scope string_scope.

(** An [Error], with the [code] Node's TLS layer sets. *)
Record ImapError := mkImapError { ie_message : string; ie_code : option string }.

Definition error (message : string) : ImapError := mkImapError message None.

Definition isAuthError (e : ImapError) : bool :=
  let message := lower (ie_message e) in
  existsb (fun s => defined (String.index 0 s message))
    ["authentication failed"; "authenticationfailed"; "unauthorized"; "xoauth2"; "invalid token"; "token expired"; "401"].

Definition certificate_codes : list string :=
  ["DEPTH_ZERO_SELF_SIGNED_CERT"; "SELF_SIGNED_CERT_IN_CHAIN"; "UNABLE_TO_VERIFY_LEAF_SIGNATURE";
   "UNABLE_TO_GET_ISSUER_CERT"; "UNABLE_TO_GET_ISSUER_CERT_LOCALLY"; "CERT_HAS_EXPIRED"; "ERR_TLS_CERT_ALTNAME_INVALID"].

Definition isCertificateError (e : ImapError) : bool :=
  match ie_code e with
  | Some code => bool_decide (code ∈ certificate_codes)
  | None => false
  end
  || existsb (fun s => defined (String.index 0 s (lower (ie_message e))))
       ["self-signed certificate"; "self signed certificate"; "unable to verify the first certificate"; "certificate has expired"].

(** ** Listings *)

(** What [client.mailbox] said at the selection and [fetchAll] then answered. *)
Record Snapshot := mkSnapshot { sn_box : Selected; sn_messages : list Fetched }.

(** [box.uidNext || 1] *)
Definition uid_next (box : Selected) : Z := if decide (sel_uidNext box = 0) then 1 else sel_uidNext box.

(** [cursorUidNext]; a cursor of another incarnation, or none that can be read,
    asks for a full scan. *)
Definition cursor_uid (box : Selected) (cursor : option string) : option Z :=
  match option_bind _ _ decodeImapCursor cursor with
  | Some (v, n) => if decide (v = sel_uidValidity box) then Some n else None
  | None => None
  end.

Definition beyond (from : option Z) (msg : Fetched) : Prop :=
  match from with Some n => n <= ft_uid msg | None => True end.

#[export] Instance beyond_dec from msg : Decision (beyond from msg).
Proof. unfold beyond. destruct from; apply _. Defined.

Definition item_of (now : string) (folder : MailFolder) (msg : Fetched) : MailItem :=
  mkMailItem (nullish (messageIdFromEnvelopeValue (ft_messageId msg)) "") folder
    (mapImapFlagsToKeywords (ft_flags msg)) (nullish (ft_internalDate msg) now) (ft_size msg)
    (mf_path folder ++ ":" ++ pretty (ft_uid msg)).

Definition next_uid (maxUidNext : Z) (msg : Fetched) : Z :=
  if decide (maxUidNext < ft_uid msg) then ft_uid msg + 1 else maxUidNext.

Record MailListing := mkMailListing {
  ml_items : list MailItem;
  ml_nextCursor : string;
  ml_unkeyable : Z;
  (** Never here: IMAP reports no removals. *)
  ml_removed : option (list string)
}.

(** What is listed of the messages fetched. *)
Definition listed (cursor : option string) (sn : Snapshot) : list Fetched :=
  base.filter (beyond (cursor_uid (sn_box sn) cursor)) (sn_messages sn).

Definition next_cursor (cursor : option string) (sn : Snapshot) : Z :=
  fold_left next_uid (listed cursor sn) (nullish (cursor_uid (sn_box sn) cursor) (uid_next (sn_box sn))).

Definition keyless (msg : Fetched) : Prop := messageIdFromEnvelopeValue (ft_messageId msg) = None.

#[export] Instance keyless_dec msg : Decision (keyless msg).
Proof. unfold keyless. apply _. Defined.

Definition listing (now : string) (folder : MailFolder) (cursor : option string) (sn : Snapshot) : MailListing :=
  mkMailListing (item_of now folder <$> listed cursor sn)
    (encodeImapCursor (sel_uidValidity (sn_box sn)) (next_cursor cursor sn))
    (Z.of_nat (length (base.filter keyless (listed cursor sn)))) None.

(** ** The connection *)

Class ImapReader (Srv : Type) := {
  ir_getToken : Srv -> (ImapError + string) * Srv;
  ir_refresh : Srv -> (ImapError + unit) * Srv;
  (** The login, with the token the options carry. *)
  ir_connect : option string -> Srv -> (ImapError + unit) * Srv;
  (** [logout], or else [close]; what they reject is swallowed. *)
  ir_close : Srv -> Srv;
  ir_list : Srv -> (ImapError + list Box) * Srv;
  ir_mailboxOpen : string -> Srv -> (ImapError + unit) * Srv;
  ir_select : string -> Srv -> (ImapError + option Selected) * Srv;
  ir_fetchAll : Srv -> (ImapError + list Fetched) * Srv;
  (** [None] for [false]; inside, the source, when it came. *)
  ir_fetchOne : Z -> Srv -> (ImapError + option (option string)) * Srv;
  (** [new Date().toISOString()] *)
  ir_now : Srv -> string
}.

Inductive AuthType := LOGIN | XOAUTH2.

#[export] Instance AuthType_eq_dec : EqDecision AuthType.
Proof. solve_decision. Defined.

Record ImapSourceConfig := mkImapSourceConfig {
  ic_host : string;
  ic_port : Z;
  ic_authType : option AuthType;
  ic_accessToken : option string;
  ic_tokenProvider : bool
}.

Section source.
Context {Srv : Type} `{ImapReader Srv}.
Variable config : ImapSourceConfig.

Abbreviation imap := (prog Srv ImapError).

Definition oauth : Prop := ic_authType config = Some XOAUTH2.

(** The message of a refused certificate, shortened. *)
Definition certificate_refused (e : ImapError) : ImapError :=
  error ("The IMAP server at " ++ ic_host config ++ ":" ++ pretty (ic_port config)
         ++ " presented a certificate that failed verification: " ++ ie_message e).

Definition connect : imap unit :=
  let! accessToken :=
    if decide (ic_tokenProvider config = true /\ oauth) then let! token := try_act ir_getToken in Ret (Some token)
    else Ret (ic_accessToken config) in
  pcatch (try_act (ir_connect (if decide oauth then truthy accessToken else None)))
    (fun e => if isCertificateError e then Throw (certificate_refused e) else Throw e).

Definition closeQuietly : imap unit := upd ir_close.

(** [try { p } finally { await closeQuietly(client) }] *)
Definition closing {A} (p : imap A) : imap A :=
  let! a := pcatch p (fun e => closeQuietly ;;; Throw e) in closeQuietly ;;; Ret a.

Definition withConnection {A} (operation : imap A) : imap A :=
  connect ;;;
  closing (pcatch operation (fun e =>
    if isAuthError e && ic_tokenProvider config then
      closeQuietly ;;;
      try_act ir_refresh ;;;
      connect ;;;
      closing operation
    else Throw e)).

Definition listFoldersInternal : imap (list MailFolder) :=
  let! boxes := try_act ir_list in
  match boxes with
  | [] =>
      pcatch (try_act (ir_mailboxOpen "INBOX") ;;; Ret [mkMailFolder "INBOX" (Some "INBOX") su_inbox None])
        (fun _ => Throw (error "IMAP LIST returned no mailboxes and INBOX cannot be opened"))
  | _ => Ret ((fun box => mkMailFolder (bx_path box) (Some (bx_name box)) (mapImapSpecialUse (bx_flags box))
                            (Some (bx_flags box))) <$> boxes)
  end.

Definition listSinceInternal (folder : MailFolder) (cursor : option string) : imap MailListing :=
  let! box := try_act (ir_select (mf_path folder)) in
  match box with
  | None => Throw (error "No mailbox opened")
  | Some box =>
      let! messages := if decide (sel_exists box = 0) then Ret [] else try_act ir_fetchAll in
      let! now := act (fun s => (ir_now s, s)) in
      Ret (listing now folder cursor (mkSnapshot box messages))
  end.

(** The loop of [fetchInternal], with [attempts] left. *)
Fixpoint ask_for (uid : Z) (attempts : nat) : imap (option (option string)) :=
  match attempts with
  | O => Ret None
  | S attempts' =>
      let! message := try_act (ir_fetchOne uid) in
      match message with Some m => Ret (Some m) | None => ask_for uid attempts' end
  end.

Definition FETCH_ATTEMPTS : nat := 3.

Definition fetchInternal (item : MailItem) : imap RawMessage :=
  try_act (ir_select (mf_path (mi_folder item))) ;;;
  let! message := ask_for (uidFromSourceRef (mi_sourceRef item)) FETCH_ATTEMPTS in
  match message with
  | None => Throw (error ("Message not found: " ++ mi_sourceRef item))
  | Some None => Throw (error ("No body found for message: " ++ mi_sourceRef item))
  | Some (Some source) => Ret (mkRawMessage item source)
  end.

Definition mail_listFolders : imap (list MailFolder) := withConnection listFoldersInternal.

Definition mail_listSince (folder : MailFolder) (cursor : option string) : imap MailListing :=
  withConnection (listSinceInternal folder cursor).

Definition mail_fetch (item : MailItem) : imap RawMessage := withConnection (fetchInternal item).
End source.

(** ** Nothing falls between two listings *)

(** UIDs are positive 32-bit numbers, [exists] is zero for an empty mailbox. *)
Record sound (sn : Snapshot) : Prop := {
  so_validity : 0 <= sel_uidValidity (sn_box sn);
  so_next : 0 < sel_uidNext (sn_box sn);
  so_uids msg : msg ∈ sn_messages sn -> 0 < ft_uid msg
}.

(** RFC 3501 §2.3.1.1: as long as a mailbox keeps its UIDVALIDITY, a message
    that came since the last look has a UID not below the UIDNEXT of then, nor
    one below any message seen then; and UIDNEXT grows past them all. *)
Record follows (sn sn' : Snapshot) : Prop := {
  fo_same : sel_uidValidity (sn_box sn') = sel_uidValidity (sn_box sn) -> sel_uidNext (sn_box sn) <= sel_uidNext (sn_box sn');
  fo_past msg : sel_uidValidity (sn_box sn') = sel_uidValidity (sn_box sn) -> msg ∈ sn_messages sn ->
    ft_uid msg < sel_uidNext (sn_box sn');
  fo_new msg : sel_uidValidity (sn_box sn') = sel_uidValidity (sn_box sn) -> msg ∈ sn_messages sn' ->
    (exists msg0, msg0 ∈ sn_messages sn /\ ft_uid msg0 = ft_uid msg) \/
    sel_uidNext (sn_box sn) <= ft_uid msg /\ forall msg0, msg0 ∈ sn_messages sn -> ft_uid msg0 < ft_uid msg
}.

(** A message, as a reader names it: the mailbox's incarnation and the UID. *)
Definition handle (sn : Snapshot) (msg : Fetched) : Z * Z := (sel_uidValidity (sn_box sn), ft_uid msg).

(** Pass after pass: each lists with the cursor of the pass before it.  The
    handles that were listed, latest first, and the cursor in the end. *)
Fixpoint passes (now : string) (folder : MailFolder) (history : list Snapshot) : list (Z * Z) * option string :=
  match history with
  | [] => ([], None)
  | sn :: earlier =>
      let '(seen, cursor) := passes now folder earlier in
      ((handle sn <$> listed cursor sn) ++ seen, Some (ml_nextCursor (listing now folder cursor sn)))%list
  end.

Fixpoint grows (history : list Snapshot) : Prop :=
  match history with
  | [] => True
  | sn :: earlier =>
      sound sn /\ match earlier with sn0 :: _ => follows sn0 sn | [] => True end /\ grows earlier
  end.

Lemma next_uid_bound msgs n k :
  n <= k -> (forall msg, msg ∈ msgs -> ft_uid msg < k) -> fold_left next_uid msgs n <= k.
Proof.
  revert n; induction msgs as [|msg msgs IH]; intros n Hn Hm; [done|]. cbn. apply IH.
  - unfold next_uid. case_decide; [|done]. specialize (Hm msg ltac:(set_solver)). lia.
  - intros m Hin. apply Hm. set_solver.
Qed.

Lemma next_uid_positive msgs n : 0 < n -> (forall msg, msg ∈ msgs -> 0 < ft_uid msg) -> 0 < fold_left next_uid msgs n.
Proof.
  revert n; induction msgs as [|msg msgs IH]; intros n Hn Hm; [done|]. cbn. apply IH; [|set_solver].
  unfold next_uid. case_decide; [|done]. specialize (Hm msg ltac:(set_solver)). lia.
Qed.

Lemma listed_fetched cursor sn msg : msg ∈ listed cursor sn -> msg ∈ sn_messages sn.
Proof. by intros [_ ?]%list_elem_of_filter. Qed.

Definition from_positive (cursor : option string) (sn : Snapshot) : Prop :=
  match cursor_uid (sn_box sn) cursor with Some n => 0 < n | None => True end.

Lemma next_cursor_positive cursor sn : sound sn -> from_positive cursor sn -> 0 < next_cursor cursor sn.
Proof.
  intros [Hv Hn Hu] Hc. apply next_uid_positive; [|eauto using listed_fetched].
  unfold from_positive, uid_next in *. destruct (cursor_uid _ _); cbn; [done|]. case_decide; lia.
Qed.

(** The cursor a listing ends with is not above what comes next. *)
Lemma next_cursor_bound cursor sn k :
  sound sn -> match cursor_uid (sn_box sn) cursor with Some n => n <= k | None => True end ->
  sel_uidNext (sn_box sn) <= k -> (forall msg, msg ∈ sn_messages sn -> ft_uid msg < k) ->
  next_cursor cursor sn <= k.
Proof.
  intros [Hv Hn Hu] Hc Hk Hm. apply next_uid_bound; [|eauto using listed_fetched].
  unfold uid_next. destruct (cursor_uid _ _); cbn; [done|]. case_decide; lia.
Qed.

(** The cursor of a pass is read by the next one, in the same incarnation. *)
Lemma cursor_uid_next now folder cursor sn box :
  0 <= sel_uidValidity (sn_box sn) -> 0 <= next_cursor cursor sn ->
  cursor_uid box (Some (ml_nextCursor (listing now folder cursor sn))) =
    if decide (sel_uidValidity (sn_box sn) = sel_uidValidity box) then Some (next_cursor cursor sn) else None.
Proof. intros Hv Hn. unfold cursor_uid, listing. cbn. by rewrite cursor_comes_back. Qed.

Lemma passes_invariant now folder sn earlier :
  grows (sn :: earlier) ->
  (forall msg, msg ∈ sn_messages sn -> handle sn msg ∈ fst (passes now folder (sn :: earlier))) /\
  exists cursor, snd (passes now folder (sn :: earlier)) = Some (ml_nextCursor (listing now folder cursor sn)) /\
    0 < next_cursor cursor sn /\
    forall k, sel_uidNext (sn_box sn) <= k -> (forall msg, msg ∈ sn_messages sn -> ft_uid msg < k) ->
      next_cursor cursor sn <= k.
Proof.
  revert sn; induction earlier as [|sn0 earlier IH]; intros sn (Hs & Hf & Hg).
  - split.
    + intros msg Hmsg. cbn. apply elem_of_app. left. apply list_elem_of_fmap_2. by apply list_elem_of_filter.
    + exists None. split_and!; [done|by apply next_cursor_positive|]. intros k. by apply next_cursor_bound.
  - destruct (IH sn0 Hg) as (Hseen & cursor0 & Hc0 & Hn & Hb0). destruct Hg as (Hs0 & _ & _).
    pose proof Hf as [Hsame Hpast Hnew].
    change (passes now folder (sn :: sn0 :: earlier)) with
      (let '(seen, cursor) := passes now folder (sn0 :: earlier) in
       ((handle sn <$> listed cursor sn) ++ seen, Some (ml_nextCursor (listing now folder cursor sn)))%list).
    destruct (passes now folder (sn0 :: earlier)) as [seen cursor] eqn:Hp. cbn [fst snd] in *. subst cursor.
    assert (Hcu := cursor_uid_next now folder cursor0 sn0 (sn_box sn) (so_validity _ Hs0) ltac:(lia)).
    split.
    + intros msg Hmsg. apply elem_of_app. destruct (decide (beyond (cursor_uid (sn_box sn)
        (Some (ml_nextCursor (listing now folder cursor0 sn0)))) msg)) as [Hbe|Hbe].
      { left. apply list_elem_of_fmap_2. by apply list_elem_of_filter. }
      right. rewrite Hcu in Hbe. case_decide as Hv; [|done]. cbn in Hbe.
      destruct (Hnew msg (eq_sym Hv) Hmsg) as [(msg0 & Hm0 & Hu)|[Hlow Habove]].
      * specialize (Hseen _ Hm0). unfold handle in *. by rewrite Hu, Hv in Hseen.
      * specialize (Hb0 _ Hlow Habove). lia.
    + eexists. split_and!; [done| |].
      { apply next_cursor_positive; [done|]. unfold from_positive. rewrite Hcu. by case_decide. }
      intros k Hk Hm. apply next_cursor_bound; [done| |done|done].
      rewrite Hcu. case_decide as Hv; [|done]. apply Hb0.
      * specialize (Hsame (eq_sym Hv)). lia.
      * intros msg0 Hm0. specialize (Hpast _ (eq_sym Hv) Hm0). lia.
Qed.

(** C19: a folder listed pass after pass misses nothing.  Let every pass list a
    folder with the cursor the pass before it stored, the first with none, and
    let the mailbox grow between them - within one look too - as RFC 3501 says,
    messages leaving it and the whole mailbox recreated as may be.  Then every
    message the last look fetched was listed by some pass, as the message it
    is: with its UID and the UIDVALIDITY it belongs to. *)
Theorem no_message_falls_between now folder sn earlier msg :
  grows (sn :: earlier) -> msg ∈ sn_messages sn -> handle sn msg ∈ fst (passes now folder (sn :: earlier)).
Proof. intros Hg. by apply passes_invariant. Qed.

(** ** What is fetched is what was listed *)

(** A call that reads. *)
Inductive looks {Srv} `{ImapReader Srv} (s : Srv) : Srv -> Prop :=
| looks_token : looks s (snd (ir_getToken s))
| looks_refresh : looks s (snd (ir_refresh s))
| looks_connect token : looks s (snd (ir_connect token s))
| looks_close : looks s (ir_close s)
| looks_select mailbox : looks s (snd (ir_select mailbox s))
| looks_fetchOne uid : looks s (snd (ir_fetchOne uid s)).

(** [opened]: the mailbox the connection has selected; [contents]: the messages
    of a mailbox. *)
Class ImapReaderServer (Srv : Type) `{ImapReader Srv} := {
  opened : Srv -> option string;
  contents : string -> Srv -> gmap Z string;
  law_looks s s' mailbox : looks s s' -> contents mailbox s' = contents mailbox s;
  (** RFC 3501 §6.3.1 *)
  law_opens mailbox s box : fst (ir_select mailbox s) = inr box -> opened (snd (ir_select mailbox s)) = Some mailbox;
  law_stays_open uid s : opened (snd (ir_fetchOne uid s)) = opened s;
  (** RFC 3501 §6.4.5 *)
  law_source uid s mailbox source : opened s = Some mailbox -> fst (ir_fetchOne uid s) = inr (Some (Some source)) ->
    contents mailbox s !! uid = Some source
}.

Section fetching.
Context {Srv : Type} `{RS : ImapReaderServer Srv}.
Variable config : ImapSourceConfig.

Abbreviation imap := (prog Srv ImapError).

(** Others deliver; the connection is the reader's own. *)
Definition delivered (s s' : Srv) : Prop :=
  opened s' = opened s /\ forall mailbox uid b, contents mailbox s !! uid = Some b -> contents mailbox s' !! uid = Some b.

Definition unread (s s' : Srv) : Prop := forall mailbox, contents mailbox s' = contents mailbox s.

#[export] Instance delivered_preorder : PreOrder delivered.
Proof. split; [done|]. intros s1 s2 s3 [Ho1 Hc1] [Ho2 Hc2]. split; [by rewrite Ho2|auto]. Qed.

#[export] Instance unread_preorder : PreOrder unread.
Proof. split; [done|]. intros s1 s2 s3 H1 H2 mailbox. by rewrite H2. Qed.

Lemma unread_step {A} (f : Srv -> (ImapError + A) * Srv) :
  (forall s, looks s (snd (f s))) -> steps_in unread (try_act f : imap A).
Proof. intros Hf. apply steps_in_try. intros s mailbox. by apply law_looks. Qed.

#[local] Hint Resolve unread_step : core.
#[local] Hint Constructors looks : core.

Lemma connect_unread : steps_in unread (connect config : imap unit).
Proof.
  apply steps_in_bind.
  - case_decide; [|done]. apply steps_in_bind; [auto|done].
  - intros token. apply steps_in_catch; [auto|]. intros e. by destruct (isCertificateError e).
Qed.

Lemma closeQuietly_unread : steps_in unread (closeQuietly : imap unit).
Proof. apply steps_in_upd. intros s mailbox. apply law_looks. constructor. Qed.

(** The message asked for, as it stands in the mailbox. *)
Definition stands (mailbox : string) (uid : Z) (source : string) (s : Srv) : Prop :=
  contents mailbox s !! uid = Some source.

Definition fetched_as (mailbox : string) (uid : Z) (item : MailItem) (raw : RawMessage) (s : Srv) : Prop :=
  rm_item raw = item /\ stands mailbox uid (rm_rfc822 raw) s.

Lemma fetched_as_stable mailbox uid item raw s s' :
  fetched_as mailbox uid item raw s -> delivered s s' \/ unread s s' -> fetched_as mailbox uid item raw s'.
Proof. intros [Hi Hs] [[_ Hd]|Hu]; (split; [done|]); [by apply Hd|unfold stands; by rewrite Hu]. Qed.

(** After a step that reads. *)
Lemma rg_look {A B} (p : imap A) (k : A -> imap B) Q X s :
  steps_in unread p -> (forall a s', rg delivered unread (k a) Q X s') -> (forall e s', X e s') ->
  rg delivered unread (pbind p k) Q X s.
Proof.
  intros Hp Hk HX. apply rg_bind; [apply _|].
  eapply rg_mono; [by apply (rg_steps delivered)| |done]. intros a s' _. apply Hk.
Qed.
Abbreviation any := (fun (_ : ImapError) (_ : Srv) => True).

Definition settled {A} (Q : A -> Srv -> Prop) : Prop :=
  forall a s s', Q a s -> delivered s s' \/ unread s s' -> Q a s'.

Lemma closing_rg {A} (p : imap A) Q s :
  settled Q -> rg delivered unread p Q any s -> rg delivered unread (closing p) Q any s.
Proof.
  intros HQ Hp. apply rg_bind; [apply _|]. apply rg_catch; [apply _|]. eapply rg_mono; [exact Hp| |].
  - intros a s1 Ha s2 Hs2. cbn. split; [intros m; apply law_looks; constructor|].
    intros s3 Hs3. eapply HQ; [|by left]. eapply HQ; [|right; intros m; apply law_looks; constructor].
    eapply HQ; [exact Ha|by left].
  - intros e s1 _. apply rg_look; [apply closeQuietly_unread| |done]. by intros u s2 s3 _.
Qed.

Lemma withConnection_rg {A} (operation : imap A) Q s :
  settled Q -> (forall s', rg delivered unread operation Q any s') ->
  rg delivered unread (withConnection config operation) Q any s.
Proof.
  intros HQ Hop. apply rg_look; [apply connect_unread| |done]. intros u s1. apply closing_rg; [done|].
  apply rg_catch; [apply _|]. eapply rg_mono; [apply Hop|done|]. intros e s2 _.
  destruct (isAuthError e && ic_tokenProvider config); [|by intros s3 _].
  apply rg_look; [apply closeQuietly_unread| |done]. intros u2 s3.
  apply rg_look; [auto| |done]. intros u3 s4. apply rg_look; [apply connect_unread| |done]. intros u4 s5.
  by apply closing_rg.
Qed.

Lemma ask_for_rg mailbox uid attempts s :
  opened s = Some mailbox ->
  rg delivered unread (ask_for uid attempts : imap _)
    (fun r s' => match r with Some (Some source) => stands mailbox uid source s' | _ => True end) any s.
Proof.
  revert s; induction attempts as [|attempts IH]; intros s Ho; [by intros s' _|].
  apply rg_bind; [apply _|]. apply rg_try. intros s1 r s2 [Ho1 _] Hf. split.
  { intros m. pose proof (law_looks s1 s2 m) as Hl. apply Hl. replace s2 with (snd (ir_fetchOne uid s1)) by by rewrite Hf. auto. }
  intros s3 [Ho3 Hc3]. destruct r as [|[m|]]; [done| |].
  - intros s4 [_ Hc4]. destruct m as [source|]; [|done]. apply Hc4, Hc3.
    replace s2 with (snd (ir_fetchOne uid s1)) by by rewrite Hf. rewrite (law_looks s1) by auto.
    apply law_source; [by rewrite Ho1|by rewrite Hf].
  - apply IH. rewrite Ho3. replace s2 with (snd (ir_fetchOne uid s1)) by by rewrite Hf. by rewrite law_stays_open, Ho1.
Qed.

Lemma fetchInternal_rg item s :
  rg delivered unread (fetchInternal item : imap _)
    (fetched_as (mf_path (mi_folder item)) (uidFromSourceRef (mi_sourceRef item)) item) any s.
Proof.
  apply rg_bind; [apply _|]. apply rg_try. intros s1 r s2 _ Hf.
  replace s2 with (snd (ir_select (mf_path (mi_folder item)) s1)) by by rewrite Hf.
  split; [intros m; apply law_looks; auto|]. intros s3 [Ho3 _]. destruct r as [|box]; [done|].
  apply rg_bind; [apply _|]. eapply rg_mono; [apply ask_for_rg| |done].
  - rewrite Ho3. apply (law_opens _ _ box). by rewrite Hf.
  - intros [[source|]|] s4 Hs; [|by intros s5 _..]. intros s5 [_ Hc]. split; [done|by apply Hc].
Qed.

(** C20: what is fetched is what was listed.  For a message a listing of a
    folder reports, whatever is delivered meanwhile and whether or not the
    token had to be refreshed, the fetch answers with the bytes the mailbox of
    that folder has under the UID that was listed, and with the item as it was
    given; otherwise it fails, and never makes up an empty message. *)
Theorem fetch_answers_what_was_listed now folder cursor sn msg s :
  0 <= ft_uid msg -> msg ∈ listed cursor sn ->
  exists item, item ∈ ml_items (listing now folder cursor sn) /\
    rg delivered unread (mail_fetch config item)
      (fun raw s' => rm_item raw = item /\ contents (mf_path folder) s' !! ft_uid msg = Some (rm_rfc822 raw))
      (fun _ _ => True) s.
Proof.
  intros Hu Hmsg. exists (item_of now folder msg). split; [by apply list_elem_of_fmap_2|].
  apply (withConnection_rg _ (fetched_as (mf_path folder) (ft_uid msg) (item_of now folder msg)));
    [intros raw s1 s2; apply fetched_as_stable|]. intros s'.
  pose proof (fetchInternal_rg (item_of now folder msg) s') as Hr. cbn [item_of mi_folder mi_sourceRef] in Hr.
  rewrite uid_comes_back in Hr by done. exact Hr.
Qed.
End fetching.
