(* ===== verification/DavSync.v ===== *)
(** * Calendars, contacts and files through the engine
    ([packages/core/src/dav-sync.ts])

    [runCalendarSync], [runContactSync] and [runFileSync]: the engine of
    [DomainSync] with a source and one of the DAV writers.  The source is the
    functions of its port over a state of its own; the environment of a pass is
    the writer's and the source's. *)

From S2P Require Import Prelude Prog Concurrency Keys Ports Dav DavText DavWriter Detectors DomainSync CollectionWriter WebdavWriter.
From S2P Require Import DomainSyncInvariants DomainSyncSafety DomainSyncSettles DomainSyncIdempotence.
From S2P Require ApplyDeletion.

Open Scope Z_scope.
#[local] Open Scope string_scope.

Record SyncEnv (Srv Memo X : Type) := mkSyncEnv { se_target : DavEnv Srv Memo; se_source : X }.
Arguments mkSyncEnv {Srv Memo X} _ _.
Arguments se_target {Srv Memo X} _.
Arguments se_source {Srv Memo X} _.

#[export] Instance eta_SyncEnv Srv Memo X : Eta (SyncEnv Srv Memo X) := fun e => mkSyncEnv (se_target e) (se_source e).

(** [RawCalendarEvent], [RawContact] *)
Record CollectionItem := mkCollectionItem {
  ci_uid : string;
  ci_recurrenceId : option string;
  ci_etag : option string;
  ci_sourcePath : option string;
  ci_text : string
}.

(** [FileItem], with the content a listing may carry. *)
Record FileItem := mkFileItem {
  fi_path : string;
  fi_mimeType : option string;
  fi_size : option Z;
  fi_etag : option string;
  fi_sourceRef : option string;
  fi_content : option string
}.

(** [CalendarSource], [ContactSource], [FileSource] *)
Record Source (X Item : Type) := mkSource {
  so_listFolders : X -> (string + list Folder) * X;
  so_listSince : Folder -> option string -> X -> (string + Listing Item) * X
}.
Arguments so_listFolders {X Item} _ _.
Arguments so_listSince {X Item} _ _ _ _.

Record TrashListing := mkTrashListing { tl_paths : list string; tl_unnameable : Z; tl_reason : option string }.

Record FileSource (X : Type) := mkFileSource {
  fs_source : Source X FileItem;
  fs_fetch : FileItem -> X -> (string + option string) * X;
  fs_listKeys : option (Folder -> X -> (string + list string) * X);
  fs_listTrashedPaths : option (X -> (string + TrashListing) * X)
}.
Arguments fs_source {X} _.
Arguments fs_fetch {X} _ _ _.
Arguments fs_listKeys {X} _.
Arguments fs_listTrashedPaths {X} _.

(** The fields the three share. *)
Record SyncDeps := mkSyncDeps {
  sd_tenantId : TenantId;
  sd_mappingId : MappingId;
  sd_cursors : bool;
  sd_concurrency : option Z;
  sd_failOnCollision : bool;
  sd_targetFolderPrefix : option string
}.

Section env.
Context {L Srv Memo X : Type}.

Abbreviation Env := (SyncEnv Srv Memo X).

Definition from_source {A} (f : X -> (string + A) * X) (e : Env) : (string + A) * Env :=
  let '(r, x) := f (se_source e) in (r, e <| se_source := x |>).

Definition at_target {A} (p : prog Srv string A) (e : Env) : (string + A) * Env :=
  let '(r, s) := run p (de_server (se_target e)) in (r, e <| se_target ::= fun t => t <| de_server := s |> |>).

Definition by_writer {A} (p : prog (L * DavEnv Srv Memo) string A) : prog (L * Env) string A :=
  plift (fun w => (w.1, se_target w.2)) (fun v w => (v.1, w.2 <| se_target := v.2 |>)) p.
End env.

(** The answer of a call, turned. *)
Definition mapped {A B X} (g : A -> B) (r : (string + A) * X) : (string + B) * X :=
  (match r.1 with inl e => inl e | inr a => inr (g a) end, r.2).

Section sync.
Context {L Srv X : Type} `{Ledger L} `{HttpClient Srv}.
Variables (pf : Platform) (sd : SyncDeps).

Abbreviation rt := (pf_runtime pf).
Abbreviation source_call f := (from_source (Srv:=Srv) (Memo:=RootMemo) f).

(** [runCalendarSync] and [runContactSync]: the dependencies they pass on. *)
Definition collection_sync (fl : Flavour) (cfg : DavConfig) (naturalKey : CollectionItem -> string)
    (source : Source X CollectionItem)
    : DomainSyncDeps L (SyncEnv Srv CollectionKeys X) CollectionItem CollectionItem :=
  {| ds_tenantId := sd_tenantId sd; ds_mappingId := sd_mappingId sd; ds_domain := fl_itemType fl;
     ds_cursors := sd_cursors sd; ds_concurrency := sd_concurrency sd;
     ds_listFolders := from_source (so_listFolders source);
     ds_listSince := fun folder cursor => from_source (so_listSince source folder cursor);
     ds_fetchRaw := fun item e => (inr (item, Z.of_nat (String.length (ci_text item))), e);
     ds_upsert := fun collectionId raw _ options =>
       by_writer (upsertItem pf fl cfg (sd_tenantId sd) (sd_mappingId sd) collectionId (ci_text raw) options);
     ds_sourceVersion := ci_etag;
     ds_sourceRef := ci_sourcePath;
     ds_naturalKey := fun item => Some (naturalKey item);
     ds_listCollectionKeys := None; ds_listDiscardedKeys := None; ds_naturalKeyFromRaw := None;
     ds_contentHash := fun raw => fl_contentHash fl pf (ci_text raw);
     ds_failOnCollision := sd_failOnCollision sd;
     ds_ensureCollection := fun folder => at_target (ensureCollection pf fl cfg folder);
     ds_now := fun e => de_now (se_target e) |}.

Definition calendar_key (item : CollectionItem) : string :=
  naturalKeyForCalendar rt (ci_uid item) (ci_recurrenceId item).

Definition contact_key (item : CollectionItem) : string := contactNaturalKeyHash rt (ci_uid item).

Definition calendar_sync (cfg : DavConfig) := collection_sync caldav cfg calendar_key.

Definition contact_sync (cfg : DavConfig) := collection_sync carddav cfg contact_key.

(** [runFileSync] *)
Definition fetch_file (source : FileSource X) (item : FileItem) (x : X) : (string + RawFileItem * Z) * X :=
  let '(r, x) := match fi_content item with
                 | Some content => (inr (Some content), x)
                 | None => fs_fetch source item x
                 end in
  (match r with
   | inl e => inl e
   | inr None => inl ("File source returned no content for " ++ fi_path item)
   | inr (Some content) =>
       let len := Z.of_nat (String.length content) in
       inr (mkRawFileItem (fi_path item) (fi_mimeType item) (Some content),
            if decide (len = 0)%Z then nullish (fi_size item) 0%Z else len)
   end, x).

Definition trash_keys (listing : TrashListing) : DiscardedListing :=
  mkDiscardedListing (fileNaturalKeyHash rt <$> tl_paths listing) (tl_unnameable listing)
    (truthy (tl_reason listing)).

Definition file_sync (wcfg : WebDAVConfig) (turns : nat) (source : FileSource X)
    : DomainSyncDeps L (SyncEnv Srv RootMemo X) FileItem RawFileItem :=
  {| ds_tenantId := sd_tenantId sd; ds_mappingId := sd_mappingId sd; ds_domain := File;
     ds_cursors := sd_cursors sd; ds_concurrency := sd_concurrency sd;
     ds_listFolders := source_call (so_listFolders (fs_source source));
     ds_listSince := fun folder cursor => source_call (so_listSince (fs_source source) folder cursor);
     ds_fetchRaw := fun item => source_call (fetch_file source item);
     ds_upsert := fun _ raw _ options =>
       by_writer (upsertFile pf wcfg (sd_tenantId sd) (sd_mappingId sd) turns raw options);
     ds_sourceVersion := fi_etag;
     ds_sourceRef := fun item => Some (nullish (truthy (fi_sourceRef item)) (fi_path item));
     ds_naturalKey := fun item => Some (fileNaturalKeyHash rt (fi_path item));
     ds_listCollectionKeys :=
       (fun listKeys folder => source_call (fun x => mapped (List.map (fileNaturalKeyHash rt)) (listKeys folder x)))
         <$> fs_listKeys source;
     ds_listDiscardedKeys :=
       (fun trashed => source_call (fun x => mapped trash_keys (trashed x))) <$> fs_listTrashedPaths source;
     ds_naturalKeyFromRaw := None;
     ds_contentHash := fun raw => fileContentHash pf (nullish (rf_content raw) "");
     ds_failOnCollision := sd_failOnCollision sd;
     ds_ensureCollection := fun folder =>
       at_target (ensureDirectory wcfg
         (ApplyDeletion.applyTargetFolderPrefix (sd_targetFolderPrefix sd) (nullish (fo_path folder) "")));
     ds_now := fun e => de_now (se_target e) |}.
End sync.

(** ** A whole pass over a server

    The frames of the writers meet what the engine asks of its target. *)
Section passes.
Context {L Srv X : Type} `{LL : LedgerLaws L} `{HS : HttpServer Srv}.
Variables (pf : Platform) (sd : SyncDeps).

Abbreviation tenant := (sd_tenantId sd).
Abbreviation mapping := (sd_mappingId sd).
Abbreviation rt := (pf_runtime pf).

(** The item of key [k0] ended as [c], and its resource [u0] holds [body]. *)
Variables (k0 u0 body : string) (c : option status * string * string).

Definition server_of {Memo} (e : SyncEnv Srv Memo X) : Srv := de_server (se_target e).

Definition holds {Memo} (e : SyncEnv Srv Memo X) : Prop := stored u0 (server_of e) = Some body.

Lemma steps_by_writer {Memo A} R S (p : prog (L * DavEnv Srv Memo) string A) :
  steps_in (framed R S) p ->
  steps_in (fun le le' => R le.1 le'.1 /\ S (server_of le.2) (server_of le'.2) /\
                          se_source le'.2 = se_source le.2)
    (by_writer p : prog (L * SyncEnv Srv Memo X) string A).
Proof. apply steps_in_plift. intros w v [HR HS']. by split. Qed.

Lemma holds_leaves {Memo} u (e e' : SyncEnv Srv Memo X) :
  u <> u0 -> leaves (fun v => v <> u) (server_of e) (server_of e') -> holds e -> holds e'.
Proof. intros Hne Hl He. unfold holds. rewrite Hl; [done|congruence]. Qed.

Lemma from_source_holds {Memo A} (f : X -> (string + A) * X) :
  DomainSyncInvariants.outside (@holds Memo) (from_source f).
Proof. intros e He. unfold from_source. by destruct (f _). Qed.

(** Making a collection removes nothing. *)
Lemma at_target_holds {Memo A} (p : prog Srv string A) :
  steps_in (performs (fun rq => is_safe rq \/ is_make rq)) p ->
  DomainSyncInvariants.outside (@holds Memo) (at_target p).
Proof.
  intros Hp e He. unfold at_target.
  pose proof (steps_in_run only_adds p (server_of e)
    (steps_in_mono _ _ _ make_only_adds Hp)) as Ha.
  unfold server_of in *. destruct (run p _) as [r s]. unfold holds, server_of in *. simpl in *.
  rewrite Ha; [done|by eexists].
Qed.

(** A writer confined to another resource and another row. *)
Lemma writer_keeps {Memo Item Raw} (deps : DomainSyncDeps L (SyncEnv Srv Memo X) Item Raw) key u
    (p : prog (L * DavEnv Srv Memo) string UpsertResult) :
  ds_tenantId deps = tenant -> ds_mappingId deps = mapping -> key <> k0 -> u <> u0 ->
  steps_in (framed (inserts tenant mapping key) (leaves (fun v => v <> u))) p ->
  keeps (fun le => guarded deps k0 c le.1 /\ holds le.2) (by_writer p) (fun _ => True).
Proof.
  intros Ht Hm Hk Hu Hp. eapply steps_in_keeps; [|by apply steps_by_writer].
  intros [l e] [l' e'] [Hg He] [[Ho _] [Hl _]]. simpl in *. split; [|by eapply holds_leaves].
  eapply guarded_other; [exact Hk| |exact Hg]. by rewrite Ht, Hm.
Qed.

(** *** Files *)
Section files.
Variables (wcfg : WebDAVConfig) (turns : nat) (source : FileSource X).

Abbreviation deps := (file_sync pf sd wcfg turns source).

(** The resource a file is written to. *)
Definition file_resource (path : string) : string :=
  resource_of (buildUrl (dc_url (wd_dav wcfg)) (normalizeRelativePath path)).

Definition file_apart (item : FileItem) : Prop :=
  file_resource (fi_path item) = u0 -> fileNaturalKeyHash rt (fi_path item) = k0.

Lemma steps_ensureDirectory p :
  steps_in (performs (fun rq => is_safe rq \/ is_make rq)) (ensureDirectory wcfg p).
Proof.
  unfold ensureDirectory. cbv zeta. case_decide; [done|]. apply steps_in_bind.
  - apply steps_in_catch; [|done]. apply steps_in_bind; [|done].
    apply steps_send. left. unfold is_safe, safe_methods. set_solver.
  - intros []; [done|]. apply steps_in_bind; [|done]. apply steps_in_bind; [|done].
    apply steps_requestWithRetry. right. unfold is_make, make_methods. set_solver.
Qed.

Lemma file_write_writes raw overwrite rq :
  file_write wcfg raw overwrite rq -> writes (file_resource (rf_path raw)) rq.
Proof.
  intros (content & _ & Hrq). cbv zeta in Hrq. destruct (uses_chunks _ _).
  - destruct Hrq as [i ->]. by split.
  - subst rq. apply put_writes.
Qed.

Lemma file_calls_keep :
  (forall f cursor x, match fst (so_listSince (fs_source source) f cursor x) with
                      | inr ls => Forall file_apart (ls_items ls) | inl _ => True end) ->
  calls_keep deps k0 holds c file_apart (fun item raw => rf_path raw = fi_path item) (fun _ => True).
Proof.
  intros Hlist. split; [split| |].
  - apply folders_any, from_source_holds.
  - intros f. apply at_target_holds, steps_ensureDirectory.
  - intros f e _. by destruct (fst _).
  - intros f p e _ He. split; [by apply from_source_holds|]. simpl. unfold from_source.
    specialize (Hlist f p (se_source e)). by destruct (so_listSince _ _ _ _).
  - intros g f Hg. simpl in Hg. destruct (fs_listKeys source); [|done]. injection Hg as <-. apply from_source_holds.
  - intros g Hg. simpl in Hg. destruct (fs_listTrashedPaths source); [|done]. injection Hg as <-. apply from_source_holds.
  - intros i e _ He. split; [by apply from_source_holds|]. simpl. unfold from_source, fetch_file.
    destruct (match fi_content i with Some _ => _ | None => _ end) as [[|[content|]] x]; done.
  - intros cid raw item o _ Hitem Hraw Hn.
    assert (Hk : fileNaturalKeyHash rt (rf_path raw) <> k0).
    { intros Hk. apply Hn. left. simpl. by rewrite <- Hraw, Hk. }
    apply (writer_keeps deps _ (file_resource (rf_path raw)) _ eq_refl eq_refl Hk).
    { intros Hu. apply Hk. rewrite Hraw in *. by apply Hitem. }
    apply steps_upsertFile; [apply _|apply _|apply safe_leaves| |intros r l; apply insertable_inserts].
    intros s s' (rq & Hrq & ->). apply write_leaves. exists rq. split; [right; by eapply file_write_writes|done].
Qed.

(** C32: an owner's file survives a pass.  Let the item of a file have ended
    for good - the owner's own copy, adopted, or one the owner left behind or
    removed - and let the server hold some bytes at the resource that file
    would be written to.  Then after any pass of [runFileSync], whatever the
    source lists, however the uploads interleave and wherever the pass stops,
    the server holds the same bytes there and the row still says what it said -
    provided no other file the source lists is written to that resource. *)
Theorem file_pass_spares scheds w r w' :
  (forall f cursor x, match fst (so_listSince (fs_source source) f cursor x) with
                      | inr ls => Forall file_apart (ls_items ls) | inl _ => True end) ->
  guarded deps k0 c (w_ledger w) -> holds (w_env w) ->
  runDomainSync deps scheds w = Some (r, w') ->
  guarded deps k0 c (w_ledger w') /\ holds (w_env w').
Proof.
  intros Hlist. eapply terminal_items_kept. by apply file_calls_keep.
Qed.
End files.

(** *** Calendars and contacts *)
Section collections.
Variables (fl : Flavour) (cfg : DavConfig) (naturalKey : CollectionItem -> string) (source : Source X CollectionItem).

Abbreviation deps := (collection_sync pf sd fl cfg naturalKey source).

Definition item_resource (collectionId uid : string) : string :=
  resource_of (buildUrl (dc_url cfg) (item_path fl collectionId uid)).

(** The ids [ensureCollection] gives. *)
Definition collection_id (cid : string) : Prop :=
  exists name path, cid = normalizePath fl (fl_home fl ++ dc_username cfg ++ "/" ++ collectionSlug rt name path (fl_fallback fl)).

(** The writer's key and resource of an item tell it from the one in question,
    if the engine's key does. *)
Definition item_apart (item : CollectionItem) : Prop :=
  forall uid, extractUidFrom (ci_text item) = Some uid ->
    (fl_keyHash fl rt uid = k0 -> naturalKey item = k0) /\
    (forall cid, collection_id cid -> item_resource cid uid = u0 -> naturalKey item = k0).

Lemma steps_ensureCollection f :
  fl_makeMethod fl ∈ make_methods ->
  steps_in (performs (fun rq => is_safe rq \/ is_make rq)) (ensureCollection pf fl cfg f).
Proof.
  intros Hm. apply steps_in_bind.
  - apply steps_in_catch; [|done]. apply steps_in_bind; [|done].
    apply steps_send. left. unfold is_safe, safe_methods. set_solver.
  - intros []; [done|]. apply steps_in_bind; [|done].
    apply steps_in_bind; [apply steps_requestWithRetry; by right|]. intros x. by case_match.
Qed.

Lemma ensureCollection_id f s :
  match fst (run (ensureCollection pf fl cfg f) s) with inr cid => collection_id cid | inl _ => True end.
Proof.
  unfold ensureCollection. cbv zeta.
  rewrite run_bind. destruct (run (collectionExists _ _) s) as [[e|[]] s1]; [done|by eexists _, _|].
  rewrite run_bind. destruct (run (createCollection _ _ _ _) s1) as [[e|[]] s2]; [done|]. by eexists _, _.
Qed.

Lemma collection_calls_keep :
  fl_makeMethod fl ∈ make_methods ->
  (forall f cursor x, match fst (so_listSince source f cursor x) with
                      | inr ls => Forall item_apart (ls_items ls) | inl _ => True end) ->
  calls_keep deps k0 holds c item_apart eq collection_id.
Proof.
  intros Hm Hlist. split; [split| |]; try done.
  - apply folders_any, from_source_holds.
  - intros f. by apply at_target_holds, steps_ensureCollection.
  - intros f e _. simpl. unfold at_target. pose proof (ensureCollection_id f (server_of e)) as Hid.
    unfold server_of in Hid. by destruct (run _ _).
  - intros f p e _ He. split; [by apply from_source_holds|]. simpl. unfold from_source.
    specialize (Hlist f p (se_source e)). by destruct (so_listSince _ _ _ _).
  - intros cid raw item o Hcid Hitem <- Hn. simpl.
    destruct (extractUidFrom (ci_text item)) as [uid|] eqn:Huid; [|unfold upsertItem; by rewrite Huid].
    destruct (Hitem _ Huid) as [Hkey Hres].
    assert (Hk0 : naturalKey item <> k0) by (intros Hk; apply Hn; left; simpl; by rewrite Hk).
    apply (writer_keeps deps (fl_keyHash fl rt uid) (item_resource cid uid)); [done|done|tauto|naive_solver|].
    apply steps_upsertItem; [apply _|apply _|apply safe_leaves| |].
    + intros uid' s s' Huid' (rq & <- & ->). simplify_eq. apply write_leaves. eexists.
      split; [right; apply put_writes|done].
    + intros uid' r l Huid'. simplify_eq. apply insertable_inserts.
Qed.

(** The same for events and contacts: what an owner's item's resource holds,
    and its row, are the same after any pass - provided of every other item
    listed both the key its writer uses and the resource it is written to are
    others'. *)
Theorem collection_pass_spares scheds w r w' :
  fl_makeMethod fl ∈ make_methods ->
  (forall f cursor x, match fst (so_listSince source f cursor x) with
                      | inr ls => Forall item_apart (ls_items ls) | inl _ => True end) ->
  guarded deps k0 c (w_ledger w) -> holds (w_env w) ->
  runDomainSync deps scheds w = Some (r, w') ->
  guarded deps k0 c (w_ledger w') /\ holds (w_env w').
Proof.
  intros Hm Hlist. eapply terminal_items_kept. by apply collection_calls_keep.
Qed.
End collections.
End passes.

(** ** A pass run twice *)
Section twice.
Context {L Srv X : Type} `{LL : LedgerLaws L} `{HS : HttpServer Srv}.
Variables (pf : Platform) (sd : SyncDeps).

Abbreviation rt := (pf_runtime pf).
Abbreviation tenant := (sd_tenantId sd).
Abbreviation mapping := (sd_mappingId sd).

(** A source that stands still in the states of [Still]: its calls stay there,
    it lists [folders] and, without a cursor, all of their [content]; items of
    one key have one version. *)
Variables (Still : X -> Prop) (folders : list Folder) (version_of : string -> option string).

Record still_source {Item} (source : Source X Item) (content : Folder -> list Item)
    (key : Item -> string) (version : Item -> option string) : Prop := {
  sl_folders x : Still x -> Still (snd (so_listFolders source x)) /\
    match fst (so_listFolders source x) with inr fs => fs = folders | inl _ => True end;
  sl_list f cursor x : Still x -> Still (snd (so_listSince source f cursor x)) /\
    match fst (so_listSince source f cursor x) with
    | inr ls => ls_items ls ⊆ content f /\ (cursor = None -> content f ⊆ ls_items ls)
    | inl _ => True
    end;
  sl_version f item : item ∈ content f -> version item = version_of (key item);
  sl_content f item : item ∈ content f -> f ∈ folders
}.

Abbreviation still e := (Still (se_source e)).

Lemma from_source_still {Memo A} (f : X -> (string + A) * X) (e : SyncEnv Srv Memo X) :
  (Still (se_source e) -> Still (snd (f (se_source e)))) -> still e -> still (snd (from_source f e)).
Proof. unfold from_source. destruct (f (se_source e)). auto. Qed.

Lemma at_target_still {Memo A} (p : prog Srv string A) (e : SyncEnv Srv Memo X) :
  still e -> still (snd (at_target p e)).
Proof. unfold at_target. by destruct (run p _). Qed.

(** The server still holds what it held. *)
Definition as_stored (f : string -> option string) {Memo} (e : SyncEnv Srv Memo X) : Prop :=
  forall u b, f u = Some b -> stored u (de_server (se_target e)) = Some b.

Lemma from_source_stored f {Memo A} (g : X -> (string + A) * X) : DomainSyncInvariants.outside (@as_stored f Memo) (from_source g).
Proof. intros e He. unfold from_source. by destruct (g _). Qed.

Lemma at_target_stored f {Memo A} (p : prog Srv string A) :
  steps_in (performs (fun rq => is_safe rq \/ is_make rq)) p ->
  DomainSyncInvariants.outside (@as_stored f Memo) (at_target p).
Proof. intros Hp e He u b Hu. apply (at_target_holds u b p Hp e). by apply He. Qed.

(** Nothing is asked of the server. *)
Definition only_always : Srv -> Srv -> Prop := fun _ _ => True.

#[local] Instance only_always_preorder : PreOrder only_always.
Proof. by split. Qed.

(** *** Files *)
Section files.
Variables (wcfg : WebDAVConfig) (turns : nat) (source : FileSource X) (content : Folder -> list FileItem).

Abbreviation deps := (file_sync (L:=L) (Srv:=Srv) pf sd wcfg turns source).
Abbreviation file_key item := (fileNaturalKeyHash rt (fi_path item)).

Record still_files : Prop := {
  sf_source : still_source (fs_source source) content (fun item => file_key item) fi_etag;
  sf_fetch item x : Still x -> Still (snd (fs_fetch source item x));
  sf_keys g f x : fs_listKeys source = Some g -> Still x -> Still (snd (g f x));
  sf_trashed g x : fs_listTrashedPaths source = Some g -> Still x -> Still (snd (g x))
}.

Hypothesis SF : still_files.

Lemma file_static_source : static_source deps version_of (fun e => still e) (fun _ => True) folders content.
Proof.
  destruct SF as [[Hf Hl Hv Hc] _ _ _]. split.
  - intros e fs e' He. simpl. unfold from_source. destruct (Hf _ He) as [_ Hfs].
    destruct (so_listFolders _ _) as [r x]. intros [= -> _]. by simpl in Hfs.
  - intros f p e ls e' _ He. simpl. unfold from_source. destruct (Hl f p _ He) as [_ Hls].
    destruct (so_listSince _ _ _ _) as [r x]. intros [= -> _]. by simpl in Hls.
  - intros f item Hitem. exists (file_key item). split; [done|]. by eapply Hv.
  - apply Hc.
  - done.
Qed.

Lemma fetch_file_fetched item (x : X) :
  match fst (fetch_file source item x) with inr a => rf_path a.1 = fi_path item | inl _ => True end.
Proof.
  unfold fetch_file. destruct (match fi_content item with Some _ => _ | None => _ end) as [[|[body|]] x']; done.
Qed.

Lemma file_static_calls :
  static_calls deps version_of (fun e => still e) (fun _ => True) (fun item raw => rf_path raw = fi_path item).
Proof.
  destruct SF as [[Hf Hl Hv Hc] Hfetch Hkeys Htr]. split.
  - intros e. apply from_source_still. intros Hx. by apply Hf.
  - intros f e. apply at_target_still.
  - intros f p e. apply from_source_still. intros Hx. by apply Hl.
  - intros i e. apply from_source_still. intros Hx. unfold fetch_file.
    destruct (fi_content i); [done|]. specialize (Hfetch i _ Hx). by destruct (fs_fetch _ _ _).
  - intros g f e Hg. simpl in Hg. destruct (fs_listKeys source) as [h|] eqn:Hh; [|done]. injection Hg as <-.
    apply from_source_still. intros Hx. specialize (Hkeys h f _ eq_refl Hx). by destruct (h f _).
  - intros g e Hg. simpl in Hg. destruct (fs_listTrashedPaths source) as [h|] eqn:Hh; [|done]. injection Hg as <-.
    apply from_source_still. intros Hx. specialize (Htr h _ eq_refl Hx). by destruct (h _).
  - intros i e. pose proof (fetch_file_fetched i (se_source e)) as Hi. simpl. unfold from_source.
    by destruct (fetch_file _ _ _).
  - intros cid raw item k p rw _ Hk Hversion Hraw. simpl.
    eapply steps_in_mono; [|apply (steps_by_writer (X:=X) (advances deps version_of) only_always)].
    { intros w w' (Ha & _ & Hx). split; [done|]. by rewrite Hx. }
    apply steps_upsertFile; [apply _|apply _|done|done|].
    + intros r l [Ht Hm Hd Hkey Hst Hv']. destruct (lg_recordIfAbsent r l) as [x l'] eqn:Hins.
      eapply (insert_written deps version_of (file_key item)); [|exact Hins].
      split; [done..|by rewrite Hkey, Hraw| | |]; try (destruct Hst as [-> | ->]; done).
      right. rewrite Hv'. simpl in Hk. injection Hk as <-. exact Hversion.
Qed.

Lemma file_reading_only f : reading_only deps (as_stored f).
Proof.
  split.
  - apply from_source_stored.
  - intros g. apply at_target_stored, steps_ensureDirectory.
  - intros g p. apply from_source_stored.
  - intros g h Hg. simpl in Hg. destruct (fs_listKeys source); [|done]. injection Hg as <-. apply from_source_stored.
  - intros g Hg. simpl in Hg. destruct (fs_listTrashedPaths source); [|done]. injection Hg as <-. apply from_source_stored.
Qed.

(** Files run twice.  Let a file source stand still and a first pass of
    [runFileSync] - the engine, the writer and any server that keeps the rules
    of HTTP - list it in full and answer zero failures.  The next pass, with the
    same writer or a new one, and whatever others did to the server in between,
    then creates, adopts, updates, fails and conflicts on nothing, and every
    resource of the server holds what it held before it. *)
Theorem files_run_twice scheds1 scheds2 w rs w1 e1 r w2 :
  NoDup (collectionPath <$> folders) ->
  (forall f, f ∈ folders -> w_cursors w !! collectionPath f = None) ->
  still (w_env w) -> sane deps (w_ledger w) ->
  runDomainSync deps scheds1 w = Some (inr rs, w1) -> failed_count (rs_counters rs) = 0 ->
  (still (w_env w1) -> still e1) -> runDomainSync deps scheds2 (w1 <| w_env := e1 |>) = Some (r, w2) ->
  did_nothing (w_pass w2) /\
  match r with inr rs2 => did_nothing (rs_counters rs2) | inl _ => True end /\
  forall u b, stored u (server_of e1) = Some b -> stored u (server_of (w_env w2)) = Some b.
Proof.
  intros Hnd Hcur Hs Hsane Hr1 Hzero He1 Hr2.
  destruct (second_pass_rests deps version_of (fun e => still e)
    (as_stored (fun u => stored u (server_of e1))) (fun _ => True) (fun item raw => rf_path raw = fi_path item)
    folders content scheds1 scheds2 w rs w1 e1 r w2 file_static_calls file_static_source (file_reading_only _))
    as (Hu & Hn & Hrs); [done..|by intros u b|done|]. by split_and!.
Qed.
End files.

(** *** Calendars and contacts *)
Section collections.
Variables (fl : Flavour) (cfg : DavConfig) (naturalKey : CollectionItem -> string).
Variables (source : Source X CollectionItem) (content : Folder -> list CollectionItem).

Abbreviation deps := (collection_sync (L:=L) (Srv:=Srv) pf sd fl cfg naturalKey source).

(** The writer and the engine key the item alike. *)
Definition keyed_alike (item : CollectionItem) : Prop :=
  forall uid, extractUidFrom (ci_text item) = Some uid -> fl_keyHash fl rt uid = naturalKey item.

Hypothesis SS : still_source source content naturalKey ci_etag.
Hypothesis same_keys : forall f item, item ∈ content f -> keyed_alike item.
Hypothesis known_method : fl_makeMethod fl ∈ make_methods.

Lemma collection_static_source :
  static_source deps version_of (fun e => still e) keyed_alike folders content.
Proof using SS same_keys.
  destruct SS as [Hf Hl Hv Hc]. split.
  - intros e fs e' He. simpl. unfold from_source. destruct (Hf _ He) as [_ Hfs].
    destruct (so_listFolders _ _) as [r x]. intros [= -> _]. by simpl in Hfs.
  - intros f p e ls e' _ He. simpl. unfold from_source. destruct (Hl f p _ He) as [_ Hls].
    destruct (so_listSince _ _ _ _) as [r x]. intros [= -> _]. by simpl in Hls.
  - intros f item Hitem. exists (naturalKey item). split; [done|]. by eapply Hv.
  - apply Hc.
  - apply same_keys.
Qed.

Lemma collection_static_calls : static_calls deps version_of (fun e => still e) keyed_alike eq.
Proof using SS LL.
  destruct SS as [Hf Hl Hv Hc]. split; try done.
  - intros e. apply from_source_still. intros Hx. by apply Hf.
  - intros f e. apply at_target_still.
  - intros f p e. apply from_source_still. intros Hx. by apply Hl.
  - intros cid raw item k p rw Halike Hk Hversion <-. simpl.
    eapply steps_in_mono; [|apply (steps_by_writer (X:=X) (advances deps version_of) only_always)].
    { intros w w' (Ha & _ & Hx). split; [done|]. by rewrite Hx. }
    apply steps_upsertItem; [apply _|apply _|done|done|].
    intros uid r l Huid [Ht Hm Hd Hkey Hst Hv']. destruct (lg_recordIfAbsent r l) as [x l'] eqn:Hins.
    eapply (insert_written deps version_of (naturalKey item)); [|exact Hins].
    split; [done..|by rewrite Hkey, (Halike _ Huid)| | |]; try (destruct Hst as [-> | ->]; done).
    right. rewrite Hv'. simpl in Hk. injection Hk as <-. exact Hversion.
Qed.

Lemma collection_reading_only f : reading_only deps (as_stored f).
Proof using LL known_method.
  split; try done.
  - apply from_source_stored.
  - intros g. by apply at_target_stored, steps_ensureCollection.
  - intros g p. apply from_source_stored.
Qed.

(** Events and contacts run twice, where the writer and the engine key the
    items alike. *)
Theorem collections_run_twice scheds1 scheds2 w rs w1 e1 r w2 :
  NoDup (collectionPath <$> folders) ->
  (forall f, f ∈ folders -> w_cursors w !! collectionPath f = None) ->
  still (w_env w) -> sane deps (w_ledger w) ->
  runDomainSync deps scheds1 w = Some (inr rs, w1) -> failed_count (rs_counters rs) = 0 ->
  (still (w_env w1) -> still e1) -> runDomainSync deps scheds2 (w1 <| w_env := e1 |>) = Some (r, w2) ->
  did_nothing (w_pass w2) /\
  match r with inr rs2 => did_nothing (rs_counters rs2) | inl _ => True end /\
  forall u b, stored u (server_of e1) = Some b -> stored u (server_of (w_env w2)) = Some b.
Proof using SS LL same_keys known_method.
  intros Hnd Hcur Hs Hsane Hr1 Hzero He1 Hr2.
  destruct (second_pass_rests deps version_of (fun e => still e)
    (as_stored (fun u => stored u (server_of e1))) keyed_alike eq
    folders content scheds1 scheds2 w rs w1 e1 r w2 collection_static_calls collection_static_source
    (collection_reading_only _))
    as (Hu & Hn & Hrs); [done..|by intros u b|done|]. by split_and!.
Qed.
End collections.
End twice.
