(* ===== verification/DavSamples.v ===== *)
(** * The DAV writers at work

    Whole passes of the engine over the small server of [SampleServer]. *)

From stdpp Require Import pretty.
From S2P Require Import Prelude Prog Concurrency Keys Ports Ledger DavCanonical Dav DavText DavWriter DomainSync CollectionWriter WebdavWriter WebdavWalk.
From S2P Require Import DomainSyncInvariants DomainSyncSafety DomainSyncSettles DomainSyncIdempotence DavSync SampleServer.
From Stdlib Require Import Ascii.

Open Scope Z_scope.
#[local] Open Scope string_scope.

#[local] Existing Instances sample_port sample_laws.

Definition sample_platform : Platform :=
  mkPlatform (mkRuntime (fun s => s) lower) (fun s => s) (fun url => strip_prefix origin url) (fun _ => None).

Definition sample_deps : SyncDeps := mkSyncDeps "t" "m" true None false None.

Definition sample_url (path : string) : string := origin ++ "/dav/" ++ path.

Definition sample_dav : DavConfig := mkDavConfig (origin ++ "/dav") "owner" "Basic secret".

Definition sample_webdav : WebDAVConfig := mkWebDAVConfig sample_dav false None.

(** A source that lists one folder. *)
Definition one_folder {Item} (folder : Folder) (items : list Item) : Source unit Item :=
  mkSource unit Item (fun x => (inr [folder], x))
    (fun f _ x => (inr (mkListing (if bool_decide (f = folder) then items else []) "cursor-1" None), x)).

Definition file (path version content : string) : FileItem :=
  mkFileItem path None None (Some version) None (Some content).

Definition file_source (items : list FileItem) : FileSource unit :=
  mkFileSource unit (one_folder sample_folder items) (fun _ x => (inr None, x)) None None.

Definition row (key targetId : string) (st : status) : LedgerRecord :=
  Ledger.sample_record "t" "m" File key targetId st.

Definition ledger_with (rows : list LedgerRecord) : Ledger.PgState :=
  foldl (fun l r => snd (Ledger.recordIfAbsent r l)) Ledger.empty_ledger rows.

Definition site (collections : list string) (files : list (string * string)) : Site :=
  mkSite (foldl (fun m x => <[sample_url x.1 := (x.2, 1)]> m) ∅ files)
         (list_to_set (drop_trailing slash ∘ sample_url <$> collections)) 2 0.

Definition start {Memo} (memo : Memo) (rows : list LedgerRecord) (s : Site)
    : World Ledger.PgState (SyncEnv Site Memo unit) :=
  mkWorld (ledger_with rows) (mkSyncEnv (mkDavEnv s memo 7) tt) ∅ initial_pass.

Definition no_keys : RootMemo := mkRootMemo not_asked ∅.

Definition held {Memo} (w : World Ledger.PgState (SyncEnv Site Memo unit)) (path : string) : option string :=
  stored (sample_url path) (server_of (w_env w)).

Definition file_pass (items : list FileItem) :=
  runDomainSync (file_sync sample_platform sample_deps sample_webdav 10 (file_source items)) [two_workers].

(** What a pass counts and what the server then holds. *)
Definition outcome {Memo} (o : option ((err + DomainSyncResult) * World Ledger.PgState (SyncEnv Site Memo unit)))
    (paths : list string) : option (Z * Z * Z * list (option string)) :=
  match o with
  | Some (inr rs, w) =>
      Some (created (rs_counters rs), adopted_count (rs_counters rs), failed_count (rs_counters rs), held w <$> paths)
  | _ => None
  end.

Definition world_after {Memo} (o : option ((err + DomainSyncResult) * World Ledger.PgState (SyncEnv Site Memo unit)))
    (w0 : World Ledger.PgState (SyncEnv Site Memo unit)) :=
  match o with Some (_, w) => w | None => w0 end.

(** A new file is written, the owner's own is adopted. *)
Example files_migrate :
  outcome (file_pass [file "Docs/a.txt" "1" "alpha"; file "Docs/b.txt" "1" "beta"]
             (start no_keys [] (site [""; "Docs"] [("Docs/a.txt", "mine")]))) ["Docs/a.txt"; "Docs/b.txt"]
  = Some (1, 1, 0, [Some "mine"; Some "beta"]).
Proof. by vm_compute. Qed.

(** Two names that differ behind a '#' are one URL: the second file is answered
    412 and counted as created, and its bytes are nowhere. *)
Example hash_in_a_name_loses_a_file :
  outcome (file_pass [file "Docs/Invoice #12.pdf" "1" "twelve"; file "Docs/Invoice #13.pdf" "1" "thirteen"]
             (start no_keys [] (site [""; "Docs"] []))) ["Docs/Invoice "; "Docs/Invoice #12.pdf"; "Docs/Invoice #13.pdf"]
  = Some (2, 0, 0, [Some "twelve"; None; None]).
Proof. by vm_compute. Qed.

(** Under a prefix the directory is made there and the file is not. *)
Definition with_prefix : SyncDeps := mkSyncDeps "t" "m" true None false (Some "Imported").

Example prefix_is_not_applied_to_files :
  let o := runDomainSync (file_sync sample_platform with_prefix sample_webdav 10
             (file_source [file "Docs/a.txt" "1" "alpha"])) [two_workers]
             (start no_keys [] (site [""] [])) in
  outcome o ["Imported/Docs/a.txt"; "Docs/a.txt"] = Some (1, 0, 0, [None; Some "alpha"]) /\
  match o with Some (_, w) => elements (st_collections (server_of (w_env w))) | None => [] end
  = [origin ++ "/dav/Imported/Docs"; origin ++ "/dav"].
Proof. by vm_compute. Qed.

(** *** Calendars *)
Definition text_lines (ls : list string) : string := foldr (fun l s => l ++ String lf s) "" ls.

Definition event_text (uid summary : string) : string :=
  text_lines ["BEGIN:VCALENDAR"; "BEGIN:VEVENT"; "UID:" ++ uid; "SUMMARY:" ++ summary; "END:VEVENT"; "END:VCALENDAR"].

Definition event (uid : string) (recurrence version : option string) (summary : string) : CollectionItem :=
  mkCollectionItem uid recurrence version None (event_text uid summary).

Definition work : Folder := mkFolder (Some "Work") None.

Definition work_item (uid : string) : string := "calendars/owner/work/" ++ uid ++ ".ics".

Definition calendar_pass (items : list CollectionItem) :=
  runDomainSync (calendar_sync sample_platform sample_deps sample_dav (one_folder work items)) [two_workers].

Definition owners_series : World Ledger.PgState (SyncEnv Site CollectionKeys unit) :=
  start ∅ [] (site ["calendars/owner/work"] [(work_item "series", event_text "series" "mine")]).

Example events_migrate :
  outcome (calendar_pass [event "series" None (Some "1") "theirs"; event "b" None (Some "1") "beta"] owners_series)
    [work_item "series"; work_item "b"]
  = Some (1, 1, 0, [Some (event_text "series" "mine"); Some (event_text "b" "beta")]).
Proof. by vm_compute. Qed.

(** The writer knows an item by its UID alone.  A changed occurrence of a series
    has a key of its own for the engine, the series' for the writer: it is not
    copied, and recorded as if it had been - as updated when the series' row is
    there already, as copied when its PUT comes second. *)
Example exception_is_not_copied :
  let exception := event "series" (Some "20240101") None "that day" in
  let pass sched := runDomainSync (calendar_sync sample_platform sample_deps sample_dav
      (one_folder work [event "series" None None "weekly"; exception])) [sched]
      (start ∅ [] (site ["calendars/owner/work"] [])) in
  let seen o := (outcome o [work_item "series"],
    rstatus <$> lg_find "t" "m" Calendar (calendar_key sample_platform exception) (w_ledger (world_after o owners_series))) in
  seen (pass (replicate 80 0%nat ++ replicate 80 1%nat)%list) = (Some (1, 0, 0, [Some (event_text "series" "weekly")]), Some (Some updated)) /\
  seen (pass two_workers) = (Some (2, 0, 0, [Some (event_text "series" "weekly")]), Some (Some copied)).
Proof. by vm_compute. Qed.

(** Recorded as ours, the next change of such an item is written - over the
    owner's series. *)
Example exception_replaces_the_owners_series :
  let pass version summary w :=
    calendar_pass [event "series" (Some "20240101") (Some version) summary] (world_after w owners_series) in
  let w1 := calendar_pass [event "series" None (Some "1") "theirs"] owners_series in
  let w2 := pass "1" "that day" w1 in
  let w3 := pass "2" "another day" w2 in
  (outcome w1 [work_item "series"], outcome w2 [work_item "series"]) =
    (Some (0, 1, 0, [Some (event_text "series" "mine")]), Some (0, 0, 0, [Some (event_text "series" "mine")])) /\
  outcome w3 [work_item "series"] = Some (0, 0, 0, [Some (event_text "series" "another day")]).
Proof. by vm_compute. Qed.

(** *** What the theorems say of these passes *)

(** The owner's [Docs/a.txt] is adopted on record; the source lists it and another. *)
Definition listed_files : list FileItem := [file "Docs/a.txt" "2" "alpha"; file "Docs/b.txt" "2" "beta"].

Definition a_key : string := fileNaturalKeyHash (pf_runtime sample_platform) "Docs/a.txt".

Definition owners_file : World Ledger.PgState (SyncEnv Site RootMemo unit) :=
  start no_keys [row a_key "Docs/a.txt" adopted] (site [""; "Docs"] [("Docs/a.txt", "mine")]).

Lemma one_folder_lists {Item} (P : Item -> Prop) folder items f cursor x :
  Forall P items ->
  match fst (so_listSince (one_folder folder items) f cursor x) with
  | inr ls => Forall P (ls_items ls) | inl _ => True end.
Proof. intros HP. simpl. by case_bool_decide. Qed.

Lemma file_pass_spares_witness :
  exists r w, file_pass listed_files owners_file = Some (r, w) /\
    outcome (file_pass listed_files owners_file) ["Docs/b.txt"] = Some (1, 0, 0, [Some "beta"]) /\
    holds (sample_url "Docs/a.txt") "mine" (w_env w).
Proof.
  assert (Hout : outcome (file_pass listed_files owners_file) ["Docs/b.txt"] = Some (1, 0, 0, [Some "beta"]))
    by (vm_compute; reflexivity).
  destruct (file_pass listed_files owners_file) as [[r w]|] eqn:Hr; [|discriminate Hout].
  exists r, w. split; [reflexivity|]. split; [exact Hout|].
  refine (proj2 (file_pass_spares sample_platform sample_deps a_key (sample_url "Docs/a.txt") "mine"
    (Some adopted, "target-1", "Docs/a.txt") sample_webdav 10 (file_source listed_files) [two_workers]
    owners_file r w _ _ _ Hr)).
  - intros f cursor x. apply one_folder_lists. repeat constructor; intros Hu; vm_compute in Hu |- *;
      first [reflexivity|discriminate Hu].
  - eexists. split; [vm_compute; reflexivity|]. split; [left; reflexivity|reflexivity].
  - vm_compute. reflexivity.
Defined.

Lemma one_folder_still {Item} folder (items : list Item) key version version_of :
  Forall (fun i => version i = version_of (key i)) items ->
  still_source (fun _ : unit => True) [folder] version_of (one_folder folder items)
    (fun f => if bool_decide (f = folder) then items else []) key version.
Proof.
  intros Hv. split.
  - intros x _. split; [exact Logic.I|reflexivity].
  - intros f cursor x _. split; [exact Logic.I|]. simpl. by case_bool_decide.
  - intros f item Hi. case_bool_decide; [|by apply elem_of_nil in Hi].
    by apply (proj1 (Forall_forall _ _) Hv).
  - intros f item Hi. case_bool_decide as Hf; [|by apply elem_of_nil in Hi]. rewrite Hf. apply list_elem_of_here.
Qed.

(** From nothing: the first pass writes two files, the second - with a new
    writer - nothing. *)
Definition empty_site : World Ledger.PgState (SyncEnv Site RootMemo unit) :=
  start no_keys [] (site [""; "Docs"] []).

Definition anew (w : World Ledger.PgState (SyncEnv Site RootMemo unit)) : SyncEnv Site RootMemo unit :=
  mkSyncEnv (mkDavEnv (server_of (w_env w)) no_keys 8) tt.

Lemma files_run_twice_witness :
  let w1 := world_after (file_pass listed_files empty_site) empty_site in
  exists r w2, file_pass listed_files (w1 <| w_env := anew w1 |>) = Some (r, w2) /\
    did_nothing (w_pass w2) /\ held w1 "Docs/a.txt" = Some "alpha" /\ held w2 "Docs/a.txt" = Some "alpha".
Proof.
  intros w1.
  assert (Hout : outcome (file_pass listed_files empty_site) ["Docs/a.txt"] = Some (2, 0, 0, [Some "alpha"]))
    by (vm_compute; reflexivity).
  assert (Hagain : match file_pass listed_files (w1 <| w_env := anew w1 |>) with Some _ => true | None => false end = true)
    by (vm_compute; reflexivity).
  subst w1. destruct (file_pass listed_files empty_site) as [[[e|rs] w1]|] eqn:Hr1; [discriminate Hout| |discriminate Hout].
  simpl world_after in *. unfold outcome in Hout. injection Hout as Hc _ Hf Ha.
  destruct (file_pass listed_files (w1 <| w_env := anew w1 |>)) as [[r w2]|] eqn:Hr2; [|discriminate Hagain].
  exists r, w2. split; [reflexivity|].
  destruct (files_run_twice (X:=unit) sample_platform sample_deps (fun _ => True) [sample_folder] (fun _ => Some "2")
    sample_webdav 10 (file_source listed_files) (fun f => if bool_decide (f = sample_folder) then listed_files else [])
    (ltac:(split; [apply one_folder_still; repeat constructor|intros; exact Logic.I|discriminate|discriminate]))
    [two_workers] [two_workers] empty_site rs w1 (anew w1) r w2) as (Hn & _ & Hs).
  - apply NoDup_singleton.
  - intros f _. reflexivity.
  - exact Logic.I.
  - apply wf_sane. intros k row Hrow. discriminate Hrow.
  - exact Hr1.
  - exact Hf.
  - intros _. exact Logic.I.
  - exact Hr2.
  - split; [exact Hn|]. split; [exact Ha|]. apply Hs. exact Ha.
Defined.

(** The owner's series, which the source lists with changes, beside an event
    that has no UID and fails. *)
Definition series_item : CollectionItem := event "series" None (Some "2") "theirs".

Definition listed_events : list CollectionItem :=
  [series_item; mkCollectionItem "" None (Some "2") None (text_lines ["BEGIN:VEVENT"; "SUMMARY:lost"; "END:VEVENT"])].

Definition series_key : string := calendar_key sample_platform series_item.

Definition owners_calendar : World Ledger.PgState (SyncEnv Site CollectionKeys unit) :=
  start ∅ [Ledger.sample_record "t" "m" Calendar series_key "h" adopted]
    (site ["calendars/owner/work"] [(work_item "series", event_text "series" "mine")]).

Lemma collection_pass_spares_witness :
  exists r w, calendar_pass listed_events owners_calendar = Some (r, w) /\
    outcome (calendar_pass listed_events owners_calendar) [] = Some (0, 0, 1, []) /\
    holds (sample_url (work_item "series")) (event_text "series" "mine") (w_env w).
Proof.
  assert (Hout : outcome (calendar_pass listed_events owners_calendar) [] = Some (0, 0, 1, []))
    by (vm_compute; reflexivity).
  destruct (calendar_pass listed_events owners_calendar) as [[r w]|] eqn:Hr; [|discriminate Hout].
  exists r, w. split; [reflexivity|]. split; [exact Hout|].
  refine (proj2 (collection_pass_spares sample_platform sample_deps series_key (sample_url (work_item "series"))
    (event_text "series" "mine") (Some adopted, "target-1", "h") caldav sample_dav (calendar_key sample_platform)
    (one_folder work listed_events) [two_workers] owners_calendar r w _ _ _ _ Hr)).
  - apply list_elem_of_further, list_elem_of_here.
  - intros f cursor x. apply one_folder_lists. apply Forall_cons. split; [|apply Forall_singleton].
    + intros uid _. split; reflexivity.
    + intros uid Hu. vm_compute in Hu. discriminate Hu.
  - eexists. split; [vm_compute; reflexivity|]. split; [left; reflexivity|reflexivity].
  - vm_compute. reflexivity.
Defined.

(** *** The walk *)

Definition walked : Site := site [""; "Docs"] [("Docs/a.txt", "mine")].

Definition walked_dirs : gset string := {[ ""; "Docs" ]}.

Definition docs : Child := mkChild "Docs" true None.
Definition a_txt : Child := mkChild "Docs/a.txt" false None.

Definition walked_tree (d : string) (c : Child) : Prop := d = "" /\ c = docs \/ d = "Docs" /\ c = a_txt.

Lemma site_walkable : walkable sample_platform sample_webdav (eq walked) walked_dirs walked_tree.
Proof.
  assert (Hall : forall d, d ∈ walked_dirs -> d = "" \/ d = "Docs") by (unfold walked_dirs; set_solver).
  split.
  - unfold walked_dirs. set_solver.
  - by intros d [-> | ->]%Hall.
  - intros d s Hd <-. apply Hall in Hd as [-> | ->]; vm_compute; (split; [reflexivity|]); split.
    + intros c [[_ ->]|[? _]]; [apply list_elem_of_here|discriminate].
    + intros c [->|Hc]%elem_of_cons; [|by apply elem_of_nil in Hc]. intros _. vm_compute. set_solver.
    + intros c [[? _]|[_ ->]]; [discriminate|apply list_elem_of_here].
    + intros c [->|Hc]%elem_of_cons; [discriminate|by apply elem_of_nil in Hc].
Qed.

Definition walker : Ledger.PgState * DavEnv Site RootMemo := (Ledger.empty_ledger, mkDavEnv walked no_keys 7).

Lemma walker_in_order : in_order (L:=Ledger.PgState) (eq walked) walked_dirs walked_tree walker.
Proof. split; [reflexivity|]. split; [exact Logic.I|]. apply empty_subseteq. Qed.

Lemma two_directories : (size walked_dirs <= 2)%nat.
Proof. apply Nat.leb_le. vm_compute. reflexivity. Qed.

Lemma walker_rank : (memo_rank walked_dirs (de_memo walker.2) <= 2)%nat.
Proof. exact two_directories. Qed.

Lemma a_txt_path : normalizeRelativePath "/Docs/a.txt" = ch_path a_txt.
Proof. vm_compute. reflexivity. Qed.

Lemma a_txt_no_directory : ch_path a_txt ∉ walked_dirs.
Proof. unfold walked_dirs, a_txt, ch_path. set_solver. Qed.

Lemma a_txt_named : ch_path a_txt <> "".
Proof. discriminate. Qed.

Lemma a_txt_reachable : reachable walked_tree "Docs".
Proof. apply (reachable_child walked_tree "" docs); [apply reachable_root|left; by split|done]. Qed.

Lemma walk_finds_everything_witness :
  exists m w, run (keysUnderRoot sample_platform sample_webdav 2) walker = (inr (Some m), w) /\
    m !! "Docs/a.txt" = Some "Docs/a.txt".
Proof.
  pose proof (walk_finds_everything (L:=Ledger.PgState) sample_platform sample_webdav 2 (eq walked) walked_dirs
    walked_tree site_walkable walker eq_refl (empty_subseteq _) eq_refl two_directories) as Hw.
  apply rg_alone in Hw.
  destruct (run _ walker) as [[e|keys] w]; destruct Hw as [Hw _]; [destruct Hw|].
  destruct Hw as (m & -> & Hm). exists m, w. split; [reflexivity|].
  apply (Hm "Docs" a_txt); [apply a_txt_reachable|right; split; reflexivity|reflexivity].
Defined.

Lemma held_file_is_adopted_witness :
  exists r w, run (upsertFile sample_platform sample_webdav "t" "m" 2 (mkRawFileItem "/Docs/a.txt" None (Some "alpha"))
      (mkUpsertOptions false None None None None)) walker = (inr r, w) /\
    ur_created r = false /\ looks (eq walked) walked_dirs walked_tree walker w.
Proof.
  assert (Hok : match run (upsertFile sample_platform sample_webdav "t" "m" 2 (mkRawFileItem "/Docs/a.txt" None (Some "alpha"))
      (mkUpsertOptions false None None None None)) walker with (inr _, _) => true | _ => false end = true)
    by (vm_compute; reflexivity).
  pose proof (held_file_is_adopted (L:=Ledger.PgState) sample_platform sample_webdav "t" "m" 2
    (eq walked) walked_dirs walked_tree site_walkable (mkRawFileItem "/Docs/a.txt" None (Some "alpha"))
    (mkUpsertOptions false None None None None) "Docs" a_txt walker a_txt_reachable (or_intror (conj eq_refl eq_refl))
    eq_refl a_txt_path a_txt_no_directory a_txt_named eq_refl walker_in_order walker_rank) as Hw.
  apply rg_alone in Hw.
  destruct (run _ walker) as [[e|r] w]; [discriminate Hok|]. destruct Hw as [[Hc _] Hl].
  exists r, w. split; [reflexivity|]. split; [exact Hc|exact Hl].
Defined.

(** *** Hard rule 2 *)
Lemma upsertFile_only_adds_witness :
  steps_in (E:=string) (framed (inserts "t" "m" a_key) only_adds)
    (upsertFile (L:=Ledger.PgState) (Srv:=Site) sample_platform sample_webdav "t" "m" 2
       (mkRawFileItem "Docs/a.txt" None (Some "alpha")) (mkUpsertOptions false None None None None)).
Proof.
  exact (upsertFile_only_adds sample_platform sample_webdav "t" "m" 2 (mkRawFileItem "Docs/a.txt" None (Some "alpha"))
    (mkUpsertOptions false None None None None) eq_refl (fun content _ => eq_refl)).
Defined.

Lemma upsertItem_only_adds_witness :
  steps_in (E:=string) (framed (inserts "t" "m" series_key) only_adds)
    (upsertItem (L:=Ledger.PgState) (Srv:=Site) sample_platform caldav sample_dav "t" "m" "/calendars/owner/work/"
       (event_text "series" "theirs") (mkUpsertOptions false None None None None)).
Proof.
  exact (upsertItem_only_adds sample_platform caldav sample_dav "t" "m" "/calendars/owner/work/"
    (event_text "series" "theirs") "series" (mkUpsertOptions false None None None None) eq_refl eq_refl).
Defined.

(** A snapshot taken before the owner put a file there. *)
Definition stale : RootMemo := mkRootMemo (settled_keys (Some ∅)) ∅.

Definition stale_world : World Ledger.PgState (SyncEnv Site RootMemo unit) :=
  start stale [] (site [""; "Docs"] [("Docs/a.txt", "mine")]).

Lemma refused_write_counts_as_created_witness :
  let options := mkUpsertOptions false (Some "1") None None None in
  let w := (Ledger.empty_ledger, mkDavEnv (server_of (w_env stale_world)) stale 7) in
  exists w', run (upsertFile sample_platform sample_webdav "t" "m" 2 (mkRawFileItem "Docs/a.txt" None (Some "alpha")) options) w
    = (inr (mkUpsertResult "Docs/a.txt" true false None false false), w') /\
  stored (sample_url "Docs/a.txt") (de_server w'.2) = Some "mine".
Proof.
  intros options w.
  destruct (refused_write_counts_as_created sample_platform sample_webdav "t" "m" 2
    (mkRawFileItem "Docs/a.txt" None (Some "alpha")) "alpha" options ∅ (fst w) (snd w)
    (mkResponse 412 "" [] (Some "")) (server_of (w_env stale_world)))
    as (e' & He & Hr); [reflexivity..|apply not_elem_of_empty|vm_compute; reflexivity|reflexivity|].
  replace (fst w, snd w) with w in Hr by reflexivity. rewrite Hr.
  eexists. split; [vm_compute; reflexivity|]. simpl. rewrite He. vm_compute. reflexivity.
Defined.

(** What follows: the row says the copy is ours, and no version says otherwise.
    When the source changes the file, the next pass writes it over the owner's. *)
Example stale_snapshot_loses_the_owners_file :
  let first := file_pass [file "Docs/a.txt" "1" "alpha"] stale_world in
  let second := file_pass [file "Docs/a.txt" "2" "changed"] (world_after first stale_world) in
  outcome first ["Docs/a.txt"] = Some (1, 0, 0, [Some "mine"]) /\
  outcome second ["Docs/a.txt"] = Some (0, 0, 0, [Some "changed"]).
Proof. by vm_compute. Qed.

(** *** UIDs

    The writers read a UID up to its first colon, the listing reads all of it.
    The UIDs RFC 6350 recommends begin [urn:uuid:]: two such contacts are one
    to the writer, and the second is not copied. *)
Definition card (uid : string) : CollectionItem :=
  mkCollectionItem uid None (Some "1") None (text_lines ["BEGIN:VCARD"; "UID:" ++ uid; "END:VCARD"]).

Definition contact_pass (items : list CollectionItem) :=
  runDomainSync (contact_sync sample_platform sample_deps sample_dav (one_folder (mkFolder (Some "Contacts") None) items))
    [(replicate 80 0%nat ++ replicate 80 1%nat)%list].

Example urn_uids_are_one_contact :
  let home := "addressbooks/users/owner/contacts" in
  let o := contact_pass [card "urn:uuid:1"; card "urn:uuid:2"] (start ∅ [] (site [home] [])) in
  outcome o [home ++ "/urn.vcf"] = Some (1, 0, 0, [Some (ci_text (card "urn:uuid:1"))]) /\
  (forall e, e ∈ map_to_list (st_files (server_of (w_env (world_after o (start ∅ [] (site [] [])))))) ->
     e.1 = sample_url (home ++ "/urn.vcf")) /\
  extractUid (ci_text (card "urn:uuid:2")) = Some "urn:uuid:2".
Proof.
  split; [vm_compute; reflexivity|]. split; [|vm_compute; reflexivity].
  intros e. vm_compute. intros [->|He]%elem_of_cons; [reflexivity|by apply elem_of_nil in He].
Qed.

(** An href is percent-decoded, but its XML is not undone. *)
Example ampersand_in_an_href :
  children_of sample_platform sample_webdav ""
    (parseMultiStatus (element "response" (element "href" "/dav/a&amp;b.txt" ++ "<d:resourcetype/>")))
  = inr [mkChild "a&amp;b.txt" false None].
Proof. vm_compute. reflexivity. Qed.
