(* ===== verification/WebdavSource.v ===== *)
(** * The WebDAV source ([packages/connectors/src/webdav-source.ts],
    [packages/connectors/src/webdav-trashbin.ts])

    Folders, files, what changed since a cursor, the owner's bin, and a file's
    bytes, asked of a server by [PROPFIND] and [GET].  The regular expressions
    are scanners over UTF-8 bytes.  Parameters: [new URL] (its origin, host and
    pathname, and the resolution of a reference), [new Date(s).toISOString()],
    the clock as an ISO text, base64 of the credentials, and the text of a cursor
    (base64 of JSON).  The properties a folder or file has beyond what the ports
    name are left out, and error messages are shortened. *)

From stdpp Require Import countable pretty.
From S2P Require Import Prelude Prog Keys DavCanonical Dav DavText CollectionWriter ImapText DomainSync DavSync.
From Stdlib Require Import Ascii.

Open Scope Z_scope.
#[local] Open Scope string_scope.

(** ** Reading a multi-status *)

(** [[^<]*], and the rest. *)
Fixpoint before_lt (s : string) : string * string :=
  match s with
  | String a s' => if decide (a = "<"%char) then ("", s) else let '(t, rest) := before_lt s' in (String a t, rest)
  | "" => ("", "")
  end.

(** The element [name] (in lower case) with nothing but text in it, at the start. *)
Definition simple_element_at (name s : string) : option string :=
  match strip_lower ("<" ++ name) s with
  | Some s1 =>
      match after_gt s1 with
      | Some s2 => let '(t, rest) := before_lt s2 in (fun _ => t) <$> strip_lower ("</" ++ name ++ ">") rest
      | None => None
      end
  | None => None
  end.

(** The first match anywhere; [+] instead of [*] when [some]. *)
Fixpoint simple_element (some : bool) (name s : string) : option string :=
  match (if some then truthy (simple_element_at name s) else simple_element_at name s) with
  | Some t => Some t
  | None => match s with String _ s' => simple_element some name s' | "" => None end
  end.

(** The text before the first match of a closing tag, and what follows it. *)
Fixpoint before_closing (closes : string -> option string) (s : string) : option (string * string) :=
  match closes s with
  | Some rest => Some ("", rest)
  | None =>
      match s with
      | String a s' => match before_closing closes s' with Some (t, rest) => Some (String a t, rest) | None => None end
      | "" => None
      end
  end.

Fixpoint first_block (opens closes : string -> option string) (s : string) : option (string * string) :=
  match match opens s with Some s1 => before_closing closes s1 | None => None end with
  | Some r => Some r
  | None => match s with String _ s' => first_block opens closes s' | "" => None end
  end.

(** Every match of the global expression; each consumes a character. *)
Fixpoint blocks_in (fuel : nat) (opens closes : string -> option string) (s : string) : list string :=
  match fuel with
  | O => []
  | S fuel => match first_block opens closes s with Some (t, rest) => t :: blocks_in fuel opens closes rest | None => [] end
  end.

Definition text_blocks (opens closes : string -> option string) (s : string) : list string := blocks_in (String.length s) opens closes s.

Definition opens_response (s : string) : option string :=
  match strip_lower "<d:response" s with Some s1 => after_gt s1 | None => None end.

Definition closes_response : string -> option string := strip_lower "</d:response>".

Fixpoint includes_lower (p s : string) : bool :=
  defined (strip_lower p s) || match s with String _ s' => includes_lower p s' | "" => false end.

(** [PropfindResponseEntry]; a length that is no number is left out. *)
Record PropfindEntry := mkPropfindEntry {
  pe_href : string; pe_displayName : option string; pe_collection : bool; pe_contentType : option string;
  pe_contentLength : option Z; pe_lastModified : option string; pe_etag : option string
}.

(** *** Paths *)

Fixpoint collapse_slashes (s : string) : string :=
  match s with
  | String a ((String b _) as s') =>
      if decide (a = slash /\ b = slash) then collapse_slashes s' else String a (collapse_slashes s')
  | _ => s
  end.

Definition source_normalizePath (path : string) : string :=
  let normalized := collapse_slashes (forward_slashes path) in
  let normalized := if starts_with "/" normalized then normalized else "/" ++ normalized in
  if negb (String.eqb normalized "/") && ends_with "/" normalized then drop_one_trailing slash normalized else normalized.

Definition parsePropfindEntry (content : string) : option PropfindEntry :=
  match simple_element true "d:href" content with
  | None => None
  | Some href =>
      Some (mkPropfindEntry (source_normalizePath (trim href)) (trim <$> simple_element false "d:displayname" content)
              (includes_lower "<d:collection" content) (trim <$> simple_element true "d:getcontenttype" content)
              (match simple_element true "d:getcontentlength" content with Some n => parseInt n | None => None end)
              (trim <$> simple_element true "d:getlastmodified" content) (trim <$> simple_element true "d:getetag" content))
  end.

Definition parsePropfindResponse (body : string) : list PropfindEntry :=
  omap (fun content => if bool_decide (content = "") then None else parsePropfindEntry content) (text_blocks opens_response closes_response body).

(** [cleanEtag] *)
Definition cleanEtag (etag : string) : string :=
  let cleaned := trim etag in
  let q := String quotation_mark "" in
  if starts_with q cleaned && ends_with q cleaned then String.substring 1 (String.length cleaned - 2) cleaned else cleaned.

Definition extractNameFromPath (path : string) : string :=
  nullish (list.last (base.filter (fun p => p <> "") (split slash (source_normalizePath path)))) "root".

Record WebDAVFile := mkWebDAVFile {
  wf_path : string; wf_name : string; wf_size : Z; wf_modifiedAt : string; wf_etag : string; wf_mimeType : option string; wf_sourceRef : string
}.

(** *** Cursors *)

(** What the JSON of a cursor holds; its objects have the paths as keys.
    (JavaScript reserves one key, [__proto__].) *)
Record CursorData := mkCursorData {
  cu_folder : string; cu_etags : list (string * string); cu_sizes : list (string * Z); cu_mtimes : list (string * string)
}.

#[export] Instance CursorData_eq_dec : EqDecision CursorData.
Proof. solve_decision. Defined.

#[export] Instance CursorData_countable : Countable CursorData.
Proof.
  refine (inj_countable' (fun c => (cu_folder c, cu_etags c, cu_sizes c, cu_mtimes c))
            (fun '(f, e, s, m) => mkCursorData f e s m) _). by intros [].
Defined.

Definition record_file (c : CursorData) (f : WebDAVFile) : CursorData :=
  mkCursorData (cu_folder c)
    (if bool_decide (wf_etag f = "") then cu_etags c else js_map_set (wf_path f) (wf_etag f) (cu_etags c))
    (js_map_set (wf_path f) (wf_size f) (cu_sizes c)) (js_map_set (wf_path f) (wf_modifiedAt f) (cu_mtimes c)).

Definition buildCursor (folderPath : string) (files : list WebDAVFile) : CursorData :=
  foldl record_file (mkCursorData folderPath [] [] []) files.

Definition unchanged_since (c : CursorData) (f : WebDAVFile) : bool :=
  match truthy (js_map_get (wf_path f) (cu_etags c)) with
  | Some prevEtag =>
      bool_decide (prevEtag = wf_etag f /\ js_map_get (wf_path f) (cu_sizes c) = Some (wf_size f) /\
                   js_map_get (wf_path f) (cu_mtimes c) = Some (wf_modifiedAt f))
  | None => false
  end.

(** ** The bin *)

Definition letter (a : ascii) : bool := let n := N_of_ascii (ascii_lower a) in ((97 <=? n) && (n <=? 122))%N.

(** [[\w-]] *)
Definition word_char (a : ascii) : bool :=
  is_alnum a || bool_decide (a = "_"%char \/ a = "-"%char).

Fixpoint after_word (s : string) : option string :=
  match s with
  | String a s' => if decide (a = ":"%char) then Some s' else if word_char a then after_word s' else None
  | "" => None
  end.

(** [[A-Za-z][\w-]*:name] *)
Definition prefixed (name s : string) : option string :=
  match s with
  | String a s' => if letter a then match after_word s' with Some r => strip_lower name r | None => None end else None
  | "" => None
  end.

Definition opens_prefixed (name s : string) : option string :=
  match strip_prefix "<" s with
  | Some s1 => match prefixed name s1 with Some s2 => after_gt s2 | None => None end
  | None => None
  end.

Definition closes_prefixed (name s : string) : option string :=
  match strip_prefix "</" s with
  | Some s1 => match prefixed name s1 with Some s2 => strip_prefix ">" s2 | None => None end
  | None => None
  end.

(** [[0-9a-fA-F]+;] read as a number, and what follows. *)
Fixpoint hex_reference (some : bool) (acc : N) (s : string) : option (N * string) :=
  match s with
  | String a s' =>
      match hex a with
      | Some d => hex_reference true (16 * acc + d)%N s'
      | None => if decide (a = ";"%char) then (if some then Some (acc, s') else None) else None
      end
  | "" => None
  end.

Fixpoint replace_hex_references (skip : nat) (s : string) : option string :=
  match s with
  | "" => Some ""
  | String a s' =>
      match skip with
      | S k => replace_hex_references k s'
      | O =>
          match match strip_lower "&#x" s with Some r => hex_reference false 0 r | None => None end with
          | Some (n, rest) =>
              if (1114111 <? n)%N then None
              else String.append (code_point n) <$> replace_hex_references (String.length s' - String.length rest) s'
          | None => String a <$> replace_hex_references 0 s'
          end
      end
  end.

(** [None] is the [RangeError] of [fromCodePoint]. *)
Definition decodeXml (text : string) : option string :=
  match replace_references 0 (replace_all "&apos;" apos (replace_all "&quot;" quot (replace_all "&gt;" ">" (replace_all "&lt;" "<" text)))) with
  | Some t => replace_all "&amp;" "&" <$> replace_hex_references 0 t
  | None => None
  end.

Definition location_in (responseXml : string) : option string :=
  truthy ((fun r => trim r.1) <$> first_block (opens_prefixed "trashbin-original-location") (closes_prefixed "trashbin-original-location") responseXml).

Fixpoint decode_locations (raws : list string) : string + list string :=
  match raws with
  | [] => inr []
  | raw :: raws =>
      match decodeXml raw, decode_locations raws with
      | Some x, inr xs => inr (x :: xs)
      | None, _ => inl "Invalid code point"
      | _, inl e => inl e
      end
  end.

Definition parseTrashbinOriginalLocations (body : string) : string + list string :=
  decode_locations (omap (fun x => if bool_decide (x = "") then None else location_in x) (text_blocks (opens_prefixed "response") (closes_prefixed "response") body)).

Fixpoint before_slash (s : string) : string :=
  match s with String a s' => if decide (a = slash) then "" else String a (before_slash s') | "" => "" end.

(** What stands before the last [/dav/files/] with a name behind it, and the name. *)
Fixpoint account_in (pathname : string) : option (string * string) :=
  match pathname with
  | "" => None
  | String a rest =>
      match account_in rest with
      | Some (prefix, user) => Some (String a prefix, user)
      | None =>
          match strip_prefix "/dav/files/" pathname with
          | Some r => (fun user => ("", user)) <$> truthy (Some (before_slash r))
          | None => None
          end
      end
  end.

Inductive TrashPlace := in_scope (path : string) | out_of_scope | unnameable.

#[export] Instance TrashPlace_eq_dec : EqDecision TrashPlace.
Proof. solve_decision. Defined.

Definition classifyTrashbinLocation (originalLocation : string) (rootPath : option string) : TrashPlace :=
  let location := drop_trailing slash (drop_leading slash originalLocation) in
  if bool_decide (location = "") then unnameable
  else
    let root := drop_trailing slash (drop_leading slash (nullish rootPath "")) in
    if bool_decide (root = "") then in_scope location
    else if bool_decide (location = root) then out_of_scope
    else match strip_prefix (root ++ "/") location with Some path => in_scope path | None => out_of_scope end.

Definition trashbinPathToKeyPath (originalLocation : string) (rootPath : option string) : option string :=
  match classifyTrashbinLocation originalLocation rootPath with in_scope path => Some path | _ => None end.

(** ** The connector *)

(** [WebDAVSourceConfig]; the password is the configured one or the one of the environment. *)
Record WebDAVSourceConfig := mkWebDAVSourceConfig {
  ws_url : string; ws_username : string; ws_password : option string; ws_throttled : bool; ws_rootPath : option string
}.

(** Of [URL], [Date], [Buffer] and [JSON]. *)
Record SourcePlatform := mkSourcePlatform {
  sp_pathname : string -> option string;
  sp_origin : string -> option string;
  sp_host : string -> option string;
  (** [new URL(reference, base).toString()] *)
  sp_resolve : string -> string -> option string;
  sp_iso : string -> option string;
  sp_base64 : string -> string;
  sp_writeCursor : CursorData -> string;
  sp_readCursor : string -> option CursorData
}.

Section source.
Context {Srv : Type} `{HttpClient Srv}.
Variables (sp : SourcePlatform) (cfg : WebDAVSourceConfig).
(** The limiter of the mapping, and [new Date().toISOString()]. *)
Variables (waitForSlot : string -> string -> prog Srv string unit) (releaseSlot : prog Srv string unit) (nowISO : Srv -> string).

Abbreviation dav := (prog Srv string).

Definition of_sum {A} (r : string + A) : dav A := match r with inl e => Throw e | inr a => Ret a end.

Definition or_throw {A} (o : option A) (e : string) : dav A := match o with Some a => Ret a | None => Throw e end.

Definition limiterHost : string := nullish (sp_host sp (ws_url cfg)) (ws_url cfg).

(** The one place every request leaves through. *)
Definition throttled_send (options : Request) : dav Response :=
  if ws_throttled cfg then
    waitForSlot "dav" limiterHost ;;;
    let! r := pcatch (let! response := send options in Ret (inr response)) (fun e => Ret (inl e)) in
    releaseSlot ;;; of_sum r
  else send options.

Definition getAuthorizationHeader : dav string :=
  match truthy (ws_password cfg) with
  | Some password => Ret ("Basic " ++ sp_base64 sp (ws_username cfg ++ ":" ++ password))
  | None => Throw "No password configured (set config.password or config.passwordEnv)"
  end.

Definition source_buildUrl (relativePath : string) : string :=
  if bool_decide (relativePath = "") then drop_one_trailing slash (ws_url cfg)
  else
    let baseUrl := if ends_with "/" (ws_url cfg) then ws_url cfg else ws_url cfg ++ "/" in
    baseUrl ++ nullish (strip_prefix "/" relativePath) relativePath.

Definition resolveHref (href : string) : option string :=
  match sp_origin sp (ws_url cfg) with
  | Some origin => sp_resolve sp (if starts_with "/" href then href else "/" ++ href) origin
  | None => None
  end.

Definition basePathname : option string :=
  (fun pathname => if ends_with "/" pathname then pathname else pathname ++ "/") <$> sp_pathname sp (source_buildUrl (nullish (ws_rootPath cfg) "")).

(** A path under the connection's own root, for a reference of the server's. *)
Definition toRelativePath (href : string) : string + string :=
  match resolveHref href with
  | None => inl "Invalid URL"
  | Some url =>
      match sp_pathname sp url, basePathname with
      | Some pathname, Some base =>
          let relative :=
            if bool_decide (pathname = base \/ pathname = drop_one_trailing slash base) then ""
            else match strip_prefix base pathname with Some r => r | None => drop_leading slash pathname end in
          match decodeURIComponent relative with Some p => inr (drop_trailing slash p) | None => inl "URI malformed" end
      | _, _ => inl "Invalid URL"
      end
  end.

Definition combineWithRootPath (relativePath : string) : string :=
  let root := drop_trailing slash (nullish (ws_rootPath cfg) "") in
  let rel := drop_leading slash relativePath in
  if bool_decide (rel = "") then (if bool_decide (root = "") then "/" else root)
  else if bool_decide (root = "") then "/" ++ rel else root ++ "/" ++ rel.

(** [parseDate] *)
Definition parseDate (now dateStr : string) : string := nullish (sp_iso sp dateStr) now.

Definition parseFolderFromEntry (entry : PropfindEntry) : string + option Folder :=
  if negb (pe_collection entry) then inr None
  else match toRelativePath (pe_href entry) with
       | inl e => inl e
       | inr path => inr (Some (mkFolder (Some path) (Some (nullish (truthy (pe_displayName entry)) (extractNameFromPath (pe_href entry))))))
       end.

(** The last segment of a reference, decoded. *)
Definition name_of_href (href : string) : string + string :=
  match sp_resolve sp href "http://localhost" with
  | None => inl "Invalid URL"
  | Some url =>
      match sp_pathname sp url with
      | None => inl "Invalid URL"
      | Some pathname =>
          match decodeURIComponent (nullish (list.last (base.filter (fun p => p <> "") (split slash pathname))) "") with
          | Some name => inr name
          | None => inl "URI malformed"
          end
      end
  end.

Definition parseFileFromEntry (now : string) (entry : PropfindEntry) : string + option WebDAVFile :=
  if pe_collection entry then inr None
  else match name_of_href (pe_href entry), toRelativePath (pe_href entry) with
       | inl e, _ => inl e
       | _, inl e => inl e
       | inr name, inr path =>
           inr (Some (mkWebDAVFile path name (nullish (pe_contentLength entry) 0%Z)
             (match truthy (pe_lastModified entry) with Some d => parseDate now d | None => now end)
             (cleanEtag (nullish (pe_etag entry) "")) (truthy (pe_contentType entry)) (pe_href entry)))
       end.

(** The loop over the entries of an answer: what each yields, or the first error. *)
Fixpoint each_entry {A} (parse : PropfindEntry -> string + option A) (entries : list PropfindEntry) : string + list A :=
  match entries with
  | [] => inr []
  | entry :: entries =>
      match parse entry with
      | inl e => inl e
      | inr found =>
          match each_entry parse entries with
          | inl e => inl e
          | inr l => inr (match found with Some a => a :: l | None => l end)
          end
      end
  end.

(** Its line breaks and the two quota properties are left out. *)
Definition propfind_body : string :=
  xml_head ++ "<D:propfind xmlns:D=" ++ quoted "DAV:" ++ "><D:prop><D:displayname/><D:resourcetype/><D:getcontentlength/>" ++
  "<D:getlastmodified/><D:getetag/><D:getcontenttype/><D:creationdate/></D:prop></D:propfind>".

(** Everything the program asks by [PROPFIND] outside the bin has [Depth: 1]. *)
Definition performPropfind (path : string) : dav (list PropfindEntry) :=
  let! auth := getAuthorizationHeader in
  let! response := throttled_send (mkRequest "PROPFIND" (source_buildUrl path)
    [("Content-Type", "application/xml"); ("Depth", "1"); ("Authorization", auth)] (Some propfind_body)) in
  if negb (rsp_status response =? 207)%Z then Throw ("PROPFIND failed with status " ++ pretty (rsp_status response))
  else Ret (parsePropfindResponse (rsp_body response)).

Definition listFolders : dav (list Folder) :=
  let! entries := performPropfind (nullish (truthy (ws_rootPath cfg)) "/") in
  of_sum (each_entry parseFolderFromEntry entries).

(** The path of a folder, as the server is asked for it. *)
Definition rooted (folder : Folder) : string := combineWithRootPath (source_normalizePath (nullish (fo_path folder) "")).

Definition files_in (folder : Folder) : dav (list WebDAVFile) :=
  let! entries := performPropfind (rooted folder) in
  let! now := act (fun s => (nowISO s, s)) in
  of_sum (each_entry (parseFileFromEntry now) entries).

(** No cursor, or one that cannot be read: everything. *)
Definition hasChanged (file : WebDAVFile) (cursor : option string) : bool :=
  match cursor with
  | None => true
  | Some value => match sp_readCursor sp value with Some c => negb (unchanged_since c file) | None => true end
  end.

Definition listSince (folder : Folder) (cursor : option string) : dav (list WebDAVFile * string) :=
  let! files := files_in folder in
  let items := base.filter (fun f => hasChanged f cursor = true) files in
  Ret (items, sp_writeCursor sp (buildCursor (source_normalizePath (nullish (fo_path folder) "")) items)).

Definition listKeys (folder : Folder) : dav (list string) := let! files := files_in folder in Ret (wf_path <$> files).

(** *** The bin *)

Definition nextcloudTrashbinUrl (filesUrl : string) : option string :=
  match sp_pathname sp filesUrl, sp_origin sp filesUrl with
  | Some pathname, Some origin =>
      (fun '(prefix, user) => origin ++ prefix ++ "/dav/trashbin/" ++ user ++ "/trash/") <$> account_in pathname
  | _, _ => None
  end.

Definition TRASHBIN_PROPFIND_BODY : string :=
  xml_head ++ "<d:propfind xmlns:d=" ++ quoted "DAV:" ++ " xmlns:nc=" ++ quoted "http://nextcloud.org/ns" ++
  "><d:prop><nc:trashbin-original-location/><nc:trashbin-deletion-time/></d:prop></d:propfind>".

Definition trash_listing (locations : list string) : TrashListing :=
  let places := (fun l => classifyTrashbinLocation l (ws_rootPath cfg)) <$> locations in
  let unnamed := Z.of_nat (length (base.filter (fun p => p = unnameable) places)) in
  mkTrashListing (omap (fun p => match p with in_scope path => Some path | _ => None end) places) unnamed
    (if (0 <? unnamed)%Z then Some ("The trashbin listed " ++ pretty unnamed ++ " item(s) with no original location, so where " ++
       "they used to live cannot be named. Those deletions stay on absence-counting and cannot be applied.") else None).

Definition listTrashedPaths : dav TrashListing :=
  match nextcloudTrashbinUrl (ws_url cfg) with
  | None => Ret (mkTrashListing [] 0 None)
  | Some url =>
      let! auth := getAuthorizationHeader in
      let! response := throttled_send (mkRequest "PROPFIND" url
        [("Content-Type", "application/xml"); ("Depth", "1"); ("Authorization", auth)] (Some TRASHBIN_PROPFIND_BODY)) in
      let status := rsp_status response in
      if ((status =? 404) || (status =? 405) || (status =? 501))%Z then Ret (mkTrashListing [] 0 None)
      else if negb (status =? 207)%Z then Throw ("trashbin PROPFIND failed with status " ++ pretty status)
      else let! locations := of_sum (parseTrashbinOriginalLocations (rsp_body response)) in Ret (trash_listing locations)
  end.

(** *** Content *)

Definition fetchFileContent (url : string) : dav string :=
  let! auth := getAuthorizationHeader in
  let! response := throttled_send (mkRequest "GET" url [("Authorization", auth)] None) in
  if ((rsp_status response =? 200) || (rsp_status response =? 204))%Z
  then or_throw (rsp_bodyBytes response) ("HTTP client returned no bodyBytes for " ++ url)
  else Throw ("Failed to fetch file content: " ++ pretty (rsp_status response)).

Definition source_fetch (item : FileItem) : dav string :=
  match truthy (fi_sourceRef item) with
  | None => Throw ("WebDAV file has no sourceRef and cannot be fetched: " ++ fi_path item)
  | Some ref => let! url := or_throw (resolveHref ref) "Invalid URL" in fetchFileContent url
  end.

(** ** As the port sees it *)

Definition as_item (f : WebDAVFile) : FileItem :=
  mkFileItem (wf_path f) (wf_mimeType f) (Some (wf_size f)) (Some (wf_etag f)) (Some (wf_sourceRef f)) None.

Definition WebdavFileSource : FileSource Srv :=
  mkFileSource Srv
    (mkSource Srv FileItem (run listFolders)
       (fun folder cursor s => mapped (fun r => mkListing (as_item <$> r.1) r.2 None) (run (listSince folder cursor) s)))
    (fun item s => mapped Some (run (source_fetch item) s))
    (Some (fun folder s => run (listKeys folder) s))
    (Some (fun s => run listTrashedPaths s)).
End source.

(** ** What a cursor remembers *)

Lemma record_file_other c f p : p <> wf_path f ->
  js_map_get p (cu_etags (record_file c f)) = js_map_get p (cu_etags c) /\
  js_map_get p (cu_sizes (record_file c f)) = js_map_get p (cu_sizes c) /\
  js_map_get p (cu_mtimes (record_file c f)) = js_map_get p (cu_mtimes c).
Proof. intros Hp. unfold record_file. cbn. case_bool_decide; rewrite ?js_map_get_set_ne by done; done. Qed.

Lemma record_file_self c f :
  js_map_get (wf_path f) (cu_etags (record_file c f)) = (if bool_decide (wf_etag f = "") then js_map_get (wf_path f) (cu_etags c) else Some (wf_etag f)) /\
  js_map_get (wf_path f) (cu_sizes (record_file c f)) = Some (wf_size f) /\
  js_map_get (wf_path f) (cu_mtimes (record_file c f)) = Some (wf_modifiedAt f).
Proof. unfold record_file. cbn. rewrite !js_map_get_set_eq. case_bool_decide; by rewrite ?js_map_get_set_eq. Qed.

Lemma record_files_other fs c p : p ∉ (wf_path <$> fs) ->
  js_map_get p (cu_etags (foldl record_file c fs)) = js_map_get p (cu_etags c) /\
  js_map_get p (cu_sizes (foldl record_file c fs)) = js_map_get p (cu_sizes c) /\
  js_map_get p (cu_mtimes (foldl record_file c fs)) = js_map_get p (cu_mtimes c).
Proof.
  revert c; induction fs as [|f fs IH]; intros c; [done|]. cbn. rewrite not_elem_of_cons. intros [Hp Hfs].
  destruct (IH (record_file c f) Hfs) as (-> & -> & ->). by apply record_file_other.
Qed.

(** The files stayed as they were: same path, and the same ETag, which is not
    empty, the same size and the same date. *)
Definition same_version (f0 f : WebDAVFile) : Prop :=
  wf_path f0 = wf_path f /\ wf_etag f0 = wf_etag f /\ wf_etag f0 <> "" /\ wf_size f0 = wf_size f /\ wf_modifiedAt f0 = wf_modifiedAt f.

#[export] Instance same_version_dec f0 f : Decision (same_version f0 f).
Proof. unfold same_version. apply _. Defined.

Lemma cursor_of_listing folder files f : NoDup (wf_path <$> files) ->
  unchanged_since (buildCursor folder files) f = bool_decide (Exists (fun f0 => same_version f0 f) files).
Proof.
  intros Hnd. unfold unchanged_since, buildCursor. set (c0 := mkCursorData folder [] [] []).
  destruct (decide (wf_path f ∈ (wf_path <$> files))) as [Hin|Hno].
  - apply list_elem_of_fmap in Hin as (f0 & Hpath & (l1 & l2 & ->)%list_elem_of_split).
    rewrite fmap_app, fmap_cons in Hnd. apply NoDup_app in Hnd as (_ & Hd & [Hl2 _]%NoDup_cons).
    assert (Hl1 : wf_path f ∉ (wf_path <$> l1)) by (rewrite Hpath; intros H; by apply (Hd _ H); left).
    rewrite foldl_app. simpl foldl. rewrite <- Hpath in Hl2.
    destruct (record_files_other l2 (record_file (foldl record_file c0 l1) f0) (wf_path f) Hl2) as (-> & -> & ->).
    destruct (record_files_other l1 c0 (wf_path f) Hl1) as (He & _ & _).
    assert (Hex : Exists (fun f0 => same_version f0 f) (l1 ++ f0 :: l2) <-> same_version f0 f).
    { rewrite Exists_exists. split; [|intros Hs; exists f0; split; [set_solver|done]].
      intros (x & [Hx|[->|Hx]%elem_of_cons]%elem_of_app & Hs); [|done|]; exfalso.
      - apply Hl1, list_elem_of_fmap. exists x. split; [by destruct Hs|done].
      - apply Hl2, list_elem_of_fmap. exists x. split; [by destruct Hs|done]. }
    rewrite (bool_decide_ext _ _ Hex). destruct (record_file_self (foldl record_file c0 l1) f0) as (H1 & H2 & H3).
    rewrite <- Hpath in H1, H2, H3. rewrite H1, H2, H3, He. unfold same_version. case_bool_decide as Hemp; cbn.
    + symmetry. apply bool_decide_eq_false_2. by intros (_ & _ & ? & _).
    + rewrite decide_False by done. apply bool_decide_ext. split; [intros (? & ? & ?)|intros (? & ? & ? & ? & ?)]; split_and!; congruence.
  - destruct (record_files_other files c0 (wf_path f) Hno) as (-> & _ & _). cbn. symmetry. apply bool_decide_eq_false_2.
    intros (f0 & Hf0 & Hs)%Exists_exists. apply Hno, list_elem_of_fmap. exists f0. split; [by destruct Hs|done].
Qed.

Lemma list_filter_all {A} (P : A -> Prop) `{!forall x, Decision (P x)} (l : list A) : (forall x, x ∈ l -> P x) -> base.filter P l = l.
Proof.
  induction l as [|x l IH]; intros Hl; [done|]. rewrite filter_cons_True by (apply Hl; by left). f_equal. apply IH. intros y Hy. apply Hl. by right.
Qed.

Lemma list_filter_none {A} (P : A -> Prop) `{!forall x, Decision (P x)} (l : list A) : (forall x, x ∈ l -> ~ P x) -> base.filter P l = [].
Proof.
  induction l as [|x l IH]; intros Hl; [done|]. rewrite filter_cons_False by (apply Hl; by left). apply IH. intros y Hy. apply Hl. by right.
Qed.

Section listings.
Context {Srv : Type} `{HttpClient Srv} (sp : SourcePlatform) (cfg : WebDAVSourceConfig).
Context (waitForSlot : string -> string -> prog Srv string unit) (releaseSlot : prog Srv string unit) (nowISO : Srv -> string).
(** Base64 and JSON bring a cursor back. *)
Context (cursor_read : forall c, sp_readCursor sp (sp_writeCursor sp c) = Some c).

Abbreviation list_since := (listSince sp cfg waitForSlot releaseSlot nowISO).
Abbreviation files_of := (files_in sp cfg waitForSlot releaseSlot nowISO).

Lemma listSince_run folder cursor s :
  run (list_since folder cursor) s =
  match run (files_of folder) s with
  | (inl e, s') => (inl e, s')
  | (inr files, s') =>
      let items := base.filter (fun f => hasChanged sp f cursor = true) files in
      (inr (items, sp_writeCursor sp (buildCursor (source_normalizePath (nullish (fo_path folder) "")) items)), s')
  end.
Proof. unfold listSince. rewrite run_bind. by destruct (run (files_of folder) s) as [[e|files] s']. Qed.

Lemma hasChanged_cursor folder items f : NoDup (wf_path <$> items) ->
  hasChanged sp f (Some (sp_writeCursor sp (buildCursor folder items))) = true <-> ~ Exists (fun f0 => same_version f0 f) items.
Proof.
  intros Hnd. unfold hasChanged. rewrite cursor_read, cursor_of_listing by done. by rewrite negb_true_iff, bool_decide_eq_false.
Qed.

(** C14: a listing with the cursor of another returns, in the server's order,
    exactly the files that the other listing did not return in the same
    version: no change is missed, whatever happened to the folder between, and
    its keys are all the paths. *)
Theorem listing_misses_no_change folder cursor s0 items0 value0 s1 s2 items value s3 :
  run (list_since folder cursor) s0 = (inr (items0, value0), s1) -> NoDup (wf_path <$> items0) ->
  run (list_since folder (Some value0)) s2 = (inr (items, value), s3) ->
  exists files, run (files_of folder) s2 = (inr files, s3) /\
    run (listKeys sp cfg waitForSlot releaseSlot nowISO folder) s2 = (inr (wf_path <$> files), s3) /\
    items = base.filter (fun f => ~ Exists (fun f0 => same_version f0 f) items0) files.
Proof.
  rewrite !listSince_run. unfold listKeys. rewrite run_bind. intros H0 Hnd H1.
  destruct (run (files_of folder) s0) as [[e|files0] s0']; [done|]. simpl in H0. injection H0 as Hi <- <-. rewrite Hi in H1.
  destruct (run (files_of folder) s2) as [[e|files] s2']; [done|]. simpl in H1. injection H1 as <- <- <-.
  exists files. split_and!; [done|done|]. apply list_filter_iff. intros f. by apply hasChanged_cursor.
Qed.

(** A folder that stays as it is, with an ETag for every file, is listed
    whole by every other pass: the cursor of a listing without changes remembers
    nothing. *)
Theorem quiet_listing_forgets folder files s :
  run (files_of folder) s = (inr files, s) -> NoDup (wf_path <$> files) -> Forall (fun f => wf_etag f <> "") files ->
  exists v1 v2 v3,
    run (list_since folder None) s = (inr (files, v1), s) /\
    run (list_since folder (Some v1)) s = (inr ([], v2), s) /\
    run (list_since folder (Some v2)) s = (inr (files, v3), s).
Proof.
  intros Hstill Hnd He. set (path := source_normalizePath (nullish (fo_path folder) "")).
  assert (Hall : forall cursor, (forall f, f ∈ files -> hasChanged sp f cursor = true) ->
    run (list_since folder cursor) s = (inr (files, sp_writeCursor sp (buildCursor path files)), s)).
  { intros cursor Hc. rewrite listSince_run, Hstill. cbv beta iota zeta. fold path. by rewrite (list_filter_all (fun f => hasChanged sp f cursor = true) files). }
  exists (sp_writeCursor sp (buildCursor path files)), (sp_writeCursor sp (buildCursor path [])). eexists. split_and!.
  - by apply Hall.
  - rewrite listSince_run, Hstill. cbv beta iota zeta. fold path. rewrite (list_filter_none (fun f => hasChanged sp f _ = true) files); [done|].
    intros f Hf. rewrite hasChanged_cursor by done. intros Hno. apply Hno, Exists_exists. exists f. split; [done|].
    split_and!; [done|done| |done|done]. by apply (proj1 (Forall_forall _ _) He).
  - apply Hall. intros f _. apply hasChanged_cursor; [constructor|]. by intros ?%Exists_nil.
Qed.
End listings.

(** ** The bin and the listing name a file alike *)

Lemma length_rev_app s t : String.length (String.rev_app s t) = (String.length s + String.length t)%nat.
Proof. revert t; induction s as [|a s IH]; intros t; [done|]. simpl. rewrite IH. simpl. lia. Qed.

Lemma length_drop_one_trailing c s : (String.length (drop_one_trailing c s) <= String.length s)%nat.
Proof.
  unfold drop_one_trailing. assert (Hl : String.length (String.rev s) = String.length s).
  { unfold String.rev. rewrite length_rev_app. simpl. lia. }
  destruct (String.rev s) as [|a r] eqn:Hr; [simpl; lia|]. case_decide; [|done]. unfold String.rev. rewrite length_rev_app. simpl in *. lia.
Qed.

Lemma length_string_app (s t : string) : String.length (s ++ t) = (String.length s + String.length t)%nat.
Proof. induction s as [|a s IH]; [done|]. rewrite string_app_cons. simpl. by rewrite IH. Qed.

Definition trimmed_slashes (s : string) : string := drop_trailing slash (drop_leading slash s).

Lemma trash_path_spec location rootPath p :
  trashbinPathToKeyPath location rootPath = Some p <->
  trimmed_slashes location <> "" /\
  (let root := trimmed_slashes (nullish rootPath "") in trimmed_slashes location = if decide (root = "") then p else root ++ "/" ++ p).
Proof.
  unfold trashbinPathToKeyPath, classifyTrashbinLocation. fold (trimmed_slashes location). fold (trimmed_slashes (nullish rootPath "")).
  set (l := trimmed_slashes location). set (root := trimmed_slashes (nullish rootPath "")).
  case_bool_decide as Hl; [naive_solver|]. case_bool_decide as Hroot; [rewrite decide_True by done; naive_solver|]. rewrite decide_False by done.
  case_bool_decide as Heq.
  - split; [done|]. intros [_ H]. exfalso. apply (f_equal String.length) in H. rewrite Heq, !length_string_app in H. simpl in H. lia.
  - destruct (strip_prefix (root ++ "/") l) as [q|] eqn:Hs.
    + apply strip_prefix_Some in Hs. rewrite string_app_assoc in Hs. split; [by intros [= <-]|]. intros [_ H]. f_equal.
      assert (Hq : strip_prefix (root ++ "/") ((root ++ "/") ++ q) = strip_prefix (root ++ "/") ((root ++ "/") ++ p)) by (rewrite !string_app_assoc; congruence).
      rewrite !strip_prefix_app in Hq. congruence.
    + split; [done|]. intros [_ H]. rewrite H, <- string_app_assoc, strip_prefix_app in Hs. done.
Qed.

Section paths.
Variables (sp : SourcePlatform) (cfg : WebDAVSourceConfig).

(** C16: a file keeps its name in the bin.  A location there is turned into the
    path [p] exactly when, but for slashes around it, it is [p] under the
    configured root; and a listing that shows the file under the root's URL, its
    path percent-encoded, says the same [p]. *)
Theorem trashed_path_is_the_listed_path href url base encoded p :
  resolveHref sp cfg href = Some url -> sp_pathname sp url = Some (base ++ encoded) -> basePathname sp cfg = Some base ->
  decodeURIComponent encoded = Some p -> drop_trailing slash p = p -> p <> "" ->
  toRelativePath sp cfg href = inr p /\
  forall location, trashbinPathToKeyPath location (ws_rootPath cfg) = Some p <->
    trimmed_slashes location = (let root := trimmed_slashes (nullish (ws_rootPath cfg) "") in if decide (root = "") then p else root ++ "/" ++ p).
Proof.
  intros Hurl Hpath Hbase Hdec Htrail Hne. split.
  - unfold toRelativePath. rewrite Hurl, Hpath, Hbase. assert (He : encoded <> "") by (intros ->; by injection Hdec as <-).
    rewrite bool_decide_eq_false_2.
    + by rewrite strip_prefix_app, Hdec, Htrail.
    + assert (Hlen : (String.length base < String.length (base ++ encoded))%nat).
      { rewrite length_string_app. destruct encoded; [done|simpl; lia]. }
      intros [H|H]; rewrite H in Hlen; [lia|]. pose proof (length_drop_one_trailing slash base). lia.
  - intros location. rewrite trash_path_spec. split; [by intros [_ H]|]. intros H. split; [|done]. rewrite H. cbv zeta.
    case_decide; [done|]. intros Hc. apply (f_equal String.length) in Hc. rewrite length_string_app in Hc. simpl in Hc. lia.
Qed.
End paths.
