(* ===== verification/WebdavSourceSamples.v ===== *)
(** * The WebDAV source at work

    A server that serves a shelf of files, what the source finds on it, and whole
    passes from it to the server of [SampleServer]. *)

From stdpp Require Import countable pretty.
From S2P Require Import Prelude Prog Concurrency Keys Ports Ledger DavCanonical Dav DavText DavWriter ImapText DomainSync CollectionWriter WebdavWriter WebdavWalk.
From S2P Require Import DomainSyncInvariants DomainSyncSafety DomainSyncSettles DomainSyncIdempotence DavSync SampleServer DavSamples WebdavSource.
From Stdlib Require Import Ascii.

Open Scope Z_scope.
#[local] Open Scope string_scope.

#[local] Existing Instances sample_port sample_laws.

(** A path, and the ETag and the content if it is a file. *)
Record Shelf := mkShelf { sh_nodes : list (string * option (string * string)) }.

Definition shelf_response (x : string * option (string * string)) : string :=
  element "response" (element "href" x.1 ++ match x.2 with
    | None => element "resourcetype" "<d:collection/>"
    | Some (etag, body) => "<d:resourcetype/>" ++ element "getetag" (quoted etag) ++
        element "getcontentlength" (pretty (Z.of_nat (String.length body))) ++ element "getlastmodified" "Mon, 09 Jan 2023 15:30:00 GMT"
    end).

(** [Depth: 1]: the collection, and what is directly in it. *)
Definition shelf_listing (c : string) (s : Shelf) : string :=
  element "multistatus" (joined (shelf_response <$>
    base.filter (fun x => String.eqb (drop_trailing slash x.1) (drop_trailing slash c) || child_of c (drop_trailing slash x.1) = true) (sh_nodes s))).

Definition serve_shelf (rq : Request) (s : Shelf) : (string + Response) * Shelf :=
  let path := nullish (strip_prefix origin (rq_url rq)) "" in
  (match rq_method rq, js_map_get path (sh_nodes s) with
   | "PROPFIND", _ => answer 207 (shelf_listing path s) []
   | "GET", Some (Some (_, body)) => answer 200 body []
   | _, _ => answer 404 "" []
   end, s).

#[export] Instance shelf_client : HttpClient Shelf := serve_shelf.

Definition write_cursor (c : CursorData) : string := pretty (Z.pos (encode c)).

Definition read_cursor (s : string) : option CursorData := match parseInt s with Some (Z.pos p) => decode p | _ => None end.

Lemma json_comes_back c : read_cursor (write_cursor c) = Some c.
Proof. unfold read_cursor, write_cursor. destruct (pretty_spelled (Z.pos (encode c))) as [_ ->]; [done|]. apply decode_encode. Qed.

Definition shelf_platform : SourcePlatform :=
  mkSourcePlatform (fun url => match strip_prefix origin url with Some p => Some p | None => strip_prefix "http://localhost" url end)
    (fun _ => Some origin) (fun _ => Some "dav.example") (fun reference base => Some (base ++ reference)) (fun s => Some s) (fun s => s)
    write_cursor read_cursor.

Definition shelf_config : WebDAVSourceConfig := mkWebDAVSourceConfig (origin ++ "/files") "owner" (Some "secret") false None.

Definition shelf_source : FileSource Shelf := WebdavFileSource shelf_platform shelf_config (fun _ _ => Ret tt) (Ret tt) (fun _ => "now").

(** Two files at the top of a tree, and one three levels down. *)
Definition tree : Shelf :=
  mkShelf [("/files/", None); ("/files/top.txt", Some ("1", "top")); ("/files/a/", None); ("/files/a/x.txt", Some ("2", "middle"));
           ("/files/a/b/", None); ("/files/a/b/y.txt", Some ("3", "deep"))].

Example folders_of_the_tree : (run (listFolders shelf_platform shelf_config (fun _ _ => Ret tt) (Ret tt)) tree).1 = inr [mkFolder (Some "") (Some "files"); mkFolder (Some "a") (Some "a")].
Proof. by vm_compute. Qed.

(** A pass copies what the source lists and fails at nothing; the file below the
    second level is not there, and nothing says so. *)
Definition tree_pass (w : World Ledger.PgState (SyncEnv Site RootMemo Shelf)) :=
  runDomainSync (file_sync sample_platform sample_deps sample_webdav 10 shelf_source) [two_workers; two_workers] w.

Definition tree_start : World Ledger.PgState (SyncEnv Site RootMemo Shelf) :=
  mkWorld (ledger_with []) (mkSyncEnv (mkDavEnv (site [""] []) no_keys 7) tree) ∅ initial_pass.

Example deep_files_are_never_copied :
  match tree_pass tree_start with
  | Some (inr rs, w) =>
      Some (created (rs_counters rs), failed_count (rs_counters rs), (fun p => stored (sample_url p) (server_of (w_env w))) <$> ["top.txt"; "a/x.txt"; "a/b/y.txt"])
  | _ => None
  end = Some (2, 0, [Some "top"; Some "middle"; None]).
Proof. by vm_compute. Qed.

(** *** Witnesses *)
Definition idle : prog Shelf string unit := Ret tt.

Definition sample_list := listSince shelf_platform shelf_config (fun _ _ => idle) idle (fun _ => "now").

Definition folder_a : Folder := mkFolder (Some "a") (Some "a").

Definition shelf_file (path etag : string) (size : Z) : WebDAVFile :=
  mkWebDAVFile path (nullish (list.last (split slash path)) "") size "Mon, 09 Jan 2023 15:30:00 GMT" etag None ("/files/" ++ path).

(** A folder and what became of it: one file rewritten, one new, one untouched. *)
Definition before : Shelf := mkShelf [("/files/a/", None); ("/files/a/x", Some ("1", "one")); ("/files/a/y", Some ("1", "two"))].

Definition after : Shelf :=
  mkShelf [("/files/a/", None); ("/files/a/x", Some ("2", "ONE")); ("/files/a/y", Some ("1", "two")); ("/files/a/z", Some ("1", "three"))].

Definition cursor_a : string := write_cursor (buildCursor "/a" [shelf_file "a/x" "1" 3; shelf_file "a/y" "1" 3]).

Lemma listing_misses_no_change_witness : exists files,
  run (listKeys shelf_platform shelf_config (fun _ _ => idle) idle (fun _ => "now") folder_a) after = (inr (wf_path <$> files), after) /\
  [shelf_file "a/x" "2" 3; shelf_file "a/z" "1" 5] =
  base.filter (fun f => ~ Exists (fun f0 => same_version f0 f) [shelf_file "a/x" "1" 3; shelf_file "a/y" "1" 3]) files.
Proof.
  destruct (listing_misses_no_change shelf_platform shelf_config (fun _ _ => idle) idle (fun _ => "now") json_comes_back folder_a None before
    [shelf_file "a/x" "1" 3; shelf_file "a/y" "1" 3] cursor_a before after [shelf_file "a/x" "2" 3; shelf_file "a/z" "1" 5]
    (write_cursor (buildCursor "/a" [shelf_file "a/x" "2" 3; shelf_file "a/z" "1" 5])) after) as (files & _ & H).
  - by vm_compute.
  - apply (bool_decide_unpack _); vm_compute; exact I.
  - by vm_compute.
  - exists files. exact H.
Defined.

Lemma quiet_listing_forgets_witness : exists v1 v2 v3,
  run (sample_list folder_a None) before = (inr ([shelf_file "a/x" "1" 3; shelf_file "a/y" "1" 3], v1), before) /\
  run (sample_list folder_a (Some v1)) before = (inr ([], v2), before) /\
  run (sample_list folder_a (Some v2)) before = (inr ([shelf_file "a/x" "1" 3; shelf_file "a/y" "1" 3], v3), before).
Proof.
  apply (quiet_listing_forgets shelf_platform shelf_config (fun _ _ => idle) idle (fun _ => "now") json_comes_back).
  - by vm_compute.
  - apply (bool_decide_unpack _); vm_compute; exact I.
  - by repeat constructor.
Defined.

Definition subtree : WebDAVSourceConfig := mkWebDAVSourceConfig (origin ++ "/remote.php/dav/files/owner") "owner" (Some "secret") false (Some "/Docs").

Lemma trashed_path_is_the_listed_path_witness :
  toRelativePath shelf_platform subtree "/remote.php/dav/files/owner/Docs/a%20b/c.txt" = inr "a b/c.txt" /\
  trashbinPathToKeyPath "/Docs/a b/c.txt" (Some "/Docs") = Some "a b/c.txt".
Proof.
  destruct (trashed_path_is_the_listed_path shelf_platform subtree "/remote.php/dav/files/owner/Docs/a%20b/c.txt"
    (origin ++ "/remote.php/dav/files/owner/Docs/a%20b/c.txt") "/remote.php/dav/files/owner/Docs/" "a%20b/c.txt" "a b/c.txt") as [H1 H2];
    [by vm_compute|by vm_compute|by vm_compute|by vm_compute|by vm_compute|done|].
  split; [exact H1|]. apply H2. by vm_compute.
Defined.

(** *** What goes wrong *)

(** An absolute reference, which RFC 4918 allows, is taken for a path. *)
Example absolute_references_are_paths :
  toRelativePath shelf_platform shelf_config (source_normalizePath (origin ++ "/files/a.txt")) = inr "https:/dav.example/files/a.txt".
Proof. by vm_compute. Qed.

(** A server that writes the elements under another prefix has no folders. *)
Example other_prefixes_are_not_read :
  parsePropfindResponse "<multistatus xmlns='DAV:'><response><href>/files/</href><resourcetype><collection/></resourcetype></response></multistatus>" = [].
Proof. by vm_compute. Qed.

(** An entry of the bin without an original location is not counted. *)
Example unnamed_trash_is_not_counted :
  parseTrashbinOriginalLocations "<d:multistatus><d:response><d:href>/trash/x.d1</d:href><nc:trashbin-original-location/></d:response></d:multistatus>" = inr [].
Proof. by vm_compute. Qed.
