(* ===== verification/MailSync.v ===== *)
(** * Mail through the engine ([packages/core/src/reconcile.ts])

    [runShadowPass]: the engine of [DomainSync] with a mail source and the IMAP
    target.  The source is the functions of its port over a state of its own.
    Folders of an excluded role are left out; the bin among them is read for
    what the owner threw away, with cursors of its own - the keys of
    [discardedScanCursorKey] in the one cursor store - kept in a map of their
    own. *)

From S2P Require Import Prelude Prog Concurrency Keys Ports Dav DavText MessageId ImapText DavWriter Detectors DomainSync ImapTarget ImapSource.
From S2P Require Import DomainSyncInvariants DomainSyncSafety DomainSyncSettles DomainSyncIdempotence DavSync.
From S2P Require ApplyDeletion.

Open Scope Z_scope.
#[local] Open Scope string_scope.

(** [SourceConnector] *)
Record MailSource (X : Type) := mkMailSource {
  ms_listFolders : X -> (string + list MailFolder) * X;
  ms_listSince : MailFolder -> option string -> X -> (string + MailListing) * X;
  ms_fetch : MailItem -> X -> (string + RawMessage) * X
}.
Arguments ms_listFolders {X} _ _.
Arguments ms_listSince {X} _ _ _ _.
Arguments ms_fetch {X} _ _ _.

(** The source, the variables of the pass and the cursors of the bins. *)
Record MailState (X : Type) := mkMailState {
  mx_source : X;
  mx_bins : list MailFolder;
  mx_excludedCollections : list SpecialUse;
  mx_scans : gmap string string
}.
Arguments mkMailState {X} _ _ _ _.
Arguments mx_source {X} _.
Arguments mx_bins {X} _.
Arguments mx_excludedCollections {X} _.
Arguments mx_scans {X} _.

#[export] Instance eta_MailState X : Eta (MailState X) := fun s =>
  mkMailState (mx_source s) (mx_bins s) (mx_excludedCollections s) (mx_scans s).

Definition DEFAULT_EXCLUDE_SPECIAL_USE : list SpecialUse := [su_trash; su_junk].

Record ReconcileResult := mkReconcileResult {
  rc_scanned : Z; rc_created : Z; rc_skipped : Z; rc_adopted : Z; rc_moved : Z; rc_drift : Z;
  rc_deletions : option (list ItemDeletion);
  rc_excludedCollections : option (list SpecialUse);
  rc_reappearedAfterRemoval : option Z
}.

Definition some_if_any {A} (l : list A) : option (list A) := match l with [] => None | _ => Some l end.

(** A folder as the engine has it, and as the source is handed it back: the
    engine passes the object itself, whose role nothing reads any more. *)
Definition engine_folder (f : MailFolder) : Folder := mkFolder (Some (mf_path f)) (mf_name f).

Definition source_folder (f : Folder) : MailFolder := mkMailFolder (nullish (fo_path f) "") (fo_name f) su_normal None.

Section mail.
Context {L Srv X : Type} `{Ledger L} `{ImapClient Srv}.
Variables (rt : Runtime) (sd : SyncDeps) (excludeSpecialUse : option (list SpecialUse)) (source : MailSource X).

Abbreviation MailEnv := (SyncEnv Srv bool (MailState X)).

Definition excluded : list SpecialUse := nullish excludeSpecialUse DEFAULT_EXCLUDE_SPECIAL_USE.

Definition leaves_out (f : MailFolder) : Prop := mf_specialUse f ∈ excluded.

#[export] Instance leaves_out_dec f : Decision (leaves_out f).
Proof. unfold leaves_out. apply _. Defined.

Definition over_source {A} (f : X -> (string + A) * X) (x : MailState X) : (string + A) * MailState X :=
  let '(r, s) := f (mx_source x) in (r, x <| mx_source := s |>).

(** [listFolders] *)
Definition list_in_scope (x : MailState X) : (string + list Folder) * MailState X :=
  match over_source (ms_listFolders source) x with
  | (inl e, x) => (inl e, x)
  | (inr all, x) =>
      (inr (engine_folder <$> base.filter (fun f => ~ leaves_out f) all),
       x <| mx_excludedCollections ::= fun ex => (ex ++ (mf_specialUse <$> base.filter leaves_out all))%list |>
         <| mx_bins := base.filter (fun f => mf_specialUse f = su_trash /\ leaves_out f) all |>)
  end.

Definition mail_listing (listing : MailListing) : Listing MailItem :=
  mkListing (ml_items listing) (ml_nextCursor listing) (ml_removed listing).

Definition naturalKeyForItem (item : MailItem) : string := hash_naturalKeyHash rt (mi_messageId item).

Definition mail_key (item : MailItem) : option string :=
  if String.eqb (mi_messageId item) "" then None else Some (naturalKeyForItem item).

(** [listDiscardedKeys] *)
Fixpoint discarded_in (bins : list MailFolder) (keys : list string) (x : MailState X)
    : (string + DiscardedListing) * MailState X :=
  match bins with
  | [] => (inr (mkDiscardedListing keys 0 None), x)
  | bin :: bins' =>
      let scanKey := discardedScanCursorKey (mf_path bin) in
      let prev := if sd_cursors sd then mx_scans x !! scanKey else None in
      match over_source (ms_listSince source bin prev) x with
      | (inl e, x) => (inl e, x)
      | (inr listing, x) =>
          discarded_in bins' (keys ++ omap mail_key (ml_items listing))%list
            (if sd_cursors sd then x <| mx_scans ::= <[scanKey := ml_nextCursor listing]> |> else x)
      end
  end.

(** [fetchRaw] *)
Definition fetch_ensured (item : MailItem) (x : X) : (string + RawMessage * Z) * X :=
  mapped (fun raw =>
    let ensured := ensureMessageId rt (rm_rfc822 raw) in
    if en_generated ensured
    then (mkRawMessage (rm_item raw) (en_rfc822 ensured), Z.of_nat (String.length (en_rfc822 ensured)))
    else (raw, Z.of_nat (String.length (rm_rfc822 raw)))) (ms_fetch source item x).

Definition raw_key (raw : RawMessage) : string :=
  hash_naturalKeyHash rt (en_messageId (ensureMessageId rt (rm_rfc822 raw))).

(** The folder asked of the target. *)
Definition target_folder (f : Folder) : Folder :=
  match truthy (sd_targetFolderPrefix sd) with
  | Some _ => mkFolder (Some (ApplyDeletion.applyTargetFolderPrefix (sd_targetFolderPrefix sd) (nullish (fo_path f) ""))) (fo_name f)
  | None => f
  end.

Definition at_mailbox {A} (p : prog (DavEnv Srv bool) string A) (e : MailEnv) : (string + A) * MailEnv :=
  let '(r, t) := run p (se_target e) in (r, e <| se_target := t |>).

Definition by_mail_writer {A} (p : prog (DavEnv Srv bool) string A) : prog (L * MailEnv) string A :=
  plift (fun w => se_target w.2) (fun t w => (w.1, w.2 <| se_target := t |>)) p.

Definition mail_sync : DomainSyncDeps L MailEnv MailItem RawMessage :=
  {| ds_tenantId := sd_tenantId sd; ds_mappingId := sd_mappingId sd; ds_domain := Email;
     ds_cursors := sd_cursors sd; ds_concurrency := Some (nullish (sd_concurrency sd) DEFAULT_CONCURRENCY);
     ds_listFolders := from_source list_in_scope;
     ds_listSince := fun folder cursor =>
       from_source (fun x => mapped mail_listing (over_source (ms_listSince source (source_folder folder) cursor) x));
     ds_fetchRaw := fun item => from_source (over_source (fetch_ensured item));
     ds_upsert := fun mailboxId raw item _ =>
       by_mail_writer (upsertEmail mailboxId (rm_rfc822 raw) (mi_keywords item));
     ds_sourceVersion := fun _ => None;
     ds_sourceRef := fun item => Some (mi_sourceRef item);
     ds_naturalKey := mail_key;
     ds_listCollectionKeys := None;
     ds_listDiscardedKeys := Some (from_source (fun x => discarded_in (mx_bins x) [] x));
     ds_naturalKeyFromRaw := Some (fun _ raw => raw_key raw);
     ds_contentHash := fun raw => sha256Hex rt (rm_rfc822 raw);
     ds_failOnCollision := sd_failOnCollision sd;
     ds_ensureCollection := fun folder => at_mailbox (ensureMailbox (target_folder folder));
     ds_now := fun e => de_now (se_target e) |}.

Definition reconcile_result (rs : DomainSyncResult) (e : MailEnv) : ReconcileResult :=
  let p := rs_counters rs in
  mkReconcileResult (scanned p) (created p) (skipped p) (adopted_count p) (moved_count p) (drift p)
    (some_if_any (rs_deletions rs)) (some_if_any (mx_excludedCollections (se_source e)))
    (if decide (0 < reappearedAfterRemoval p) then Some (reappearedAfterRemoval p) else None).

(** The pass begins with no bins and nothing left out. *)
Definition begins (e : MailEnv) : MailEnv :=
  e <| se_source ::= fun x => x <| mx_bins := [] |> <| mx_excludedCollections := [] |> |>.

Definition runShadowPass (scheds : list (list nat)) (w : World L MailEnv)
    : option ((err + ReconcileResult) * World L MailEnv) :=
  match runDomainSync mail_sync scheds (w <| w_env ::= begins |>) with
  | None => None
  | Some (inl e, w') => Some (inl e, w')
  | Some (inr rs, w') => Some (inr (reconcile_result rs (w_env w')), w')
  end.
End mail.

(** [ImapFlowSource] as a mail source; of an error the engine keeps the message. *)
Definition told {A X} (r : (ImapError + A) * X) : (string + A) * X :=
  (match r.1 with inl e => inl (ie_message e) | inr a => inr a end, r.2).

Definition imap_source {X} `{ImapReader X} (config : ImapSourceConfig) : MailSource X :=
  {| ms_listFolders := fun x => told (run (mail_listFolders config) x);
     ms_listSince := fun folder cursor x => told (run (mail_listSince config folder cursor) x);
     ms_fetch := fun item x => told (run (mail_fetch config item) x) |}.

(** ** What a pass does to the target *)
Section passes.
Context {L Srv X : Type} `{LL : LedgerLaws L} `{IS : ImapServer Srv}.
Variables (rt : Runtime) (sd : SyncDeps) (ex : option (list SpecialUse)) (source : MailSource X).

Abbreviation MailEnv := (SyncEnv Srv bool (MailState X)).
Abbreviation deps := (mail_sync (L:=L) (Srv:=Srv) rt sd ex source).

(** The messages of a mailbox of the target. *)
Definition on_target_of (mailbox : string) (e : MailEnv) : gmap Z string := messages mailbox (de_server (se_target e)).

Lemma keeps_by_mail_writer {A} (K : DavEnv Srv bool -> Prop) (p : prog (DavEnv Srv bool) string A) Q :
  keeps K p Q -> keeps (fun le : L * MailEnv => True /\ K (se_target le.2)) (by_mail_writer p) Q.
Proof.
  unfold by_mail_writer. induction p as [a|e|B f k IH]; simpl; [done..|]. intros Hp [l e] [_ He]. simpl in *.
  destruct (Hp _ He) as [HK Hk]. destruct (f (se_target e)) as [b t]. simpl in *. split; [done|]. by apply IH.
Qed.

Lemma from_source_target {A} (K : DavEnv Srv bool -> Prop) (f : MailState X -> (string + A) * MailState X) :
  outside (fun e : MailEnv => K (se_target e)) (from_source f).
Proof. intros e He. unfold from_source. by destruct (f _). Qed.

Lemma at_mailbox_target {A} G (K : DavEnv Srv bool -> Prop) (p : prog (DavEnv Srv bool) string A) `{!PreOrder G} :
  steps_in G p -> (forall t t', G t t' -> K t -> K t') -> outside (fun e : MailEnv => K (se_target e)) (at_mailbox p).
Proof.
  intros Hp HG e He. unfold at_mailbox. pose proof (steps_in_run G p (se_target e) Hp) as Hr.
  destruct (run p _) as [r t]. simpl in *. by eapply HG.
Qed.

(** The mailbox a folder's messages go to. *)
Definition mailbox_of (f : Folder) : string :=
  let g := target_folder sd f in nullish (truthy (fo_path g)) (nullish (truthy (fo_name g)) "").

Lemma run_bind_result {W A B} (p : prog W string A) (q : A -> prog W string B) (T : B -> Prop) w :
  (forall a w', match fst (run (q a) w') with inr b => T b | inl _ => True end) ->
  match fst (run (pbind p q) w) with inr b => T b | inl _ => True end.
Proof. intros Hq. rewrite run_bind. destruct (run p w) as [[e|a] w']; [done|apply Hq]. Qed.

Lemma ensureMailbox_names f t :
  match fst (run (ensureMailbox (target_folder sd f) : prog (DavEnv Srv bool) string string) t) with
  | inr mailbox => mailbox = mailbox_of f | inl _ => True end.
Proof.
  assert (Hc : forall n t, match fst (run (let! existing := listMailboxes in
      if decide (n ∈ mf_path <$> existing) then Ret n else command (im_create n) ;;; Ret n : prog (DavEnv Srv bool) string string) t) with
      | inr mailbox => mailbox = n | inl _ => True end).
  { intros n t0. apply (run_bind_result listMailboxes _ (fun mailbox => mailbox = n)). intros l t1. case_decide; [done|].
    by apply (run_bind_result (command (im_create n)) _ (fun mailbox => mailbox = n)). }
  apply (run_bind_result live _ (fun mailbox => mailbox = mailbox_of f)). intros u t1. unfold mailbox_of.
  destruct (truthy (fo_path (target_folder sd f))), (truthy (fo_name (target_folder sd f))); try apply Hc; done.
Qed.

(** What such a pass is asked of: what an item's bytes are, given where it goes. *)
Lemma mail_world_keeps G (K : DavEnv Srv bool -> Prop) (P : Z -> Prop) scope listed fetched `{!PreOrder G} :
  (forall t t', unchanged t t' -> G t t') -> (forall t t', G t t' -> K t -> K t') ->
  (forall x, match fst (list_in_scope ex source x) with inr fs => Forall scope fs | inl _ => True end) ->
  (forall f cursor x, scope f -> match fst (ms_listSince source (source_folder f) cursor x) with
                      | inr ls => Forall (listed f) (ml_items ls) | inl _ => True end) ->
  (forall f item x, listed f item -> match fst (fetch_ensured rt source item x) with
                    | inr a => fetched item a.1 | inl _ => True end) ->
  (forall f raw item, listed f item -> fetched item raw ->
     keeps K (upsertEmail (mailbox_of f) (rm_rfc822 raw) (mi_keywords item))
       (fun r => ur_created r = true -> forall n, P n -> P (1 + n))) ->
  world_keeps deps (fun e => K (se_target e)) scope listed fetched (fun f cid => cid = mailbox_of f) P.
Proof.
  intros HU HG Hscope Hlist Hfetch Hup. split; [split| |].
  - intros e He. split; [apply (from_source_target K _ e He)|]. specialize (Hscope (se_source e)).
    simpl. unfold from_source. by destruct (list_in_scope _ _ _).
  - intros f. apply (at_mailbox_target G K); [done|eapply steps_in_mono; [apply HU|apply ensureMailbox_unchanged]|exact HG].
  - intros f e _. simpl. unfold at_mailbox. pose proof (ensureMailbox_names f (se_target e)) as Hn. by destruct (run _ _).
  - intros f p e Hf He. split; [exact (from_source_target K _ e He)|]. specialize (Hlist f p (mx_source (se_source e)) Hf).
    simpl. unfold from_source, mapped, over_source. revert Hlist. by destruct (ms_listSince _ _ _ _) as [[x|ls] x'].
  - done.
  - intros g [= <-]. apply (from_source_target K).
  - intros f item e Hl He. split; [exact (from_source_target K _ e He)|]. specialize (Hfetch f item (mx_source (se_source e)) Hl).
    cbn [ds_fetchRaw mail_sync]. unfold from_source, over_source. revert Hfetch.
    destruct (fetch_ensured rt source item (mx_source (se_source e))) as [[y|a] x']; done.
  - intros f cid raw item o -> Hl Hr. apply (keeps_by_mail_writer K). by apply (Hup f).
Qed.

(** C6: a mail pass removes nothing from the target.  Whatever [runShadowPass]
    meets - any ledger, any source, failing calls, however its uploads
    interleave - every message a mailbox of the target held before the pass it
    holds after it, under the same UID and byte for byte. *)
Theorem mail_pass_only_appends scheds w r w' mailbox uid body :
  runShadowPass (L:=L) rt sd ex source scheds w = Some (r, w') ->
  on_target_of mailbox (w_env w) !! uid = Some body -> on_target_of mailbox (w_env w') !! uid = Some body.
Proof.
  unfold runShadowPass. intros Hr Hb.
  assert (WK : world_keeps deps (fun e => only_appends (se_target (w_env w)) (se_target e)) (fun _ => True) (fun _ _ => True)
    (fun _ _ => True) (fun f cid => cid = mailbox_of f) (fun _ => True)).
  { apply (mail_world_keeps only_appends (only_appends (se_target (w_env w)))).
    - apply _.
    - apply unchanged_appends.
    - intros t t' Ht Hw. by etrans.
    - intros x. destruct (fst _); [done|by apply Forall_true].
    - intros f cursor x _. destruct (fst _); [done|by apply Forall_true].
    - intros f item x _. by destruct (fst _).
    - intros f raw item _ _. eapply keeps_mono; [eapply steps_in_keeps; [|apply upsertEmail_appends]|done].
      intros t t' Hw Ht. by etrans. }
  destruct (runDomainSync deps scheds _) as [[[e|rs] w1]|] eqn:Hrun; [..|done];
    injection Hr as <- <-; eapply (pass_keeps_world _ _ _ _ _ _ _ WK) in Hrun as [Hk _]; try done; by apply Hk.
Qed.
(** A folder the pass copies. *)
Definition in_scope (f : Folder) : Prop := exists g, f = engine_folder g /\ ~ leaves_out ex g.

Lemma list_in_scope_scope x :
  match fst (list_in_scope ex source x) with inr fs => Forall in_scope fs | inl _ => True end.
Proof.
  unfold list_in_scope, over_source. destruct (ms_listFolders source (mx_source x)) as [[e|all] x']; [done|].
  apply Forall_forall. intros f (g & -> & Hg)%list_elem_of_fmap. apply list_elem_of_filter in Hg as [Hg _]. by exists g.
Qed.

(** The target has the message: the mailbox of the folder holds one under the
    Message-ID the writer reads in the bytes. *)
Definition has_copy (e : MailEnv) (f : Folder) (raw : RawMessage) : Prop :=
  exists id uid body, extractMessageIdFromRfc822 (rm_rfc822 raw) = Some id /\
    on_target_of (mailbox_of f) e !! uid = Some body /\ has_id id body.

(** Whatever the source hands over of an item, the target has it. *)
Definition copied_already (e : MailEnv) (f : Folder) (item : MailItem) : Prop :=
  forall x raw size, fst (fetch_ensured rt source item x) = inr (raw, size) -> has_copy e f raw.

Lemma keeps_unchanged {A} t0 (p : prog (DavEnv Srv bool) string A) :
  steps_in unchanged p -> keeps (unchanged t0) p (fun _ => True).
Proof. apply steps_in_keeps. intros t t' Ht Hu. by etrans. Qed.

(** A lookup of what is held finds it. *)
Lemma lookup_finds t0 mailbox key uid body :
  messages mailbox (de_server t0) !! uid = Some body -> has_id key body ->
  keeps (unchanged t0) (findByNaturalKey mailbox key) (fun r => is_Some (truthy r)).
Proof.
  intros Hb Hk. eapply keeps_bind; [apply keeps_unchanged, live_unchanged|]. intros u _.
  apply keeps_catch; [|done].
  eapply keeps_bind; [apply keeps_unchanged, reads_unchanged; constructor|]. intros sel _.
  eapply (keeps_bind _ _ _ (fun l => is_Some (truthy (first_uid (normaliseKey key) l)))); [|done].
  apply keeps_try. intros t Ht. pose proof (reads_fetchAll (de_server t) mailbox) as Hr.
  pose proof (fun l => first_uid_spec key mailbox (de_server t) l) as Hf.
  destruct (im_fetchAll mailbox (de_server t)) as [[e|l] s']; simpl in *; (split; [intros mb; simpl; by rewrite (law_reads _ _ _ Hr)|]); [done|].
  specialize (Hf l eq_refl). destruct (first_uid (normaliseKey key) l) as [v|].
  - destruct Hf as (uid' & body' & -> & _). unfold truthy. rewrite decide_False; [by eexists|apply pretty_not_empty].
  - destruct (Hf uid body); [|done]. by rewrite (Ht mailbox).
Qed.

Lemma upload_of_a_copy t0 mailbox rfc822 keywords id uid body :
  extractMessageIdFromRfc822 rfc822 = Some id ->
  messages mailbox (de_server t0) !! uid = Some body -> has_id id body ->
  keeps (unchanged t0) (upsertEmail mailbox rfc822 keywords) (fun r => ur_created r = false).
Proof.
  intros Hid Hb Hk. eapply keeps_bind; [apply keeps_unchanged, live_unchanged|]. intros u _. rewrite Hid.
  eapply keeps_bind; [by eapply lookup_finds|]. intros found [v ->].
  eapply keeps_bind; [apply keeps_unchanged, uidValidityOf_unchanged|done].
Qed.

End passes.

(** What a pass answers are its counters as they stand in the end. *)
Lemma answers_counters {L Env Item Raw} `{Ledger L} (deps : DomainSyncDeps L Env Item Raw) scheds w rs w' :
  runDomainSync deps scheds w = Some (inr rs, w') -> rs_counters rs = w_pass w'.
Proof.
  assert (Hb : forall A (p : prog (World L Env) err A) q, (forall a w rs w', run (q a) w = (inr rs, w') -> rs_counters rs = w_pass w') ->
    forall w rs w', run (pbind p q) w = (inr rs, w') -> rs_counters rs = w_pass w').
  { intros A p q Hq w0 rs0 w0'. rewrite run_bind. destruct (run p w0) as [[e|a] w1]; [done|apply Hq]. }
  unfold runDomainSync. destruct (run (call (ds_listFolders deps)) _) as [[e|fs] w1]; [done|].
  destruct (sync_folders deps fs scheds w1) as [[[e|u] w2]|]; try done. intros [= Hr]. revert Hr.
  unfold after_folders. repeat (apply Hb; intros ? ? ? ?). revert w2 rs w'. repeat (apply Hb; intros ?).
  intros w2 rs w'. by intros [= <- <-].
Qed.

(** ** A pass run twice *)
Section twice.
Context {L Srv X : Type} `{LL : LedgerLaws L} `{IS : ImapServer Srv}.
Variables (rt : Runtime) (sd : SyncDeps) (ex : option (list SpecialUse)) (source : MailSource X).
Variables (Still : X -> Prop) (all : list MailFolder) (content : string -> list MailItem).

Abbreviation MailEnv := (SyncEnv Srv bool (MailState X)).
Abbreviation deps := (mail_sync (L:=L) (Srv:=Srv) rt sd ex source).
Abbreviation still e := (Still (mx_source (se_source e))).

(** A mailbox that stands still in the states of [Still]: its calls stay there,
    it lists the folders [all] and, without a cursor, all of a path's [content];
    every message of a folder that is copied has a Message-ID. *)
Record still_mail : Prop := {
  sm_folders x : Still x -> Still (snd (ms_listFolders source x)) /\
    match fst (ms_listFolders source x) with inr fs => fs = all | inl _ => True end;
  sm_list f cursor x : Still x -> Still (snd (ms_listSince source f cursor x)) /\
    match fst (ms_listSince source f cursor x) with
    | inr ls => ml_items ls ⊆ content (mf_path f) /\ (cursor = None -> content (mf_path f) ⊆ ml_items ls)
    | inl _ => True
    end;
  sm_fetch item x : Still x -> Still (snd (ms_fetch source item x));
  sm_named f item : f ∈ all -> ~ leaves_out ex f -> item ∈ content (mf_path f) -> mi_messageId item <> ""
}.

Hypothesis SM : still_mail.

Definition copied_folders : list Folder := engine_folder <$> base.filter (fun f => ~ leaves_out ex f) all.

Definition folder_content (f : Folder) : list MailItem :=
  if decide (f ∈ copied_folders) then content (nullish (fo_path f) "") else [].

Lemma from_mail_still {A} (f : MailState X -> (string + A) * MailState X) (e : MailEnv) :
  (still e -> Still (mx_source (snd (f (se_source e))))) -> still e -> still (snd (from_source f e)).
Proof. unfold from_source. destruct (f (se_source e)). auto. Qed.

Lemma over_source_still {A} (f : X -> (string + A) * X) (x : MailState X) :
  (forall y, Still y -> Still (snd (f y))) -> Still (mx_source x) -> Still (mx_source (snd (over_source f x))).
Proof. intros Hf Hx. specialize (Hf _ Hx). unfold over_source. by destruct (f _). Qed.

Lemma discarded_still bins keys (x : MailState X) :
  Still (mx_source x) -> Still (mx_source (snd (discarded_in rt sd source bins keys x))).
Proof using SM.
  revert keys x; induction bins as [|bin bins IH]; intros keys x Hx; [done|]. cbn [discarded_in].
  pose proof (over_source_still (ms_listSince source bin (if sd_cursors sd then mx_scans x !! discardedScanCursorKey (mf_path bin) else None)) x
    (fun y Hy => proj1 (sm_list SM _ _ y Hy)) Hx) as Hs.
  destruct (over_source _ x) as [[e|listing] x']; [done|]. apply IH. by destruct (sd_cursors sd).
Qed.

(** The writer leaves the ledger and the source alone. *)
Lemma steps_by_mail_writer {A} (R : L * MailEnv -> L * MailEnv -> Prop) (p : prog (DavEnv Srv bool) string A) :
  (forall le t, R le (le.1, le.2 <| se_target := t |>)) -> steps_in R (by_mail_writer p).
Proof.
  intros HR. unfold by_mail_writer. induction p as [a|e|B f k IH]; [done..|]. intros le. simpl.
  destruct (f (se_target le.2)) as [b t]. split; [apply HR|apply IH].
Qed.

Lemma mail_static_calls : static_calls deps (fun _ => None) (fun e => still e) (fun _ => True) (fun _ _ => True).
Proof using SM LL.
  split.
  - intros e. apply from_mail_still. intros Hx. destruct (sm_folders SM _ Hx) as [Hs _].
    unfold list_in_scope, over_source. by destruct (ms_listFolders source _) as [[] ?].
  - intros f e He. simpl. unfold at_mailbox. by destruct (run _ _).
  - intros f p e. apply from_mail_still. unfold mapped. intros Hx. simpl. apply over_source_still; [|done].
    intros y Hy. by apply SM.
  - intros i e. apply from_mail_still. apply over_source_still. intros y Hy. by apply SM.
  - done.
  - intros g e [= <-]. apply from_mail_still. apply discarded_still.
  - intros i e. by destruct (fst _).
  - intros cid raw item k p rw _ _ _ _. apply steps_by_mail_writer. intros le t. by split.
Qed.

Lemma mail_static_source :
  static_source deps (fun _ => None) (fun e => still e) (fun _ => True) copied_folders folder_content.
Proof using SM.
  split.
  - intros e fs e' He. simpl. unfold from_source, list_in_scope, over_source. destruct (sm_folders SM _ He) as [_ Hfs].
    destruct (ms_listFolders source _) as [[x|fs'] y]; [done|]. simpl in Hfs. subst fs'. by intros [= <- _].
  - intros f p e ls e' Hf He. simpl. unfold from_source, mapped, over_source.
    destruct (sm_list SM (source_folder f) p _ He) as [_ Hls].
    destruct (ms_listSince source _ _ _) as [[x|ls'] y]; [done|]. simpl in *. intros [= <- _]. simpl.
    unfold folder_content. by rewrite decide_True.
  - intros f item. unfold folder_content. case_decide as Hf; [|by intros ?%elem_of_nil].
    apply list_elem_of_fmap in Hf as (g & -> & [Hg Hall]%list_elem_of_filter). intros Hitem. simpl in Hitem.
    pose proof (sm_named SM g item Hall Hg Hitem) as Hne. simpl. unfold mail_key.
    destruct (String.eqb_spec (mi_messageId item) ""); [done|]. by eexists.
  - intros f item. unfold folder_content. case_decide; [done|by intros ?%elem_of_nil].
  - done.
Qed.

Lemma mail_reading_only t0 : reading_only deps (fun e => unchanged t0 (se_target e)).
Proof using IS.
  split.
  - intros e. apply (from_source_target (unchanged t0)).
  - intros g. apply (at_mailbox_target unchanged (unchanged t0)); [apply _|apply ensureMailbox_unchanged|].
    intros t t' Ht Hu. by etrans.
  - intros g p e. apply (from_source_target (unchanged t0)).
  - done.
  - intros g [= <-] e. apply (from_source_target (unchanged t0)).
Qed.

(** C7: mail run twice.  Let a mailbox stand still, every message to be copied
    with a Message-ID, and a first [runShadowPass] list it in full and end with
    no failed item.  The next pass, whatever others did to the target in
    between, then counts nothing created or adopted, and every mailbox of the
    target holds exactly what it held before it. *)
Theorem mail_run_twice scheds1 scheds2 w rs w1 e1 r w2 :
  NoDup (collectionPath <$> copied_folders) ->
  (forall f, f ∈ copied_folders -> w_cursors w !! collectionPath f = None) ->
  still (w_env w) -> sane deps (w_ledger w) ->
  runShadowPass rt sd ex source scheds1 w = Some (inr rs, w1) -> failed_count (w_pass w1) = 0 ->
  (still (w_env w1) -> still e1) -> runShadowPass rt sd ex source scheds2 (w1 <| w_env := e1 |>) = Some (r, w2) ->
  match r with inr rs2 => rc_created rs2 = 0 /\ rc_adopted rs2 = 0 | inl _ => True end /\
  forall mailbox, on_target_of mailbox (w_env w2) = on_target_of mailbox e1.
Proof using SM LL IS.
  unfold runShadowPass. intros Hnd Hcur Hs Hsane Hr1 Hzero He1 Hr2.
  destruct (runDomainSync deps scheds1 _) as [[[x|rs1] w1']|] eqn:Hrun1; [done| |done]. injection Hr1 as <- <-.
  pose proof (answers_counters _ _ _ _ _ Hrun1) as Hc. rewrite <- Hc in Hzero.
  destruct (runDomainSync deps scheds2 _) as [[r2 w2']|] eqn:Hrun2; [|done].
  destruct (second_pass_rests deps (fun _ => None) (fun e => still e) (fun e => unchanged (se_target e1) (se_target e))
    (fun _ => True) (fun _ _ => True) copied_folders folder_content scheds1 scheds2
    (mkWorld (w_ledger w) (begins (w_env w)) (w_cursors w) (w_pass w)) rs1 w1' (begins e1) r2 w2'
    mail_static_calls mail_static_source (mail_reading_only _) Hnd Hcur Hs Hsane Hrun1 Hzero He1) as (Hu & Hn & Hrs); [done|exact Hrun2|].
  destruct r2 as [x|rs2]; injection Hr2 as <- <-; (split; [|apply Hu]); [done|].
  by injection Hrs as Hcr Had _ _ _.
Qed.
End twice.
