(* ===== verification/SampleMail.v ===== *)
(** * A small mail account

    An account that keeps the promises of [ImapServer] and of
    [ImapReaderServer]: mailboxes of messages by UID, an envelope that has the
    Message-ID of the header, and a login that accepts one token.  The theorems
    on mail are about any such server; on this one they are applied. *)

From stdpp Require Import pretty.
From S2P Require Import Prelude Prog Keys DavText MessageId ImapText ImapTarget ImapSource.

Open Scope Z_scope.
#[local] Open Scope string_scope.

Record Account := mkAccount {
  ac_boxes : list Box;
  ac_messages : gmap string (gmap Z string);
  ac_validity : Z;
  ac_uidNext : Z;
  ac_opened : option string;
  (** The token the server takes, the one the provider has, and the next one. *)
  ac_accepts : string; ac_token : string; ac_renewed : string
}.

#[export] Instance eta_Account : Eta Account := fun s =>
  mkAccount (ac_boxes s) (ac_messages s) (ac_validity s) (ac_uidNext s) (ac_opened s) (ac_accepts s) (ac_token s) (ac_renewed s).

Definition mailbox_in (mailbox : string) (s : Account) : gmap Z string := nullish (ac_messages s !! mailbox) ∅.

(** A UID above every other of the mailbox. *)
Definition above (m : gmap Z string) : Z := map_fold (fun uid _ n => Z.max (uid + 1) n) 1 m.

Lemma above_spec m uid : is_Some (m !! uid) -> uid < above m.
Proof.
  unfold above. revert uid. apply (map_fold_weak_ind (fun n (m : gmap Z string) => forall uid, is_Some (m !! uid) -> uid < n)).
  - intros uid. rewrite lookup_empty. by intros [? ?].
  - intros i x m' n Hi IH uid. destruct (decide (uid = i)) as [->|Hne]; [lia|].
    rewrite lookup_insert_ne by done. intros Hu. specialize (IH uid Hu). lia.
Qed.

Lemma above_fresh m : m !! above m = None.
Proof. apply eq_None_not_Some. intros Hs%above_spec. lia. Qed.

Definition put_message (mailbox : string) (body : string) (s : Account) : Account :=
  s <| ac_messages ::= <[mailbox := <[above (mailbox_in mailbox s) := body]> (mailbox_in mailbox s)]> |>.

Definition drop_message (mailbox : string) (uid : Z) (s : Account) : Account :=
  s <| ac_messages ::= <[mailbox := delete uid (mailbox_in mailbox s)]> |>.

Lemma mailbox_put_here mailbox body s :
  mailbox_in mailbox (put_message mailbox body s) = <[above (mailbox_in mailbox s) := body]> (mailbox_in mailbox s).
Proof. unfold mailbox_in at 1, put_message. simpl. by rewrite lookup_insert_eq. Qed.

Lemma mailbox_put mailbox body s mailbox' uid b :
  mailbox_in mailbox' s !! uid = Some b -> mailbox_in mailbox' (put_message mailbox body s) !! uid = Some b.
Proof.
  unfold mailbox_in at 2, put_message. simpl. destruct (decide (mailbox' = mailbox)) as [->|Hne].
  - rewrite lookup_insert_eq. simpl. intros Hb. rewrite lookup_insert_ne; [done|].
    intros He. rewrite <- He in Hb. by rewrite above_fresh in Hb.
  - by rewrite lookup_insert_ne.
Qed.

Lemma mailbox_drop mailbox uid s mailbox' u b :
  (mailbox', u) <> (mailbox, uid) -> mailbox_in mailbox' s !! u = Some b ->
  mailbox_in mailbox' (drop_message mailbox uid s) !! u = Some b.
Proof.
  unfold mailbox_in at 2, drop_message. simpl. intros Hne. destruct (decide (mailbox' = mailbox)) as [->|Hm].
  - rewrite lookup_insert_eq. simpl. rewrite lookup_delete_ne by congruence. done.
  - by rewrite lookup_insert_ne.
Qed.

Definition envelope_of (body : string) : option string := readMessageId body.

Definition fetched_of (x : Z * string) : Fetched :=
  mkFetched x.1 (envelope_of x.2) (Some (Z.of_nat (String.length x.2))) [] None.

Definition has_box (mailbox : string) (s : Account) : bool := bool_decide (mailbox ∈ bx_path <$> ac_boxes s).

Definition selected (mailbox : string) (s : Account) : Selected :=
  mkSelected (ac_validity s) (ac_uidNext s) (Z.of_nat (size (mailbox_in mailbox s))).

#[export] Instance account_client : ImapClient Account := {
  im_connect s := (inr tt, s);
  im_list s := (inr (ac_boxes s), s);
  im_create mailbox s :=
    (inr tt, if has_box mailbox s then s else s <| ac_boxes ::= fun bs => (bs ++ [mkBox mailbox mailbox []])%list |>);
  im_select mailbox s := if has_box mailbox s then (inr (Some (selected mailbox s)), s) else (inl "NO such mailbox", s);
  im_fetchAll mailbox s := (inr (fetched_of <$> map_to_list (mailbox_in mailbox s)), s);
  im_append mailbox body _ s :=
    if has_box mailbox s then (inr (Some (Some (above (mailbox_in mailbox s)))), put_message mailbox body s)
    else (inr None, s);
  im_search mailbox uid s := (inr (Some (if defined (mailbox_in mailbox s !! uid) then [uid] else [])), s);
  im_move mailbox uid bin s :=
    match mailbox_in mailbox s !! uid with
    | Some body => (inr true, put_message bin body (drop_message mailbox uid s))
    | None => (inr false, s)
    end;
  im_delete mailbox uid s := (inr true, drop_message mailbox uid s);
  im_uidplus := true;
  im_source mailbox uid s := (inr (Some <$> mailbox_in mailbox s !! uid), s)
}.

#[export] Instance account_server : ImapServer Account.
Proof.
  refine {| messages := mailbox_in; validity := fun _ s => ac_validity s; envelope_id := envelope_of; has_move := true |}.
  - intros s s' mailbox Hr. destruct Hr as [| |mb|mb|mb|mb uid|mb uid]; simpl; try done; by destruct (has_box mb s).
  - done.
  - intros mailbox s sel. simpl. destruct (has_box mailbox s); [|done]. by intros [= <-].
  - intros mailbox s l [= <-]. split.
    + intros uid body Hb. exists (fetched_of (uid, body)). split_and!; [|done..].
      apply list_elem_of_fmap_2. by apply elem_of_map_to_list.
    + intros f ([uid body] & -> & Hx%elem_of_map_to_list)%list_elem_of_fmap. by exists body.
  - intros mailbox body flags s mailbox' uid b Hb. simpl. destruct (has_box mailbox s); [by apply mailbox_put|done].
  - intros mailbox body flags s uid. simpl. destruct (has_box mailbox s); [|done]. intros [= <-].
    simpl. by rewrite mailbox_put_here, lookup_insert_eq.
  - intros mailbox uid s l [= <-]. destruct (mailbox_in mailbox s !! uid).
    + split; [by eexists|]. intros _. apply list_elem_of_here.
    + split; [by intros ?%elem_of_nil|by intros [? ?]].
  - intros mailbox uid bin s mailbox' u b _ Hne Hb. simpl. destruct (mailbox_in mailbox s !! uid); [|done].
    by apply mailbox_put, mailbox_drop.
  - intros mailbox uid s mailbox' u b _ Hne Hb. simpl. by apply mailbox_drop.
Defined.

Definition refused (message : string) {A} : ImapError + A := inl (error message).

#[export] Instance account_reader : ImapReader Account := {
  ir_getToken s := (inr (ac_token s), s);
  ir_refresh s := (inr tt, s <| ac_token := ac_renewed s |>);
  ir_connect token s :=
    (if decide (token = Some (ac_accepts s)) then inr tt else refused "AUTHENTICATIONFAILED Invalid credentials", s);
  ir_close s := s <| ac_opened := None |>;
  ir_list s := (inr (ac_boxes s), s);
  ir_mailboxOpen mailbox s := (if has_box mailbox s then inr tt else refused "NO such mailbox", s);
  ir_select mailbox s :=
    if has_box mailbox s then (inr (Some (selected mailbox s)), s <| ac_opened := Some mailbox |>)
    else (refused "NO such mailbox", s);
  ir_fetchAll s :=
    (match ac_opened s with
     | Some mailbox => inr (fetched_of <$> map_to_list (mailbox_in mailbox s)) | None => refused "BAD no mailbox" end, s);
  ir_fetchOne uid s :=
    (match ac_opened s with
     | Some mailbox => inr (Some <$> mailbox_in mailbox s !! uid) | None => refused "BAD no mailbox" end, s);
  ir_now _ := "2026-01-01T00:00:00.000Z"
}.

#[export] Instance account_reads : ImapReaderServer Account.
Proof.
  refine {| opened := ac_opened; contents := mailbox_in |}.
  - intros s s' mailbox Hr. destruct Hr as [| |token| |mb|uid]; simpl; try done. by destruct (has_box mb s).
  - intros mailbox s box. simpl. by destruct (has_box mailbox s).
  - done.
  - intros uid s mailbox source Ho. simpl. rewrite Ho. simpl. intros [= Hs].
    destruct (mailbox_in mailbox s !! uid); [by injection Hs as <-|done].
Defined.
