(* ===== verification/MailSamples.v ===== *)
(** * Mail at work

    Whole passes over two of the accounts of [SampleMail], and the theorems on
    mail applied to them. *)

From stdpp Require Import pretty.
From S2P Require Import Prelude Prog Concurrency Keys Ports Ledger Dav DavText MessageId ImapText DavWriter DomainSync ImapTarget ImapSource.
From S2P Require Import DomainSyncSafety DomainSyncSettles DomainSyncIdempotence DavSync MailSync SampleMail.

Open Scope Z_scope.
#[local] Open Scope string_scope.

#[local] Existing Instances sample_port sample_laws.

Definition sample_runtime : Runtime := mkRuntime (fun s => s) lower.

Definition no_prefix : SyncDeps := mkSyncDeps "t" "m" true None false None.

Definition message (id body : string) : string := crlf_lines ["Message-ID: <" ++ id ++ ">"; ""; body].

Definition inbox : Box := mkBox "INBOX" "INBOX" [backslashed "Inbox"].
Definition bin : Box := mkBox "Trash" "Trash" [backslashed "Trash"].

Definition account (boxes : list Box) (contents : list (string * list (Z * string))) : Account :=
  mkAccount boxes (list_to_map (prod_map (fun m => m) list_to_map <$> contents)) 7 100 None "token" "token" "token".

Definition oauth_config : ImapSourceConfig := mkImapSourceConfig "imap.example" 993 (Some XOAUTH2) None true.

Definition old_mail : Account :=
  account [inbox; bin] [("INBOX", [(1, message "one@x" "first"); (2, message "two@x" "second")]);
                        ("Trash", [(1, message "gone@x" "thrown away")])].

Definition mail_world (source target : Account) : World Ledger.PgState (SyncEnv Account bool (MailState Account)) :=
  mkWorld Ledger.empty_ledger (mkSyncEnv (mkDavEnv target false 7) (mkMailState source [] [] ∅)) ∅ initial_pass.

Definition mail_pass (w : World Ledger.PgState (SyncEnv Account bool (MailState Account))) :=
  runShadowPass sample_runtime no_prefix None (imap_source oauth_config) [two_workers] w.

Definition counts (r : err + ReconcileResult) : option (Z * Z * Z * option (list SpecialUse)) :=
  match r with
  | inr r => Some (rc_created r, rc_skipped r, rc_adopted r, rc_excludedCollections r)
  | inl _ => None
  end.

Definition mail_after o (w0 : World Ledger.PgState (SyncEnv Account bool (MailState Account))) :=
  match o : option ((err + ReconcileResult) * _) with Some (_, w) => w | None => w0 end.

(** The bodies in a mailbox of the target, by UID. *)
Definition bodies (mailbox : string) (w : World Ledger.PgState (SyncEnv Account bool (MailState Account))) : list (Z * string) :=
  map_to_list (on_target_of mailbox (w_env w)).

Definition new_mail : Account := account [inbox] [].

Definition fresh_start := mail_world old_mail new_mail.

(** Two messages are copied, the bin is left out; once more, nothing is. *)
Example mail_migrates :
  option_map (fun o => (counts o.1, length (bodies "INBOX" o.2), length (bodies "Trash" o.2))) (mail_pass fresh_start)
    = Some (Some (2, 0, 0, Some [su_trash]), 2%nat, 0%nat) /\
  (let w1 := mail_after (mail_pass fresh_start) fresh_start in
   option_map (fun o => (counts o.1, length (bodies "INBOX" o.2))) (mail_pass w1)
     = Some (Some (0, 0, 0, Some [su_trash]), 2%nat)).
Proof. by vm_compute. Qed.

(** The ledger and the cursors are lost; the target is as the pass left it. *)
Definition wiped (w : World Ledger.PgState (SyncEnv Account bool (MailState Account))) :=
  mail_world (mx_source (se_source (w_env w))) (de_server (se_target (w_env w))).

Example wiped_ledger_adopts :
  let w1 := wiped (mail_after (mail_pass fresh_start) fresh_start) in
  option_map (fun o => (counts o.1, length (bodies "INBOX" o.2))) (mail_pass w1)
    = Some (Some (0, 0, 2, Some [su_trash]), 2%nat).
Proof. by vm_compute. Qed.

(** A message that was resent has another Message-ID above its own, and the
    writer reads that one: with the ledger lost it is copied again. *)
Definition resent_mail : Account :=
  account [inbox] [("INBOX", [(1, crlf_lines ["Resent-Message-ID: <again@y>"; "Message-ID: <one@x>"; ""; "first"])])].

Example resent_message_is_duplicated :
  let w0 := mail_world resent_mail new_mail in
  let w1 := wiped (mail_after (mail_pass w0) w0) in
  option_map (fun o => (counts o.1, length (bodies "INBOX" o.2))) (mail_pass w1) = Some (Some (1, 0, 0, None), 2%nat).
Proof. by vm_compute. Qed.

(** Two messages of one folder under one Message-ID, two workers: both look the
    id up before either appends, and the target has it twice. *)
Definition twins : Account :=
  account [inbox] [("INBOX", [(1, message "one@x" "first"); (2, message "one@x" "first, again")])].

Example twins_race :
  option_map (fun o => (counts o.1, length (bodies "INBOX" o.2))) (mail_pass (mail_world twins new_mail))
    = Some (Some (2, 0, 0, None), 2%nat).
Proof. by vm_compute. Qed.

(** The provider has a token the server no longer takes, and a refresh would
    give it the right one: the login is refused, and so is the pass. *)
Definition expired : Account := old_mail <| ac_token := "old" |>.

Example refused_login_is_not_retried :
  (exists e s, run (mail_listFolders oauth_config) expired = (inl e, s) /\ isAuthError e = true /\ ac_token s = "old") /\
  exists l s, run (mail_listFolders oauth_config) (snd (ir_refresh expired)) = (inr l, s).
Proof. split; [do 2 eexists; split_and!|do 2 eexists]; by vm_compute. Qed.

(** What the owner threw away. *)
Definition thrown_away : Account :=
  account [inbox; bin] [("INBOX", [(2, message "two@x" "second")]); ("Trash", [(100, message "one@x" "first")])].

Example the_bin_is_read :
  let w1 := mail_after (mail_pass fresh_start) fresh_start in
  let w2 := w1 <| w_env ::= fun e => e <| se_source ::= fun x => x <| mx_source := thrown_away |> |> |> in
  match mail_pass w2 with
  | Some (inr r, _) => List.map id_naturalKeyHash (nullish (rc_deletions r) [])
  | _ => []
  end = ["mid:one@x"].
Proof. by vm_compute. Qed.

(** An account whose server has neither MOVE nor UIDPLUS, and whose user has
    flagged some messages of the inbox as deleted without expunging them: what
    imapflow makes of a move is a COPY and a bare EXPUNGE. *)
Definition expunge (flagged : list Z) (mailbox : string) (uid : Z) (s : Account) : Account :=
  foldr (drop_message mailbox) s (uid :: flagged).

Definition bare_client (flagged : list Z) : ImapClient Account :=
  {| im_connect := im_connect; im_list := im_list; im_create := im_create; im_select := im_select;
     im_fetchAll := im_fetchAll; im_append := im_append; im_search := im_search;
     im_move mailbox uid bin s :=
       match mailbox_in mailbox s !! uid with
       | Some body => (inr true, put_message bin body (expunge flagged mailbox uid s))
       | None => (inr false, s)
       end;
     im_delete mailbox uid s := (inr true, expunge flagged mailbox uid s);
     im_uidplus := false; im_source := im_source |}.

Definition bare_server (flagged : list Z) : @ImapServer Account (bare_client flagged).
Proof.
  refine (@Build_ImapServer Account (bare_client flagged) mailbox_in (fun _ s => ac_validity s) envelope_of false
    _ law_connect law_select law_fetchAll law_append law_appenduid law_search _ _).
  - intros s s' mailbox Hr. destruct Hr as [| |mb|mb|mb|mb uid|mb uid]; simpl; try done; by destruct (has_box mb s).
  - intros mailbox uid bin s mailbox' u b [H|H]; discriminate H.
  - intros mailbox uid s mailbox' u b H. discriminate H.
Defined.

(** The removal of one message, to the bin, takes another one along. *)
Example a_move_takes_others_along :
  let start := mkDavEnv (account [inbox; bin] [("INBOX", [(1, message "one@x" "first"); (2, message "two@x" "second")])]) false 7 in
  let '(r, e) := run (@mail_removeItem Account (bare_client [2]) (fun _ => Some 1) "1" None (Some "INBOX")) start in
  r = inr (mkRemovalResult (Some binned) false) /\
  mailbox_in "INBOX" (de_server start) !! 2 = Some (message "two@x" "second") /\
  mailbox_in "INBOX" (de_server e) = ∅ /\ size (mailbox_in "Trash" (de_server e)) = 1%nat.
Proof. vm_compute. repeat split; reflexivity. Qed.

(** ** The theorems applied *)

(** The target, with a message in the inbox. *)
Definition one_message : DavEnv Account bool :=
  mkDavEnv (account [inbox; bin] [("INBOX", [(1, message "one@x" "first")])]) false 7.

Definition first_uid_of (_ : string) : option Z := Some 1.


Lemma inbox_has_one : mailbox_in "INBOX" (de_server one_message) !! 1 = Some (message "one@x" "first").
Proof. reflexivity. Qed.

Lemma one_is_read : extractMessageIdFromRfc822 (message "one@x" "first") = Some "one@x".
Proof. by vm_compute. Qed.

Lemma one_has_id : has_id (Srv:=Account) "one@x" (message "one@x" "first").
Proof. by vm_compute. Qed.

Lemma held_mail_is_adopted_witness :
  rg only_appends unchanged (upsertEmail "INBOX" (message "one@x" "first") [] : prog (DavEnv Account bool) string _)
    (fun r e' => ur_created r = false /\ ur_adopted r = true /\ named "INBOX" "one@x" (ur_targetId r) e')
    (fun _ _ => True) one_message.
Proof.
  apply (held_mail_is_adopted "INBOX" (message "one@x" "first") [] "one@x" 1 (message "one@x" "first") one_message);
    [apply one_is_read|apply inbox_has_one|apply one_has_id].
Defined.

(** The removal is binned, and the inbox is empty. *)
Lemma reported_removal_happened_witness :
  option_map rr_kind (match run (mail_removeItem first_uid_of "1" None (Some "INBOX")) one_message with
                      | (inr r, _) => Some r | _ => None end) = Some (Some binned) /\
  rg (stays_gone "INBOX" 1) (spares "INBOX" 1)
    (mail_removeItem first_uid_of "1" None (Some "INBOX") : prog (DavEnv Account bool) string _)
    (fun r e' => is_Some (rr_kind r) -> messages "INBOX" (de_server e') !! 1 = None) (fun _ _ => True) one_message.
Proof.
  split; [vm_compute; reflexivity|]. apply (reported_removal_happened first_uid_of "1" None "INBOX" 1 one_message); [left; reflexivity|reflexivity].
Defined.

Lemma another_validity : "6" <> pretty (validity "INBOX" (de_server one_message)).
Proof. by vm_compute. Qed.

Lemma stale_handle_removes_nothing_witness :
  rg (same_validity "INBOX") unchanged
    (mail_removeItem first_uid_of "1" (Some "6") (Some "INBOX") : prog (DavEnv Account bool) string _)
    (fun _ _ => False) (fun _ _ => True) one_message.
Proof. apply (stale_handle_removes_nothing first_uid_of "1" "6" "INBOX" one_message). exact another_validity. Defined.

(** A look at an inbox, and one when a message has left and one has come. *)
Definition fetched (uid : Z) (id : string) : Fetched := mkFetched uid (Some id) None [] None.

Definition first_look : Snapshot := mkSnapshot (mkSelected 7 3 2) [fetched 1 "<one@x>"; fetched 2 "<two@x>"].
Definition second_look : Snapshot := mkSnapshot (mkSelected 7 4 2) [fetched 2 "<two@x>"; fetched 3 "<three@x>"].

Definition inbox_folder : MailFolder := mkMailFolder "INBOX" (Some "INBOX") su_inbox None.

Lemma looks_sound sn : sel_uidValidity (sn_box sn) = 7 -> 0 < sel_uidNext (sn_box sn) ->
  Forall (fun msg => 0 < ft_uid msg) (sn_messages sn) -> sound sn.
Proof. intros Hv Hn Hu. split; [lia|done|]. by apply Forall_forall. Qed.

Lemma looks_grow : grows [second_look; first_look].
Proof.
  split_and!; [|split|split_and!; [|done..]].
  - by apply looks_sound; [..|repeat constructor].
  - simpl. lia.
  - intros msg _ Hm. repeat (apply elem_of_cons in Hm as [->|Hm]; [simpl; lia|]). by apply elem_of_nil in Hm.
  - intros msg _ Hm. apply elem_of_cons in Hm as [->|Hm]; [left|apply elem_of_cons in Hm as [->|Hm]; [right|by apply elem_of_nil in Hm]].
    + exists (fetched 2 "<two@x>"). split; [apply elem_of_cons; right; apply list_elem_of_here|done].
    + split; [done|]. intros msg0 Hm. repeat (apply elem_of_cons in Hm as [->|Hm]; [simpl; lia|]). by apply elem_of_nil in Hm.
  - by apply looks_sound; [..|repeat constructor].
Qed.

Lemma third_is_fetched : fetched 3 "<three@x>" ∈ sn_messages second_look.
Proof. apply elem_of_cons. right. apply list_elem_of_here. Qed.

Lemma no_message_falls_between_witness :
  (7, 3) ∈ fst (passes "now" inbox_folder [second_look; first_look]).
Proof.
  exact (no_message_falls_between "now" inbox_folder second_look [first_look] (fetched 3 "<three@x>") looks_grow third_is_fetched).
Defined.

Lemma second_is_listed : fetched 2 "<two@x>" ∈ listed None first_look.
Proof. apply list_elem_of_filter. split; [done|]. apply elem_of_cons. right. apply list_elem_of_here. Qed.

Lemma fetch_answers_what_was_listed_witness :
  exists item, item ∈ ml_items (listing "now" inbox_folder None first_look) /\
    rg delivered unread (mail_fetch oauth_config item)
      (fun raw s' => rm_item raw = item /\ contents "INBOX" s' !! 2 = Some (rm_rfc822 raw))
      (fun _ _ => True) old_mail.
Proof.
  apply (fetch_answers_what_was_listed oauth_config "now" inbox_folder None first_look (fetched 2 "<two@x>") old_mail);
    [discriminate|exact second_is_listed].
Defined.

(** A pass over a target that holds a message of its own. *)
Definition half_moved := mail_world old_mail (account [inbox] [("INBOX", [(5, message "two@x" "mine")])]).

Lemma mail_pass_only_appends_witness :
  match mail_pass half_moved with
  | Some (r, w) => counts r = Some (1, 0, 1, Some [su_trash]) /\
      on_target_of "INBOX" (w_env w) !! 5 = Some (message "two@x" "mine")
  | None => False
  end.
Proof.
  assert (Hout : match mail_pass half_moved with Some (r, _) => counts r = Some (1, 0, 1, Some [su_trash]) | None => False end)
    by (vm_compute; reflexivity).
  destruct (mail_pass half_moved) as [[r w]|] eqn:Hr; [|exact Hout]. split; [exact Hout|].
  apply (mail_pass_only_appends sample_runtime no_prefix None (imap_source oauth_config) [two_workers] half_moved r w
    "INBOX" 5 (message "two@x" "mine")); [exact Hr|reflexivity].
Defined.

(** A mailbox that stands still: one folder and its messages. *)
Definition letters : list (MailItem * string) :=
  [(mkMailItem "<one@x>" inbox_folder [kw_seen] "now" None "INBOX:1", message "one@x" "first");
   (mkMailItem "<two@x>" inbox_folder [] "now" None "INBOX:2", message "two@x" "second")].

Definition letters_in (path : string) : list MailItem := if String.eqb path "INBOX" then letters.*1 else [].

Definition letter_of (item : MailItem) : option string :=
  if String.eqb (mi_messageId item) "<one@x>" then Some (message "one@x" "first")
  else if String.eqb (mi_messageId item) "<two@x>" then Some (message "two@x" "second") else None.

Definition still_source : MailSource unit :=
  {| ms_listFolders := fun x => (inr [inbox_folder], x);
     ms_listSince := fun f _ x => (inr (mkMailListing (letters_in (mf_path f)) "7:3" 0 None), x);
     ms_fetch := fun item x => (match letter_of item with Some body => inr (mkRawMessage item body) | None => inl "gone" end, x) |}.

Definition still_world (target : Account) : World Ledger.PgState (SyncEnv Account bool (MailState unit)) :=
  mkWorld Ledger.empty_ledger (mkSyncEnv (mkDavEnv target false 7) (mkMailState tt [] [] ∅)) ∅ initial_pass.

Definition still_pass w := runShadowPass (Srv:=Account) sample_runtime no_prefix None still_source [two_workers] w.

Definition moved_before : Account :=
  account [inbox] [("INBOX", [(8, message "one@x" "first"); (9, message "two@x" "second")])].

Lemma letter_copied f id body uid item :
  fo_path f = Some "INBOX" -> letter_of item = Some body ->
  en_generated (ensureMessageId sample_runtime body) = false -> extractMessageIdFromRfc822 body = Some id ->
  mailbox_in "INBOX" moved_before !! uid = Some body -> has_id (Srv:=Account) id body ->
  copied_already sample_runtime no_prefix still_source (w_env (still_world moved_before)) f item.
Proof.
  intros Hf Hl Hg Hid Hb Hk x raw size. unfold fetch_ensured, mapped. simpl. rewrite Hl. simpl. rewrite Hg.
  intros [= <- <-]. exists id, uid, body. split_and!; [done| |done]. 
  assert (Hm : mailbox_of no_prefix f = "INBOX") by (unfold mailbox_of, target_folder; simpl; by rewrite Hf). by rewrite Hm.
Qed.

Lemma all_letters_copied f cursor (x : unit) :
  in_scope None f -> match fst (ms_listSince still_source (source_folder f) cursor x) with
    | inr ls => Forall (copied_already sample_runtime no_prefix still_source (w_env (still_world moved_before)) f) (ml_items ls)
    | inl _ => True end.
Proof.
  intros (g & -> & _). simpl. unfold letters_in. destruct (String.eqb_spec (mf_path g) "INBOX") as [Hp|]; [|constructor].
  assert (Hf : fo_path (engine_folder g) = Some "INBOX") by (simpl; by rewrite Hp).
  repeat constructor.
  - apply (letter_copied _ "one@x" (message "one@x" "first") 8); [exact Hf|by vm_compute..].
  - apply (letter_copied _ "two@x" (message "two@x" "second") 9); [exact Hf|by vm_compute..].
Qed.


Lemma letters_stand_still : still_mail None still_source (fun _ => True) [inbox_folder] letters_in.
Proof.
  split; [done|done|done|]. intros f item _ _. unfold letters_in. destruct (String.eqb _ _); [|by intros ?%elem_of_nil].
  intros Hi. repeat (apply elem_of_cons in Hi as [->|Hi]; [done|]). by apply elem_of_nil in Hi.
Qed.

Definition later_env (e : SyncEnv Account bool (MailState unit)) : SyncEnv Account bool (MailState unit) :=
  e <| se_target ::= fun t => mkDavEnv (de_server t) false 8 |>.

Lemma mail_run_twice_witness :
  let w0 := still_world new_mail in
  match still_pass w0 with
  | Some (r1, w1) => counts r1 = Some (2, 0, 0, None) /\
      match still_pass (w1 <| w_env := later_env (w_env w1) |>) with
      | Some (r2, w2) => match r2 with inr rs2 => rc_created rs2 = 0 /\ rc_adopted rs2 = 0 | inl _ => True end /\
          on_target_of "INBOX" (w_env w2) = on_target_of "INBOX" (w_env w1)
      | None => False
      end
  | None => False
  end.
Proof.
  intros w0.
  assert (Hout : match still_pass w0 with
    | Some (inr r1, w1) => counts (inr r1) = Some (2, 0, 0, None) /\ failed_count (w_pass w1) = 0 /\
        match still_pass (w1 <| w_env := later_env (w_env w1) |>) with Some _ => true | None => false end = true
    | _ => False end) by (vm_compute; split; [reflexivity|split; reflexivity]).
  destruct (still_pass w0) as [[[e|r1] w1]|] eqn:Hr1; [destruct Hout| |destruct Hout].
  destruct Hout as (Hc & Hf & Hagain). split; [exact Hc|].
  destruct (still_pass (w1 <| w_env := later_env (w_env w1) |>)) as [[r2 w2]|] eqn:Hr2; [|discriminate Hagain].
  destruct (mail_run_twice sample_runtime no_prefix None still_source (fun _ => True) [inbox_folder] letters_in letters_stand_still
    [two_workers] [two_workers] w0 r1 w1 (later_env (w_env w1)) r2 w2) as [Hn Hs].
  - apply NoDup_singleton.
  - intros f _. reflexivity.
  - exact Logic.I.
  - apply wf_sane. intros k row Hrow. discriminate Hrow.
  - exact Hr1.
  - exact Hf.
  - intros _. exact Logic.I.
  - exact Hr2.
  - split; [exact Hn|apply Hs].
Defined.
