(* ===== verification/Decisions.v ===== *)
(** * The decision queue ([packages/shared/src/decisions.ts],
    [packages/ledger/src/decision-store.ts],
    [packages/ledger/src/policy-preset-store.ts])

    The questions drift detection asks the owner, and the owner's standing
    answers.  The [decision] table is its rows in the order of their insertion;
    every insert checks the partial unique index of migration 0005, and the ids
    are the ones the database gives out.  [q_now] is the clock of both the
    database and the process.  JSON that nothing reads stays text. *)

From S2P Require Import Prelude Prog Ports.

Open Scope Z_scope.
#[local] Open Scope string_scope.

Inductive DecisionCategory :=
| new_mailbox | deleted_mailbox | quota | shared_address_pattern | offboarding
| alias_removed | new_domain | rules_detected | target_drift | other.

Inductive DecisionStatus := d_pending | d_resolved | d_auto_resolved | d_dismissed.

#[export] Instance DecisionCategory_eq_dec : EqDecision DecisionCategory.
Proof. solve_decision. Defined.

#[export] Instance DecisionStatus_eq_dec : EqDecision DecisionStatus.
Proof. solve_decision. Defined.

Inductive Json :=
| js_string (s : string)
| js_object (members : list (string * Json))
| js_text (verbatim : string).

(** [Record<string, unknown>] *)
Definition Members : Type := list (string * Json).

Record DecisionRow := mkDecisionRow {
  dr_id : nat;
  dr_tenantId : string;
  dr_mappingId : option string;
  dr_category : DecisionCategory;
  dr_summary : string;
  dr_detail : Members;
  dr_proposedDefault : option string;
  dr_subjectKey : option string;
  dr_status : DecisionStatus;
  dr_resolution : option Members;
  dr_createdAt : instant;
  dr_resolvedAt : option instant;
  dr_resolvedBy : option string
}.

#[export] Instance eta_DecisionRow : Eta DecisionRow := fun r =>
  mkDecisionRow (dr_id r) (dr_tenantId r) (dr_mappingId r) (dr_category r) (dr_summary r) (dr_detail r)
    (dr_proposedDefault r) (dr_subjectKey r) (dr_status r) (dr_resolution r) (dr_createdAt r) (dr_resolvedAt r) (dr_resolvedBy r).

Record RaiseDecisionInput := mkRaise {
  ra_tenantId : string;
  ra_mappingId : option string;
  ra_category : DecisionCategory;
  ra_subjectKey : string;
  ra_summary : string;
  ra_detail : option Members;
  ra_proposedDefault : option string
}.

(** A row as it is handed out: an empty text is left out. *)
Definition toDecisionRow (r : DecisionRow) : DecisionRow :=
  r <| dr_mappingId ::= truthy |> <| dr_proposedDefault ::= truthy |> <| dr_subjectKey ::= truthy |> <| dr_resolvedBy ::= truthy |>.

(** ** The table *)

Record Queue := mkQueue { q_rows : list DecisionRow; q_nextId : nat; q_now : instant }.

#[export] Instance eta_Queue : Eta Queue := fun q => mkQueue (q_rows q) (q_nextId q) (q_now q).

(** The open question about a subject. *)
Definition asks (tenant : string) (category : DecisionCategory) (subject : string) (r : DecisionRow) : Prop :=
  dr_tenantId r = tenant /\ dr_category r = category /\ dr_subjectKey r = Some subject /\ dr_status r = d_pending.

#[export] Instance asks_dec t c s r : Decision (asks t c s r).
Proof. unfold asks. apply _. Defined.

Definition open_question (tenant : string) (category : DecisionCategory) (subject : string) (q : Queue) : option DecisionRow :=
  head (base.filter (asks tenant category subject) (q_rows q)).

Definition inserted_row (input : RaiseDecisionInput) (q : Queue) : DecisionRow :=
  mkDecisionRow (q_nextId q) (ra_tenantId input) (ra_mappingId input) (ra_category input) (ra_summary input)
    (nullish (ra_detail input) []) (ra_proposedDefault input) (Some (ra_subjectKey input)) d_pending None (q_now q) None None.

(** [INSERT ... ON CONFLICT DO NOTHING RETURNING *] *)
Definition insert_decision (input : RaiseDecisionInput) (q : Queue) : option DecisionRow * Queue :=
  match open_question (ra_tenantId input) (ra_category input) (ra_subjectKey input) q with
  | Some _ => (None, q)
  | None => (Some (inserted_row input q), q <| q_rows ::= fun rows => (rows ++ [inserted_row input q])%list |> <| q_nextId ::= S |>)
  end.

Definition raise (input : RaiseDecisionInput) : prog Queue string (DecisionRow * bool) :=
  let! row := act (insert_decision input) in
  match row with
  | Some row => Ret (toDecisionRow row, true)
  | None =>
      let! found := act (fun q => (open_question (ra_tenantId input) (ra_category input) (ra_subjectKey input) q, q)) in
      match found with
      | Some found => Ret (toDecisionRow found, false)
      | None =>
          let! retried := act (insert_decision input) in
          match retried with
          | Some row => Ret (toDecisionRow row, true)
          | None => Throw "conflict but no pending row, twice"
          end
      end
  end.

(** The decision a close is for. *)
Definition closable (tenant : string) (id : nat) (r : DecisionRow) : Prop :=
  dr_tenantId r = tenant /\ dr_id r = id /\ dr_status r = d_pending.

#[export] Instance closable_dec t i r : Decision (closable t i r).
Proof. unfold closable. apply _. Defined.

Definition closed_row (status : DecisionStatus) (resolution : option Members) (by_ : string) (now : instant) (r : DecisionRow) : DecisionRow :=
  r <| dr_status := status |> <| dr_resolution := resolution |> <| dr_resolvedAt := Some now |> <| dr_resolvedBy := Some by_ |>.

(** [UPDATE ... WHERE status = 'pending' RETURNING *] *)
Definition close (tenant : string) (id : nat) (status : DecisionStatus) (resolution : option Members) (by_ : string)
    (q : Queue) : option DecisionRow * Queue :=
  let closing r := if decide (closable tenant id r) then closed_row status resolution by_ (q_now q) r else r in
  (toDecisionRow ∘ closed_row status resolution by_ (q_now q) <$> head (base.filter (closable tenant id) (q_rows q)),
   q <| q_rows ::= List.map closing |>).

Definition resolve (tenant : string) (id : nat) (resolution : Members) (by_ : string) := close tenant id d_resolved (Some resolution) by_.

Definition autoResolve (tenant : string) (id : nat) (resolution : Members) := close tenant id d_auto_resolved (Some resolution) "policy-preset".

Definition dismiss (tenant : string) (id : nat) (by_ : string) := close tenant id d_dismissed None by_.

Definition listable (tenant : string) (status : option DecisionStatus) (mapping : option string) (r : DecisionRow) : Prop :=
  dr_tenantId r = tenant /\ (status = None \/ status = Some (dr_status r)) /\ (truthy mapping = None \/ truthy mapping = dr_mappingId r).

#[export] Instance listable_dec t s m r : Decision (listable t s m r).
Proof. unfold listable. apply _. Defined.

Definition newer (r r' : DecisionRow) : Prop := dr_createdAt r' <= dr_createdAt r.

#[export] Instance newer_dec : RelDecision newer.
Proof. intros r r'. unfold newer. apply _. Defined.

(** [scan] is the order in which the rows of equal age come. *)
Definition list_decisions (scan : list DecisionRow -> list DecisionRow) (tenant : string) (status : option DecisionStatus)
    (mapping : option string) (q : Queue) : list DecisionRow :=
  toDecisionRow <$> merge_sort newer (base.filter (listable tenant status mapping) (scan (q_rows q))).

(** ** Standing answers *)

Inductive PresetAction := preset_auto | preset_ask.

Definition Presets : Type := gmap (string * string) PresetAction.

Definition preset_get (tenant category : string) (ps : Presets) : PresetAction := nullish (ps !! (tenant, category)) preset_ask.

(** [scan] is the order the rows come in. *)
Definition preset_list (scan : Presets -> list (string * string * PresetAction)) (tenant : string) (ps : Presets) : list (string * PresetAction) :=
  (fun row => (row.1.2, row.2)) <$> base.filter (fun row => row.1.1 = tenant) (scan ps).

Definition preset_set (tenant category : string) (action : PresetAction) (ps : Presets) : Presets := <[(tenant, category) := action]> ps.

(** ** What a queue is *)

(** What is written about an answer: when, by whom, and what it says. *)
Definition row_wf (r : DecisionRow) : Prop :=
  match dr_status r with
  | d_pending => dr_resolution r = None /\ dr_resolvedAt r = None /\ dr_resolvedBy r = None
  | d_resolved => is_Some (dr_resolution r) /\ is_Some (dr_resolvedAt r) /\ is_Some (dr_resolvedBy r)
  | d_auto_resolved => is_Some (dr_resolution r) /\ is_Some (dr_resolvedAt r) /\ dr_resolvedBy r = Some "policy-preset"
  | d_dismissed => dr_resolution r = None /\ is_Some (dr_resolvedAt r) /\ is_Some (dr_resolvedBy r)
  end.

Definition one_open (rows : list DecisionRow) : Prop :=
  forall tenant category subject, (length (base.filter (asks tenant category subject) rows) <= 1)%nat.

Record queue_wf (q : Queue) : Prop := {
  wf_ids : NoDup (dr_id <$> q_rows q);
  wf_next : Forall (fun r => dr_id r < q_nextId q)%nat (q_rows q);
  wf_rows : Forall row_wf (q_rows q);
  wf_open : one_open (q_rows q)
}.

(** Two statements remove rows: the erasure of a tenant
    ([packages/managed/src/offboarding.ts]), and the deletion of a mapping,
    which takes the questions raised for it along. *)
Definition erase_decisions (tenant : string) (q : Queue) : Queue :=
  q <| q_rows ::= base.filter (fun r => dr_tenantId r <> tenant) |>.

Definition delete_mapping_decisions (mapping : string) (q : Queue) : Queue :=
  q <| q_rows ::= base.filter (fun r => dr_mappingId r <> Some mapping) |>.

(** Every statement anybody runs on the table, and the clock, while the tenants
    and mappings in [spared] are neither erased nor deleted. *)
Inductive queue_step (spared : string -> option string -> Prop) (q : Queue) : Queue -> Prop :=
| step_insert input : queue_step spared q (insert_decision input q).2
| step_resolve tenant id resolution by_ : queue_step spared q (resolve tenant id resolution by_ q).2
| step_autoResolve tenant id resolution : queue_step spared q (autoResolve tenant id resolution q).2
| step_dismiss tenant id by_ : queue_step spared q (dismiss tenant id by_ q).2
| step_erase tenant : (forall mapping, ~ spared tenant mapping) -> queue_step spared q (erase_decisions tenant q)
| step_unmap mapping : (forall tenant, ~ spared tenant (Some mapping)) -> queue_step spared q (delete_mapping_decisions mapping q)
| step_clock now : q_now q <= now -> queue_step spared q (q <| q_now := now |>).

Definition queue_steps (spared : string -> option string -> Prop) : Queue -> Queue -> Prop := rtc (queue_step spared).

(** What the store alone does: nobody is erased and nothing deleted. *)
Definition nobody (tenant : string) (mapping : option string) : Prop := True.

(** Nothing of this tenant is. *)
Definition only (tenant tenant' : string) (mapping : option string) : Prop := tenant' = tenant.

Lemma spares_more (P P' : string -> option string -> Prop) q q' :
  (forall t m, P' t m -> P t m) -> queue_steps P q q' -> queue_steps P' q q'.
Proof.
  intros HP. apply rtc_subrel. intros q1 q2 [input|t i m b|t i m|t i b|t Ht|m Hm|now Hnow];
    [apply step_insert|apply step_resolve|apply step_autoResolve|apply step_dismiss|apply step_erase|apply step_unmap|by apply step_clock];
    intros x Hx; [by eapply Ht, HP|by eapply Hm, HP].
Qed.

(** What no statement changes in a row, and what happens to it at most once. *)
Definition facts (r : DecisionRow) :=
  (dr_id r, dr_tenantId r, dr_mappingId r, dr_category r, dr_summary r, dr_detail r, dr_proposedDefault r, dr_subjectKey r, dr_createdAt r).

Definition row_kept (r r' : DecisionRow) : Prop := facts r' = facts r /\ (dr_status r = d_pending \/ r' = r).

Definition queue_kept (spared : string -> option string -> Prop) (q q' : Queue) : Prop :=
  (forall r, r ∈ q_rows q -> spared (dr_tenantId r) (dr_mappingId r) ->
     exists r', r' ∈ q_rows q' /\ row_kept r r') /\
  (q_nextId q <= q_nextId q')%nat.

#[export] Instance row_kept_preorder : PreOrder row_kept.
Proof.
  split; [intros r; split; auto|]. intros r1 r2 r3 [Hf Hs] [Hf' Hs']. split; [congruence|].
  destruct Hs as [Hs| ->]; [by left|]. done.
Qed.

Lemma row_kept_about r r' : row_kept r r' -> dr_tenantId r' = dr_tenantId r /\ dr_mappingId r' = dr_mappingId r.
Proof. unfold row_kept, facts. intros [Hf _]. split; congruence. Qed.

#[export] Instance queue_kept_preorder spared : PreOrder (queue_kept spared).
Proof.
  split.
  - intros q. split; [|lia]. intros r Hr _. by exists r.
  - intros q1 q2 q3 [Hk Hn] [Hk' Hn']. split; [|lia]. intros r Hr Hs.
    destruct (Hk r Hr Hs) as (r2 & Hr2 & Hk2). destruct (Hk' r2 Hr2) as (r3 & Hr3 & Hk3).
    { by destruct (row_kept_about _ _ Hk2) as [-> ->]. }
    exists r3. split; [done|]. by etrans.
Qed.

Lemma open_question_Some t c s q r : open_question t c s q = Some r -> r ∈ q_rows q /\ asks t c s r.
Proof.
  unfold open_question. intros Hr. assert (Hin : r ∈ base.filter (asks t c s) (q_rows q)).
  { destruct (base.filter _ _); simplify_eq/=. set_solver. }
  apply list_elem_of_filter in Hin. tauto.
Qed.

Lemma open_question_None t c s q : open_question t c s q = None -> base.filter (asks t c s) (q_rows q) = [].
Proof. unfold open_question. by destruct (base.filter _ _). Qed.

(** ** An insert *)

Lemma inserted_row_wf input q : row_wf (inserted_row input q).
Proof. done. Qed.

Lemma insert_one_open input q : queue_wf q ->
  open_question (ra_tenantId input) (ra_category input) (ra_subjectKey input) q = None ->
  one_open (q_rows q ++ [inserted_row input q])%list.
Proof.
  intros Hwf Hnone t c s. rewrite filter_app, length_app. pose proof (wf_open _ Hwf t c s) as Hone.
  rewrite filter_cons. case_decide as Has; simpl; [|rewrite Nat.add_0_r; done].
  destruct Has as (Ht & Hc & Hs & _). simpl in Ht, Hc, Hs. simplify_eq.
  by rewrite (open_question_None _ _ _ _ Hnone).
Qed.

Lemma insert_keeps spared input q : queue_wf q ->
  queue_wf (insert_decision input q).2 /\ queue_kept spared q (insert_decision input q).2.
Proof.
  intros Hwf. unfold insert_decision. destruct (open_question _ _ _ _) as [r|] eqn:Hopen; simpl; [by split|].
  split; [split; simpl|].
  - rewrite fmap_app. apply NoDup_app. split; [apply (wf_ids _ Hwf)|]. split; [|apply NoDup_singleton].
    intros i Hi [= ->]%list_elem_of_singleton. apply list_elem_of_fmap in Hi as (r & Hi & Hr).
    pose proof (proj1 (Forall_forall _ _) (wf_next _ Hwf) _ Hr). simpl in *. lia.
  - apply Forall_app. split; [|repeat constructor].
    eapply Forall_impl; [apply (wf_next _ Hwf)|]. simpl. lia.
  - apply Forall_app. split; [apply (wf_rows _ Hwf)|]. by repeat constructor.
  - by apply insert_one_open.
  - split; [|simpl; lia]. intros r Hr _. exists r. split; [|done]. apply elem_of_app. by left.
Qed.

(** ** A close *)

Lemma closed_row_facts st m b now r : facts (closed_row st m b now r) = facts r.
Proof. by destruct r. Qed.

Section closing.
Context (t : string) (i : nat) (st : DecisionStatus) (m : option Members) (b : string) (q : Queue).
Context (Hst : st <> d_pending).

Definition closing (r : DecisionRow) : DecisionRow := if decide (closable t i r) then closed_row st m b (q_now q) r else r.

Lemma closing_kept r : row_kept r (closing r).
Proof using. unfold closing. case_decide as Hc; [|done]. split; [apply closed_row_facts|]. destruct Hc as (_ & _ & Hc). by left. Qed.

Lemma closing_id r : dr_id (closing r) = dr_id r.
Proof using. by unfold closing; case_decide. Qed.

Lemma closing_asks t' c s r : asks t' c s (closing r) -> asks t' c s r.
Proof using Hst.
  unfold closing. case_decide; [|done]. intros (_ & _ & _ & Hs). exfalso. apply Hst, Hs.
Qed.

Lemma closing_one_open rows : one_open rows -> one_open (closing <$> rows).
Proof using Hst.
  intros Hone t' c s. etrans; [|apply (Hone t' c s)]. clear Hone. induction rows as [|r rows IH]; [done|].
  rewrite fmap_cons, !filter_cons. case_decide as Ha.
  - rewrite decide_True by by apply closing_asks. simpl. lia.
  - case_decide; simpl; lia.
Qed.

Lemma close_keeps spared : queue_wf q -> (forall r, row_wf (closed_row st m b (q_now q) r)) ->
  queue_wf (close t i st m b q).2 /\ queue_kept spared q (close t i st m b q).2.
Proof using Hst.
  intros Hwf Hrow. unfold close. fold closing. simpl. split; [split; simpl|].
  - rewrite <- list_fmap_compose. erewrite list_fmap_ext; [apply (wf_ids _ Hwf)|].
    intros k r _. apply closing_id.
  - apply Forall_fmap. eapply Forall_impl; [apply (wf_next _ Hwf)|]. intros r Hr. simpl.
    by rewrite closing_id.
  - apply Forall_fmap. eapply Forall_impl; [apply (wf_rows _ Hwf)|]. intros r Hr. simpl.
    unfold closing. by case_decide.
  - by apply closing_one_open, (wf_open _ Hwf).
  - split; [|simpl; lia]. intros r Hr _. exists (closing r). split; [|apply closing_kept].
    change (closing r ∈ closing <$> q_rows q). by apply list_elem_of_fmap_2.
Qed.
End closing.

(** ** Every statement *)

Lemma remove_keeps (spared : string -> option string -> Prop) (P : DecisionRow -> Prop) `{!forall r, Decision (P r)} q :
  (forall r, spared (dr_tenantId r) (dr_mappingId r) -> P r) -> queue_wf q ->
  queue_wf (q <| q_rows ::= base.filter P |>) /\ queue_kept spared q (q <| q_rows ::= base.filter P |>).
Proof.
  intros HP [Hids Hnext Hrows Hopen]. split; [split; simpl|].
  - eapply sublist_NoDup; [exact Hids|]. apply fmap_sublist, sublist_filter.
  - apply Forall_forall. intros r [_ Hr]%list_elem_of_filter. by apply (proj1 (Forall_forall _ _) Hnext).
  - apply Forall_forall. intros r [_ Hr]%list_elem_of_filter. by apply (proj1 (Forall_forall _ _) Hrows).
  - intros t' c s'. etrans; [|apply (Hopen t' c s')]. clear. induction (q_rows q) as [|r rows IH]; [done|].
    rewrite (filter_cons P). case_decide; rewrite !filter_cons; case_decide; simpl; lia.
  - split; [|simpl; lia]. intros r Hr Hs. exists r. split; [|done]. simpl. apply list_elem_of_filter.
    split; [by apply HP|done].
Qed.

Lemma queue_step_keeps spared q q' : queue_step spared q q' -> queue_wf q -> queue_wf q' /\ queue_kept spared q q'.
Proof.
  intros [input|t i m b|t i m|t i b|t Ht|m Hm|now Hnow] Hwf; [by apply insert_keeps|by apply close_keeps; eauto..| | |].
  - refine (remove_keeps spared (fun r => dr_tenantId r <> t) q _ Hwf). intros r Hs <-. by eapply Ht.
  - refine (remove_keeps spared (fun r => dr_mappingId r <> Some m) q _ Hwf). intros r Hs Heq. rewrite Heq in Hs. by eapply Hm.
  - destruct Hwf. split; [by split|]. split; [|done]. intros r Hr _. by exists r.
Qed.

Lemma queue_steps_keep spared q q' : queue_steps spared q q' -> queue_wf q -> queue_wf q' /\ queue_kept spared q q'.
Proof.
  induction 1 as [q|q1 q2 q3 Hs _ IH]; [by split|]. intros Hwf. destruct (queue_step_keeps _ _ _ Hs Hwf) as [Hwf2 Hk].
  destruct (IH Hwf2) as [Hwf3 Hk']. split; [done|]. by etrans.
Qed.

(** ** Answering the open question *)

Lemma wf_same_id q x y : queue_wf q -> x ∈ q_rows q -> y ∈ q_rows q -> dr_id x = dr_id y -> x = y.
Proof.
  intros Hwf [k Hx]%list_elem_of_lookup [k' Hy]%list_elem_of_lookup Hid. assert (k = k') as ->; [|congruence].
  apply (NoDup_lookup _ _ _ (dr_id x) (wf_ids _ Hwf)); rewrite list_lookup_fmap, ?Hx, ?Hy; simpl; congruence.
Qed.

Lemma head_filter_unique {A} (P : A -> Prop) `{!forall x, Decision (P x)} (l : list A) x :
  x ∈ l -> P x -> (forall y, y ∈ l -> P y -> y = x) -> head (base.filter P l) = Some x.
Proof.
  intros Hx HP Hu. destruct (base.filter P l) as [|y l'] eqn:Hf.
  - exfalso. apply (not_elem_of_nil x). rewrite <- Hf. by apply list_elem_of_filter.
  - simpl. f_equal. assert (Hy : y ∈ base.filter P l) by (rewrite Hf; by left).
    apply list_elem_of_filter in Hy as [HPy Hy]. by apply Hu.
Qed.

Lemma open_is_one t c s q r r' : queue_wf q -> open_question t c s q = Some r -> r' ∈ q_rows q -> asks t c s r' -> r' = r.
Proof.
  intros Hwf Hopen Hr' Ha. pose proof (wf_open _ Hwf t c s) as Hone. unfold open_question in Hopen.
  assert (Hin : r' ∈ base.filter (asks t c s) (q_rows q)) by by apply list_elem_of_filter.
  destruct (base.filter _ _) as [|x [|y l]]; simplify_eq/=; [by apply list_elem_of_singleton in Hin|lia].
Qed.

Lemma close_open t c s q r st m b : queue_wf q -> st <> d_pending -> open_question t c s q = Some r ->
  (close t (dr_id r) st m b q).1 = Some (toDecisionRow (closed_row st m b (q_now q) r)) /\
  open_question t c s (close t (dr_id r) st m b q).2 = None.
Proof.
  intros Hwf Hst Hopen. destruct (open_question_Some _ _ _ _ _ Hopen) as [Hr Hasks]. unfold close. fold (closing t (dr_id r) st m b q).
  assert (Hclosable : closable t (dr_id r) r) by (destruct Hasks as (? & _ & _ & ?); by repeat split). split.
  - simpl. erewrite (head_filter_unique _ _ r Hr Hclosable); [done|]. intros y Hy (_ & Hid & _). by eapply wf_same_id.
  - unfold open_question. simpl. destruct (base.filter _ _) as [|x l] eqn:Hf; [done|]. exfalso.
    assert (Hx : x ∈ base.filter (asks t c s) (closing t (dr_id r) st m b q <$> q_rows q)).
    { change (closing t (dr_id r) st m b q <$> q_rows q) with (List.map (closing t (dr_id r) st m b q) (q_rows q)). rewrite Hf. by left. }
    apply list_elem_of_filter in Hx as [Hax Hx]. apply list_elem_of_fmap in Hx as (y & -> & Hy).
    assert (y = r) as ->. { eapply open_is_one; [done..|]. by eapply closing_asks. }
    revert Hax. unfold closing. rewrite decide_True by done. by intros (_ & _ & _ & ?).
Qed.

(** ** What the queue promises *)

(** C8: the decision table stays well formed whatever statements are run on
    it, by whoever, erasures of tenants and deletions of mappings included: ids are distinct, a
    subject has at most one open question, and a row says who closed it, when
    and with what exactly if it is closed. *)
Theorem queue_stays_well_formed spared q q' : queue_wf q -> queue_steps spared q q' -> queue_wf q'.
Proof. intros Hwf Hs. by apply (queue_steps_keep _ _ _ Hs Hwf). Qed.

(** C9: an answer is final.  While the tenant of a row is not erased and the
    mapping it was raised for not deleted, whatever statements run after it: a
    row that is closed stays as it is, the row does not go away and its question
    does not change; and once a close of it reported success, no second close,
    of any kind, reports one. *)
Theorem answers_are_final spared q q' : queue_wf q -> queue_steps spared q q' ->
  forall r, r ∈ q_rows q -> spared (dr_tenantId r) (dr_mappingId r) ->
    (exists r', r' ∈ q_rows q' /\ facts r' = facts r /\ (dr_status r <> d_pending -> r' = r)) /\
    (dr_status r <> d_pending -> forall t st m b, close t (dr_id r) st m b q' = (None, q')).
Proof.
  intros Hwf Hs r Hr Hten. destruct (queue_steps_keep _ _ _ Hs Hwf) as [Hwf' [Hk _]].
  destruct (Hk _ Hr Hten) as (r' & Hr' & Hf & Hst'). split.
  - exists r'. do 2 (split; [done|]). by destruct Hst'.
  - intros Hst t st m b. remember (dr_id r) as i eqn:Hi. destruct Hst' as [?| ->]; [done|].
    assert (Hno : forall x, x ∈ q_rows q' -> ~ closable t i x).
    { intros x Hx (_ & Hxi & Hxs). apply Hst. rewrite <- Hxs. f_equal.
      eapply wf_same_id; [exact Hwf'|done|done|congruence]. }
    unfold close. replace (base.filter (closable t i) (q_rows q')) with (@nil DecisionRow).
    + f_equal. destruct q' as [rows n w]. simpl in *. f_equal. clear -Hno.
      induction rows as [|x rows IH]; [done|]. simpl. rewrite decide_False by set_solver. f_equal. apply IH. set_solver.
    + clear -Hno. induction (q_rows q') as [|x rows IH]; [done|].
      rewrite filter_cons, decide_False by set_solver. apply IH. set_solver.
Qed.

(** The row about a subject, whatever became of it. *)
Definition on_record (input : RaiseDecisionInput) (id : nat) (q : Queue) : Prop :=
  exists r, r ∈ q_rows q /\ dr_id r = id /\ dr_tenantId r = ra_tenantId input /\ dr_category r = ra_category input /\
            dr_subjectKey r = Some (ra_subjectKey input).

Lemma on_record_stays (spared : string -> option string -> Prop) input id q q' :
  (forall m, spared (ra_tenantId input) m) ->
  queue_wf q -> queue_steps spared q q' -> on_record input id q -> on_record input id q'.
Proof.
  intros Hsp Hwf Hs (r & Hr & Hfacts). destruct (queue_steps_keep _ _ _ Hs Hwf) as [_ [Hk _]].
  destruct (Hk r Hr) as (r' & Hr' & Hf & _); [by destruct Hfacts as (_ & -> & _)|]. exists r'. split; [done|].
  unfold facts in Hf. destruct Hfacts as (? & ? & ? & ?). repeat split; congruence.
Qed.

Lemma insert_step spared input q : queue_steps spared q (insert_decision input q).2.
Proof. apply rtc_once, step_insert. Qed.

Lemma insert_on_record input q row q' : insert_decision input q = (Some row, q') ->
  on_record input (dr_id row) q' /\ dr_id row = q_nextId q.
Proof.
  unfold insert_decision. destruct (open_question _ _ _ _); intros [= <- <-]. split; [|done].
  exists (inserted_row input q). simpl. split; [|done]. set_solver.
Qed.

(** Whoever else raises and answers meanwhile, and whatever other tenants are
    erased or lose mappings, a raise that settles with a
    row settles with one that is about its subject and stays in the table, and
    it reports the row as created only if the table did not have it before. *)
Theorem raise_is_on_record input q : queue_wf q ->
  let steps := queue_steps (only (ra_tenantId input)) in
  rg steps steps (raise input)
    (fun '(row, created) q' => on_record input (dr_id row) q' /\ (created = true -> (q_nextId q <= dr_id row)%nat))
    (fun _ _ => True) q.
Proof.
  intros Hwf steps. unfold raise.
  assert (Hins : forall q1 q2 row q3, steps q q1 -> insert_decision input q1 = (Some row, q2) -> steps q2 q3 ->
            on_record input (dr_id row) q3 /\ (true = true -> (q_nextId q <= dr_id row)%nat)).
  { intros q1 q2 row q3 H1 Hi H3. destruct (queue_steps_keep _ _ _ H1 Hwf) as [Hwf1 [_ Hn]].
    destruct (insert_on_record _ _ _ _ Hi) as [Hon Hid]. split; [|rewrite Hid; lia].
    assert (Hwf2 : queue_wf q2) by (change q2 with (Some row, q2).2; rewrite <- Hi; by apply (insert_keeps nobody)).
    by eapply (on_record_stays (only (ra_tenantId input))). }
  intros q1 Hq1. destruct (insert_decision input q1) as [[row|] q2] eqn:Hi1; simpl.
  { split; [|intros q3 Hq3; by eapply (Hins q1 q2 row)]. replace q2 with (insert_decision input q1).2 by by rewrite Hi1. apply insert_step. }
  assert (q2 = q1) as -> by (unfold insert_decision in Hi1; destruct (open_question _ _ _ _); by simplify_eq).
  split; [done|]. intros q2 Hq2. split; [done|]. assert (Hq02 : steps q q2) by (by etrans).
  destruct (open_question _ _ _ q2) as [found|] eqn:Hopen; simpl.
  - intros q3 Hq3. split; [|done]. destruct (open_question_Some _ _ _ _ _ Hopen) as (Hin & Ht & Hc & Hs & _).
    eapply (on_record_stays (only (ra_tenantId input))); [done| |exact Hq3|by exists found]. by apply (queue_steps_keep _ _ _ Hq02 Hwf).
  - intros q3 Hq3. assert (Hq03 : steps q q3) by (by etrans).
    destruct (insert_decision input q3) as [[row|] q4] eqn:Hi3; simpl.
    + split; [|intros q5 Hq5; by eapply (Hins q3 q4 row)]. replace q4 with (insert_decision input q3).2 by by rewrite Hi3. apply insert_step.
    + split; [|done]. replace q4 with (insert_decision input q3).2 by by rewrite Hi3. apply insert_step.
Qed.

(** Alone at the table, a raise always answers with the one open question. *)
Lemma raise_run input q :
  run (raise input) q =
  match open_question (ra_tenantId input) (ra_category input) (ra_subjectKey input) q with
  | Some found => (inr (toDecisionRow found, false), q)
  | None => (inr (toDecisionRow (inserted_row input q), true), (insert_decision input q).2)
  end.
Proof.
  unfold raise, insert_decision. simpl. destruct (open_question _ _ _ q) as [r|] eqn:Hopen; simpl; [by rewrite Hopen|done].
Qed.

Lemma raise_steps_in spared input : steps_in (queue_steps spared) (raise input).
Proof.
  apply steps_in_bind; [apply steps_in_act, insert_step|]. intros [row|]; [done|].
  apply steps_in_bind; [by apply steps_in_act|]. intros [found|]; [done|].
  apply steps_in_bind; [apply steps_in_act, insert_step|]. by intros [].
Qed.

(** ** Samples *)

Definition about_jan : RaiseDecisionInput := mkRaise "acme" None new_mailbox "jan@acme.nl" "jan@acme.nl exists" None None.

Definition empty_queue : Queue := mkQueue [] 0 1000.

Definition asked_queue : Queue := (insert_decision about_jan empty_queue).2.

Definition dismissed_queue : Queue := (dismiss "acme" 0 "rob" asked_queue).2.

Lemma empty_queue_wf : queue_wf empty_queue.
Proof. split; [constructor..|]. intros t c s. simpl. lia. Qed.

Lemma sample_steps : queue_steps (only "acme") empty_queue dismissed_queue.
Proof. eapply rtc_l; [apply (step_insert _ _ about_jan)|]. eapply rtc_l; [apply (step_dismiss _ _ "acme" 0 "rob")|]. done. Qed.

Lemma dismissed_queue_wf : queue_wf dismissed_queue.
Proof. apply (queue_steps_keep _ _ _ sample_steps empty_queue_wf). Qed.

Lemma queue_stays_well_formed_witness : queue_wf dismissed_queue.
Proof. exact (queue_stays_well_formed _ _ _ empty_queue_wf sample_steps). Defined.

Lemma answers_are_final_witness :
  close "acme" 0 d_resolved (Some []) "eve" (insert_decision about_jan dismissed_queue).2 = (None, (insert_decision about_jan dismissed_queue).2).
Proof.
  refine (proj2 (answers_are_final (only "acme") dismissed_queue (insert_decision about_jan dismissed_queue).2
    dismissed_queue_wf (insert_step _ _ _) (closed_row d_dismissed None "rob" 1000 (inserted_row about_jan empty_queue)) _ _)
    _ "acme" d_resolved (Some []) "eve").
  - by left.
  - done.
  - done.
Defined.

Lemma raise_is_on_record_witness :
  rg (queue_steps (only "acme")) (queue_steps (only "acme")) (raise about_jan)
    (fun '(row, created) q' => on_record about_jan (dr_id row) q' /\ (created = true -> (0 <= dr_id row)%nat)) (fun _ _ => True) empty_queue.
Proof. exact (raise_is_on_record about_jan empty_queue empty_queue_wf). Defined.
