(* ===== verification/MailboxDrift.v ===== *)
(** * The mailboxes nobody migrates
    ([packages/core/src/detect-new-mailboxes.ts],
    [packages/core/src/mapping-coverage.ts],
    [packages/core/src/run-new-mailbox-detection.ts], and the wiring of the
    detector in [apps/selfhost/src/index.ts] and
    [apps/worker/src/jobs/managed-drift-detect.ts])

    The directory of the source is compared with the addresses the mappings
    cover, and what is left over becomes questions in the decision queue.  The
    directory and the notifier are steps on an outside world of any type; log
    lines are left out. *)

From stdpp Require Import pretty.
From S2P Require Import Prelude Prog Keys Ports Decisions.

Open Scope Z_scope.
#[local] Open Scope string_scope.

Inductive DirectoryListing := listed_mailboxes (addresses : list string) | not_enumerable (reason : string).

(** ** What the mappings cover *)

(** The members of a source configuration that are read here. *)
Record SourceConfig := mkSourceConfig { sc_type : string; sc_user : string; sc_mailbox : option string }.

Record CoverableMapping := mkCoverable { cm_mappingId : string; cm_source : SourceConfig }.

Record Coverage := mkCoverage { cv_addresses : list string; cv_unstated : list string }.

Definition coverageIncompleteReason (unstated : list string) : string :=
  pretty (Z.of_nat (length unstated)) ++ " mapping(s) do not state which mailbox they cover (" ++ String.concat ", " unstated ++ "). " ++
  "They read the signed-in user (/me), and this migration cannot tell which address " ++
  "that is without asking Graph per mapping. New mailboxes are therefore NOT being " ++
  "reported for this tenant — reporting them anyway would risk raising a decision " ++
  "about a mailbox one of these mappings already migrates. Add `mailbox` to each " ++
  "mapping's source config to turn detection back on.".

(** ** What a pass is given and answers *)

Record DetectInput := mkDetectInput {
  di_tenantId : string;
  di_listing : DirectoryListing;
  di_covered : list string;
  di_dismissed : option (list string);
  di_coverageIncomplete : option string
}.

Record DetectResult := mkDetectResult { de_decisions : list RaiseDecisionInput; de_blindSpot : option string }.

Record DetectionDeps (W : Type) := mkDetectionDeps {
  dd_tenantId : string;
  listDirectory : prog W string DirectoryListing;
  coveredAddresses : prog W string (list string);
  dismissedAddresses : prog W string (list string);
  coverageIncomplete : option (prog W string (option string));
  dd_raise : RaiseDecisionInput -> prog W string (bool * nat);
  presetAction : option (prog W string PresetAction);
  dd_autoResolve : option (nat -> RaiseDecisionInput -> prog W string unit);
  onRaised : RaiseDecisionInput -> prog W string unit
}.

Arguments mkDetectionDeps {W}.
Arguments dd_tenantId {W}.
Arguments listDirectory {W}.
Arguments coveredAddresses {W}.
Arguments dismissedAddresses {W}.
Arguments coverageIncomplete {W}.
Arguments dd_raise {W}.
Arguments presetAction {W}.
Arguments dd_autoResolve {W}.
Arguments onRaised {W}.

Record DetectionSummary := mkSummary {
  ds_raised : Z; ds_autoResolved : Z; ds_alreadyPending : Z; ds_failed : Z; ds_blindSpot : option string
}.

#[export] Instance eta_DetectionSummary : Eta DetectionSummary := fun s =>
  mkSummary (ds_raised s) (ds_autoResolved s) (ds_alreadyPending s) (ds_failed s) (ds_blindSpot s).

Definition no_summary : DetectionSummary := mkSummary 0 0 0 0 None.

(** [dep?.()], with what it answers when the dep is left out. *)
Definition call_or {W A} (dep : option (prog W string A)) (absent : A) : prog W string A :=
  match dep with Some p => p | None => Ret absent end.

Section detection.
Context (rt : Runtime).

Definition norm (address : string) : string := toLowerCase rt (trim address).

Definition graph_mailbox_types : list string := ["graph-mail"; "graph-calendar"; "graph-contacts"].

Fixpoint resolve_from (addresses unstated : list string) (mappings : list CoverableMapping) : Coverage :=
  match mappings with
  | [] => mkCoverage (js_dedup addresses) unstated
  | mapping :: mappings =>
      let source := cm_source mapping in
      if bool_decide (sc_type source = "imap-oauth2") then
        resolve_from (addresses ++ [norm (sc_user source)])%list unstated mappings
      else if bool_decide (sc_type source ∈ graph_mailbox_types) then
        match truthy (trim <$> sc_mailbox source) with
        | Some named => resolve_from (addresses ++ [toLowerCase rt named])%list unstated mappings
        | None => resolve_from addresses (unstated ++ [cm_mappingId mapping])%list mappings
        end
      else resolve_from addresses unstated mappings
  end.

Definition resolveCoverage (mappings : list CoverableMapping) : Coverage := resolve_from [] [] mappings.

(** ** What is worth asking about *)

Definition mailbox_question (tenantId raw : string) : RaiseDecisionInput :=
  mkRaise tenantId None new_mailbox (norm raw)
    (trim raw ++ " exists on the source and no migration covers it. " ++ "Nothing is being copied from it.")
    (Some [("address", js_string (trim raw))]) (Some "Create a mapping for this mailbox").

Fixpoint detect_from (tenantId : string) (covered dismissed seen : list string) (addresses : list string) : list RaiseDecisionInput :=
  match addresses with
  | [] => []
  | raw :: addresses =>
      let address := norm raw in
      if bool_decide (address = "") then detect_from tenantId covered dismissed seen addresses
      else if bool_decide (address ∈ covered) then detect_from tenantId covered dismissed seen addresses
      else if bool_decide (address ∈ dismissed) then detect_from tenantId covered dismissed seen addresses
      else if bool_decide (address ∈ seen) then detect_from tenantId covered dismissed seen addresses
      else mailbox_question tenantId raw :: detect_from tenantId covered dismissed (address :: seen) addresses
  end.

Definition detectNewMailboxes (input : DetectInput) : DetectResult :=
  match di_listing input with
  | not_enumerable reason => mkDetectResult [] (Some reason)
  | listed_mailboxes addresses =>
      match truthy (di_coverageIncomplete input) with
      | Some reason => mkDetectResult [] (Some reason)
      | None =>
          mkDetectResult (detect_from (di_tenantId input) (norm <$> di_covered input) (norm <$> nullish (di_dismissed input) []) [] addresses) None
      end
  end.

(** ** One detection pass *)

Section pass.
Context {W : Type} (deps : DetectionDeps W).

Fixpoint ask_each (preset : PresetAction) (decisions : list RaiseDecisionInput) (sum : DetectionSummary) : prog W string DetectionSummary :=
  match decisions with
  | [] => Ret sum
  | decision :: decisions =>
      let! outcome := pcatch (let! r := dd_raise deps decision in Ret (Some r)) (fun _ => Ret None) in
      match outcome, preset with
      | None, _ => ask_each preset decisions (sum <| ds_failed ::= Z.succ |>)
      | Some (false, _), _ => ask_each preset decisions (sum <| ds_alreadyPending ::= Z.succ |>)
      | Some (true, id), preset_auto =>
          pcatch (match dd_autoResolve deps with Some f => f id decision | None => Ret tt end) (fun _ => Ret tt) ;;;
          ask_each preset decisions (sum <| ds_autoResolved ::= Z.succ |>)
      | Some (true, _), preset_ask =>
          pcatch (onRaised deps decision) (fun _ => Ret tt) ;;;
          ask_each preset decisions (sum <| ds_raised ::= Z.succ |>)
      end
  end.

Definition runNewMailboxDetection : prog W string DetectionSummary :=
  let! listing := listDirectory deps in
  let! covered := coveredAddresses deps in
  let! dismissed := dismissedAddresses deps in
  let! incomplete := call_or (coverageIncomplete deps) None in
  let result := detectNewMailboxes (mkDetectInput (dd_tenantId deps) listing covered (Some dismissed) (truthy incomplete)) in
  match truthy (de_blindSpot result) with
  | Some reason => Ret (no_summary <| ds_blindSpot := Some reason |>)
  | None =>
      let! preset := call_or (presetAction deps) preset_ask in
      ask_each preset (de_decisions result) no_summary
  end.
End pass.

End detection.

(** ** The pass as both editions wire it *)

Record DriftWorld (Env : Type) := mkDrift { dw_queue : Queue; dw_presets : Presets; dw_outside : Env }.
Arguments mkDrift {Env}.
Arguments dw_queue {Env}.
Arguments dw_presets {Env}.
Arguments dw_outside {Env}.

#[export] Instance eta_DriftWorld {Env} : Eta (DriftWorld Env) := fun w => mkDrift (dw_queue w) (dw_presets w) (dw_outside w).

Section wiring.
Context (rt : Runtime) {Env : Type}.
#[local] Abbreviation W := (DriftWorld Env).
Context (scan : list DecisionRow -> list DecisionRow) (tenant : string) (coverage : Coverage).
Context (directory : Env -> (string + DirectoryListing) * Env) (notify : RaiseDecisionInput -> Env -> (string + unit) * Env).

Definition on_queue {A} (p : prog Queue string A) : prog W string A := plift dw_queue (fun q w => w <| dw_queue := q |>) p.

Definition on_outside {A} (f : Env -> (string + A) * Env) : prog W string A :=
  plift dw_outside (fun e w => w <| dw_outside := e |>) (try_act f).

Definition dismissed_subjects (q : Queue) : list string :=
  omap dr_subjectKey (base.filter (fun d => dr_category d = new_mailbox) (list_decisions scan tenant (Some d_dismissed) None q)).

Definition auto_answer (input : RaiseDecisionInput) : Members :=
  [("closedBy", js_string "policy_preset");
   ("preset", js_object [("category", js_string "new_mailbox"); ("action", js_string "auto")]);
   ("subject", js_string (ra_subjectKey input))].

Definition drift_detector : DetectionDeps W :=
  mkDetectionDeps tenant
    (on_outside directory)
    (Ret (cv_addresses coverage))
    (on_queue (act (fun q => (dismissed_subjects q, q))))
    (Some (Ret (if bool_decide (cv_unstated coverage <> []) then Some (coverageIncompleteReason (cv_unstated coverage)) else None)))
    (fun input => let! r := on_queue (raise input) in Ret (r.2, dr_id r.1))
    (Some (act (fun w => (preset_get tenant "new_mailbox" (dw_presets w), w))))
    (Some (fun id input => on_queue (act (autoResolve tenant id (auto_answer input))) ;;; Ret tt))
    (fun input => on_outside (notify input)).

Definition detection_pass : prog W string DetectionSummary := runNewMailboxDetection rt drift_detector.
End wiring.

(** ** What is asked about *)

Section exact.
Context (rt : Runtime).

Lemma detect_from_subjects t c d seen l s :
  s ∈ (ra_subjectKey <$> detect_from rt t c d seen l) <-> s ∈ (norm rt <$> l) /\ s <> "" /\ s ∉ c /\ s ∉ d /\ s ∉ seen.
Proof.
  revert seen; induction l as [|raw l IH]; intros seen; simpl; [set_solver|].
  repeat case_bool_decide; rewrite ?fmap_cons, ?elem_of_cons, ?IH; simpl; rewrite ?elem_of_cons.
  1-4: split; [naive_solver|]; intros ([->|?] & ?); naive_solver.
  destruct (decide (s = norm rt raw)) as [->|]; set_solver.
Qed.

Lemma detect_from_NoDup t c d seen l : NoDup (ra_subjectKey <$> detect_from rt t c d seen l).
Proof.
  revert seen; induction l as [|raw l IH]; intros seen; simpl; [constructor|].
  repeat case_bool_decide; try done. rewrite fmap_cons. constructor; [|done].
  rewrite detect_from_subjects. set_solver.
Qed.

Lemma detect_from_questions t c d seen l x :
  x ∈ detect_from rt t c d seen l -> exists raw, raw ∈ l /\ x = mailbox_question rt t raw.
Proof.
  revert seen; induction l as [|raw l IH]; intros seen; simpl; [set_solver|].
  assert (Hlater : forall seen', x ∈ detect_from rt t c d seen' l -> exists raw', raw' ∈ raw :: l /\ x = mailbox_question rt t raw').
  { intros seen' Hx. destruct (IH _ Hx) as (raw' & Hin & ->). exists raw'. split; [by right|done]. }
  repeat case_bool_decide; [by apply Hlater..|]. intros [->|Hx]%elem_of_cons; [|by eapply Hlater].
  exists raw. split; [by left|done].
Qed.

Lemma detect_from_ext t c d d' seen l : (forall s, s ∈ d <-> s ∈ d') -> detect_from rt t c d seen l = detect_from rt t c d' seen l.
Proof.
  intros Hd. revert seen; induction l as [|raw l IH]; intros seen; simpl; [done|].
  rewrite !IH. by rewrite (bool_decide_ext _ _ (Hd (norm rt raw))).
Qed.

(** C25: a directory that was read is compared exactly: the subjects asked about
    are the addresses it lists, trimmed and lower-cased, that are not empty,
    not covered and not dismissed, each once, each with the question about an
    entry of the directory; and a directory that could not be read, or mappings
    whose coverage is unknown, ask nothing and say why. *)
Theorem detection_is_exact (input : DetectInput) :
  let asked := (ra_subjectKey <$> de_decisions (detectNewMailboxes rt input)) in
  match di_listing input, truthy (di_coverageIncomplete input) with
  | listed_mailboxes addresses, None =>
      (forall s, s ∈ asked <-> s ∈ (norm rt <$> addresses) /\ s <> "" /\ s ∉ (norm rt <$> di_covered input) /\
                               s ∉ (norm rt <$> nullish (di_dismissed input) [])) /\
      NoDup asked /\
      (forall x, x ∈ de_decisions (detectNewMailboxes rt input) -> exists raw, raw ∈ addresses /\ x = mailbox_question rt (di_tenantId input) raw) /\
      de_blindSpot (detectNewMailboxes rt input) = None
  | listed_mailboxes _, Some reason | not_enumerable reason, _ =>
      asked = [] /\ de_blindSpot (detectNewMailboxes rt input) = Some reason
  end.
Proof.
  unfold detectNewMailboxes. destruct (di_listing input) as [addresses|reason]; [|done].
  destruct (truthy _); [done|]. cbn [de_decisions de_blindSpot]. split.
  { intros s. rewrite detect_from_subjects. set_solver. }
  split; [apply detect_from_NoDup|]. split; [|done]. intros x. apply detect_from_questions.
Qed.
End exact.

(** ** What a pass makes of the queue *)

Definition raise_all (decisions : list RaiseDecisionInput) (q : Queue) : Queue :=
  foldl (fun q decision => (insert_decision decision q).2) q decisions.

Definition is_asked (input : RaiseDecisionInput) (q : Queue) : Prop :=
  is_Some (open_question (ra_tenantId input) (ra_category input) (ra_subjectKey input) q).

Lemma open_question_app t c s rows rows' n now :
  open_question t c s (mkQueue (rows ++ rows') n now) =
  match open_question t c s (mkQueue rows n now) with Some r => Some r | None => open_question t c s (mkQueue rows' n now) end.
Proof. unfold open_question. simpl. rewrite filter_app. by destruct (base.filter _ rows). Qed.

Lemma insert_decision_open input q t c s :
  open_question t c s (insert_decision input q).2 =
  match open_question t c s q with
  | Some r => Some r
  | None => if decide (t = ra_tenantId input /\ c = ra_category input /\ s = ra_subjectKey input)
            then Some (inserted_row input q) else None
  end.
Proof.
  unfold insert_decision. destruct (open_question (ra_tenantId input) _ _ q) as [r|] eqn:Hopen; simpl.
  - destruct (open_question t c s q) eqn:Ho; [done|]. case_decide as Heq; [|done]. destruct Heq as (-> & -> & ->). congruence.
  - destruct q as [rows n now]. unfold field_update. simpl. rewrite open_question_app.
    destruct (open_question t c s _) eqn:Ho; [done|]. unfold open_question. simpl.
    rewrite filter_cons. case_decide as Ha; case_decide as Hb; simpl; [done| | |done].
    + destruct Ha as (? & ? & ? & _). simpl in *. exfalso. apply Hb. by simplify_eq.
    + exfalso. apply Ha. destruct Hb as (-> & -> & ->). by repeat split.
Qed.

Lemma insert_decision_asks input q : is_asked input (insert_decision input q).2.
Proof. unfold is_asked. rewrite insert_decision_open. destruct (open_question _ _ _ q); [done|]. by rewrite decide_True. Qed.

Lemma insert_keeps_asked input input' q : is_asked input' q -> is_asked input' (insert_decision input q).2.
Proof. intros [r Hr]. unfold is_asked. by rewrite insert_decision_open, Hr. Qed.

Lemma insert_of_asked input q : is_asked input q -> insert_decision input q = (None, q).
Proof. intros [r Hr]. unfold insert_decision. by rewrite Hr. Qed.

Lemma raise_all_asked decisions q : Forall (fun d => is_asked d q) decisions -> raise_all decisions q = q.
Proof.
  induction decisions as [|d ds IH]; [done|]. rewrite Forall_cons. intros [Hd Hds]. simpl.
  rewrite insert_of_asked by done. by apply IH.
Qed.

Lemma raise_all_keeps_asked decisions input q : is_asked input q -> is_asked input (raise_all decisions q).
Proof. revert q; induction decisions as [|d ds IH]; intros q Hq; [done|]. by apply IH, insert_keeps_asked. Qed.

Lemma raise_all_asks decisions q : Forall (fun d => is_asked d (raise_all decisions q)) decisions.
Proof.
  revert q; induction decisions as [|d ds IH]; intros q; simpl; constructor; [|apply IH].
  by apply raise_all_keeps_asked, insert_decision_asks.
Qed.

Lemma raise_all_steps spared decisions q : queue_steps spared q (raise_all decisions q).
Proof. revert q; induction decisions as [|d ds IH]; intros q; simpl; [done|]. etrans; [apply insert_step|apply IH]. Qed.

(** Rows are only added, one for a question that was not open. *)
Lemma raise_all_rows decisions q : exists more, q_rows (raise_all decisions q) = (q_rows q ++ more)%list /\
  Forall (fun r => exists d q', d ∈ decisions /\ ~ is_asked d q /\ r = inserted_row d q') more.
Proof.
  revert q; induction decisions as [|d ds IH]; intros q; simpl; [by exists []; rewrite app_nil_r|].
  destruct (IH (insert_decision d q).2) as (more & Hrows & Hmore).
  assert (Hmore' : Forall (fun r => exists d' q', d' ∈ d :: ds /\ ~ is_asked d' q /\ r = inserted_row d' q') more).
  { eapply Forall_impl; [exact Hmore|]. intros r (d' & q' & Hd & Hna & ->). exists d', q'.
    split; [by right|]. split; [|done]. intros Ha. by apply Hna, insert_keeps_asked. }
  destruct (open_question (ra_tenantId d) (ra_category d) (ra_subjectKey d) q) as [x|] eqn:Hopen.
  - exists more. rewrite insert_of_asked in Hrows by (by exists x). rewrite insert_of_asked by (by exists x). done.
  - exists (inserted_row d q :: more). rewrite Hrows. unfold insert_decision. rewrite Hopen. simpl.
    split; [by rewrite <- app_assoc|]. constructor; [|done]. exists d, q. split; [by left|]. split; [|done].
    unfold is_asked. rewrite Hopen. by intros [? ?].
Qed.

(** The answered rows are those that were answered before. *)
Lemma raise_all_dismissed decisions q r : dr_status r <> d_pending -> (r ∈ q_rows (raise_all decisions q) <-> r ∈ q_rows q).
Proof.
  intros Hr. revert q; induction decisions as [|d ds IH]; intros q; simpl; [done|]. rewrite IH.
  unfold insert_decision. destruct (open_question _ _ _ q); [done|]. simpl. rewrite elem_of_app, list_elem_of_singleton.
  split; [|by left]. by intros [?| ->].
Qed.

(** ** A pass alone at the queue *)

Section runs.
Context (rt : Runtime) {Env : Type}.
#[local] Abbreviation W := (DriftWorld Env).
Context (scan : list DecisionRow -> list DecisionRow) (tenant : string) (coverage : Coverage).
Context (directory : Env -> (string + DirectoryListing) * Env) (notify : RaiseDecisionInput -> Env -> (string + unit) * Env).
Context (Hscan : forall rows, scan rows ≡ₚ rows).
Implicit Types w : W.

#[local] Abbreviation deps := (drift_detector scan tenant coverage directory notify).
#[local] Abbreviation pass := (detection_pass rt scan tenant coverage directory notify).

Lemma run_on_queue {A} (p : prog Queue string A) w :
  run (on_queue p) w = ((run p (dw_queue w)).1, w <| dw_queue := (run p (dw_queue w)).2 |>).
Proof using. unfold on_queue. by rewrite run_plift; [|done..|intros []]. Qed.

Lemma run_on_outside {A} (f : Env -> (string + A) * Env) w :
  run (on_outside f) w = ((f (dw_outside w)).1, w <| dw_outside := (f (dw_outside w)).2 |>).
Proof using.
  unfold on_outside. rewrite run_plift; [|done..|by intros []]. simpl. destruct (f (dw_outside w)) as [[e|a] env]; done.
Qed.

Lemma run_dd_raise input w :
  run (dd_raise deps input) w =
  match open_question (ra_tenantId input) (ra_category input) (ra_subjectKey input) (dw_queue w) with
  | Some found => (inr (false, dr_id found), w)
  | None => (inr (true, q_nextId (dw_queue w)), w <| dw_queue := (insert_decision input (dw_queue w)).2 |>)
  end.
Proof using.
  change (dd_raise deps input) with (let! r := on_queue (Env := Env) (raise input) in Ret (r.2, dr_id r.1)).
  rewrite run_bind, run_on_queue, raise_run. destruct w as [q ps env]. simpl. by destruct (open_question _ _ _ q).
Qed.

(** What a run of the loop adds up to. *)
Record tally (decisions : list RaiseDecisionInput) (sum sum' : DetectionSummary) : Prop := {
  tally_failed : ds_failed sum' = ds_failed sum;
  tally_blind : ds_blindSpot sum' = ds_blindSpot sum;
  tally_all : ds_raised sum' + ds_autoResolved sum' + ds_alreadyPending sum' =
              ds_raised sum + ds_autoResolved sum + ds_alreadyPending sum + Z.of_nat (length decisions)
}.

Lemma ask_each_asks decisions sum w : exists sum' env,
  run (ask_each deps preset_ask decisions sum) w = (inr sum', mkDrift (raise_all decisions (dw_queue w)) (dw_presets w) env) /\
  tally decisions sum sum' /\ ds_autoResolved sum' = ds_autoResolved sum /\
  (Forall (fun d => is_asked d (dw_queue w)) decisions -> ds_raised sum' = ds_raised sum /\ env = dw_outside w).
Proof using.
  revert sum w; induction decisions as [|d ds IH]; intros sum w.
  { exists sum, (dw_outside w). destruct w. repeat split; simpl; lia. }
  cbn [ask_each]. rewrite run_bind, run_catch, run_bind, run_dd_raise.
  destruct (open_question _ _ _ (dw_queue w)) as [found|] eqn:Hopen; cbn [run].
  - destruct (IH (sum <| ds_alreadyPending ::= Z.succ |>) w) as (sum' & env & -> & [Hf Hb Ha] & Hauto & Hq).
    exists sum', env. simpl in *. unfold insert_decision. rewrite Hopen.
    split; [done|]. split; [split; simpl; [done..|lia]|]. split; [done|]. intros [_ Hall]%Forall_cons. by apply Hq.
  - rewrite run_bind, run_catch. simpl onRaised. rewrite run_on_outside. simpl.
    destruct (notify d (dw_outside w)) as [r env0]. simpl.
    destruct (IH (sum <| ds_raised ::= Z.succ |>) (mkDrift (insert_decision d (dw_queue w)).2 (dw_presets w) env0))
      as (sum' & env & Hrun & [Hf Hb Ha] & Hauto & _).
    exists sum', env. simpl in *. split; [by destruct r|]. split; [split; simpl; [done..|lia]|]. split; [done|].
    intros [[? Hno] _]%Forall_cons. congruence.
Qed.

(** *** A pass of a tenant that is asked *)

Definition what_to_ask (addresses : list string) (q : Queue) : list RaiseDecisionInput :=
  detect_from rt tenant (norm rt <$> cv_addresses coverage) (norm rt <$> dismissed_subjects scan tenant q) [] addresses.

Lemma pass_run w addresses env : cv_unstated coverage = [] -> directory (dw_outside w) = (inr (listed_mailboxes addresses), env) ->
  run pass w =
  run (ask_each deps (preset_get tenant "new_mailbox" (dw_presets w)) (what_to_ask addresses (dw_queue w)) no_summary)
    (w <| dw_outside := env |>).
Proof using.
  intros Hcov Hdir. unfold detection_pass, runNewMailboxDetection. simpl listDirectory.
  rewrite run_bind, run_on_outside, Hdir. cbn [fst snd]. simpl coveredAddresses. simpl dismissedAddresses.
  rewrite run_bind. cbn [run]. rewrite run_bind, run_on_queue. cbn [run act fst snd].
  rewrite run_bind. simpl coverageIncomplete. cbn [run call_or]. rewrite Hcov. by destruct w.
Qed.

Lemma dismissed_subjects_of q s :
  s ∈ dismissed_subjects scan tenant q <->
  exists r, r ∈ q_rows q /\ dr_tenantId r = tenant /\ dr_category r = new_mailbox /\ dr_status r = d_dismissed /\
            truthy (dr_subjectKey r) = Some s.
Proof using Hscan.
  unfold dismissed_subjects, list_decisions. rewrite list_elem_of_omap. setoid_rewrite list_elem_of_filter. setoid_rewrite list_elem_of_fmap.
  split.
  - intros (x & (Hc & r & -> & Hr) & Hs). rewrite merge_sort_Permutation, list_elem_of_filter, Hscan in Hr.
    destruct Hr as ((Ht & Hst & _) & Hr). exists r. simpl in *. repeat split; try done. naive_solver.
  - intros (r & Hr & Ht & Hc & Hst & Hs). exists (toDecisionRow r). split; [|done]. split; [done|]. exists r. split; [done|].
    rewrite merge_sort_Permutation, list_elem_of_filter, Hscan. split; [|done]. repeat split; [done| |by left]. right. by rewrite Hst.
Qed.

Lemma what_to_ask_stable addresses q q' :
  (forall r, dr_status r = d_dismissed -> (r ∈ q_rows q' <-> r ∈ q_rows q)) -> what_to_ask addresses q' = what_to_ask addresses q.
Proof using Hscan.
  intros Hr. apply detect_from_ext. intros s. rewrite !list_elem_of_fmap. setoid_rewrite dismissed_subjects_of. naive_solver.
Qed.

Lemma what_to_ask_tenant addresses q : Forall (fun d => ra_tenantId d = tenant) (what_to_ask addresses q).
Proof using. apply Forall_forall. by intros d (raw & _ & ->)%detect_from_questions. Qed.

(** C26: where the tenant is asked, watching converges.  A pass over a readable
    directory, with every mapping stating its mailbox, answers; every mailbox
    that is listed, not covered and not dismissed has an open question after
    it; what it did to the queue is statements of the store; and the next pass
    over the same directory raises nothing, tells nobody and leaves the queue
    exactly as it is. *)
Theorem watching_converges w addresses env1 :
  cv_unstated coverage = [] -> preset_get tenant "new_mailbox" (dw_presets w) = preset_ask ->
  directory (dw_outside w) = (inr (listed_mailboxes addresses), env1) ->
  exists sum w1, run pass w = (inr sum, w1) /\
    ds_failed sum = 0 /\ ds_autoResolved sum = 0 /\ ds_blindSpot sum = None /\
    queue_steps nobody (dw_queue w) (dw_queue w1) /\
    (forall raw, raw ∈ addresses -> norm rt raw <> "" -> norm rt raw ∉ (norm rt <$> cv_addresses coverage) ->
       norm rt raw ∉ (norm rt <$> dismissed_subjects scan tenant (dw_queue w)) ->
       is_Some (open_question tenant new_mailbox (norm rt raw) (dw_queue w1))) /\
    (forall env2, directory (dw_outside w1) = (inr (listed_mailboxes addresses), env2) ->
       exists sum2, run pass w1 = (inr sum2, w1 <| dw_outside := env2 |>) /\ ds_raised sum2 = 0 /\ ds_failed sum2 = 0).
Proof using Hscan.
  intros Hcov Hask Hdir. rewrite (pass_run _ _ _ Hcov Hdir), Hask.
  set (w0 := w <| dw_outside := env1 |>). set (ds := what_to_ask addresses (dw_queue w)).
  destruct (ask_each_asks ds no_summary w0) as (sum & env & Hrun & [Hf Hb _] & Hauto & _).
  exists sum, (mkDrift (raise_all ds (dw_queue w)) (dw_presets w) env). do 4 (split; [done|]).
  split; [apply raise_all_steps|]. split.
  - intros raw Hraw Hne Hc Hd.
    assert (Hin : norm rt raw ∈ (ra_subjectKey <$> ds)) by (apply detect_from_subjects; set_solver).
    apply list_elem_of_fmap in Hin as (d & Hk & Hin). pose proof (raise_all_asks ds (dw_queue w)) as Hall.
    rewrite Forall_forall in Hall. specialize (Hall _ Hin). unfold is_asked in Hall.
    destruct (detect_from_questions _ _ _ _ _ _ _ Hin) as (raw' & _ & ->). simpl in *. by rewrite Hk.
  - intros env2 Hdir2. rewrite (pass_run _ _ _ Hcov Hdir2). simpl. rewrite Hask.
    rewrite (what_to_ask_stable addresses (dw_queue w)) by (intros r Hr; apply raise_all_dismissed; by rewrite Hr). fold ds.
    destruct (ask_each_asks ds no_summary (mkDrift (raise_all ds (dw_queue w)) (dw_presets w) env2))
      as (sum2 & env' & Hrun2 & [Hf2 _ _] & _ & Hq).
    destruct (Hq (raise_all_asks ds (dw_queue w))) as [Hr2 ->]. exists sum2. simpl in *.
    by rewrite (raise_all_asked ds (raise_all ds (dw_queue w))) in Hrun2 by apply raise_all_asks.
Qed.

(** *** A pass of a tenant with a standing answer *)

Definition answered_row (d : RaiseDecisionInput) (q : Queue) : DecisionRow :=
  closed_row d_auto_resolved (Some (auto_answer d)) "policy-preset" (q_now q) (inserted_row d q).

Definition answer_one (q : Queue) (d : RaiseDecisionInput) : Queue :=
  q <| q_rows ::= fun rows => (rows ++ [answered_row d q])%list |> <| q_nextId ::= S |>.

Definition unasked (q : Queue) (d : RaiseDecisionInput) : Prop := ra_tenantId d = tenant /\ ~ is_asked d q.

Lemma insert_unasked d q : ~ is_asked d q ->
  insert_decision d q = (Some (inserted_row d q), q <| q_rows ::= fun rows => (rows ++ [inserted_row d q])%list |> <| q_nextId ::= S |>).
Proof using. unfold is_asked, insert_decision. destruct (open_question _ _ _ q); [|done]. intros []. eauto. Qed.

Lemma answer_one_run d q : queue_wf q -> unasked q d ->
  (autoResolve tenant (q_nextId q) (auto_answer d) (insert_decision d q).2).2 = answer_one q d.
Proof using.
  intros Hwf [Ht Hq]. rewrite insert_unasked by done. unfold answer_one, autoResolve, close, field_update. simpl. f_equal.
  rewrite map_app. simpl. rewrite decide_True by done. f_equal.
  pose proof (wf_next _ Hwf) as Hnext. induction Hnext as [|r rows Hr _ IH]; [done|]. simpl. rewrite IH, decide_False; [done|].
  intros (_ & Hid & _). lia.
Qed.

Lemma answer_one_wf d q : queue_wf q -> unasked q d -> queue_wf (answer_one q d).
Proof using.
  intros Hwf Hd. rewrite <- answer_one_run by done. destruct (insert_keeps nobody d q Hwf) as [Hwf' _].
  by eapply (queue_step_keeps nobody _ _ (step_autoResolve _ _ _ _ _)).
Qed.

Lemma answer_one_open t c s d q : open_question t c s (answer_one q d) = open_question t c s q.
Proof using.
  destruct q as [rows n now]. unfold answer_one, field_update. simpl. rewrite open_question_app.
  change (open_question t c s (mkQueue rows (S n) now)) with (open_question t c s (mkQueue rows n now)).
  destruct (open_question t c s (mkQueue rows n now)); [done|]. unfold open_question. simpl. rewrite filter_cons.
  case_decide as Ha; [|done]. destruct Ha as (_ & _ & _ & Ha). discriminate Ha.
Qed.

Lemma answer_one_unasked d d' q : unasked (answer_one q d) d' <-> unasked q d'.
Proof using. unfold unasked, is_asked. by rewrite answer_one_open. Qed.

Lemma answer_all_spec ds q : queue_wf q -> Forall (unasked q) ds ->
  queue_wf (foldl answer_one q ds) /\ length (q_rows (foldl answer_one q ds)) = (length (q_rows q) + length ds)%nat /\
  (forall d, unasked (foldl answer_one q ds) d <-> unasked q d) /\
  (forall r, dr_status r = d_dismissed -> (r ∈ q_rows (foldl answer_one q ds) <-> r ∈ q_rows q)).
Proof using.
  revert q; induction ds as [|d ds IH]; intros q Hwf Hds; simpl; [by rewrite Nat.add_0_r|].
  apply Forall_cons in Hds as [Hd Hds].
  destruct (IH (answer_one q d)) as (Hwf' & Hlen & Hun & Hr).
  { by apply answer_one_wf. }
  { eapply Forall_impl; [exact Hds|]. intros d'. apply answer_one_unasked. }
  split; [done|]. split; [rewrite Hlen; simpl; rewrite length_app; simpl; lia|]. split.
  - intros d'. by rewrite Hun, answer_one_unasked.
  - intros r Hst. rewrite Hr by done. simpl. rewrite elem_of_app, list_elem_of_singleton. split; [|by left]. by intros [?| ->].
Qed.

Lemma ask_each_answers ds sum w : queue_wf (dw_queue w) -> Forall (unasked (dw_queue w)) ds -> exists sum',
  run (ask_each deps preset_auto ds sum) w = (inr sum', w <| dw_queue ::= fun q => foldl answer_one q ds |>).
Proof using.
  revert sum w; induction ds as [|d ds IH]; intros sum w Hwf Hds; [by exists sum; destruct w|].
  apply Forall_cons in Hds as [Hd Hds]. cbn [ask_each]. rewrite run_bind, run_catch, run_bind, run_dd_raise.
  destruct (open_question _ _ _ (dw_queue w)) as [found|] eqn:Hopen; [exfalso; apply (proj2 Hd); unfold is_asked; eauto|].
  cbn [run]. rewrite run_bind, run_catch.
  change (dd_autoResolve deps) with (Some (fun id input => on_queue (Env := Env) (act (autoResolve tenant id (auto_answer input))) ;;; Ret tt)).
  cbn iota beta. rewrite run_bind, run_on_queue. destruct w as [q ps env]. cbn [run act fst snd dw_queue] in *.
  destruct (IH (sum <| ds_autoResolved ::= Z.succ |>) (mkDrift (answer_one q d) ps env)) as [sum' Hrun].
  { by apply answer_one_wf. }
  { eapply Forall_impl; [exact Hds|]. intros d'. apply answer_one_unasked. }
  by exists sum'; simpl in *; rewrite <- Hrun, <- (answer_one_run d q).
Qed.

(** The world after [n] passes. *)
Definition watched (n : nat) (w : W) : W := Nat.iter n (fun w => (run pass w).2) w.

Lemma unasked_decisions addresses q :
  (forall d, d ∈ what_to_ask addresses q -> ~ is_asked d q) -> Forall (unasked q) (what_to_ask addresses q).
Proof using.
  intros Hno. apply Forall_forall. intros d Hd. split; [|by apply Hno].
  by apply (proj1 (Forall_forall _ _) (what_to_ask_tenant addresses q)).
Qed.

(** A standing answer is never remembered.  With the preset [auto], a
    directory that does not change and nobody else at the queue, every pass
    raises and closes one more row for every mailbox that is listed, not
    covered and not dismissed: after [n] passes the table is longer by [n] times
    their number. *)
Theorem standing_answer_is_forgotten n w addresses :
  queue_wf (dw_queue w) -> cv_unstated coverage = [] -> preset_get tenant "new_mailbox" (dw_presets w) = preset_auto ->
  (forall env, (directory env).1 = inr (listed_mailboxes addresses)) ->
  (forall d, d ∈ what_to_ask addresses (dw_queue w) -> ~ is_asked d (dw_queue w)) ->
  length (q_rows (dw_queue (watched n w))) =
  (length (q_rows (dw_queue w)) + n * length (what_to_ask addresses (dw_queue w)))%nat.
Proof using Hscan.
  intros Hwf Hcov Hauto Hdir Hno. apply unasked_decisions in Hno.
  set (ds := what_to_ask addresses (dw_queue w)) in *.
  enough (Hinv : let q := dw_queue (watched n w) in queue_wf q /\ Forall (unasked q) ds /\ what_to_ask addresses q = ds /\
            dw_presets (watched n w) = dw_presets w /\ length (q_rows q) = (length (q_rows (dw_queue w)) + n * length ds)%nat)
    by apply Hinv.
  induction n as [|n IH]; cbv zeta in *; [simpl; do 4 (split; [done|]); lia|].
  destruct IH as (Hwf' & Hds & Hsame & Hps & Hlen). set (w' := watched n w) in *.
  change (watched (S n) w) with (run pass w').2. clearbody w'. destruct (directory (dw_outside w')) as [r env] eqn:Hd.
  pose proof (Hdir (dw_outside w')) as Hr. rewrite Hd in Hr. simpl in Hr. subst r.
  rewrite (pass_run _ _ _ Hcov Hd), Hps, Hauto, Hsame.
  destruct (ask_each_answers ds no_summary (mkDrift (dw_queue w') (dw_presets w') env) Hwf' Hds) as [sum Hrun].
  simpl in *. rewrite Hrun. simpl.
  destruct (answer_all_spec ds (dw_queue w') Hwf' Hds) as (Hwf2 & Hlen2 & Hun & Hr).
  split; [done|]. split; [eapply Forall_impl; [exact Hds|]; intros d; apply Hun|].
  split; [by rewrite (what_to_ask_stable addresses _ _ Hr)|]. split; [done|]. rewrite Hlen2, Hlen. lia.
Qed.
End runs.

(** ** Samples *)

Definition as_typed : Runtime := mkRuntime (fun s => s) (fun s => s).

Definition two_mailboxes (e : nat) : (string + DirectoryListing) * nat := (inr (listed_mailboxes ["rob@acme.nl"; " jan@acme.nl "]), e).

(** Counts the messages sent. *)
Definition telling (_ : RaiseDecisionInput) (sent : nat) : (string + unit) * nat := (inr tt, S sent).

Definition rob_covered : Coverage := resolveCoverage as_typed [mkCoverable "m1" (mkSourceConfig "imap-oauth2" "rob@acme.nl" None)].

Definition unwatched : DriftWorld nat := mkDrift empty_queue ∅ 0%nat.

Definition with_preset (action : PresetAction) : DriftWorld nat := mkDrift empty_queue (preset_set "acme" "new_mailbox" action ∅) 0%nat.

Lemma watching_converges_witness : exists sum w1,
  run (detection_pass as_typed id "acme" rob_covered two_mailboxes telling) unwatched = (inr sum, w1) /\
  is_Some (open_question "acme" new_mailbox "jan@acme.nl" (dw_queue w1)).
Proof.
  destruct (watching_converges as_typed id "acme" rob_covered two_mailboxes telling (fun _ => reflexivity _) unwatched
              ["rob@acme.nl"; " jan@acme.nl "] 0%nat eq_refl eq_refl eq_refl) as (sum & w1 & Hrun & _ & _ & _ & _ & Hasked & _).
  exists sum, w1. split; [exact Hrun|]. apply (Hasked " jan@acme.nl "); [by right; left|by vm_compute| |].
  - vm_compute. intros Hin. apply list_elem_of_singleton in Hin. discriminate.
  - vm_compute. apply not_elem_of_nil.
Defined.

Lemma standing_answer_is_forgotten_witness :
  length (q_rows (dw_queue (watched as_typed id "acme" rob_covered two_mailboxes telling 30 (with_preset preset_auto)))) = 30%nat.
Proof.
  rewrite (standing_answer_is_forgotten as_typed id "acme" rob_covered two_mailboxes telling (fun _ => reflexivity _) 30 (with_preset preset_auto)
             ["rob@acme.nl"; " jan@acme.nl "] empty_queue_wf).
  - by vm_compute.
  - by vm_compute.
  - by vm_compute.
  - done.
  - intros d _ [r Hr]. by vm_compute in Hr.
Defined.
