(* ===== verification/GroupDiscovery.v ===== *)
(** * Shared addresses: what they are, and who decides
    ([packages/core/src/classify-shared-address.ts],
    [packages/core/src/run-group-discovery.ts],
    [packages/core/src/mapping-pattern.ts],
    [packages/ledger/src/group-def-store.ts], the wiring of the pass in
    [apps/selfhost/src/index.ts] and
    [apps/worker/src/jobs/managed-group-discovery.ts], and the answering of a
    decision in [apps/api/src/routes/decisions.ts])

    A shared address is a shared mailbox (pattern S) or a distribution list
    (pattern D).  Discovery records what the directory says and asks the owner
    where it does not say; the owner's answer goes into the same column.  The
    table [group_def] is a finite map over its unique index; log lines are left
    out. *)

From stdpp Require Import pretty.
From S2P Require Import Prelude Prog Keys Ports Decisions MailboxDrift.

Open Scope Z_scope.
#[local] Open Scope string_scope.

Inductive GroupStore := has_store | no_store | unknown_store.

Inductive SharedAddressPattern := shared_s | distribution_d.

#[export] Instance SharedAddressPattern_eq_dec : EqDecision SharedAddressPattern.
Proof. solve_decision. Defined.

Record DiscoveredGroup := mkGroup {
  g_id : string;
  g_address : string;
  g_displayName : option string;
  g_store : GroupStore;
  g_members : DirectoryListing
}.

Inductive GroupListing := listed_groups (groups : list DiscoveredGroup) | no_groups_listed (reason : string).

(** ** The classification *)

Record SharedAddressClassification := mkClassification { cl_pattern : option SharedAddressPattern; cl_reason : string }.

Definition classifyStoreSignal (store : GroupStore) : SharedAddressClassification :=
  match store with
  | has_store => mkClassification (Some shared_s)
      ("it has its own message store, so there is a folder tree to copy " ++
       "(§14.1: an M365 group with a store is Pattern S)")
  | no_store => mkClassification (Some distribution_d)
      ("it has no message store — mail sent to it is delivered into the " ++
       "members’ own mailboxes, so what migrates is the group definition " ++
       "and its member list (§14.1 Pattern D)")
  | unknown_store => mkClassification None
      ("the source did not say whether this address has its own message " ++
       "store, and the two answers migrate differently: guessing a " ++
       "distribution list would silently leave a mailbox full of mail " ++
       "behind, and guessing a shared mailbox would recreate no group, so " ++
       "mail sent to the address after cutover would reach nobody")
  end.

Definition classifySharedAddress (group : DiscoveredGroup) : SharedAddressClassification := classifyStoreSignal (g_store group).

Definition membersUsable (group : DiscoveredGroup) : bool :=
  match g_members group with listed_mailboxes _ => true | not_enumerable _ => false end.

Definition sharedAddressAnswer (resolution : option Members) : option SharedAddressPattern :=
  match resolution with
  | Some members =>
      match js_map_get "pattern" members with
      | Some (js_string "shared_s") => Some shared_s
      | Some (js_string "distribution_d") => Some distribution_d
      | _ => None
      end
  | None => None
  end.

Definition sharedAddressQuestion (group : DiscoveredGroup) : string :=
  let name := match truthy (g_displayName group) with
              | Some n => n ++ " (" ++ g_address group ++ ")"
              | None => g_address group
              end in
  "Do recipients jointly handle one shared mailbox at " ++ name ++ ", or should it " ++
  "work as a distribution list where each recipient receives the mail? " ++
  "We could not tell from the source: " ++ cl_reason (classifySharedAddress group) ++ ".".

(** ** The table *)

Inductive GroupStatus := g_pending | g_created | g_error.

Record GroupDefRow := mkGroupDefRow {
  gr_id : nat;
  gr_sourceConnectionId : string;
  gr_address : string;
  gr_sourceGroupId : option string;
  gr_displayName : option string;
  gr_pattern : option SharedAddressPattern;
  gr_members : list string;
  gr_membersKnown : bool;
  gr_targetGroupRef : option string;
  gr_status : GroupStatus
}.

#[export] Instance eta_GroupDefRow : Eta GroupDefRow := fun r =>
  mkGroupDefRow (gr_id r) (gr_sourceConnectionId r) (gr_address r) (gr_sourceGroupId r) (gr_displayName r) (gr_pattern r)
    (gr_members r) (gr_membersKnown r) (gr_targetGroupRef r) (gr_status r).

(** What discovery hands over for one address. *)
Record RecordGroupInput := mkRecordGroup {
  rg_sourceConnectionId : string;
  rg_address : string;
  rg_sourceGroupId : option string;
  rg_displayName : option string;
  rg_pattern : option SharedAddressPattern;
  rg_members : list string;
  rg_membersKnown : option bool
}.

Definition group_key : Type := string * string * string.

Record Groups := mkGroups { gs_rows : gmap group_key GroupDefRow; gs_nextId : nat }.

#[export] Instance eta_Groups : Eta Groups := fun s => mkGroups (gs_rows s) (gs_nextId s).

(** A row as it is handed out. *)
Definition toGroupDefRow (r : GroupDefRow) : GroupDefRow :=
  r <| gr_sourceGroupId ::= truthy |> <| gr_displayName ::= truthy |> <| gr_targetGroupRef ::= truthy |>.

Section store.
Context (rt : Runtime).

Definition fresh_group (input : RecordGroupInput) (id : nat) : GroupDefRow :=
  mkGroupDefRow id (rg_sourceConnectionId input) (norm rt (rg_address input)) (rg_sourceGroupId input) (rg_displayName input)
    (rg_pattern input) (rg_members input) (nullish (rg_membersKnown input) true) None g_pending.

Definition refreshed_group (input : RecordGroupInput) (r : GroupDefRow) : GroupDefRow :=
  r <| gr_sourceGroupId := rg_sourceGroupId input |> <| gr_displayName := rg_displayName input |>
    <| gr_pattern := rg_pattern input |> <| gr_members := rg_members input |>
    <| gr_membersKnown := nullish (rg_membersKnown input) true |>.

Definition key_of_group (tenant : string) (input : RecordGroupInput) : group_key :=
  (tenant, rg_sourceConnectionId input, norm rt (rg_address input)).

(** [INSERT ... ON CONFLICT DO NOTHING RETURNING *] *)
Definition insert_group (tenant : string) (input : RecordGroupInput) (s : Groups) : option GroupDefRow * Groups :=
  match gs_rows s !! key_of_group tenant input with
  | Some _ => (None, s)
  | None =>
      let row := fresh_group input (gs_nextId s) in
      (Some row, s <| gs_rows ::= insert (key_of_group tenant input) row |> <| gs_nextId ::= S |>)
  end.

(** [UPDATE ... WHERE tenant AND connection AND address RETURNING *] *)
Definition refresh_group (tenant : string) (input : RecordGroupInput) (s : Groups) : option GroupDefRow * Groups :=
  (refreshed_group input <$> gs_rows s !! key_of_group tenant input,
   s <| gs_rows ::= alter (refreshed_group input) (key_of_group tenant input) |>).

Definition upsert_group (tenant : string) (input : RecordGroupInput) : prog Groups string (GroupDefRow * bool) :=
  let! fresh := act (insert_group tenant input) in
  match fresh with
  | Some row => Ret (toGroupDefRow row, true)
  | None =>
      let! refreshed := act (refresh_group tenant input) in
      match refreshed with
      | Some row => Ret (toGroupDefRow row, false)
      | None => Throw ("group_def upsert for " ++ norm rt (rg_address input) ++ " matched no row")
      end
  end.

(** Rows of an address, under whatever connection. *)
Definition at_address (tenant address : string) (k : group_key) : Prop := k.1.1 = tenant /\ k.2 = norm rt address.

#[export] Instance at_address_dec t a k : Decision (at_address t a k).
Proof. unfold at_address. apply _. Defined.

Definition setPattern (tenant address : string) (pattern : SharedAddressPattern) (s : Groups) : nat * Groups :=
  (size (filter (fun kr => at_address tenant address kr.1) (gs_rows s)),
   s <| gs_rows ::= map_imap (fun k r => Some (if decide (at_address tenant address k) then r <| gr_pattern := Some pattern |> else r)) |>).

Definition list_groups (scan : gmap group_key GroupDefRow -> list (group_key * GroupDefRow)) (tenant : string) (s : Groups) : list GroupDefRow :=
  (fun kr => toGroupDefRow kr.2) <$> base.filter (fun kr => kr.1.1.1 = tenant) (scan (gs_rows s)).
End store.

(** ** One discovery pass *)

Record GroupDiscoveryDeps (W : Type) := mkGroupDiscoveryDeps {
  gd_tenantId : string;
  gd_sourceConnectionId : string;
  listGroups : prog W string GroupListing;
  gd_record : RecordGroupInput -> prog W string bool;
  gd_raise : option (RaiseDecisionInput -> prog W string (bool * nat));
  gd_onRaised : option (RaiseDecisionInput -> prog W string unit)
}.

Arguments mkGroupDiscoveryDeps {W}.
Arguments gd_tenantId {W}.
Arguments gd_sourceConnectionId {W}.
Arguments listGroups {W}.
Arguments gd_record {W}.
Arguments gd_raise {W}.
Arguments gd_onRaised {W}.

Record GroupDiscoverySummary := mkGroupSummary {
  gu_discovered : Z; gu_known : Z; gu_unclassified : Z; gu_asked : Z; gu_alreadyAsked : Z; gu_membersUnknown : Z; gu_failed : Z;
  gu_blindSpot : option string
}.

#[export] Instance eta_GroupDiscoverySummary : Eta GroupDiscoverySummary := fun s =>
  mkGroupSummary (gu_discovered s) (gu_known s) (gu_unclassified s) (gu_asked s) (gu_alreadyAsked s) (gu_membersUnknown s) (gu_failed s)
    (gu_blindSpot s).

Definition EMPTY : GroupDiscoverySummary := mkGroupSummary 0 0 0 0 0 0 0 None.

Definition group_input (connection : string) (group : DiscoveredGroup) : RecordGroupInput :=
  mkRecordGroup connection (g_address group) (truthy (Some (g_id group))) (truthy (g_displayName group))
    (cl_pattern (classifySharedAddress group))
    (match g_members group with listed_mailboxes addresses => addresses | not_enumerable _ => [] end)
    (Some (membersUsable group)).

Definition optional_text (name : string) (o : option string) : Members :=
  match truthy o with Some s => [(name, js_string s)] | None => [] end.

Definition group_question (tenant connection : string) (group : DiscoveredGroup) : RaiseDecisionInput :=
  mkRaise tenant None shared_address_pattern (g_address group) (sharedAddressQuestion group)
    (Some ([("address", js_string (g_address group))] ++ optional_text "displayName" (g_displayName group) ++
           optional_text "sourceGroupId" (Some (g_id group)) ++ [("sourceConnectionId", js_string connection)])%list)
    None.

Definition count_if (b : bool) (n : Z) : Z := if b then Z.succ n else n.

Section discovery_pass.
Context {W : Type} (deps : GroupDiscoveryDeps W).

(** The S-or-D question about one recorded group, and the counting of it. *)
Definition ask_pattern (group : DiscoveredGroup) (sum : GroupDiscoverySummary) : prog W string GroupDiscoverySummary :=
  match cl_pattern (classifySharedAddress group), gd_raise deps with
  | None, Some raise =>
      let question := group_question (gd_tenantId deps) (gd_sourceConnectionId deps) group in
      let! outcome := pcatch (let! r := raise question in Ret (Some (fst r))) (fun _ => Ret None) in
      match outcome with
      | None => Ret sum
      | Some false => Ret (sum <| gu_alreadyAsked ::= Z.succ |>)
      | Some true =>
          pcatch (match gd_onRaised deps with Some f => f question | None => Ret tt end) (fun _ => Ret tt) ;;;
          Ret (sum <| gu_asked ::= Z.succ |>)
      end
  | _, _ => Ret sum
  end.

Fixpoint discover_each (groups : list DiscoveredGroup) (sum : GroupDiscoverySummary) : prog W string GroupDiscoverySummary :=
  match groups with
  | [] => Ret sum
  | group :: groups =>
      let! recorded := pcatch (let! created := gd_record deps (group_input (gd_sourceConnectionId deps) group) in Ret (Some created))
                              (fun _ => Ret None) in
      match recorded with
      | None => discover_each groups (sum <| gu_failed ::= Z.succ |>)
      | Some created =>
          let! sum := ask_pattern group
            (sum <| gu_discovered ::= count_if created |> <| gu_known ::= count_if (negb created) |>
                 <| gu_unclassified ::= count_if (negb (defined (cl_pattern (classifySharedAddress group)))) |>
                 <| gu_membersUnknown ::= count_if (negb (membersUsable group)) |>) in
          discover_each groups sum
      end
  end.

Definition runGroupDiscovery : prog W string GroupDiscoverySummary :=
  let! listing := listGroups deps in
  match listing with
  | no_groups_listed reason => Ret (EMPTY <| gu_blindSpot := Some reason |>)
  | listed_groups groups => discover_each groups EMPTY
  end.
End discovery_pass.

(** ** The pass as it is wired, and the answer to a decision *)

Record GroupWorld (Env : Type) := mkGroupWorld { gw_groups : Groups; gw_queue : Queue; gw_outside : Env }.

Arguments mkGroupWorld {Env}.
Arguments gw_groups {Env}.
Arguments gw_queue {Env}.
Arguments gw_outside {Env}.

#[export] Instance eta_GroupWorld {Env} : Eta (GroupWorld Env) := fun w => mkGroupWorld (gw_groups w) (gw_queue w) (gw_outside w).

Section wiring.
Context (rt : Runtime) {Env : Type} (tenant : string).
#[local] Abbreviation W := (GroupWorld Env).

Definition at_groups {A} (p : prog Groups string A) : prog W string A := plift gw_groups (fun s w => w <| gw_groups := s |>) p.

Definition at_queue {A} (p : prog Queue string A) : prog W string A := plift gw_queue (fun q w => w <| gw_queue := q |>) p.

Definition at_outside {A} (f : Env -> (string + A) * Env) : prog W string A :=
  plift gw_outside (fun e w => w <| gw_outside := e |>) (try_act f).

Definition group_discovery (connection : string) (directory : Env -> (string + GroupListing) * Env)
    (notify : RaiseDecisionInput -> Env -> (string + unit) * Env) : GroupDiscoveryDeps W :=
  mkGroupDiscoveryDeps tenant connection
    (at_outside directory)
    (fun input => let! r := at_groups (upsert_group rt tenant input) in Ret (snd r))
    (Some (fun input => let! r := at_queue (raise input) in Ret (snd r, dr_id (fst r))))
    (Some (fun input => at_outside (notify input))).

Definition discovery_pass connection directory notify : prog W string GroupDiscoverySummary :=
  runGroupDiscovery (group_discovery connection directory notify).

(** [POST /decisions/:id/resolve]; [None] is the 409. *)
Definition answer_decision (id : nat) (resolution : Members) (by_ : string) : prog W string (option DecisionRow) :=
  let! row := at_queue (act (resolve tenant id resolution by_)) in
  match row with
  | None => Ret None
  | Some row =>
      match truthy (dr_subjectKey row), sharedAddressAnswer (Some resolution) with
      | Some subject, Some pattern =>
          if bool_decide (dr_category row = shared_address_pattern)
          then at_groups (act (setPattern rt tenant subject pattern)) ;;; Ret (Some row)
          else Ret (Some row)
      | _, _ => Ret (Some row)
      end
  end.
End wiring.

(** ** The pattern a mapping may carry *)

Record PatternedMapping := mkPatterned {
  pm_mappingId : string; pm_source : SourceConfig; pm_declared : option SharedAddressPattern
}.

Inductive PatternRefusal := only_shared_s | source_names_no_mailbox.

Definition patternForSource (source : SourceConfig) : option SharedAddressPattern :=
  if defined (strip_prefix "graph-" (sc_type source)) && defined (truthy (trim <$> sc_mailbox source)) then Some shared_s else None.

Definition assertMappingPattern (config : PatternedMapping) : PatternRefusal + unit :=
  match pm_declared config with
  | None => inr tt
  | Some distribution_d => inl only_shared_s
  | Some shared_s =>
      if bool_decide (patternForSource (pm_source config) <> Some shared_s) then inl source_names_no_mailbox else inr tt
  end.

Definition resolveMappingPattern (config : PatternedMapping) : option SharedAddressPattern :=
  match pm_declared config with Some p => Some p | None => patternForSource (pm_source config) end.

Lemma accepted_pattern_is_the_source's config :
  assertMappingPattern config = inr tt -> resolveMappingPattern config = patternForSource (pm_source config).
Proof.
  unfold assertMappingPattern, resolveMappingPattern. destruct (pm_declared config) as [[]|]; [|done..].
  case_bool_decide as Hs; [done|]. intros _. by destruct (decide (patternForSource (pm_source config) = Some shared_s)).
Qed.

(** ** What no discovery pass takes back *)

(** What was done on the target, and which row it is. *)
Definition done_on_target (r : GroupDefRow) :=
  (gr_id r, gr_sourceConnectionId r, gr_address r, gr_targetGroupRef r, gr_status r).

Definition groups_kept (s s' : Groups) : Prop :=
  forall k r, gs_rows s !! k = Some r -> exists r', gs_rows s' !! k = Some r' /\ done_on_target r' = done_on_target r.

#[export] Instance groups_kept_preorder : PreOrder groups_kept.
Proof.
  split; [intros s k r Hr; by exists r|]. intros s1 s2 s3 H1 H2 k r Hr.
  destruct (H1 _ _ Hr) as (r' & Hr' & He). destruct (H2 _ _ Hr') as (r2 & Hr2 & He2). exists r2. split; [done|congruence].
Qed.

Section kept.
Context (rt : Runtime) {Env : Type} (tenant : string).
#[local] Abbreviation W := (GroupWorld Env).

Lemma insert_group_kept t input s : groups_kept s (insert_group rt t input s).2.
Proof.
  intros k r Hr. unfold insert_group. destruct (gs_rows s !! key_of_group rt t input) as [x|] eqn:Hx; simpl; [by exists r|].
  exists r. split; [|done]. rewrite lookup_insert_ne; [done|]. intros <-. congruence.
Qed.

Lemma refresh_group_kept t input s : groups_kept s (refresh_group rt t input s).2.
Proof.
  intros k r Hr. simpl. destruct (decide (key_of_group rt t input = k)) as [<-|Hne].
  - exists (refreshed_group input r). rewrite lookup_alter_eq, Hr. done.
  - exists r. by rewrite lookup_alter_ne.
Qed.

Lemma setPattern_kept t a p s : groups_kept s (setPattern rt t a p s).2.
Proof.
  intros k r Hr. simpl. rewrite map_lookup_imap, Hr. simpl. eexists. split; [done|]. by case_decide.
Qed.

(** Questions are added to the table, and nothing else happens to it. *)
Definition queue_appended (q q' : Queue) : Prop := exists more, q_rows q' = (q_rows q ++ more)%list.

(** At most one question is closed: the open one with this id. *)
Definition queue_answered (id : nat) (q q' : Queue) : Prop :=
  Forall2 (fun r r' => r' = r \/ (closable tenant id r /\ facts r' = facts r)) (q_rows q) (q_rows q').

(** What was done on the target stays, and the queue moves by [Q]. *)
Definition world_kept (Q : Queue -> Queue -> Prop) (w w' : W) : Prop :=
  groups_kept (gw_groups w) (gw_groups w') /\ Q (gw_queue w) (gw_queue w').

Lemma at_groups_kept Q `{!Reflexive Q} {A} (p : prog Groups string A) :
  steps_in groups_kept p -> steps_in (world_kept Q) (at_groups p).
Proof. apply steps_in_plift. intros s w Hs. by split. Qed.

Lemma at_queue_kept (Q : Queue -> Queue -> Prop) {A} (p : prog Queue string A) :
  steps_in Q p -> steps_in (world_kept Q) (at_queue p).
Proof. apply steps_in_plift. intros q w Hq. by split. Qed.

Lemma at_outside_kept Q `{!Reflexive Q} {A} (f : Env -> (string + A) * Env) : steps_in (world_kept Q) (at_outside f).
Proof. apply (steps_in_plift _ _ (fun _ _ => True)); [by intros e w _|]. by apply steps_in_try. Qed.

#[local] Instance queue_appended_refl : Reflexive queue_appended.
Proof. intros q. exists []. by rewrite app_nil_r. Qed.

#[local] Instance queue_answered_refl id : Reflexive (queue_answered id).
Proof. intros q. apply Forall2_same_length_lookup. split; [done|]. intros k x y -> [= ->]. by left. Qed.

Lemma insert_appends input q : queue_appended q (insert_decision input q).2.
Proof. unfold insert_decision. destruct (open_question _ _ _ q); [done|]. by eexists. Qed.

Lemma raise_appends input : steps_in queue_appended (raise input).
Proof.
  apply steps_in_bind; [apply steps_in_act, insert_appends|]. intros [row|]; [done|].
  apply steps_in_bind; [by apply steps_in_act|]. intros [found|]; [done|].
  apply steps_in_bind; [apply steps_in_act, insert_appends|]. by intros [].
Qed.

Lemma resolve_answers id resolution by_ q : queue_answered id q (resolve tenant id resolution by_ q).2.
Proof.
  unfold queue_answered, resolve, close. simpl. induction (q_rows q) as [|r rows IH]; simpl; constructor; [|done].
  case_decide as Hc; [right|by left]. split; [done|apply closed_row_facts].
Qed.

Context (connection : string) (directory : Env -> (string + GroupListing) * Env)
        (notify : RaiseDecisionInput -> Env -> (string + unit) * Env).

#[local] Abbreviation deps := (group_discovery rt tenant connection directory notify).
#[local] Abbreviation pass := (discovery_pass rt tenant connection directory notify).

Lemma record_kept input : steps_in (world_kept queue_appended) (gd_record deps input).
Proof using.
  apply steps_in_bind; [|done]. apply (at_groups_kept _). apply steps_in_bind; [apply steps_in_act, insert_group_kept|].
  intros [row|]; [done|]. apply steps_in_bind; [apply steps_in_act, refresh_group_kept|]. by intros [].
Qed.

Lemma raise_kept input :
  steps_in (world_kept queue_appended) (let! r := at_queue (Env := Env) (raise input) in Ret (snd r, dr_id (fst r))).
Proof using. apply steps_in_bind; [|done]. apply at_queue_kept, raise_appends. Qed.

Lemma ask_pattern_kept group sum : steps_in (world_kept queue_appended) (ask_pattern deps group sum).
Proof using.
  unfold ask_pattern. destruct (cl_pattern _); [done|]. simpl gd_raise. cbn iota.
  apply steps_in_bind.
  { apply steps_in_catch; [|done]. apply steps_in_bind; [apply raise_kept|done]. }
  intros [[]|]; [|done..]. apply steps_in_bind; [|done]. apply steps_in_catch; [apply (at_outside_kept _)|done].
Qed.

Lemma discover_each_kept groups sum : steps_in (world_kept queue_appended) (discover_each deps groups sum).
Proof using.
  revert sum; induction groups as [|group groups IH]; intros sum; [done|]. cbn [discover_each].
  apply steps_in_bind.
  { apply steps_in_catch; [|done]. apply steps_in_bind; [apply record_kept|done]. }
  intros [created|]; [|apply IH]. apply steps_in_bind; [apply ask_pattern_kept|done].
Qed.

(** C28: discovery takes back nothing that was done on the target.  Whatever
    others do to the tables meanwhile, every step of a discovery pass and of the
    answering of a decision leaves every known group in place under its id, with
    its status and its group on the target; every step of a pass leaves every
    decision exactly as it is and at most adds questions behind them; and every
    step of an answer changes at most the one open decision it is for, and not
    its question.  (The pattern a group carries is not among what stays: see
    [owner_answer_is_erased].) *)
Theorem discovery_takes_nothing_back id resolution by_ :
  steps_in (world_kept queue_appended) pass /\
  steps_in (world_kept (queue_answered id)) (answer_decision rt (Env := Env) tenant id resolution by_).
Proof using.
  split.
  - apply steps_in_bind; [apply (at_outside_kept _)|]. intros [groups|reason]; [apply discover_each_kept|done].
  - apply steps_in_bind; [apply at_queue_kept, steps_in_act, resolve_answers|].
    intros [row|]; [|done]. destruct (truthy _), (sharedAddressAnswer (Some resolution)); try done. case_bool_decide; [|done].
    apply steps_in_bind; [|done]. apply (at_groups_kept _), steps_in_act, setPattern_kept.
Qed.
End kept.

(** ** What a pass makes of the answers *)

Section runs.
Context (rt : Runtime) {Env : Type} (tenant connection : string).
Context (directory : Env -> (string + GroupListing) * Env) (notify : RaiseDecisionInput -> Env -> (string + unit) * Env).
#[local] Abbreviation W := (GroupWorld Env).
#[local] Abbreviation deps := (group_discovery rt tenant connection directory notify).
#[local] Abbreviation pass := (discovery_pass rt tenant connection directory notify).
Implicit Types w : W.

Definition put_group (s : Groups) (group : DiscoveredGroup) : Groups :=
  let input := group_input connection group in
  match gs_rows s !! key_of_group rt tenant input with
  | Some _ => (refresh_group rt tenant input s).2
  | None => (insert_group rt tenant input s).2
  end.

Definition questions (groups : list DiscoveredGroup) : list RaiseDecisionInput :=
  group_question tenant connection <$> base.filter (fun g => cl_pattern (classifySharedAddress g) = None) groups.

Lemma run_at_groups {A} (p : prog Groups string A) w :
  run (at_groups p) w = ((run p (gw_groups w)).1, w <| gw_groups := (run p (gw_groups w)).2 |>).
Proof using. unfold at_groups. by rewrite run_plift; [|done..|intros []]. Qed.

Lemma run_at_queue {A} (p : prog Queue string A) w :
  run (at_queue p) w = ((run p (gw_queue w)).1, w <| gw_queue := (run p (gw_queue w)).2 |>).
Proof using. unfold at_queue. by rewrite run_plift; [|done..|intros []]. Qed.

Lemma run_at_outside {A} (f : Env -> (string + A) * Env) w :
  run (at_outside f) w = ((f (gw_outside w)).1, w <| gw_outside := (f (gw_outside w)).2 |>).
Proof using.
  unfold at_outside. rewrite run_plift; [|done..|by intros []]. simpl. destruct (f (gw_outside w)) as [[e|a] env]; done.
Qed.

Lemma run_record group w : exists created,
  run (gd_record deps (group_input connection group)) w = (inr created, w <| gw_groups ::= fun s => put_group s group |>).
Proof using.
  change (gd_record deps (group_input connection group)) with
    (let! r := at_groups (Env := Env) (upsert_group rt tenant (group_input connection group)) in Ret (snd r)).
  rewrite run_bind, run_at_groups. unfold upsert_group, put_group. rewrite run_bind. cbn [run act].
  unfold insert_group. destruct (gs_rows (gw_groups w) !! _) as [row|] eqn:Hrow; simpl; rewrite !Hrow; by eexists.
Qed.

Lemma run_ask group sum w : exists sum' env,
  run (ask_pattern deps group sum) w = (inr sum', mkGroupWorld (gw_groups w) (raise_all (questions [group]) (gw_queue w)) env).
Proof using.
  unfold ask_pattern, questions. rewrite filter_cons. destruct (cl_pattern (classifySharedAddress group)) eqn:Hc.
  { exists sum, (gw_outside w). by destruct w. }
  rewrite decide_True by done.
  change (gd_raise deps) with (Some (fun input => let! r := at_queue (Env := Env) (raise input) in Ret (snd r, dr_id (fst r)))).
  cbn iota. cbv zeta beta. rewrite run_bind, run_catch, run_bind, run_bind, run_at_queue, raise_run. simpl.
  unfold insert_decision. simpl. destruct (open_question _ _ _ (gw_queue w)) as [r|]; simpl.
  { eexists _, (gw_outside w). by destruct w. }
  destruct (notify _ (gw_outside w)) as [[e|[]] env]; simpl; by eexists _, env.
Qed.

Lemma raise_all_app ds ds' q : raise_all (ds ++ ds')%list q = raise_all ds' (raise_all ds q).
Proof using. apply foldl_app. Qed.

Lemma run_discover groups sum w : exists sum' env,
  run (discover_each deps groups sum) w =
  (inr sum', mkGroupWorld (foldl put_group (gw_groups w) groups) (raise_all (questions groups) (gw_queue w)) env).
Proof using.
  revert sum w; induction groups as [|group groups IH]; intros sum w; [exists sum, (gw_outside w); by destruct w|].
  cbn [discover_each]. destruct (run_record group w) as [created Hrec].
  change (gd_sourceConnectionId deps) with connection.
  rewrite run_bind, run_catch, run_bind, Hrec. cbn [run]. rewrite run_bind.
  match goal with |- context [ask_pattern deps group ?s] => destruct (run_ask group s (w <| gw_groups ::= fun g => put_group g group |>)) as (sum1 & env1 & ->) end.
  destruct (IH sum1 (mkGroupWorld (put_group (gw_groups w) group) (raise_all (questions [group]) (gw_queue w)) env1)) as (sum' & env & Hrun).
  exists sum', env. etrans; [exact Hrun|]. simpl. rewrite <- raise_all_app. unfold questions. rewrite <- fmap_app, <- filter_app. done.
Qed.

Definition pattern_at (s : Groups) (k : group_key) : option (option SharedAddressPattern) := gr_pattern <$> gs_rows s !! k.

Definition key_of (group : DiscoveredGroup) : group_key := (tenant, connection, norm rt (g_address group)).

Lemma put_group_lookup s group k :
  gs_rows (put_group s group) !! k =
  if decide (k = key_of group)
  then Some (match gs_rows s !! k with
             | Some r => refreshed_group (group_input connection group) r
             | None => fresh_group rt (group_input connection group) (gs_nextId s)
             end)
  else gs_rows s !! k.
Proof using.
  unfold put_group, insert_group. change (key_of_group rt tenant (group_input connection group)) with (key_of group).
  destruct (gs_rows s !! key_of group) as [r|] eqn:Hr; simpl;
    change (key_of_group rt tenant (group_input connection group)) with (key_of group).
  - case_decide as Hk; [|rewrite lookup_alter_ne; [done|congruence]]. subst k. by rewrite lookup_alter_eq, Hr.
  - case_decide as Hk; [|rewrite lookup_insert_ne; [done|congruence]]. subst k. by rewrite lookup_insert_eq, Hr.
Qed.

Lemma put_group_pattern s group k :
  pattern_at (put_group s group) k = if decide (k = key_of group) then Some (cl_pattern (classifySharedAddress group)) else pattern_at s k.
Proof using. unfold pattern_at. rewrite put_group_lookup. case_decide; [|done]. by destruct (gs_rows s !! k). Qed.

Lemma unknown_groups_pattern groups s k :
  Forall (fun g => key_of g = k -> g_store g = unknown_store) groups ->
  (pattern_at s k = Some None \/ exists g, g ∈ groups /\ key_of g = k) -> pattern_at (foldl put_group s groups) k = Some None.
Proof using.
  revert s; induction groups as [|g groups IH]; intros s; simpl; [set_solver|].
  intros [Hg Hgs]%Forall_cons Hex. apply IH; [done|]. rewrite put_group_pattern. unfold classifySharedAddress.
  case_decide as Hk; [left; by rewrite Hg|]. destruct Hex as [?|(g' & [->|Hin]%elem_of_cons & Hk')]; [by left|done|by right; exists g'].
Qed.

(** The owner's answer does not survive the next discovery pass.  The owner
    answers the open question about a shared address: the answer is taken, the
    address gets the pattern and the question is closed.  The next pass over a
    directory that still does not say what the address is sets the pattern back
    to none and asks the same question again. *)
Theorem owner_answer_is_erased w id resolution by_ pattern group groups r env1 :
  queue_wf (gw_queue w) -> group ∈ groups -> g_address group <> "" ->
  Forall (fun g => key_of g = key_of group -> g_store g = unknown_store) groups ->
  open_question tenant shared_address_pattern (g_address group) (gw_queue w) = Some r -> dr_id r = id ->
  is_Some (gs_rows (gw_groups w) !! key_of group) -> sharedAddressAnswer (Some resolution) = Some pattern ->
  directory (gw_outside w) = (inr (listed_groups groups), env1) ->
  exists row sum w1 w2,
    run (answer_decision rt tenant id resolution by_) w = (inr (Some row), w1) /\
    pattern_at (gw_groups w1) (key_of group) = Some (Some pattern) /\
    open_question tenant shared_address_pattern (g_address group) (gw_queue w1) = None /\
    run pass w1 = (inr sum, w2) /\
    pattern_at (gw_groups w2) (key_of group) = Some None /\
    is_Some (open_question tenant shared_address_pattern (g_address group) (gw_queue w2)).
Proof using.
  intros Hwf Hin Hne Hunknown Hopen Hid [row0 Hrow0] Hans Hdir. subst id.
  destruct (close_open _ _ _ _ _ d_resolved (Some resolution) by_ Hwf ltac:(done) Hopen) as [Hclose Hclosed].
  set (row := toDecisionRow _) in Hclose. set (q1 := (close _ _ _ _ _ _).2) in Hclosed.
  set (s1 := (setPattern rt tenant (g_address group) pattern (gw_groups w)).2).
  destruct (open_question_Some _ _ _ _ _ Hopen) as (_ & _ & Hcat & Hsubj & _).
  destruct (run_discover groups EMPTY (mkGroupWorld s1 q1 env1)) as (sum & env & Hrun).
  assert (Hrs : dr_subjectKey row = Some (g_address group)).
  { subst row. simpl. rewrite Hsubj. simpl. by case_decide. }
  assert (Hrc : dr_category row = shared_address_pattern) by done.
  clearbody row. exists row, sum, (mkGroupWorld s1 q1 (gw_outside w)), (mkGroupWorld (foldl put_group s1 groups) (raise_all (questions groups) q1) env).
  split.
  { unfold answer_decision, resolve. rewrite run_bind, run_at_queue. cbn [run act].
    destruct (close tenant (dr_id r) d_resolved (Some resolution) by_ (gw_queue w)) as [o q] eqn:Hc. simpl in Hclose. subst o.
    cbn [fst snd]. rewrite Hrs. cbn [truthy]. rewrite decide_False by done. rewrite Hans, bool_decide_true by done. done. }
  split; [unfold pattern_at, s1; simpl; rewrite map_lookup_imap, Hrow0; simpl; rewrite decide_True; done|].
  split; [done|]. split.
  { unfold discovery_pass, runGroupDiscovery. change (listGroups deps) with (at_outside directory).
    rewrite run_bind, run_at_outside. simpl gw_outside. rewrite Hdir. exact Hrun. }
  split; [apply unknown_groups_pattern; [done|right; by exists group]|].
  assert (Hq : group_question tenant connection group ∈ questions groups).
  { apply list_elem_of_fmap. exists group. split; [done|]. apply list_elem_of_filter. split; [|done].
    unfold classifySharedAddress. by rewrite (proj1 (Forall_forall _ _) Hunknown _ Hin eq_refl). }
  exact (proj1 (Forall_forall _ _) (raise_all_asks (questions groups) q1) _ Hq).
Qed.

Lemma put_groups_other groups s k : k ∉ (key_of <$> groups) -> gs_rows (foldl put_group s groups) !! k = gs_rows s !! k.
Proof using.
  revert s; induction groups as [|g groups IH]; intros s; simpl; [done|]. intros [Hk Hks]%not_elem_of_cons.
  by rewrite IH, put_group_lookup, decide_False.
Qed.

Lemma put_groups_member groups s g : NoDup (key_of <$> groups) -> g ∈ groups ->
  exists s', gs_rows (foldl put_group s groups) !! key_of g = gs_rows (put_group s' g) !! key_of g /\
             gs_rows s' !! key_of g = gs_rows s !! key_of g.
Proof using.
  revert s; induction groups as [|g' groups IH]; intros s; simpl; [set_solver|].
  intros [Hk Hnd]%NoDup_cons [->|Hg]%elem_of_cons; [exists s; split; [by apply put_groups_other|done]|].
  destruct (IH (put_group s g') Hnd Hg) as (s' & Hs & Hs'). exists s'. split; [done|]. rewrite Hs', put_group_lookup, decide_False; [done|].
  intros Heq. apply Hk. rewrite <- Heq. by apply list_elem_of_fmap_2.
Qed.

(** C27: a pass records what the directory said.  When the listed addresses are
    distinct, each has a row afterwards with its classification and members,
    marked unread exactly where the members could not be read, that still says
    what was done for it on the target; an address nobody classified has an open
    question; every other group and every decision there was stays exactly as
    it was; and every decision that was added is an open question about an
    unclassified address that had none.  A directory that cannot be read changes
    neither table and says why. *)
Theorem discovery_records_what_it_read w listing env1 :
  directory (gw_outside w) = (inr listing, env1) ->
  match listing with
  | no_groups_listed reason => run pass w = (inr (EMPTY <| gu_blindSpot := Some reason |>), mkGroupWorld (gw_groups w) (gw_queue w) env1)
  | listed_groups groups =>
      NoDup (key_of <$> groups) ->
      exists sum w1, run pass w = (inr sum, w1) /\
        (forall g, g ∈ groups -> exists r,
           gs_rows (gw_groups w1) !! key_of g = Some r /\ gr_pattern r = cl_pattern (classifySharedAddress g) /\
           (forall addresses, g_members g = listed_mailboxes addresses <-> gr_membersKnown r = true /\ gr_members r = addresses) /\
           (forall r0, gs_rows (gw_groups w) !! key_of g = Some r0 -> done_on_target r = done_on_target r0) /\
           (cl_pattern (classifySharedAddress g) = None ->
              is_Some (open_question tenant shared_address_pattern (g_address g) (gw_queue w1)))) /\
        (forall k, k ∉ (key_of <$> groups) -> gs_rows (gw_groups w1) !! k = gs_rows (gw_groups w) !! k) /\
        (exists more, q_rows (gw_queue w1) = (q_rows (gw_queue w) ++ more)%list /\
           Forall (fun r => exists g, g ∈ groups /\ cl_pattern (classifySharedAddress g) = None /\
             asks tenant shared_address_pattern (g_address g) r /\
             open_question tenant shared_address_pattern (g_address g) (gw_queue w) = None) more)
  end.
Proof using.
  intros Hdir. unfold discovery_pass, runGroupDiscovery. change (listGroups deps) with (at_outside directory).
  rewrite run_bind, run_at_outside, Hdir. cbn [fst snd]. destruct listing as [groups|reason]; [|by destruct w]. intros Hnd.
  destruct (run_discover groups EMPTY (mkGroupWorld (gw_groups w) (gw_queue w) env1)) as (sum & env & Hrun).
  exists sum, (mkGroupWorld (foldl put_group (gw_groups w) groups) (raise_all (questions groups) (gw_queue w)) env).
  split; [by destruct w|]. split; [|split; [intros k; apply put_groups_other|]]; simpl.
  2:{ destruct (raise_all_rows (questions groups) (gw_queue w)) as (more & Hrows & Hmore). exists more. split; [done|].
      eapply Forall_impl; [exact Hmore|]. intros r (d & q & Hd & Hna & ->).
      apply list_elem_of_fmap in Hd as (g & -> & [Hc Hg]%list_elem_of_filter). exists g.
      do 2 (split; [done|]). split; [done|]. unfold is_asked in Hna. simpl in Hna.
      destruct (open_question _ _ _ _); [|done]. exfalso. eauto. }
  intros g Hg.
  destruct (put_groups_member groups (gw_groups w) g Hnd Hg) as (s' & -> & Hs').
  rewrite put_group_lookup, decide_True by done. eexists. split; [done|]. rewrite Hs'. split; [|split; [|split]].
  - by destruct (gs_rows (gw_groups w) !! key_of g).
  - intros addresses. destruct (gs_rows (gw_groups w) !! key_of g); simpl; unfold membersUsable; destruct (g_members g); naive_solver.
  - intros r0 ->. done.
  - intros Hc. assert (Hq : group_question tenant connection g ∈ questions groups).
    { apply list_elem_of_fmap. exists g. split; [done|]. by apply list_elem_of_filter. }
    exact (proj1 (Forall_forall _ _) (raise_all_asks (questions groups) (gw_queue w)) _ Hq).
Qed.
End runs.

(** ** Samples *)

Definition plain_text : Runtime := mkRuntime (fun s => s) (fun s => s).

Definition info_group : DiscoveredGroup := mkGroup "g1" "info@acme.nl" None unknown_store (listed_mailboxes ["rob@acme.nl"]).

Definition acme_directory (e : unit) : (string + GroupListing) * unit := (inr (listed_groups [info_group]), e).

Definition silent (_ : RaiseDecisionInput) (e : unit) : (string + unit) * unit := (inr tt, e).

Definition acme_start : GroupWorld unit := mkGroupWorld (mkGroups ∅ 0) (mkQueue [] 0 1000) tt.

(** The tables after the first discovery, with the question open. *)
Definition acme_asked : GroupWorld unit := (run (discovery_pass plain_text "acme" "m365" acme_directory silent) acme_start).2.

Definition owner_says : Members := [("pattern", js_string "shared_s")].

Lemma owner_answer_is_erased_witness : exists row sum w1 w2,
  run (answer_decision plain_text "acme" 0 owner_says "rob") acme_asked = (inr (Some row), w1) /\
  pattern_at (gw_groups w1) (key_of plain_text "acme" "m365" info_group) = Some (Some shared_s) /\
  open_question "acme" shared_address_pattern "info@acme.nl" (gw_queue w1) = None /\
  run (discovery_pass plain_text "acme" "m365" acme_directory silent) w1 = (inr sum, w2) /\
  pattern_at (gw_groups w2) (key_of plain_text "acme" "m365" info_group) = Some None /\
  is_Some (open_question "acme" shared_address_pattern "info@acme.nl" (gw_queue w2)).
Proof.
  eapply (owner_answer_is_erased plain_text "acme" "m365" acme_directory silent acme_asked 0 owner_says "rob" shared_s info_group [info_group]).
  - split; [by vm_compute; repeat constructor; set_solver|by vm_compute; repeat constructor; lia|by vm_compute; repeat constructor|].
    intros t c s. etrans; [apply length_filter|]. by vm_compute.
  - by left.
  - done.
  - by repeat constructor.
  - by vm_compute.
  - done.
  - vm_compute; eauto.
  - done.
  - done.
Defined.

Lemma discovery_records_what_it_read_witness : exists sum w1,
  run (discovery_pass plain_text "acme" "m365" acme_directory silent) acme_start = (inr sum, w1) /\
  is_Some (open_question "acme" shared_address_pattern "info@acme.nl" (gw_queue w1)).
Proof.
  destruct (discovery_records_what_it_read plain_text "acme" "m365" acme_directory silent acme_start (listed_groups [info_group]) tt eq_refl)
    as (sum & w1 & Hrun & Hrows & _); [by apply NoDup_singleton|].
  exists sum, w1. split; [done|]. destruct (Hrows info_group ltac:(by left)) as (r & _ & _ & _ & _ & Hq). by apply Hq.
Defined.
