(* ===== verification/Schedules.v ===== *)
(** * When a mapping syncs
    ([packages/shared/src/cron-schedule.ts],
    [packages/orchestration/src/sync-due.ts],
    [packages/orchestration/src/enabled-domains.ts] and the tick of
    [apps/worker/src/jobs/managed-sync-tick.ts])

    What a schedule may say, the minute a mapping without one gets, and the tick
    that starts the passes that are due.  [croner] is a parameter: [nextRun] is
    its next firing after an instant, or the error it throws.  The code units of
    a string are given by a function.  The queue a pass is sent to is a step on
    an outside world. *)

From stdpp Require Import pretty.
From S2P Require Import Prelude Prog Concurrency Keys Ports DavCanonical Dav DavText MessageId ImapText.
From Stdlib Require Import Ascii.

Open Scope Z_scope.
#[local] Open Scope string_scope.

(** ** What a schedule may say *)

Definition NICKNAMES : list string := ["@hourly"; "@daily"; "@weekly"; "@monthly"; "@yearly"; "@annually"].

Record CronField := mkCronField { cf_name : string; cf_min : Z; cf_max : Z }.

Definition CRON_FIELDS : list CronField :=
  [mkCronField "minute" 0 59; mkCronField "hour" 0 23; mkCronField "day of month" 1 31; mkCronField "month" 1 12;
   mkCronField "day of week" 0 7].

(** [/^\d+$/], and the number the digits spell. *)
Fixpoint digits_value (acc : Z) (s : string) : option Z :=
  match s with
  | "" => Some acc
  | String a s' => match digit a with Some d => digits_value (10 * acc + Z.of_N d) s' | None => None end
  end.

Definition numeral (s : string) : option Z := if bool_decide (s = "") then None else digits_value 0 s.

(** [/^(\d+)(?:-(\d+))?$/] *)
Definition number_or_range (s : string) : option (Z * option Z) :=
  match split "-" s with
  | [lo] => (fun lo => (lo, None)) <$> numeral lo
  | [lo; hi] => match numeral lo, numeral hi with Some lo, Some hi => Some (lo, Some hi) | _, _ => None end
  | _ => None
  end.

Definition is_range (s : string) : bool := match number_or_range s with Some (_, Some _) => true | _ => false end.

Definition base_problem (part base : string) (field : CronField) : option string :=
  if bool_decide (base = "*") then None
  else match number_or_range base with
       | None => Some ("the " ++ cf_name field ++ " field ('" ++ part ++ "') is not a number, range, step or '*' — " ++
                       "month and weekday names are not supported here, use numbers")
       | Some (lo, hi) =>
           let hi := nullish hi lo in
           if ((lo <? cf_min field) || (cf_max field <? lo) || (hi <? cf_min field) || (cf_max field <? hi))%Z
           then Some ("the " ++ cf_name field ++ " field ('" ++ part ++ "') is out of range (" ++ pretty (cf_min field) ++ "-" ++ pretty (cf_max field) ++ ")")
           else if (hi <? lo)%Z
           then Some ("the " ++ cf_name field ++ " field ('" ++ part ++ "') has a backwards range (" ++ pretty lo ++ " > " ++ pretty hi ++ ")")
           else None
       end.

Definition rangeProblem (part : string) (field : CronField) : option string :=
  match split "/" part with
  | [base] => base_problem part base field
  | [base; step] =>
      if bool_decide (step = "") then
        Some ("the " ++ cf_name field ++ " field ('" ++ part ++ "') has a malformed step — use e.g. '*/5' or '1-10/2'")
      else
        match numeral step with
        | Some n =>
            if (n <? 1)%Z then Some ("the " ++ cf_name field ++ " field ('" ++ part ++ "') has a step that is not a positive number")
            else if negb (bool_decide (base = "*")) && negb (is_range base) then
              Some ("the " ++ cf_name field ++ " field ('" ++ part ++ "') steps from a single number, which the scheduler " ++
                    "does not accept — use '*/" ++ step ++ "' or a range like '" ++ base ++ "-" ++ pretty (cf_max field) ++ "/" ++ step ++ "'")
            else base_problem part base field
        | None => Some ("the " ++ cf_name field ++ " field ('" ++ part ++ "') has a step that is not a positive number")
        end
  | _ => Some ("the " ++ cf_name field ++ " field ('" ++ part ++ "') has a malformed step — use e.g. '*/5' or '1-10/2'")
  end.

(** The first problem of the parts of a field. *)
Fixpoint parts_problem (field : CronField) (text : string) (parts : list string) : option string :=
  match parts with
  | [] => None
  | part :: parts =>
      if bool_decide (part = "") then Some ("the " ++ cf_name field ++ " field ('" ++ text ++ "') has an empty list entry")
      else match rangeProblem part field with Some problem => Some problem | None => parts_problem field text parts end
  end.

Fixpoint fields_problem (fields : list CronField) (texts : list string) : option string :=
  match fields, texts with
  | field :: fields, text :: texts =>
      match parts_problem field text (split "," text) with Some problem => Some problem | None => fields_problem fields texts end
  | _, _ => None
  end.

(** [s.split(/\s+/)]; a run of spaces ends a piece. *)
Fixpoint split_spaces (fuel : nat) (piece s : string) : list string :=
  match fuel with
  | O => [piece]
  | S fuel =>
      match s with
      | "" => [piece]
      | String a s' =>
          match strip_any js_spaces s with
          | Some r => piece :: split_spaces fuel "" (strip_many (String.length r) js_spaces r)
          | None => split_spaces fuel (piece ++ String a "") s'
          end
      end
  end.

Definition describeCronScheduleProblem (expression : string) : option string :=
  let trimmed := trim expression in
  if bool_decide (trimmed = "") then Some "the schedule is empty"
  else if defined (strip_prefix "@" trimmed) then
    if bool_decide (trimmed ∈ NICKNAMES) then None
    else Some ("'" ++ trimmed ++ "' is not a known schedule shorthand — expected one of " ++ String.concat ", " NICKNAMES)
  else
    let fields := split_spaces (S (String.length trimmed)) "" trimmed in
    if bool_decide (length fields <> 5%nat) then
      Some ("a cron schedule has five fields — minute, hour, day of month, month, day of week — " ++
            "separated by spaces; this one has " ++ pretty (Z.of_nat (length fields)))
    else fields_problem CRON_FIELDS fields.

(** ** The minute of a mapping without a schedule *)

Definition DEFAULT_SYNC_SCHEDULE : string := "*/15 * * * *".

Definition DEFAULT_PERIOD_MINUTES : Z := 15.

(** JavaScript's 32-bit operations: [ToInt32], [x >>> 0], [x ^ y], [Math.imul]. *)
Definition to_int32 (x : Z) : Z := (x + 2 ^ 31) `mod` 2 ^ 32 - 2 ^ 31.

Definition to_uint32 (x : Z) : Z := x `mod` 2 ^ 32.

Definition js_xor (x y : Z) : Z := Z.lxor (to_int32 x) (to_int32 y).

Definition imul (x y : Z) : Z := to_int32 (to_int32 x * to_int32 y).

Definition hash_unit (hash unit : Z) : Z := to_uint32 (imul (js_xor hash unit) 0x01000193).

Definition hash_units (units : list Z) : Z := foldl hash_unit 0x811c9dc5 units.

Section schedule.
Context (charCodes : string -> list Z).

Definition offsetFor (mappingId : string) : Z := hash_units (charCodes mappingId) `mod` DEFAULT_PERIOD_MINUTES.

(** [for (let m = offset; m < 60; m += 15)]; sixty rounds are enough, as every
    round adds to [m]. *)
Fixpoint minutes_from (fuel : nat) (m : Z) : list Z :=
  match fuel with
  | O => []
  | S fuel => if (m <? 60)%Z then m :: minutes_from fuel (m + DEFAULT_PERIOD_MINUTES) else []
  end.

Definition schedule_at (offset : Z) : string := String.concat "," (pretty <$> minutes_from 60 offset) ++ " * * * *".

Definition defaultScheduleFor (mappingId : string) : string := schedule_at (offsetFor mappingId).

Context (nextRun : string -> instant -> string + option instant).

Definition isSyncDue (schedule : option string) (lastStartedAt : option instant) (now : instant) : string + bool :=
  match lastStartedAt with
  | None => inr true
  | Some last =>
      match nextRun (nullish schedule DEFAULT_SYNC_SCHEDULE) last with
      | inl e => inl e
      | inr next => inr (match next with Some t => (t <=? now)%Z | None => false end)
      end
  end.
End schedule.

(** ** One tick *)

Inductive SyncDomain := sd_email | sd_calendar | sd_contact | sd_file.

#[export] Instance SyncDomain_eq_dec : EqDecision SyncDomain.
Proof. solve_decision. Defined.

Record TickRow := mkTickRow {
  tr_id : string; tr_tenant_id : string; tr_schedule : option string; tr_last_started : option instant; tr_running : bool
}.

#[export] Instance TickRow_eq_dec : EqDecision TickRow.
Proof. solve_decision. Defined.

Record ScopeRow := mkScopeRow { sc_mapping_id : string; sc_tenant_id : string; sc_domain : SyncDomain }.

(** [new Map(pairs)] *)
Definition map_of_pairs {V} (pairs : list (string * V)) : list (string * V) :=
  foldl (fun m kv => js_map_set kv.1 kv.2 m) [] pairs.

(** What [enabledDomainsForMappings] makes of the rows of its query. *)
Definition add_scope (tenantOf : list (string * string)) (byMapping : list (string * list SyncDomain)) (row : ScopeRow) : list (string * list SyncDomain) :=
  if bool_decide (js_map_get (sc_mapping_id row) tenantOf <> Some (sc_tenant_id row)) then byMapping
  else let set := nullish (js_map_get (sc_mapping_id row) byMapping) [] in
       js_map_set (sc_mapping_id row) (if bool_decide (sc_domain row ∈ set) then set else (set ++ [sc_domain row])%list) byMapping.

Definition enabled_domains (mappings : list (string * string)) (rows : list ScopeRow) : list (string * list SyncDomain) :=
  foldl (add_scope (map_of_pairs mappings)) [] rows.

Record TickSummary := mkTickSummary {
  ts_active : nat; ts_triggered : Z; ts_notDue : Z; ts_skippedRunning : Z; ts_skippedNoDomains : Z; ts_failedToEnqueue : nat
}.

(** The variables the workers of the tick share. *)
Record TickWorld (Env : Type) := mkTick { tk_triggered : Z; tk_failures : list string; tk_outside : Env }.

Arguments mkTick {Env}.
Arguments tk_triggered {Env}.
Arguments tk_failures {Env}.
Arguments tk_outside {Env}.

#[export] Instance eta_TickWorld {Env} : Eta (TickWorld Env) := fun w => mkTick (tk_triggered w) (tk_failures w) (tk_outside w).

Definition ENQUEUE_CONCURRENCY : Z := 8.

Section tick.
Context (charCodes : string -> list Z) (nextRun : string -> instant -> string + option instant).

(** Whether a row that is not running is due; a schedule that cannot be read
    counts as the default. *)
Definition row_due (now : instant) (m : TickRow) : string + bool :=
  let own := isSyncDue nextRun (Some (nullish (tr_schedule m) (defaultScheduleFor charCodes (tr_id m)))) (tr_last_started m) now in
  match own with
  | inr due => inr due
  | inl _ => isSyncDue nextRun (Some (defaultScheduleFor charCodes (tr_id m))) (tr_last_started m) now
  end.

(** Phase 1: the rows that are due, and how many were left out for what. *)
Fixpoint decide_rows (now : instant) (rows : list TickRow) : string + (list TickRow * Z * Z) :=
  match rows with
  | [] => inr ([], 0, 0)
  | m :: rows =>
      if tr_running m then
        match decide_rows now rows with
        | inr (due, notDue, running) => inr (due, notDue, Z.succ running)
        | inl e => inl e
        end
      else
        match row_due now m with
        | inl e => inl e
        | inr d =>
            match decide_rows now rows with
            | inr (due, notDue, running) => inr (if d then (m :: due, notDue, running) else (due, Z.succ notDue, running))
            | inl e => inl e
            end
        end
  end.

(** Phase 2: the due rows with the domains their owner selected. *)
Definition with_domains (byMapping : list (string * list SyncDomain)) (due : list TickRow) : list (TickRow * list SyncDomain) :=
  omap (fun m => match nullish (js_map_get (tr_id m) byMapping) [] with [] => None | domains => Some (m, domains) end) due.

Context {Env : Type}.
#[local] Abbreviation W := (TickWorld Env).
Context (scopes : list string -> Env -> (string + list ScopeRow) * Env) (trigger : TickRow -> list SyncDomain -> Env -> (string + unit) * Env).

(** Phase 3: the worker that enqueues one pass. *)
Definition enqueue_one (item : TickRow * list SyncDomain) (_ : nat) : prog W string unit :=
  pcatch
    (plift tk_outside (fun e w => w <| tk_outside := e |>) (try_act (trigger item.1 item.2)) ;;;
     upd (fun w => w <| tk_triggered ::= Z.succ |>))
    (fun _ => upd (fun w => w <| tk_failures ::= fun l => (l ++ [tr_id item.1])%list |>)).

(** The scopes of the due rows; no query for none. *)
Definition read_scopes (due : list TickRow) (e : Env) : (string + list (string * list SyncDomain)) * Env :=
  match due with
  | [] => (inr [], e)
  | _ =>
      match scopes (tr_id <$> due) e with
      | (inl err, e) => (inl err, e)
      | (inr rows, e) => (inr (enabled_domains ((fun m => (tr_id m, tr_tenant_id m)) <$> due) rows), e)
      end
  end.

Definition tick_summary (rows : list TickRow) (due : list TickRow) (toEnqueue : list (TickRow * list SyncDomain)) (notDue running : Z) (w : W) : TickSummary :=
  mkTickSummary (length rows) (tk_triggered w) notDue running (Z.of_nat (length due) - Z.of_nat (length toEnqueue)) (length (tk_failures w)).

(** [sched] orders the turns of the runners; [None] when it stops early. *)
Definition sync_tick (sched : list nat) (now : instant) (rows : list TickRow) (e : Env) : option ((string + TickSummary) * Env) :=
  match decide_rows now rows with
  | inl err => Some (inl err, e)
  | inr (due, notDue, running) =>
      match read_scopes due e with
      | (inl err, e) => Some (inl err, e)
      | (inr byMapping, e) =>
          let toEnqueue := with_domains byMapping due in
          match mapWithConcurrency toEnqueue enqueue_one ENQUEUE_CONCURRENCY sched (mkTick 0 [] e) with
          | None => None
          | Some (inl err, w) => Some (inl err, tk_outside w)
          | Some (inr _, w) => Some (inr (tick_summary rows due toEnqueue notDue running w), tk_outside w)
          end
      end
  end.
End tick.

(** ** The default minute *)

Lemma to_int32_mod x : (to_int32 x) `mod` 2 ^ 32 = x `mod` 2 ^ 32.
Proof.
  unfold to_int32. rewrite Zminus_mod_idemp_l. f_equal. lia.
Qed.

Lemma lxor_mod a b n : 0 <= n -> (Z.lxor a b) `mod` 2 ^ n = Z.lxor (a `mod` 2 ^ n) (b `mod` 2 ^ n).
Proof.
  intros Hn. rewrite <- !Z.land_ones by done. apply Z.bits_inj'. intros i Hi.
  rewrite !Z.land_spec, !Z.lxor_spec, !Z.land_spec. by destruct (Z.testbit a i), (Z.testbit b i), (Z.testbit (Z.ones n) i).
Qed.

Lemma hash_unit_fnv h c : hash_unit h c = (Z.lxor h c * 16777619) `mod` 2 ^ 32.
Proof.
  unfold hash_unit, to_uint32, imul. rewrite to_int32_mod, Zmult_mod, !to_int32_mod, <- Zmult_mod.
  rewrite Zmult_mod. unfold js_xor. rewrite lxor_mod, !to_int32_mod, <- lxor_mod by done. by rewrite <- Zmult_mod.
Qed.

(** FNV-1a on unbounded integers, reduced at the end of every round. *)
Definition fnv1a (units : list Z) : Z := foldl (fun h c => (Z.lxor h c * 16777619) `mod` 2 ^ 32) 2166136261 units.

Lemma hash_units_fnv units : hash_units units = fnv1a units.
Proof.
  unfold hash_units, fnv1a. generalize 2166136261 as h. induction units as [|c units IH]; intros h; [done|].
  simpl. by rewrite hash_unit_fnv, IH.
Qed.

Definition minute_slots : list Z := seqZ 0 15.

Lemma slots_accepted : Forall (fun o => describeCronScheduleProblem (schedule_at o) = None) minute_slots.
Proof.
  assert (Hall : List.map (fun o => describeCronScheduleProblem (schedule_at o)) minute_slots = replicate 15 None) by by vm_compute.
  apply Forall_forall. intros o Ho. apply (list_elem_of_fmap_2 (fun o => describeCronScheduleProblem (schedule_at o))) in Ho.
  change (describeCronScheduleProblem (schedule_at o) ∈ List.map (fun o => describeCronScheduleProblem (schedule_at o)) minute_slots) in Ho.
  rewrite Hall in Ho. by apply elem_of_replicate in Ho as [-> _].
Qed.

Section default_minute.
Context (charCodes : string -> list Z).

Lemma offset_bounds id : 0 <= offsetFor charCodes id < 15.
Proof. unfold offsetFor, DEFAULT_PERIOD_MINUTES. by apply Z.mod_pos_bound. Qed.

Lemma default_accepted id : describeCronScheduleProblem (defaultScheduleFor charCodes id) = None.
Proof.
  unfold defaultScheduleFor. pose proof slots_accepted as Hall. rewrite Forall_forall in Hall. apply Hall.
  apply elem_of_seqZ. apply offset_bounds.
Qed.

Lemma four_minutes o : 0 <= o < 15 -> minutes_from 60 o = [o; o + 15; o + 30; o + 45].
Proof.
  intros Ho. assert (Hin : o ∈ minute_slots) by (apply elem_of_seqZ; lia). clear Ho. revert o Hin.
  assert (Hall : Forall (fun o => minutes_from 60 o = [o; o + 15; o + 30; o + 45]) minute_slots)
    by (apply (bool_decide_unpack _); by vm_compute).
  intros o Hin. by apply (proj1 (Forall_forall _ _) Hall).
Qed.

(** C22: the schedule of a mapping without one.  The 32-bit operations of
    JavaScript, signed and unsigned, compute FNV-1a on the integers modulo 2^32
    whatever the code units of the id; the offset is in [0, 15); the schedule
    lists exactly the four minutes of every hour that are the offset and a
    quarter of an hour apart; and it is one the validator accepts. *)
Theorem default_schedule_is_fnv id :
  let o := fnv1a (charCodes id) `mod` 15 in
  offsetFor charCodes id = o /\ 0 <= o < 15 /\
  defaultScheduleFor charCodes id =
    pretty o ++ "," ++ pretty (o + 15) ++ "," ++ pretty (o + 30) ++ "," ++ pretty (o + 45) ++ " * * * *" /\
  describeCronScheduleProblem (defaultScheduleFor charCodes id) = None.
Proof.
  intros o. assert (Ho : offsetFor charCodes id = o) by (unfold offsetFor; by rewrite hash_units_fnv).
  pose proof (offset_bounds id) as Hb. split; [done|]. split; [by rewrite <- Ho|]. split; [|apply default_accepted].
  unfold defaultScheduleFor, schedule_at. rewrite four_minutes by done. rewrite Ho. simpl.
  by rewrite !string_app_assoc.
Qed.
End default_minute.

(** ** What a tick starts *)

Section domains.
Implicit Types rows : list ScopeRow.

Definition selected (tenantOf : list (string * string)) (rows : list ScopeRow) (id : string) (d : SyncDomain) : Prop :=
  exists row, row ∈ rows /\ sc_mapping_id row = id /\ js_map_get id tenantOf = Some (sc_tenant_id row) /\ sc_domain row = d.

Lemma add_scope_spec tenantOf m row id d :
  d ∈ nullish (js_map_get id (add_scope tenantOf m row)) [] <->
  d ∈ nullish (js_map_get id m) [] \/ selected tenantOf [row] id d.
Proof.
  unfold add_scope, selected. case_bool_decide as Ht.
  - split; [by left|]. intros [?|(row' & ->%list_elem_of_singleton & <- & Hr & _)]; [done|done].
  - assert (Hten : js_map_get (sc_mapping_id row) tenantOf = Some (sc_tenant_id row)).
    { destruct (decide (js_map_get (sc_mapping_id row) tenantOf = Some (sc_tenant_id row))); [done|]. by destruct Ht. }
    destruct (decide (sc_mapping_id row = id)) as [<-|Hne].
    + rewrite js_map_get_set_eq. simpl. case_bool_decide as Hin.
      * split; [by left|]. intros [?|(row' & ->%list_elem_of_singleton & _ & _ & <-)]; done.
      * rewrite elem_of_app, list_elem_of_singleton. split.
        -- intros [?| ->]; [by left|right]. exists row. by rewrite list_elem_of_singleton.
        -- intros [?|(row' & ->%list_elem_of_singleton & _ & _ & <-)]; [by left|by right].
    + rewrite js_map_get_set_ne by done. split; [by left|]. by intros [?|(row' & ->%list_elem_of_singleton & ? & _)].
Qed.

Lemma enabled_domains_spec mappings rows id d :
  d ∈ nullish (js_map_get id (enabled_domains mappings rows)) [] <-> selected (map_of_pairs mappings) rows id d.
Proof.
  unfold enabled_domains. set (tenantOf := map_of_pairs mappings).
  assert (Hgen : forall m, d ∈ nullish (js_map_get id (foldl (add_scope tenantOf) m rows)) [] <->
                           d ∈ nullish (js_map_get id m) [] \/ selected tenantOf rows id d).
  { induction rows as [|row rows IH]; intros m; simpl.
    - split; [by left|]. by intros [?|(row & []%not_elem_of_nil & _)].
    - rewrite IH, add_scope_spec. unfold selected. setoid_rewrite elem_of_cons. setoid_rewrite elem_of_nil. naive_solver. }
  rewrite Hgen. simpl. rewrite elem_of_nil. naive_solver.
Qed.

(** Each mapping has a set of domains. *)
Lemma enabled_domains_NoDup mappings rows id : NoDup (nullish (js_map_get id (enabled_domains mappings rows)) []).
Proof.
  unfold enabled_domains. set (tenantOf := map_of_pairs mappings).
  assert (Hgen : forall m, (forall id, NoDup (nullish (js_map_get id m) [])) ->
                 forall id, NoDup (nullish (js_map_get id (foldl (add_scope tenantOf) m rows)) [])).
  { induction rows as [|row rows IH]; intros m Hm; simpl; [done|]. apply IH. clear id. intros id. unfold add_scope.
    case_bool_decide; [done|]. destruct (decide (sc_mapping_id row = id)) as [<-|Hne]; [|by rewrite js_map_get_set_ne].
    rewrite js_map_get_set_eq. simpl. case_bool_decide as Hin; [done|].
    apply NoDup_app. split; [done|]. split; [|apply NoDup_singleton]. by intros d Hd ->%list_elem_of_singleton. }
  apply Hgen. intros id'. constructor.
Qed.

Lemma map_of_pairs_get {A} (pairs : list (string * A)) k v :
  NoDup pairs.*1 -> (k, v) ∈ pairs -> js_map_get k (map_of_pairs pairs) = Some v.
Proof.
  unfold map_of_pairs. intros Hnd Hin.
  assert (Hgen : forall m, js_map_get k (foldl (fun m kv => js_map_set kv.1 kv.2 m) m pairs) = Some v); [|done].
  induction pairs as [|[k' v'] pairs IH]; intros m; [by apply not_elem_of_nil in Hin|]. simpl in *.
  apply NoDup_cons in Hnd as [Hk Hnd]. apply elem_of_cons in Hin as [[= <- <-]|Hin]; [|by apply IH].
  clear IH. assert (Hkeep : forall m, js_map_get k (foldl (fun m kv => js_map_set kv.1 kv.2 m) m pairs) = js_map_get k m).
  { clear Hnd m. induction pairs as [|[k' v'] pairs IH]; intros m; [done|]. simpl in *. apply not_elem_of_cons in Hk as [Hne Hk].
    rewrite IH by done. by apply js_map_get_set_ne. }
  rewrite Hkeep. apply js_map_get_set_eq.
Qed.
End domains.

Section tick_spec.
Context (charCodes : string -> list Z) (nextRun : string -> instant -> string + option instant).
(** croner parses what the validator accepts ([cron-schedule-parity.unit.test.ts]). *)
Context (Hcroner : forall s t, describeCronScheduleProblem s = None -> exists next, nextRun s t = inr next).

Definition is_due (now : instant) (m : TickRow) : Prop := tr_running m = false /\ row_due charCodes nextRun now m = inr true.

#[local] Instance is_due_dec now m : Decision (is_due now m).
Proof.
  unfold is_due. destruct (tr_running m); [right; naive_solver|].
  destruct (row_due charCodes nextRun now m) as [e|[]]; [right; naive_solver|left; done|right; naive_solver].
Defined.

Lemma row_due_answers now m : exists d, row_due charCodes nextRun now m = inr d.
Proof using Hcroner.
  unfold row_due. destruct (isSyncDue nextRun _ _ now) as [e|d]; [|by eexists]. unfold isSyncDue.
  destruct (tr_last_started m) as [t|]; [|by eexists]. simpl.
  destruct (Hcroner _ t (default_accepted charCodes (tr_id m))) as [next ->]. by eexists.
Qed.

Definition waits (now : instant) (m : TickRow) : Prop := tr_running m = false /\ ~ is_due now m.

#[local] Instance waits_dec now m : Decision (waits now m).
Proof. unfold waits. apply _. Defined.

Lemma decide_rows_spec now rows :
  decide_rows charCodes nextRun now rows =
  inr (base.filter (is_due now) rows, Z.of_nat (length (base.filter (waits now) rows)),
       Z.of_nat (length (base.filter (fun m => tr_running m = true) rows))).
Proof using Hcroner.
  induction rows as [|m rows Hrec]; [done|]. simpl decide_rows. rewrite !filter_cons, Hrec.
  destruct (tr_running m) eqn:Hrun.
  - rewrite decide_False by (intros [? _]; congruence). rewrite decide_False by (intros [? _]; congruence).
    rewrite decide_True by done. simpl length. do 2 f_equal. lia.
  - destruct (row_due_answers now m) as [d Hd]. rewrite Hd. rewrite (decide_False (P := false = true)) by done. destruct d.
    + assert (Hdue : is_due now m) by done. rewrite decide_True by done. rewrite decide_False by (by intros [_ ?]). done.
    + assert (Hdue : ~ is_due now m) by (intros [_ ?]; congruence). rewrite decide_False by done.
      rewrite decide_True by done. simpl length. do 2 f_equal. f_equal. lia.
Qed.

Lemma with_domains_spec byMapping due m ds :
  (m, ds) ∈ with_domains byMapping due <-> m ∈ due /\ nullish (js_map_get (tr_id m) byMapping) [] = ds /\ ds <> [].
Proof.
  unfold with_domains. rewrite list_elem_of_omap. split.
  - intros (m' & Hm' & Hd). destruct (nullish (js_map_get (tr_id m') byMapping) []) eqn:Hget; simplify_eq. by rewrite Hget.
  - intros (Hm & Hget & Hne). exists m. split; [done|]. rewrite Hget. by destruct ds.
Qed.

Context {Env : Type} (scopes : list string -> Env -> (string + list ScopeRow) * Env)
        (trigger : TickRow -> list SyncDomain -> Env -> (string + unit) * Env).
(** The calls the platform was sent, in its own log: for which row, with which
    domains, and whether it took them. *)
Definition Call : Type := TickRow * list SyncDomain * bool.
Definition taken (answer : string + unit) : bool := match answer with inr _ => true | inl _ => false end.
Context (seen : Env -> list Call).
Context (Hlogged : forall m ds e, seen (trigger m ds e).2 = (seen e ++ [(m, ds, taken (trigger m ds e).1)])%list).
#[local] Abbreviation W := (TickWorld Env).
#[local] Abbreviation enqueue := (enqueue_one trigger).

Section enqueueing.
Context (items : list (TickRow * list SyncDomain)).

(** The log only grows. *)
Definition log_grows (w w' : W) : Prop := exists calls, seen (tk_outside w') = (seen (tk_outside w) ++ calls)%list.

#[local] Instance log_grows_preorder : PreOrder log_grows.
Proof.
  split; [intros w; exists []; by rewrite app_nil_r|]. intros w1 w2 w3 [l1 H1] [l2 H2].
  exists (l1 ++ l2)%list. by rewrite H2, H1, <- app_assoc.
Qed.

Lemma enqueue_rg i item w : rg log_grows log_grows (enqueue item i) (fun _ _ => True) (fun _ _ => False) w.
Proof using Hlogged.
  unfold enqueue_one. simpl. intros w1 _. pose proof (Hlogged item.1 item.2 (tk_outside w1)) as Hlog.
  destruct (trigger item.1 item.2 (tk_outside w1)) as [res e]. simpl in Hlog. split; [by eexists|].
  destruct res as [err|[]]; simpl; intros w2 _; (split; [exists []; by rewrite app_nil_r|done]).
Qed.

(** What one call adds to a quantity of the world. *)
Lemma enqueue_owes (total : W -> Z) i item debt :
  (forall w w2, let r := trigger item.1 item.2 (tk_outside w) in
     total (w <| tk_outside := r.2 |>) - total w +
     match r.1 with
     | inr _ => total (w2 <| tk_triggered ::= Z.succ |>) - total w2
     | inl _ => total (w2 <| tk_failures ::= fun l => (l ++ [tr_id item.1])%list |>) - total w2
     end = debt) -> owes total (enqueue item i) debt.
Proof using.
  intros Hd. unfold enqueue_one. simpl. intros w. specialize (Hd w).
  destruct (trigger item.1 item.2 (tk_outside w)) as [res e]. cbn [fst snd] in *.
  destruct res as [err|[]]; simpl; intros w2; specialize (Hd w2); simpl in *; lia.
Qed.

Definition asked_for (call : TickRow * list SyncDomain) (w : W) : Z :=
  Z.of_nat (count_occ (decide_rel (=)) (seen (tk_outside w)).*1 call).

Definition answers (b : bool) (calls : list Call) : Z := zsum (fun c : Call => if Bool.eqb c.2 b then 1 else 0) calls.

Lemma answers_app b l l' : answers b (l ++ l') = answers b l + answers b l'.
Proof using. unfold answers. induction l as [|c l IH]; [done|]. unfold zsum in *. simpl. rewrite IH. lia. Qed.

Lemma share_count (x : TickRow * list SyncDomain) l :
  zsum (fun item => if decide (item = x) then 1 else 0) l = Z.of_nat (count_occ (decide_rel (=)) l x).
Proof using.
  induction l as [|y l IH]; [done|]. change (zsum ?f (y :: l)) with (f y + zsum f l). rewrite IH. simpl.
  destruct (decide_rel (=) y x), (decide (y = x)); try done; lia.
Qed.

Lemma asked_for_owes x i item : owes (asked_for x) (enqueue item i) (if decide (item = x) then 1 else 0).
Proof using Hlogged.
  apply enqueue_owes. intros w w2 r. unfold asked_for. simpl. unfold r. rewrite Hlogged, fmap_app, count_occ_app. simpl.
  rewrite <- surjective_pairing. destruct (decide_rel (=) item x), (decide (item = x)); try done; destruct (trigger _ _ _).1; lia.
Qed.

Lemma triggered_owes i item : owes (fun w : W => tk_triggered w - answers true (seen (tk_outside w))) (enqueue item i) 0.
Proof using Hlogged.
  apply enqueue_owes. intros w w2 r. simpl. unfold r. rewrite Hlogged, answers_app.
  destruct (trigger _ _ _).1; unfold answers, zsum; simpl; lia.
Qed.

Lemma failures_owes i item :
  owes (fun w : W => Z.of_nat (length (tk_failures w)) - answers false (seen (tk_outside w))) (enqueue item i) 0.
Proof using Hlogged.
  apply enqueue_owes. intros w w2 r. simpl. unfold r. rewrite Hlogged, answers_app, length_app.
  destruct (trigger _ _ _).1; unfold answers, zsum; simpl; lia.
Qed.

Lemma no_share {A} (l : list A) : zsum (fun _ => 0) l = 0.
Proof using. induction l; [done|]. unfold zsum in *. simpl. lia. Qed.

(** Every item is handed over exactly once, and counted by its answer. *)
Lemma enqueue_all sched e r w' :
  mapWithConcurrency items enqueue ENQUEUE_CONCURRENCY sched (mkTick 0 [] e) = Some (r, w') ->
  exists calls, r = inr tt /\ seen (tk_outside w') = (seen e ++ calls)%list /\ calls.*1 ≡ₚ items /\
    tk_triggered w' = answers true calls /\ Z.of_nat (length (tk_failures w')) = answers false calls.
Proof using Hlogged.
  intros Hrun. destruct (mapWithConcurrency_rg items enqueue log_grows log_grows (fun _ => True)
    (fun _ _ => True) (fun _ _ => False)
    ltac:(done) ltac:(done) ltac:(intros i item w0 Hi _; eapply rg_mono; [by apply enqueue_rg|done|done])
    _ _ _ _ _ I Hrun) as ([calls Hseen] & _ & Hr).
  destruct r as [err|[]]; [contradiction|]. exists calls. simpl in Hseen. do 2 (split; [done|]). split.
  - apply (proj2 (Permutation_count_occ (decide_rel (=)) _ _)). intros x.
    pose proof (mapWithConcurrency_accounts items enqueue (asked_for x) _ (fun i item _ => asked_for_owes x i item) _ _ _ _ _ Hrun) as Hx.
    rewrite share_count in Hx. unfold asked_for in Hx. simpl in Hx. rewrite Hseen, fmap_app, count_occ_app in Hx. lia.
  - pose proof (mapWithConcurrency_accounts items enqueue _ (fun _ => 0) (fun i item _ => triggered_owes i item) _ _ _ _ _ Hrun) as Ht.
    pose proof (mapWithConcurrency_accounts items enqueue _ (fun _ => 0) (fun i item _ => failures_owes i item) _ _ _ _ _ Hrun) as Hf.
    rewrite no_share in Ht, Hf. simpl in Ht, Hf. rewrite Hseen, answers_app in Ht, Hf. lia.
Qed.
End enqueueing.

(** The rows a tick has to start: due, and with a domain their owner selected. *)
Definition to_start (now : instant) (srows : list ScopeRow) (rows : list TickRow) (x : string) : Prop :=
  exists m, m ∈ rows /\ tr_id m = x /\ is_due now m /\
    exists srow, srow ∈ srows /\ sc_mapping_id srow = x /\ sc_tenant_id srow = tr_tenant_id m.

(** What the owner selected for a row, under its own tenant. *)
Definition selected_for (srows : list ScopeRow) (m : TickRow) (d : SyncDomain) : Prop :=
  exists srow, srow ∈ srows /\ sc_mapping_id srow = tr_id m /\ sc_tenant_id srow = tr_tenant_id m /\ sc_domain srow = d.

Definition tick_items (now : instant) (srows : list ScopeRow) (rows : list TickRow) : list (TickRow * list SyncDomain) :=
  let due := base.filter (is_due now) rows in
  with_domains (enabled_domains ((fun m => (tr_id m, tr_tenant_id m)) <$> due) srows) due.

Lemma tick_items_spec now srows rows m ds : NoDup (tr_id <$> rows) ->
  (m, ds) ∈ tick_items now srows rows -> m ∈ rows /\ is_due now m /\ ds <> [] /\ NoDup ds /\
                                         forall d, d ∈ ds <-> selected_for srows m d.
Proof using.
  intros Hnd (Hm & Hget & Hne)%with_domains_spec. apply list_elem_of_filter in Hm as Hdue. destruct Hdue as [Hd Hin].
  do 3 (split; [done|]). subst ds. split; [apply enabled_domains_NoDup|]. intros d. rewrite enabled_domains_spec.
  unfold selected, selected_for. rewrite (map_of_pairs_get _ _ (tr_tenant_id m)).
  - setoid_rewrite (inj_iff Some). naive_solver.
  - rewrite <- list_fmap_compose. change (NoDup (tr_id <$> base.filter (is_due now) rows)).
    eapply sublist_NoDup; [apply Hnd|]. apply fmap_sublist, sublist_filter.
  - by apply (list_elem_of_fmap_2 (fun m => (tr_id m, tr_tenant_id m))).
Qed.

Lemma tick_items_ids now srows rows : NoDup (tr_id <$> rows) -> NoDup (tr_id <$> (tick_items now srows rows).*1).
Proof using.
  intros Hnd. unfold tick_items. set (by_ := enabled_domains _ srows). clearbody by_.
  assert (Hd : NoDup (tr_id <$> base.filter (is_due now) rows)).
  { eapply sublist_NoDup; [apply Hnd|]. apply fmap_sublist, sublist_filter. }
  revert Hd. generalize (base.filter (is_due now) rows). intros due Hd. eapply sublist_NoDup; [exact Hd|].
  apply fmap_sublist. clear Hd. induction due as [|m due IH]; [done|]. unfold with_domains in *. simpl.
  destruct (nullish _ _); simpl; [by apply sublist_cons|by apply sublist_skip].
Qed.

Lemma tick_items_start now srows rows x : NoDup (tr_id <$> rows) ->
  x ∈ (tr_id <$> (tick_items now srows rows).*1) <-> to_start now srows rows x.
Proof using.
  intros Hnd. rewrite <- list_fmap_compose, list_elem_of_fmap. split.
  - intros ([m ds] & -> & Hin). destruct (tick_items_spec _ _ _ _ _ Hnd Hin) as (Hm & Hd & Hne & _ & Hsel).
    destruct ds as [|d ds]; [done|]. destruct (proj1 (Hsel d) ltac:(by left)) as (srow & Hs & Hid & Ht & _).
    exists m. do 3 (split; [done|]). by exists srow.
  - intros (m & Hm & <- & Hd & srow & Hs & Hid & Ht).
    assert (Hmd : m ∈ base.filter (is_due now) rows) by by apply list_elem_of_filter.
    eexists (m, _). split; [done|]. apply with_domains_spec. split; [exact Hmd|]. split; [done|]. intros Hno.
    apply (not_elem_of_nil (sc_domain srow)). rewrite <- Hno. apply enabled_domains_spec. exists srow. do 2 (split; [done|]).
    split; [|done]. rewrite (map_of_pairs_get _ _ (tr_tenant_id m)); [congruence| |].
    + rewrite <- list_fmap_compose. change (NoDup (tr_id <$> base.filter (is_due now) rows)).
      eapply sublist_NoDup; [apply Hnd|]. apply fmap_sublist, sublist_filter.
    + by apply (list_elem_of_fmap_2 (fun m => (tr_id m, tr_tenant_id m))).
Qed.

Context (srows : list ScopeRow) (Hscopes : forall ids e, (scopes ids e).1 = inr srows /\ seen (scopes ids e).2 = seen e).

Lemma read_scopes_answers due e : exists e1,
  read_scopes scopes due e = (inr (enabled_domains ((fun m => (tr_id m, tr_tenant_id m)) <$> due) (match due with [] => [] | _ => srows end)), e1) /\
  seen e1 = seen e.
Proof using Hscopes.
  unfold read_scopes. destruct due as [|m due]; [by exists e|]. destruct (Hscopes (tr_id <$> m :: due) e) as [Hrows Hseen].
  destruct (scopes (tr_id <$> m :: due) e) as [r e1]. simpl in Hrows, Hseen. subst r. by exists e1.
Qed.

Lemma items_read now rows :
  let due := base.filter (is_due now) rows in
  with_domains (enabled_domains ((fun m => (tr_id m, tr_tenant_id m)) <$> due) (match due with [] => [] | _ => srows end)) due
  = tick_items now srows rows.
Proof using. unfold tick_items. by destruct (base.filter (is_due now) rows). Qed.

(** C15: a tick starts what is due and nothing else, once.  With a scheduler that
    parses what the validator accepts, distinct ids and a query that answers, a
    tick answers under every order of its workers, and every order can be
    brought to an end.  The calls the platform is sent are one for each active
    row that is not running, is due on its own schedule (or on the default one,
    where its own cannot be read) and has a domain selected under its own
    tenant, with exactly those domains, whatever became of the others' calls;
    and the summary counts the rows, the calls the platform took and those it
    refused, the due rows that selected nothing, the running rows, and the rows
    that are neither running nor due. *)
Theorem tick_starts_what_is_due now rows e : NoDup (tr_id <$> rows) ->
  (forall sched, exists sched', is_Some (sync_tick charCodes nextRun scopes trigger (sched ++ sched') now rows e)) /\
  (forall sched r e', sync_tick charCodes nextRun scopes trigger sched now rows e = Some (r, e') ->
     exists calls, seen e' = (seen e ++ calls)%list /\
       NoDup (tr_id <$> calls.*1.*1) /\ (forall x, x ∈ (tr_id <$> calls.*1.*1) <-> to_start now srows rows x) /\
       (forall m ds, (m, ds) ∈ calls.*1 -> m ∈ rows /\ NoDup ds /\ forall d, d ∈ ds <-> selected_for srows m d) /\
       exists sum, r = inr sum /\ ts_active sum = length rows /\
         ts_triggered sum = answers true calls /\ Z.of_nat (ts_failedToEnqueue sum) = answers false calls /\
         ts_skippedNoDomains sum = Z.of_nat (length (base.filter (is_due now) rows)) - Z.of_nat (length calls) /\
         ts_skippedRunning sum = Z.of_nat (length (base.filter (fun m => tr_running m = true) rows)) /\
         ts_notDue sum = Z.of_nat (length (base.filter (waits now) rows))).
Proof using Hcroner Hlogged Hscopes.
  intros Hnd. unfold sync_tick. rewrite decide_rows_spec.
  destruct (read_scopes_answers (base.filter (is_due now) rows) e) as (e1 & -> & Hseen). rewrite items_read.
  set (items := tick_items now srows rows). split.
  - intros sched. destruct (mapWithConcurrency_terminates items enqueue ENQUEUE_CONCURRENCY (mkTick 0 [] e1)) as [_ Hend].
    destruct (Hend sched) as (sched' & [[err|u] w] & Hw); exists sched'; rewrite Hw; by eexists.
  - intros sched r e'. destruct (mapWithConcurrency items enqueue ENQUEUE_CONCURRENCY sched (mkTick 0 [] e1)) as [[o w]|] eqn:Hrun; [|done].
    destruct (enqueue_all items sched _ _ _ Hrun) as (calls & -> & Hall & Hperm & Ht & Hf). intros [= <- <-].
    exists calls. split; [congruence|]. split; [rewrite Hperm; by apply tick_items_ids|].
    split; [intros x; rewrite Hperm; by apply tick_items_start|]. split.
    { intros m ds. rewrite Hperm. intros Hin. destruct (tick_items_spec _ _ _ _ _ Hnd Hin) as (? & _ & _ & ? & ?). done. }
    assert (Hlen : length calls = length items) by (rewrite <- Hperm; by rewrite length_fmap).
    eexists. split; [done|]. simpl. rewrite Hlen. done.
Qed.
End tick_spec.

(** ** Samples *)

(** A scheduler that fires a quarter of an hour later, for what it can parse. *)
Definition quarter_later (s : string) (t : instant) : string + option instant :=
  match describeCronScheduleProblem s with None => inr (Some (t + 900000)) | Some problem => inl problem end.

Definition ascii_codes (s : string) : list Z := Z.of_N ∘ Ascii.N_of_ascii <$> String.list_ascii_of_string s.

(** One is running, one has a schedule nobody can read, one selected nothing. *)
Definition tick_rows : list TickRow :=
  [mkTickRow "a" "t1" None None true; mkTickRow "b" "t1" (Some "every day") (Some 0) false; mkTickRow "c" "t1" None None false].

Definition tick_scopes : list ScopeRow := [mkScopeRow "b" "t1" sd_email; mkScopeRow "c" "t2" sd_email].

(** A platform that keeps the calls it is sent, and takes them all. *)
Definition platform (m : TickRow) (ds : list SyncDomain) (log : list Call) : (string + unit) * list Call :=
  (inr tt, (log ++ [(m, ds, true)])%list).

Lemma quarter_later_parses s t : describeCronScheduleProblem s = None -> exists next, quarter_later s t = inr next.
Proof. unfold quarter_later. intros ->. by eexists. Qed.

Lemma tick_starts_what_is_due_witness : exists sum calls,
  sync_tick ascii_codes quarter_later (fun _ log => (inr tick_scopes, log)) platform [0; 0; 0; 0; 0; 0]%nat 1000000 tick_rows [] = Some (inr sum, calls) /\
  ts_active sum = 3%nat /\ ts_skippedNoDomains sum = 1 /\
  (forall x, x ∈ (tr_id <$> calls.*1.*1) <-> to_start ascii_codes quarter_later 1000000 tick_scopes tick_rows x).
Proof.
  assert (Hnd : NoDup (tr_id <$> tick_rows)).
  { apply (bool_decide_unpack _). by vm_compute. }
  destruct (tick_starts_what_is_due ascii_codes quarter_later quarter_later_parses (fun _ log => (inr tick_scopes, log)) platform id
              (fun _ _ _ => eq_refl) tick_scopes (fun _ _ => conj eq_refl eq_refl) 1000000 tick_rows [] Hnd) as [_ Htick].
  destruct (Htick [0; 0; 0; 0; 0; 0]%nat _ [(mkTickRow "b" "t1" (Some "every day") (Some 0) false, [sd_email], true)]
              ltac:(vm_compute; reflexivity)) as (calls & Hcalls & _ & Hids & _ & sum & Hsum & Hact & _ & _ & Hno & _).
  eexists _, _. split; [vm_compute; reflexivity|]. split; [done|]. split; [done|].
  unfold id in Hcalls. simpl app in Hcalls. rewrite Hcalls. exact Hids.
Defined.
