(* ===== verification/Lifecycle.v ===== *)
(** * Starting, finishing and erasing
    ([packages/shared/src/lifecycle.ts], [packages/shared/src/quiesce.ts],
    [packages/scheduler/src/single-flight.ts])

    What the buttons that start and finish a migration decide, when an account
    may be erased while runs may still be in flight, and the guard that keeps
    two passes of one mapping apart.  Instants are milliseconds. *)

From stdpp Require Import pretty.
From S2P Require Import Prelude Ports.

Open Scope Z_scope.
#[local] Open Scope string_scope.

(** ** Start and finish *)

Inductive StartTransition := activate (yes : bool) | start_conflict (why : string).

Definition startTransition (status : string) : StartTransition :=
  if bool_decide (status = "cutover") || bool_decide (status = "done")
  then start_conflict ("Cannot start a mapping in '" ++ status ++ "' state")
  else activate (negb (bool_decide (status = "active"))).

Inductive FinishRefuseCode := refuse_paused | unresolved_failures.

Inductive FinishTransition :=
| finish
| already_done
| finish_refused (refuse hint : string) (code : FinishRefuseCode).

Definition finishTransition (status : string) (unresolvedFailures : Z) (force : bool) : FinishTransition :=
  if bool_decide (status = "done") then already_done
  else if bool_decide (status = "paused") then
    finish_refused "Cannot finish a migration that was never started (it is 'paused')"
      "Start it first — or remove the migration if it should not run at all." refuse_paused
  else if (0 <? unresolvedFailures)%Z && negb force then
    finish_refused (pretty unresolvedFailures ++ " item(s) could not be migrated and are awaiting a decision")
      ("Resolve them first — retry each item, or accept it to leave it behind; the failure " ++
       "queue lists every one. Finishing anyway leaves them unmigrated, knowingly.") unresolved_failures
  else finish.

(** ** Erasing an account *)

Inductive OrchestratorVerdict := live | finished | unknown_verdict.

#[export] Instance OrchestratorVerdict_eq_dec : EqDecision OrchestratorVerdict.
Proof. solve_decision. Defined.

Inductive QueuedStatus := queued | running.

Definition status_text (s : QueuedStatus) : string := match s with queued => "queued" | running => "running" end.

Record QuiescingRun := mkQuiescing {
  qr_id : string; qr_orchestratorRef : option string; qr_status : QueuedStatus; qr_since : instant; qr_verdict : OrchestratorVerdict
}.

Record StaleRun := mkStale { st_id : string; st_reason : string }.

Record QuiescePlan := mkQuiescePlan {
  landStale : list StaleRun; cancel : list string; mayPurge : bool; blockedBy : list string; needsAttention : bool
}.

Definition DEFAULT_STALE_AFTER_MS : Z := 24 * 60 * 60 * 1000.

(** What becomes of one run. *)
Inductive RunFate := land (run : StaleRun) | cancel_live (line : string) | wait_unknown (line : string) (attention : bool).

Definition run_fate (now : instant) (staleAfterMs : Z) (run : QuiescingRun) : RunFate :=
  let ageMs := now - qr_since run in
  match qr_verdict run with
  | finished =>
      land (mkStale (qr_id run) ("landed by the erasure quiesce: the row still said " ++ status_text (qr_status run) ++
                                 ", and the orchestrator reports this run is no longer executing."))
  | live => cancel_live (qr_id run ++ ": still executing; cancellation requested")
  | unknown_verdict =>
      match truthy (qr_orchestratorRef run) with
      | None =>
          if (staleAfterMs <=? ageMs)%Z then
            land (mkStale (qr_id run) ("landed by the erasure quiesce: no orchestrator handle was recorded and the row has " ++
                                       "said " ++ status_text (qr_status run) ++ " for over " ++ pretty (staleAfterMs / 3600000) ++ "h, which no live pass does."))
          else wait_unknown (qr_id run ++ ": no orchestrator handle, and only " ++ pretty (ageMs / 60000) ++ "m old") false
      | Some ref => wait_unknown (qr_id run ++ ": the orchestrator could not be asked about " ++ ref) true
      end
  end.

Definition add_run (now : instant) (staleAfterMs : Z) (plan : QuiescePlan) (run : QuiescingRun) : QuiescePlan :=
  match run_fate now staleAfterMs run with
  | land stale => mkQuiescePlan (landStale plan ++ [stale]) (cancel plan) (mayPurge plan) (blockedBy plan) (needsAttention plan)
  | cancel_live line => mkQuiescePlan (landStale plan) (cancel plan ++ [qr_id run]) false (blockedBy plan ++ [line]) (needsAttention plan)
  | wait_unknown line attention =>
      mkQuiescePlan (landStale plan) (cancel plan) false (blockedBy plan ++ [line]) (needsAttention plan || attention)
  end%list.

Definition quiescePlan (runs : list QuiescingRun) (now : instant) (staleAfterMs : option Z) : QuiescePlan :=
  foldl (add_run now (nullish staleAfterMs DEFAULT_STALE_AFTER_MS)) (mkQuiescePlan [] [] true [] false) runs.

(** A run nothing can be behind any more. *)
Definition at_rest (now : instant) (staleAfterMs : Z) (run : QuiescingRun) : Prop :=
  qr_verdict run = finished \/
  (qr_verdict run = unknown_verdict /\ truthy (qr_orchestratorRef run) = None /\ staleAfterMs <= now - qr_since run).

Definition lands (now : instant) (staleAfterMs : Z) (run : QuiescingRun) : bool :=
  match run_fate now staleAfterMs run with land _ => true | _ => false end.

Lemma lands_at_rest now stale run : lands now stale run = true <-> at_rest now stale run.
Proof.
  unfold lands, run_fate, at_rest. destruct (qr_verdict run); [split; [done|naive_solver]|naive_solver|].
  destruct (truthy (qr_orchestratorRef run)) as [ref|]; [split; [done|naive_solver]|].
  destruct (Z.leb_spec stale (now - qr_since run)); split; try done; [naive_solver|]. intros [?|(_ & _ & ?)]; [done|lia].
Qed.

Definition landed_run (now : instant) (stale : Z) (run : QuiescingRun) : option StaleRun :=
  match run_fate now stale run with land st => Some st | _ => None end.

Definition blocking_line (now : instant) (stale : Z) (run : QuiescingRun) : option string :=
  match run_fate now stale run with land _ => None | cancel_live line => Some line | wait_unknown line _ => Some line end.

Definition cancelled_run (now : instant) (stale : Z) (run : QuiescingRun) : option string :=
  match run_fate now stale run with cancel_live _ => Some (qr_id run) | _ => None end.

Definition asked_in_vain (now : instant) (stale : Z) (run : QuiescingRun) : bool :=
  match run_fate now stale run with wait_unknown _ att => att | _ => false end.

Lemma plan_of_fates runs now stale plan :
  foldl (add_run now stale) plan runs =
  mkQuiescePlan (landStale plan ++ omap (landed_run now stale) runs)%list (cancel plan ++ omap (cancelled_run now stale) runs)%list
    (mayPurge plan && forallb (lands now stale) runs) (blockedBy plan ++ omap (blocking_line now stale) runs)%list
    (needsAttention plan || existsb (asked_in_vain now stale) runs).
Proof.
  revert plan; induction runs as [|run runs IH]; intros plan; [destruct plan; simpl; by rewrite !app_nil_r, andb_true_r, orb_false_r|].
  simpl foldl. rewrite IH. unfold add_run. cbn [omap list_omap forallb existsb].
  unfold landed_run, cancelled_run, blocking_line, asked_in_vain, lands. destruct (run_fate now stale run); simpl;
    by rewrite <- ?(assoc_L (++)%list), ?andb_false_r, ?orb_assoc.
Qed.

Lemma omap_split {A B C} (f : A -> option B) (g : A -> option C) l :
  (forall x, x ∈ l -> is_Some (f x) <-> g x = None) -> (length (omap f l) + length (omap g l))%nat = length l.
Proof.
  induction l as [|x l IH]; intros Hfg; [done|]. assert (Hx : is_Some (f x) <-> g x = None) by (apply Hfg; by left).
  specialize (IH (fun y Hy => Hfg y (list_elem_of_further _ _ _ Hy))). cbn. destruct (f x) as [b|], (g x) as [c|]; simpl; try lia.
  - destruct Hx as [Hx _]. by specialize (Hx ltac:(eauto)).
  - destruct Hx as [_ Hx]. destruct (Hx eq_refl) as [? [=]].
Qed.

Lemma cancelled_run_spec now stale r : cancelled_run now stale r = if decide (qr_verdict r = live) then Some (qr_id r) else None.
Proof.
  unfold cancelled_run, run_fate. destruct (qr_verdict r); [by rewrite decide_True|by rewrite decide_False|rewrite decide_False by done].
  destruct (truthy (qr_orchestratorRef r)); [done|]. by destruct (_ <=? _)%Z.
Qed.

Lemma may_purge_spec runs now stale :
  mayPurge (quiescePlan runs now stale) = true <-> forall r, r ∈ runs -> at_rest now (nullish stale DEFAULT_STALE_AFTER_MS) r.
Proof.
  unfold quiescePlan. rewrite plan_of_fates. simpl. rewrite forallb_forall. setoid_rewrite <- lands_at_rest.
  by setoid_rewrite <- list_elem_of_In.
Qed.

(** C13: an account may be erased exactly when nothing can be running behind any
    of its runs: the orchestrator said so, or there never was a handle to ask it
    by and the row is older than any pass.  Every run is either landed or one
    of the reasons not to, exactly the runs said to be executing are
    cancelled, and a person is called exactly when a handle could not be
    asked about. *)
Theorem purge_waits_for_every_run runs now stale :
  let plan := quiescePlan runs now stale in
  let limit := nullish stale DEFAULT_STALE_AFTER_MS in
  (mayPurge plan = true <-> forall r, r ∈ runs -> at_rest now limit r) /\
  (mayPurge plan = true <-> blockedBy plan = []) /\
  (length (landStale plan) + length (blockedBy plan))%nat = length runs /\
  cancel plan = qr_id <$> base.filter (fun r => qr_verdict r = live) runs /\
  (needsAttention plan = true <-> exists r, r ∈ runs /\ qr_verdict r = unknown_verdict /\ is_Some (truthy (qr_orchestratorRef r))).
Proof.
  split; [apply may_purge_spec|]. unfold quiescePlan. rewrite plan_of_fates. set (limit := nullish stale DEFAULT_STALE_AFTER_MS). simpl.
  split; [|split; [|split]].
  - rewrite forallb_forall. split.
    + intros Hall. induction runs as [|r runs IH]; [done|]. cbn. unfold blocking_line.
      assert (Hr : lands now limit r = true) by (apply Hall; by left). unfold lands in Hr.
      destruct (run_fate now limit r); try done. apply IH. intros x Hx. apply Hall. by right.
    + intros Hnil r Hr%list_elem_of_In. unfold lands. destruct (run_fate now limit r) eqn:Hf; [done|..]; exfalso.
      all: apply (not_elem_of_nil line); rewrite <- Hnil; apply list_elem_of_omap; exists r; split; [done|]; unfold blocking_line; by rewrite Hf.
  - apply omap_split. intros r _. unfold landed_run, blocking_line. destruct (run_fate now limit r); split; try done; by intros [].
  - induction runs as [|r runs IH]; [done|]. rewrite filter_cons. cbn [omap list_omap]. rewrite cancelled_run_spec.
    case_decide; cbn [fmap list_fmap]; by rewrite <- IH.
  - rewrite existsb_exists. setoid_rewrite <- list_elem_of_In. unfold asked_in_vain, run_fate. split.
    + intros (r & Hr & Hv). exists r. split; [done|]. destruct (qr_verdict r); [done..|].
      destruct (truthy (qr_orchestratorRef r)); [by split; eauto|]. by destruct (_ <=? _)%Z.
    + intros (r & Hr & Hv & [ref Href]). exists r. split; [done|]. by rewrite Hv, Href.
Qed.

(** Nothing is finished over failures nobody decided on, unless it is said. *)
Lemma finish_needs_a_word status failures force :
  finishTransition status failures force = finish <-> status <> "done" /\ status <> "paused" /\ (failures <= 0 \/ force = true).
Proof.
  unfold finishTransition. repeat case_bool_decide; [naive_solver..|].
  destruct (Z.ltb_spec 0 failures), force; simpl; try (split; [done|]; naive_solver lia).
  all: split; [intros _; repeat split; auto|done].
Qed.

(** ** One pass of a mapping at a time *)

(** A promise of [run]: executing, settled, or settled with its entry dropped. *)
Inductive Flight := executing | settled | dropped.

#[export] Instance Flight_eq_dec : EqDecision Flight.
Proof. solve_decision. Defined.

(** [inflight], and the promises handed out so far with their keys. *)
Record SingleFlight := mkSingleFlight { sf_inflight : gmap string nat; sf_promises : list (string * Flight) }.

#[export] Instance eta_SingleFlight : Eta SingleFlight := fun s => mkSingleFlight (sf_inflight s) (sf_promises s).

(** [run(key, task)]: the promise it answers. *)
Definition run_flight (key : string) (s : SingleFlight) : nat * SingleFlight :=
  match sf_inflight s !! key with
  | Some p => (p, s)
  | None => let p := length (sf_promises s) in
            (p, s <| sf_inflight ::= insert key p |> <| sf_promises ::= fun l => (l ++ [(key, executing)])%list |>)
  end.

Definition isRunning (key : string) (s : SingleFlight) : bool := defined (sf_inflight s !! key).

(** The task settles; its clean-up runs in a later turn. *)
Definition settle_flight (p : nat) (key : string) (s : SingleFlight) : SingleFlight := s <| sf_promises ::= <[p := (key, settled)]> |>.

Definition drop_flight (p : nat) (key : string) (s : SingleFlight) : SingleFlight :=
  s <| sf_inflight ::= delete key |> <| sf_promises ::= <[p := (key, dropped)]> |>.

Inductive flight_step (s : SingleFlight) : SingleFlight -> Prop :=
| step_run key : flight_step s (run_flight key s).2
| step_settle p key : sf_promises s !! p = Some (key, executing) -> flight_step s (settle_flight p key s)
| step_drop p key : sf_promises s !! p = Some (key, settled) -> flight_step s (drop_flight p key s).

Definition no_flights : SingleFlight := mkSingleFlight ∅ [].

Definition flights_wf (s : SingleFlight) : Prop :=
  forall key p, sf_inflight s !! key = Some p <-> exists ph, sf_promises s !! p = Some (key, ph) /\ ph <> dropped.

Lemma flight_step_wf s s' : flight_step s s' -> flights_wf s -> flights_wf s'.
Proof.
  unfold flights_wf. intros [key|p key Hp|p key Hp] Hwf k q.
  - unfold run_flight. destruct (sf_inflight s !! key) as [p|] eqn:Hkey; simpl; [apply Hwf|].
    rewrite lookup_insert_Some, Hwf. split.
    + intros [[<- <-]|(Hne & ph & Hq & Hd)].
      * exists executing. by rewrite lookup_app_r, Nat.sub_diag by done.
      * exists ph. split; [|done]. apply lookup_app_Some. by left.
    + intros (ph & [Hq|[Hlen Hq]]%lookup_app_Some & Hd).
      * right. split; [|eauto]. intros ->. assert (Hs : sf_inflight s !! k = Some q) by (apply Hwf; eauto). congruence.
      * left. apply list_lookup_singleton_Some in Hq as [Hq [= <- <-]]. split; [done|lia].
  - simpl. rewrite Hwf. destruct (decide (p = q)) as [<-|Hne]; [|by rewrite list_lookup_insert_ne].
    rewrite list_lookup_insert_eq by by eapply lookup_lt_Some. rewrite Hp. naive_solver.
  - simpl. rewrite lookup_delete_Some, Hwf. destruct (decide (p = q)) as [<-|Hne].
    + rewrite list_lookup_insert_eq by by eapply lookup_lt_Some. rewrite Hp. naive_solver.
    + rewrite list_lookup_insert_ne by done. split; [naive_solver|]. intros (ph & Hq & Hd). split; [|eauto]. intros <-.
      assert (H1 : sf_inflight s !! key = Some q) by (apply Hwf; eauto).
      assert (H2 : sf_inflight s !! key = Some p) by (apply Hwf; eauto). congruence.
Qed.

Lemma flights_reachable_wf s : rtc flight_step no_flights s -> flights_wf s.
Proof.
  intros Hs. assert (Hwf : flights_wf no_flights) by (intros key p; split; [done|by intros (ph & [=] & _)]).
  revert Hwf. induction Hs; eauto using flight_step_wf.
Qed.

(** C18: one pass of a mapping at a time.  In every reachable state two tasks
    that are executing have different keys; [isRunning] is true exactly while
    the key's promise is not dropped; and a call answers a promise of its own
    key that is not dropped, a new one exactly when the key is free, so that no
    key is stuck. *)
Theorem one_flight_per_key s : rtc flight_step no_flights s ->
  (forall p q key, sf_promises s !! p = Some (key, executing) -> sf_promises s !! q = Some (key, executing) -> p = q) /\
  (forall key, isRunning key s = true <-> exists p ph, sf_promises s !! p = Some (key, ph) /\ ph <> dropped) /\
  (forall key, exists ph, sf_promises (run_flight key s).2 !! (run_flight key s).1 = Some (key, ph) /\ ph <> dropped /\
     ((run_flight key s).1 = length (sf_promises s) /\ ph = executing <-> isRunning key s = false)).
Proof.
  intros Hs. pose proof (flights_reachable_wf s Hs) as Hwf. split; [|split].
  - intros p q key Hp Hq. assert (H1 : sf_inflight s !! key = Some p) by (apply Hwf; eauto).
    assert (H2 : sf_inflight s !! key = Some q) by (apply Hwf; eauto). congruence.
  - intros key. unfold isRunning. rewrite defined_true. split.
    + intros [p Hp]. exists p. by apply Hwf.
    + intros (p & Hp). exists p. by apply Hwf.
  - intros key. unfold run_flight, isRunning. destruct (sf_inflight s !! key) as [p|] eqn:Hkey; simpl.
    + destruct (proj1 (Hwf key p) Hkey) as (ph & Hp & Hd). exists ph. split; [done|]. split; [done|].
      split; [|done]. intros [-> _]. by rewrite lookup_ge_None_2 in Hp.
    + exists executing. by rewrite lookup_app_r, Nat.sub_diag by done.
Qed.

Lemma one_flight_per_key_witness : isRunning "m1" (run_flight "m1" no_flights).2 = true.
Proof.
  apply (one_flight_per_key (run_flight "m1" no_flights).2); [apply rtc_once, step_run|]. by exists 0%nat, executing.
Defined.
