(* ===== verification/Offboarding.v ===== *)
(** * Ending the service ([packages/managed/src/offboarding.ts],
    [packages/shared/src/erasure-timeline.ts], and the job of
    [apps/worker/src/jobs/managed-purge-closed.ts])

    Closing an account, reopening it, and erasing it when its window is over.
    The database is its rows, each with its table, its id, the tenant it belongs
    to and its foreign keys with what a deletion of the row they name does; a
    [DELETE] follows them as PostgreSQL does: cascades take the row along, [SET
    NULL] empties the column, any other key that still names a deleted row makes
    the statement fail.  A transaction is one step that fails as a whole.  The
    orchestrator and the providers' revocation are steps on an outside world;
    SHA-256 is a parameter.  The other columns of the rows, and log lines, are
    left out. *)

From stdpp Require Import pretty.
From S2P Require Import Prelude Prog Keys Ports Lifecycle.

Open Scope Z_scope.
#[local] Open Scope string_scope.

(** ** Dates *)

Definition DEFAULT_BACKUP_RETENTION_DAYS : Z := 7.

Definition DAY_MS : Z := 24 * 60 * 60 * 1000.

Record ErasureTimeline := mkTimeline { et_purgeAfter : instant; et_backupsExpireAt : instant; et_windowDays : Z; et_backupRetentionDays : Z }.

(** Days are whole numbers here; a fraction is refused as a negative number is. *)
Definition erasureTimeline (closedAt : instant) (windowDays backupRetentionDays : Z) : string + ErasureTimeline :=
  if (windowDays <? 0)%Z then inl ("windowDays must be a whole number of days, zero or more — got " ++ pretty windowDays)
  else if (backupRetentionDays <? 0)%Z then
    inl ("backupRetentionDays must be a whole number of days, zero or more — got " ++ pretty backupRetentionDays)
  else let purgeAfter := closedAt + windowDays * DAY_MS in
       inr (mkTimeline purgeAfter (purgeAfter + backupRetentionDays * DAY_MS) windowDays backupRetentionDays).

Definition CLOSE_WINDOWS_DAYS : list Z := [0; 7; 30; 90].

Definition isCloseWindow (value : Z) : bool := bool_decide (value ∈ CLOSE_WINDOWS_DAYS).

(** ** The database *)

Inductive TenantStatus := tn_active | tn_suspended | tn_closed | tn_deleting.

#[export] Instance TenantStatus_eq_dec : EqDecision TenantStatus.
Proof. solve_decision. Defined.

Inductive RunStatus := run_live (status : QueuedStatus) | run_over (status : string).

(** What the deletion of the row a key names does to the row that has the key. *)
Inductive OnDelete := on_delete_cascade | on_delete_set_null | on_delete_restrict.

#[export] Instance OnDelete_eq_dec : EqDecision OnDelete.
Proof. solve_decision. Defined.

Definition row_key : Type := string * string.

Record Ref := mkRef { rf_names : row_key; rf_action : OnDelete }.

(** The columns the program reads or writes. *)
Inductive Columns :=
| tenant_columns (name : string) (status : TenantStatus)
| closure_columns (closedAt purgeAfter : instant) (closedBy : string)
| run_columns (orchestratorRef : option string) (status : RunStatus) (since : instant) (quiesceReason : option string)
| invoice_columns (billedTo : option string)
| other_columns.

Record Row := mkRow { rw_table : string; rw_id : string; rw_tenant : option string; rw_refs : list Ref; rw_columns : Columns }.

#[export] Instance eta_Row : Eta Row := fun r => mkRow (rw_table r) (rw_id r) (rw_tenant r) (rw_refs r) (rw_columns r).

Definition key (r : Row) : row_key := (rw_table r, rw_id r).

Inductive RevocationStatus := revoked | revocation_failed | unsupported | no_credential.

Record RevocationOutcome := mkRevocation { rv_kind : string; rv_status : RevocationStatus; rv_reason : option string }.

Record ErasureRecord := mkErasure {
  er_tenantRef : string; er_requestedAt : instant; er_windowDays : Z; er_backupRetentionDays : Z; er_backupsExpireAt : instant;
  er_purgedAt : option instant; er_retainedInvoiceIds : list string; er_purgedCounts : list (string * Z); er_revocations : list RevocationOutcome
}.

#[export] Instance eta_ErasureRecord : Eta ErasureRecord := fun r =>
  mkErasure (er_tenantRef r) (er_requestedAt r) (er_windowDays r) (er_backupRetentionDays r) (er_backupsExpireAt r)
    (er_purgedAt r) (er_retainedInvoiceIds r) (er_purgedCounts r) (er_revocations r).

Record Db := mkDb { db_rows : list Row; db_records : list ErasureRecord }.

#[export] Instance eta_Db : Eta Db := fun d => mkDb (db_rows d) (db_records d).

(** *** [DELETE] *)

Definition names_in (D : list row_key) (action : OnDelete) (r : Row) : bool :=
  existsb (fun f => bool_decide (rf_action f = action /\ rf_names f ∈ D)) (rw_refs r).

(** The rows that go along; every round but the last takes at least one. *)
Fixpoint cascade (fuel : nat) (rows : list Row) (D : list row_key) : list row_key :=
  match fuel with
  | O => D
  | S fuel =>
      match base.filter (fun r => (key r ∉ D) /\ names_in D on_delete_cascade r = true) rows with
      | [] => D
      | more => cascade fuel rows (D ++ (key <$> more))
      end
  end.

Definition without_nulled (D : list row_key) (r : Row) : Row :=
  r <| rw_refs ::= base.filter (fun f => ~ (rf_action f = on_delete_set_null /\ rf_names f ∈ D)) |>.

(** [None] when a foreign key forbids it; else the number of rows the condition
    chose, and the rows that are left. *)
Definition delete_where (P : Row -> Prop) `{!forall r, Decision (P r)} (rows : list Row) : option (Z * list Row) :=
  let direct := base.filter P rows in
  let D := cascade (length rows) rows (key <$> direct) in
  if existsb (fun r => bool_decide (key r ∉ D) && names_in D on_delete_restrict r) rows then None
  else Some (Z.of_nat (length direct), without_nulled D <$> base.filter (fun r => key r ∉ D) rows).

(** ** Closing and reopening *)

Section offboarding.
Context (rt : Runtime).

Definition tenantRef (tenantId : string) : string := sha256Hex rt tenantId.

Definition is_tenant_row (tenantId : string) (r : Row) : Prop := key r = ("tenant", tenantId).

#[export] Instance is_tenant_row_dec t r : Decision (is_tenant_row t r).
Proof. unfold is_tenant_row. apply _. Defined.

Definition set_status (status : TenantStatus) (r : Row) : Row :=
  match rw_columns r with tenant_columns name _ => r <| rw_columns := tenant_columns name status |> | _ => r end.

Definition status_of (r : Row) : option TenantStatus := match rw_columns r with tenant_columns _ s => Some s | _ => None end.

(** [UPDATE tenant SET status WHERE id AND ...] *)
Definition update_tenant (tenantId : string) (allowed : option TenantStatus -> bool) (status : TenantStatus) (rows : list Row) : bool * list Row :=
  (existsb (fun r => bool_decide (is_tenant_row tenantId r) && allowed (status_of r)) rows,
   (fun r => if bool_decide (is_tenant_row tenantId r) && allowed (status_of r) then set_status status r else r) <$> rows).

Definition closure_row (tenantId : string) (now purgeAfter : instant) (closedBy : string) : Row :=
  mkRow "tenant_closure" tenantId (Some tenantId) [mkRef ("tenant", tenantId) on_delete_cascade] (closure_columns now purgeAfter closedBy).

Definition is_closure (tenantId : string) (r : Row) : Prop := key r = ("tenant_closure", tenantId).

#[export] Instance is_closure_dec t r : Decision (is_closure t r).
Proof. unfold is_closure. apply _. Defined.

(** [INSERT ... ON CONFLICT (tenant_id) DO UPDATE] *)
Definition upsert_closure (row : Row) (rows : list Row) : list Row :=
  (base.filter (fun r => key r <> key row) rows ++ [row])%list.

Record CloseResult := mkCloseResult { cr_purgeAfter : instant; cr_windowDays : Z; cr_backupsExpireAt : instant; cr_backupRetentionDays : Z }.

Definition not_deleting (s : option TenantStatus) : bool := negb (bool_decide (s = Some tn_deleting)).

Definition closeTenant (tenantId : string) (windowDays : Z) (closedBy : string) (now : instant) (backupRetentionDays : option Z)
    (db : Db) : (string + CloseResult) * Db :=
  match erasureTimeline now windowDays (nullish backupRetentionDays DEFAULT_BACKUP_RETENTION_DAYS) with
  | inl e => (inl e, db)
  | inr timeline =>
      let '(found, rows) := update_tenant tenantId not_deleting tn_closed (db_rows db) in
      if negb found then (inl ("Cannot close tenant " ++ tenantId ++ ": it does not exist, or its purge has already started."), db)
      else
        (inr (mkCloseResult (et_purgeAfter timeline) windowDays (et_backupsExpireAt timeline) (et_backupRetentionDays timeline)),
         mkDb (upsert_closure (closure_row tenantId now (et_purgeAfter timeline) closedBy) rows)
           (db_records db ++ [mkErasure (tenantRef tenantId) now windowDays (et_backupRetentionDays timeline) (et_backupsExpireAt timeline) None [] [] []])%list)
  end.

Definition purge_after_of (r : Row) : option instant := match rw_columns r with closure_columns _ p _ => Some p | _ => None end.

Definition window_open (tenantId : string) (now : instant) (r : Row) : Prop :=
  is_closure tenantId r /\ exists p, purge_after_of r = Some p /\ now < p.

#[export] Instance window_open_dec t now r : Decision (window_open t now r).
Proof.
  unfold window_open. destruct (purge_after_of r) as [p|]; [|right; naive_solver].
  destruct (decide (is_closure t r /\ now < p)) as [Hd|Hd]; [left|right]; naive_solver.
Defined.

Definition withdrawn (ref : string) (r : ErasureRecord) : ErasureRecord :=
  if bool_decide (er_tenantRef r = ref /\ er_purgedAt r = None) then r <| er_windowDays := -1 |> else r.

Definition is_closed (s : option TenantStatus) : bool := bool_decide (s = Some tn_closed).

Definition reopenTenant (tenantId : string) (now : instant) (db : Db) : (string + unit) * Db :=
  match base.filter (window_open tenantId now) (db_rows db) with
  | [] => (inl ("Cannot reopen tenant " ++ tenantId ++ ": it is not closed, or its purge window has already passed."), db)
  | _ =>
      (inr tt, mkDb (update_tenant tenantId is_closed tn_active (base.filter (fun r => ~ window_open tenantId now r) (db_rows db))).2
                    (withdrawn (tenantRef tenantId) <$> db_records db))
  end.

(** ** Erasing *)

Definition PURGED_TABLES : list string :=
  ["run_event"; "run"; "item"; "sync_checkpoint"; "cursor"; "collection_mapping"; "scope_selection"; "verification";
   "cutover_event"; "cutover_state"; "cutover"; "migration_status"; "migration_discovery"; "decision"; "policy_preset"; "group_def";
   "share_grant"; "apply_receipt"; "setup_step"; "backup_target"; "mailbox_mapping"; "mailbox"; "connection"; "payment_method";
   "usage_metric"; "tenant_member"; "tenant_pricing"; "tenant_closure"; "audit_log"; "rate_budget"].

Record PurgeResult := mkPurgeResult {
  pr_tenantRef : string; pr_counts : list (string * Z); pr_retainedInvoiceIds : list string; pr_revocations : list RevocationOutcome
}.

Definition tenant_name (tenantId : string) (rows : list Row) : option string :=
  match head (base.filter (is_tenant_row tenantId) rows) with
  | Some r => match rw_columns r with tenant_columns name _ => Some name | _ => None end
  | None => None
  end.

Definition invoice_of (tenantId : string) (r : Row) : Prop := rw_table r = "invoice" /\ rw_tenant r = Some tenantId.

#[export] Instance invoice_of_dec t r : Decision (invoice_of t r).
Proof. unfold invoice_of. apply _. Defined.

Definition billed (name : option string) (c : Columns) : Columns :=
  match c with invoice_columns to => invoice_columns (match to with Some n => Some n | None => name end) | _ => c end.

(** [UPDATE invoice SET billed_to_name = COALESCE(...), tenant_id = NULL]; an
    emptied column names nothing. *)
Definition detach (tenantId : string) (name : option string) (r : Row) : Row :=
  if decide (invoice_of tenantId r)
  then r <| rw_tenant := None |> <| rw_refs ::= base.filter (fun f => rf_names f <> ("tenant", tenantId)) |> <| rw_columns ::= billed name |>
  else r.

Definition in_table_of (table tenantId : string) (r : Row) : Prop := rw_table r = table /\ rw_tenant r = Some tenantId.

#[export] Instance in_table_of_dec table t r : Decision (in_table_of table t r).
Proof. unfold in_table_of. apply _. Defined.

Fixpoint purge_tables (tables : list string) (tenantId : string) (counts : list (string * Z)) (rows : list Row) : option (list (string * Z) * list Row) :=
  match tables with
  | [] => Some (counts, rows)
  | table :: tables =>
      match delete_where (in_table_of table tenantId) rows with
      | None => None
      | Some (n, rows) => purge_tables tables tenantId (js_map_set table n counts) rows
      end
  end.

Definition receipt (ref : string) (now : instant) (invoices : list string) (counts : list (string * Z)) (revocations : list RevocationOutcome)
    (r : ErasureRecord) : ErasureRecord :=
  if bool_decide (er_tenantRef r = ref /\ er_purgedAt r = None)
  then r <| er_purgedAt := Some now |> <| er_retainedInvoiceIds := invoices |> <| er_purgedCounts := counts |> <| er_revocations := revocations |>
  else r.

(** Inside a transaction of the caller's: an error leaves nothing behind. *)
Definition purgeTenant (tenantId : string) (now : instant) (revocations : list RevocationOutcome) (db : Db) : (string + PurgeResult) * Db :=
  let ref := tenantRef tenantId in
  let invoices := rw_id <$> base.filter (invoice_of tenantId) (db_rows db) in
  let detached := detach tenantId (tenant_name tenantId (db_rows db)) <$> db_rows db in
  match purge_tables PURGED_TABLES tenantId [] detached with
  | None => (inl "violates foreign key constraint", db)
  | Some (counts, rows) =>
      match delete_where (is_tenant_row tenantId) rows with
      | None => (inl "violates foreign key constraint", db)
      | Some (n, rows) =>
          let counts := js_map_set "tenant" n counts in
          (inr (mkPurgeResult ref counts invoices revocations), mkDb rows (receipt ref now invoices counts revocations <$> db_records db))
      end
  end.

(** *** The job *)

Definition purge_due (now : instant) (rows : list Row) (tenantId : string) : Prop :=
  Exists (fun r => is_tenant_row tenantId r /\ status_of r = Some tn_closed) rows /\
  Exists (fun r => is_closure tenantId r /\ match purge_after_of r with Some p => p <= now | None => False end) rows.

#[export] Instance purge_due_dec now rows t : Decision (purge_due now rows t).
Proof.
  unfold purge_due. apply and_dec; apply Exists_dec; intros r; [apply _|].
  destruct (purge_after_of r); apply _.
Defined.

Definition due_tenants (now : instant) (rows : list Row) : list string :=
  base.filter (purge_due now rows) (rw_id <$> base.filter (fun r => rw_table r = "tenant") rows).

Record LiveRunRow := mkLiveRun { lr_id : string; lr_ref : option string; lr_status : QueuedStatus; lr_since : instant }.

Definition live_run (r : Row) : option LiveRunRow :=
  match rw_columns r with
  | run_columns ref (run_live st) since _ => Some (mkLiveRun (rw_id r) ref st since)
  | _ => None
  end.

Definition live_runs (tenantId : string) (rows : list Row) : list LiveRunRow :=
  omap live_run (base.filter (in_table_of "run" tenantId) rows).

(** What the orchestrator answers about a run. *)
Record RemoteRun := mkRemote { isExecuting : bool; isQueued : bool; isWaiting : bool; isCompleted : bool; isFailed : bool; isCancelled : bool }.

Definition remote_verdict (remote : RemoteRun) : OrchestratorVerdict :=
  if isExecuting remote || isQueued remote || isWaiting remote then live
  else if isCompleted remote || isFailed remote || isCancelled remote then finished
  else unknown_verdict.

(** [UPDATE run SET status = 'cancelled', ... WHERE id] *)
Definition landed (st : StaleRun) (r : Row) : Row :=
  if bool_decide (key r = ("run", st_id st))
  then match rw_columns r with
       | run_columns ref _ since _ => r <| rw_columns := run_columns ref (run_over "cancelled") since (Some (st_reason st)) |>
       | _ => r
       end
  else r.

Definition land_run (st : StaleRun) (rows : list Row) : list Row := landed st <$> rows.

Record PurgeSummary := mkPurgeSummary {
  pu_purged : Z; pu_skippedRunning : Z; pu_landedStale : Z; pu_needsAttention : Z; pu_failed : list string
}.

#[export] Instance eta_PurgeSummary : Eta PurgeSummary := fun s =>
  mkPurgeSummary (pu_purged s) (pu_skippedRunning s) (pu_landedStale s) (pu_needsAttention s) (pu_failed s).

Section job.
Context {Env : Type}.
#[local] Abbreviation W := (Db * Env)%type.
Context (retrieve : string -> Env -> (string + RemoteRun) * Env) (cancel_run : string -> Env -> (string + unit) * Env).
(** [revokeStoredCredentials]: it reads the tenant's connections and asks the providers. *)
Context (revokeStoredCredentials : list Row -> string -> Env -> (string + list RevocationOutcome) * Env).

Definition ask_env {A} (f : Env -> (string + A) * Env) : prog W string A :=
  try_act (fun w => let '(r, e) := f w.2 in (r, (w.1, e))).

Definition on_db {A} (f : Db -> A * Db) : prog W string A := act (fun w => let '(a, d) := f w.1 in (a, (d, w.2))).

Definition on_rows (f : list Row -> list Row) : prog W string unit := on_db (fun d => (tt, d <| db_rows ::= f |>)).

Definition verdict_of (r : LiveRunRow) : prog W string QuiescingRun :=
  let base := mkQuiescing (lr_id r) (lr_ref r) (lr_status r) (lr_since r) in
  match truthy (lr_ref r) with
  | None => Ret (base unknown_verdict)
  | Some ref => pcatch (let! remote := ask_env (retrieve ref) in Ret (base (remote_verdict remote))) (fun _ => Ret (base unknown_verdict))
  end.

Fixpoint verdictsFor (rows : list LiveRunRow) : prog W string (list QuiescingRun) :=
  match rows with
  | [] => Ret []
  | r :: rows => let! v := verdict_of r in let! vs := verdictsFor rows in Ret (v :: vs)
  end.

Definition cancel_one (live_rows : list LiveRunRow) (runId : string) : prog W string unit :=
  match truthy (match head (base.filter (fun r => lr_id r = runId) live_rows) with Some r => lr_ref r | None => None end) with
  | Some ref => pcatch (ask_env (cancel_run ref)) (fun _ => Ret tt)
  | None => Ret tt
  end.

(** [BEGIN; UPDATE tenant SET status = 'deleting' WHERE id; purgeTenant; COMMIT], or [ROLLBACK]. *)
Definition erase (tenantId : string) (now : instant) (revocations : list RevocationOutcome) (db : Db) : (string + PurgeResult) * Db :=
  match purgeTenant tenantId now revocations (db <| db_rows ::= fun rows => (update_tenant tenantId (fun _ => true) tn_deleting rows).2 |>) with
  | (inl e, _) => (inl e, db)
  | (inr result, db') => (inr result, db')
  end.

Definition purge_one (now : instant) (tenantId : string) (sum : PurgeSummary) : prog W string PurgeSummary :=
  let! live_rows := on_db (fun d => (live_runs tenantId (db_rows d), d)) in
  let! runs := verdictsFor live_rows in
  let plan := quiescePlan runs now None in
  pfor (cancel_one live_rows) (cancel plan) ;;;
  pfor (fun st => on_rows (land_run st)) (landStale plan) ;;;
  let sum := sum <| pu_landedStale ::= Z.add (Z.of_nat (length (landStale plan))) |> in
  if negb (mayPurge plan) then
    Ret (sum <| pu_skippedRunning ::= Z.succ |> <| pu_needsAttention ::= if needsAttention plan then Z.succ else id |>)
  else
    pcatch
      (let! revocations := (let! rows := on_db (fun d => (db_rows d, d)) in ask_env (revokeStoredCredentials rows tenantId)) in
       try_act (fun w => let '(r, d) := erase tenantId now revocations w.1 in (r, (d, w.2))) ;;;
       Ret (sum <| pu_purged ::= Z.succ |>))
      (fun _ => Ret (sum <| pu_failed ::= fun l => (l ++ [tenantId])%list |>)).

Fixpoint purge_each (now : instant) (tenants : list string) (sum : PurgeSummary) : prog W string PurgeSummary :=
  match tenants with
  | [] => Ret sum
  | t :: tenants => let! sum := purge_one now t sum in purge_each now tenants sum
  end.

Definition managedPurgeClosed (now : instant) : prog W string PurgeSummary :=
  let! due := on_db (fun d => (due_tenants now (db_rows d), d)) in
  purge_each now due (mkPurgeSummary 0 0 0 0 []).
End job.
End offboarding.

(** ** Deletions *)

Lemma names_in_spec D action r : names_in D action r = true <-> exists f, f ∈ rw_refs r /\ rf_action f = action /\ rf_names f ∈ D.
Proof.
  unfold names_in. rewrite existsb_exists. setoid_rewrite <- list_elem_of_In. setoid_rewrite bool_decide_eq_true. naive_solver.
Qed.

(** What a deletion takes along is named by something it takes. *)
Lemma cascade_ind (Q : row_key -> Prop) fuel rows D :
  (forall x, x ∈ D -> Q x) ->
  (forall r f, r ∈ rows -> f ∈ rw_refs r -> rf_action f = on_delete_cascade -> Q (rf_names f) -> Q (key r)) ->
  forall x, x ∈ cascade fuel rows D -> Q x.
Proof.
  intros HD Hstep. revert D HD; induction fuel as [|fuel IH]; intros D HD x; [by apply HD|]. simpl.
  destruct (base.filter _ rows) as [|r more] eqn:Hmore; [by apply HD|]. apply IH. intros y [Hy|Hy]%elem_of_app; [by apply HD|].
  change (y ∈ (key <$> (r :: more))) in Hy. rewrite <- Hmore in Hy. apply list_elem_of_fmap in Hy as (r' & -> & Hr').
  apply list_elem_of_filter in Hr' as [[_ Hn] Hr']. apply names_in_spec in Hn as (f & Hf & Ha & HfD). eauto.
Qed.

Lemma cascade_start fuel rows D x : x ∈ D -> x ∈ cascade fuel rows D.
Proof.
  revert D; induction fuel as [|fuel IH]; intros D Hx; [done|]. simpl. destruct (base.filter _ rows); [done|].
  apply IH, elem_of_app. by left.
Qed.

(** As many rounds as there are rows take everything that goes along. *)
Lemma cascade_complete fuel rows D : (length (base.filter (fun r => key r ∉ D) rows) <= fuel)%nat ->
  forall r, r ∈ rows -> names_in (cascade fuel rows D) on_delete_cascade r = true -> key r ∈ cascade fuel rows D.
Proof.
  revert D; induction fuel as [|fuel IH]; intros D Hlen r Hr Hn; simpl in *.
  - destruct (decide (key r ∈ D)) as [|Hno]; [done|exfalso].
    assert (Hin : r ∈ base.filter (fun r => key r ∉ D) rows) by by apply list_elem_of_filter.
    destruct (base.filter _ rows); [by apply not_elem_of_nil in Hin|simpl in Hlen; lia].
  - destruct (base.filter (fun r => (key r ∉ D) /\ _) rows) as [|x more] eqn:Hmore.
    + destruct (decide (key r ∈ D)) as [|Hno]; [done|exfalso]. apply (not_elem_of_nil r). rewrite <- Hmore. by apply list_elem_of_filter.
    + apply IH; [|done|done]. assert (Hx : x ∈ base.filter (fun r => (key r ∉ D) /\ names_in D on_delete_cascade r = true) rows) by (rewrite Hmore; by left).
      apply list_elem_of_filter in Hx as [[Hx _] Hxr]. match goal with |- (length (base.filter (fun r => key r ∉ ?L) rows) <= _)%nat => set (D' := L) end.
      enough (length (base.filter (fun r => key r ∉ D') rows) < length (base.filter (fun r => key r ∉ D) rows))%nat by lia.
      assert (HxD : key x ∈ D') by (unfold D'; apply elem_of_app; right; by left).
      assert (HD : forall y, y ∈ D -> y ∈ D') by (intros y Hy; unfold D'; apply elem_of_app; by left).
      clearbody D'. clear Hlen IH Hmore Hr Hn. induction rows as [|y rows IHr]; [by apply not_elem_of_nil in Hxr|].
      assert (Hle : forall l, (length (base.filter (fun r => key r ∉ D') l) <= length (base.filter (fun r => key r ∉ D) l))%nat).
      { induction l as [|z l IHl]; [done|]. rewrite !filter_cons. repeat case_decide; simpl; try lia. exfalso. naive_solver. }
      specialize (Hle rows). rewrite !filter_cons. apply elem_of_cons in Hxr as [->|Hxr].
      * rewrite decide_False by naive_solver. rewrite decide_True by done. simpl. lia.
      * specialize (IHr Hxr). repeat case_decide; simpl; try lia. exfalso. naive_solver.
Qed.

(** *** What a tenant owns *)

Section owned.
Context (t : string).

Definition of_tenant (r : Row) : Prop := rw_tenant r = Some t \/ is_tenant_row t r.

#[export] Instance of_tenant_dec r : Decision (of_tenant r).
Proof. unfold of_tenant. apply _. Defined.

(** The tables every other key leads to; none of them leads out. *)
Definition core (table : string) : Prop := table ∈ ["tenant"; "connection"; "mailbox"; "mailbox_mapping"].

(** Tables whose keys forbid the deletion of what they name. *)
Definition holding (table : string) : Prop := table ∈ ["verification_run"; "access_request"].

(** A row as the schema allows it, [K] being the keys of the tenant's rows. *)
Record tidy (K : row_key -> Prop) (r : Row) : Prop := mkTidy {
  tidy_owned : K (key r) <-> of_tenant r;
  tidy_refs : forall f, f ∈ rw_refs r -> K (rf_names f) -> of_tenant r;
  tidy_core : forall f, f ∈ rw_refs r -> core (rw_table r) -> core (rf_names f).1;
  tidy_restrict : forall f, f ∈ rw_refs r -> rf_action f = on_delete_restrict ->
    core (rf_names f).1 /\ (rw_table r = "apply_receipt" \/ holding (rw_table r))
}.

Lemma tidy_nulled K D r : tidy K r -> tidy K (without_nulled D r).
Proof.
  intros [H1 H2 H3 H4]. split; [done|..]; intros f [_ Hf]%list_elem_of_filter; eauto.
Qed.

(** A deletion of rows of the tenant, away from the core tables or with no
    receipt left, goes through and takes nothing of anybody else's. *)
Lemma delete_step K P `{!forall r, Decision (P r)} rows :
  Forall (tidy K) rows -> Forall (fun r => of_tenant r -> ~ holding (rw_table r)) rows ->
  (forall r, P r -> of_tenant r) ->
  (forall r, P r -> ~ core (rw_table r)) \/ Forall (fun r => of_tenant r -> rw_table r <> "apply_receipt") rows ->
  exists n rows', delete_where P rows = Some (n, rows') /\
    Forall (tidy K) rows' /\ base.filter (fun r => ~ of_tenant r) rows' = base.filter (fun r => ~ of_tenant r) rows /\
    (forall r', r' ∈ rows' -> exists D r, r ∈ rows /\ r' = without_nulled D r /\ ~ P r).
Proof.
  rewrite !Forall_forall. intros Ht Hh HP Hsafe. unfold delete_where. set (D := cascade _ _ _).
  assert (HDK : forall x, x ∈ D -> K x).
  { apply cascade_ind.
    - intros x (r & -> & [Hp Hr]%list_elem_of_filter)%list_elem_of_fmap. apply Ht; auto.
    - intros r f Hr Hf _ HK. apply Ht; [done|]. exact (tidy_refs _ _ (Ht r Hr) f Hf HK). }
  assert (Hcore : (forall r, P r -> ~ core (rw_table r)) -> forall x, x ∈ D -> ~ core x.1).
  { intros Hnc. apply cascade_ind.
    - intros x (r & -> & [Hp Hr]%list_elem_of_filter)%list_elem_of_fmap. by apply Hnc.
    - intros r f Hr Hf _ Hno Hc. apply Hno. exact (tidy_core _ _ (Ht r Hr) f Hf Hc). }
  destruct (existsb _ rows) eqn:Hex.
  { exfalso. apply existsb_exists in Hex as (r & Hr%list_elem_of_In & [Hno Hn]%andb_true_iff).
    apply names_in_spec in Hn as (f & Hf & Ha & HfD). destruct (tidy_restrict _ _ (Ht r Hr) f Hf Ha) as [Hc Htab].
    assert (Hof : of_tenant r) by (eapply (tidy_refs _ _ (Ht r Hr)); eauto). destruct Hsafe as [Hs|Hs].
    - by eapply Hcore.
    - destruct Htab; [by eapply Hs|by eapply Hh]. }
  eexists _, _. split; [done|]. split; [|split].
  - apply Forall_forall. intros r' (r & -> & [_ Hr]%list_elem_of_filter)%list_elem_of_fmap. by apply tidy_nulled, Ht.
  - clear Hex Hcore. clearbody D. induction rows as [|r rows IH]; [done|].
    assert (IH' : base.filter (fun r => ~ of_tenant r) (without_nulled D <$> base.filter (fun r => key r ∉ D) rows) = base.filter (fun r => ~ of_tenant r) rows).
    { apply IH; [intros; apply Ht; by right|intros ? ?; apply Hh; by right|]. destruct Hsafe as [Hs|Hs]; [by left|right; intros ? ?; apply Hs; by right]. }
    assert (Hr : tidy K r) by (apply Ht; by left). destruct (decide (of_tenant r)) as [Ho|Ho].
    + rewrite (filter_cons_False (fun r => ~ of_tenant r) r rows) by tauto. rewrite filter_cons. case_decide; [|done]. simpl. rewrite filter_cons_False by (simpl; tauto). done.
    + rewrite (filter_cons_True (fun r => ~ of_tenant r) r rows) by done. rewrite filter_cons_True by (intros Hk; apply Ho, Hr, HDK, Hk). simpl.
      rewrite filter_cons_True by done. f_equal; [|done]. unfold without_nulled. destruct r as [tb i tn refs c]. cbn. f_equal.
      enough (Hall : Forall (fun f => ~ (rf_action f = on_delete_set_null /\ rf_names f ∈ D)) refs).
      { clear -Hall. induction Hall; [done|]. rewrite filter_cons_True by done. by f_equal. }
      apply Forall_forall. intros f Hf [_ HfD]. apply Ho. eapply (tidy_refs _ _ Hr); eauto.
  - intros r' (r & -> & [Hno Hr]%list_elem_of_filter)%list_elem_of_fmap. exists D, r. split_and!; [done|done|..].
    intros Hp. apply Hno, cascade_start, list_elem_of_fmap. exists r. by rewrite list_elem_of_filter.
Qed.

Lemma in_table_owned table r : in_table_of table t r -> of_tenant r.
Proof. intros [_ H]. by left. Qed.

Lemma purge_tables_app tables tables' counts rows :
  purge_tables (tables ++ tables') t counts rows =
  match purge_tables tables t counts rows with Some (counts, rows) => purge_tables tables' t counts rows | None => None end.
Proof.
  revert counts rows; induction tables as [|table tables IH]; intros counts rows; [done|]. simpl.
  destruct (delete_where _ rows) as [[n rows1]|]; [apply IH|done].
Qed.

Lemma purge_tables_go K tables counts rows :
  Forall (tidy K) rows -> Forall (fun r => of_tenant r -> ~ holding (rw_table r)) rows ->
  Forall (fun table => ~ core table) tables \/ Forall (fun r => of_tenant r -> rw_table r <> "apply_receipt") rows ->
  exists counts' rows', purge_tables tables t counts rows = Some (counts', rows') /\
    Forall (tidy K) rows' /\ base.filter (fun r => ~ of_tenant r) rows' = base.filter (fun r => ~ of_tenant r) rows /\
    (forall r', r' ∈ rows' -> exists r, r ∈ rows /\ key r = key r' /\ rw_tenant r = rw_tenant r' /\
       ~ (rw_tenant r = Some t /\ rw_table r ∈ tables)).
Proof.
  revert counts rows; induction tables as [|table tables IH]; intros counts rows Ht Hh Hsafe; simpl.
  { eexists _, _. split_and!; [done|done|done|]. intros r Hr. exists r. split_and!; [done|done|done|]. by intros [_ ?%not_elem_of_nil]. }
  destruct (delete_step K (in_table_of table t) rows) as (n & rows1 & -> & Ht1 & Hf1 & Hd1); [done|done|apply in_table_owned|..].
  { destruct Hsafe as [Hs|Hs]; [left|by right]. intros r [-> _]. by apply Forall_cons in Hs as [Hs _]. }
  assert (Hfrom : forall Q : Row -> Prop, (forall D r, Q r -> Q (without_nulled D r)) -> Forall Q rows -> Forall Q rows1).
  { intros Q HQ Hall. apply Forall_forall. intros r' (D & r & Hr & -> & _)%Hd1. apply HQ. by eapply Forall_forall. }
  destruct (IH (js_map_set table n counts) rows1) as (counts' & rows' & -> & Ht' & Hf' & Hd'); [done|by apply Hfrom|..].
  { destruct Hsafe as [Hs|Hs]; [left; by apply Forall_cons in Hs as [_ Hs]|right; by apply Hfrom]. }
  eexists _, _. split_and!; [done|done|by rewrite Hf'|]. intros r' (r1 & Hr1 & Hk & Hrt & Hno)%Hd'.
  apply Hd1 in Hr1 as (D & r & Hr & -> & Hnp). exists r. split_and!; [done|exact Hk|exact Hrt|].
  intros [Htn [Heq|Hin]%elem_of_cons]; [by apply Hnp|by apply Hno].
Qed.

(** *** Rows that hold a tenant *)

(** A row that names the tenant, forbids its deletion, and is of a table no step deletes from. *)
Definition held (rows : list Row) : Prop :=
  (exists b, b ∈ rows /\ holding (rw_table b) /\ exists f, f ∈ rw_refs b /\ rf_action f = on_delete_restrict /\ rf_names f = ("tenant", t)) /\
  (exists r, r ∈ rows /\ is_tenant_row t r).

(** Nothing takes such a row or a tenant along. *)
Definition unled (r : Row) : Prop :=
  holding (rw_table r) \/ rw_table r = "tenant" -> forall f, f ∈ rw_refs r -> rf_action f <> on_delete_cascade.

Lemma cascade_avoids fuel rows D (Q : string -> Prop) :
  Forall (fun r => Q (rw_table r) -> forall f, f ∈ rw_refs r -> rf_action f <> on_delete_cascade) rows ->
  (forall x, x ∈ D -> ~ Q x.1) -> forall x, x ∈ cascade fuel rows D -> ~ Q x.1.
Proof. rewrite Forall_forall. intros Hr HD. apply cascade_ind; [done|]. intros r f Hin Hf Ha _ HQ. by eapply Hr. Qed.

Lemma held_step P `{!forall r, Decision (P r)} rows n rows' :
  Forall unled rows -> (forall r, P r -> ~ (holding (rw_table r) \/ rw_table r = "tenant")) ->
  delete_where P rows = Some (n, rows') -> held rows -> held rows' /\ Forall unled rows'.
Proof.
  intros Hu HP Hd Hheld. unfold delete_where in Hd. set (D := cascade _ _ _) in Hd. destruct (existsb _ rows); [done|]. simplify_eq.
  assert (HD : forall x, x ∈ D -> ~ (holding x.1 \/ x.1 = "tenant")).
  { apply (cascade_avoids _ _ _ (fun tb => holding tb \/ tb = "tenant")); [done|].
    intros x (r & -> & [Hp _]%list_elem_of_filter)%list_elem_of_fmap. by apply HP. }
  assert (Hstay : forall r, r ∈ rows -> holding (rw_table r) \/ rw_table r = "tenant" -> without_nulled D r ∈ (without_nulled D <$> base.filter (fun r => key r ∉ D) rows)).
  { intros r Hr Hq. apply list_elem_of_fmap_2, list_elem_of_filter. split; [|done]. intros Hk. by apply (HD _ Hk). }
  destruct Hheld as [(b & Hb & Hbt & f & Hf & Ha & Hn) (r & Hr & Hk)]. split; [split|].
  - eexists. split; [apply (Hstay b); auto|]. split; [done|]. exists f. split; [|done]. apply list_elem_of_filter. split; [|done].
    intros [Ha' _]. by rewrite Ha in Ha'.
  - eexists. split; [apply (Hstay r); [done|]|done]. right. by injection Hk.
  - apply Forall_forall. intros r' (r0 & -> & [_ Hr0]%list_elem_of_filter)%list_elem_of_fmap. intros Hq f0 [_ Hf0]%list_elem_of_filter.
    eapply Forall_forall in Hu; [|exact Hr0]. by apply Hu.
Qed.

Lemma held_tables tables counts rows counts' rows' :
  Forall unled rows -> Forall (fun table => ~ (holding table \/ table = "tenant")) tables ->
  purge_tables tables t counts rows = Some (counts', rows') -> held rows -> held rows' /\ Forall unled rows'.
Proof.
  revert counts rows; induction tables as [|table tables IH]; intros counts rows Hu Htab; simpl; [naive_solver|].
  apply Forall_cons in Htab as [Hno Htab]. destruct (delete_where _ rows) as [[n rows1]|] eqn:Hd; [|done]. intros Hp Hheld.
  destruct (held_step (in_table_of table t) rows n rows1) as [Hh1 Hu1]; [done| |done|done|by eapply IH].
  by intros r [-> _].
Qed.

Lemma held_tenant rows : Forall unled rows -> held rows -> delete_where (is_tenant_row t) rows = None.
Proof.
  intros Hu [(b & Hb & Hbt & f & Hf & Ha & Hn) (r & Hr & Hk)]. unfold delete_where. set (D := cascade _ _ _).
  assert (Hex : existsb (fun r => bool_decide (key r ∉ D) && names_in D on_delete_restrict r) rows = true); [|by rewrite Hex].
  apply existsb_exists. exists b. split; [by apply list_elem_of_In|]. apply andb_true_iff. split.
  - apply bool_decide_eq_true. intros HbD. revert HbD Hbt. eapply (cascade_avoids _ _ _ holding).
    + eapply Forall_impl; [exact Hu|]. unfold unled. naive_solver.
    + intros x (r' & -> & [Hr' _]%list_elem_of_filter)%list_elem_of_fmap. rewrite Hr'. cbn. unfold holding. set_solver.
  - apply names_in_spec. exists f. split_and!; [done|done|]. rewrite Hn. apply cascade_start, list_elem_of_fmap. exists r.
    split; [done|]. by apply list_elem_of_filter.
Qed.
End owned.

(** ** What a purge does *)

(** The key of a row says whose it is, but an invoice is detached before anything is deleted. *)
Definition owned_keys (t : string) (rows : list Row) (k : row_key) : Prop := exists r, r ∈ rows /\ key r = k /\ of_tenant t r.

(** What the migrations promise of a tenant's rows. *)
Record schema (t : string) (rows : list Row) : Prop := mkSchema {
  sc_tidy : Forall (tidy t (owned_keys t rows)) rows;
  sc_unled : Forall unled rows;
  sc_tables : Forall (fun r => rw_tenant r = Some t -> rw_table r ∈ PURGED_TABLES \/ holding (rw_table r) \/ rw_table r = "invoice") rows;
  sc_invoices : Forall (fun r => rw_table r = "invoice" -> forall f, f ∈ rw_refs r -> (rf_names f).1 = "tenant") rows;
  sc_holding : Forall (fun r => holding (rw_table r) -> rw_tenant r = Some t -> mkRef ("tenant", t) on_delete_restrict ∈ rw_refs r) rows;
  sc_there : exists r, r ∈ rows /\ is_tenant_row t r
}.

Lemma detach_same t name r : key (detach t name r) = key r /\ rw_table (detach t name r) = rw_table r /\
  (forall f, f ∈ rw_refs (detach t name r) -> f ∈ rw_refs r) /\ (~ invoice_of t r -> detach t name r = r).
Proof. unfold detach. case_decide; [|done]. split_and!; [done|done| |done]. intros f. cbn. by intros [_ Hf]%list_elem_of_filter. Qed.

Lemma purged_is_purged table : table ∈ PURGED_TABLES -> ~ holding table /\ table <> "tenant" /\ table <> "invoice".
Proof.
  assert (H : Forall (fun table => ~ holding table /\ table <> "tenant" /\ table <> "invoice") PURGED_TABLES).
  { repeat constructor; unfold holding; try done; set_solver. }
  rewrite Forall_forall in H. apply H.
Qed.

Lemma of_tenant_detach t name rows r : schema t rows -> r ∈ rows ->
  of_tenant t (detach t name r) <-> of_tenant t r /\ rw_table r <> "invoice".
Proof.
  intros Hs Hr. unfold of_tenant, is_tenant_row. destruct (detach_same t name r) as (Hk & _ & _ & Hsame). destruct (decide (invoice_of t r)) as [Hi|Hi].
  - rewrite Hk. unfold detach. rewrite decide_True by done. destruct Hi as [Hi1 Hi2]. cbn. split; [|naive_solver].
    intros [|Heq]; [done|]. unfold key in Heq. by rewrite Hi1 in Heq.
  - rewrite Hsame by done. split; [|tauto]. intros Ho. split; [done|]. intros Htab. destruct Ho as [Ho|Ho].
    + by apply Hi.
    + unfold key in Ho. by rewrite Htab in Ho.
Qed.

Lemma tidy_detach t name rows : schema t rows ->
  Forall (tidy t (fun k => owned_keys t rows k /\ k.1 <> "invoice")) (detach t name <$> rows).
Proof.
  intros Hs. apply Forall_forall. intros r' (r & -> & Hr)%list_elem_of_fmap.
  destruct (detach_same t name r) as (Hk & Htab & Hrefs & Hsame).
  destruct (proj1 (Forall_forall _ _) (sc_tidy _ _ Hs) r Hr) as [H1 H2 H3 H4].
  split; [..|intros f Hf|intros f Hf].
  - rewrite Hk, H1, (of_tenant_detach t name rows r Hs Hr). done.
  - intros f Hf [HK Hni]. rewrite (of_tenant_detach t name rows r Hs Hr). split; [by eapply H2; eauto|]. intros Hinv.
    pose proof (proj1 (Forall_forall _ _) (sc_invoices _ _ Hs) r Hr Hinv f (Hrefs f Hf)) as Hten.
    destruct HK as (q & Hq & Hqk & Hqo).
    assert (Hqt : is_tenant_row t q).
    { destruct Hqo as [Hqo|]; [|done]. exfalso. assert (Hqtab : rw_table q = "tenant") by (rewrite <- Hqk in Hten; exact Hten).
      destruct (proj1 (Forall_forall _ _) (sc_tables _ _ Hs) q Hq Hqo) as [Hin|[Hin|Hin]]; rewrite Hqtab in Hin.
      - by apply purged_is_purged in Hin as (_ & ? & _). - unfold holding in Hin. set_solver. - done. }
    assert (Hown : of_tenant t r) by (eapply H2; [eauto|]; by exists q).
    assert (Hi : invoice_of t r). { split; [done|]. destruct Hown as [|Hown]; [done|]. unfold is_tenant_row, key in Hown. by rewrite Hinv in Hown. }
    unfold detach in Hf. rewrite decide_True in Hf by done. cbn in Hf. apply list_elem_of_filter in Hf as [Hne _]. apply Hne. by rewrite <- Hqk.
  - rewrite Htab. eauto.
  - rewrite Htab. eauto.
Qed.

Definition is_held (t : string) (r : Row) : Prop := rw_tenant r = Some t /\ holding (rw_table r).

#[export] Instance is_held_dec t r : Decision (is_held t r).
Proof. unfold is_held, holding. apply _. Defined.

Lemma held_detached t name rows : schema t rows -> Exists (is_held t) rows ->
  held t (detach t name <$> rows) /\ Forall unled (detach t name <$> rows).
Proof.
  intros Hs (b & Hb & Hbt & Hbh)%Exists_exists. destruct (sc_there _ _ Hs) as (r & Hr & Hrt). split; [split|].
  - exists (detach t name b). split; [by apply list_elem_of_fmap_2|]. destruct (detach_same t name b) as (_ & -> & _ & ->).
    { split; [done|]. exists (mkRef ("tenant", t) on_delete_restrict). split; [|done]. by apply (proj1 (Forall_forall _ _) (sc_holding _ _ Hs) b Hb). }
    intros [Hi _]. rewrite Hi in Hbh. unfold holding in Hbh. set_solver.
  - exists (detach t name r). split; [by apply list_elem_of_fmap_2|]. unfold is_tenant_row. by destruct (detach_same t name r) as (-> & _).
  - apply Forall_forall. intros r' (q & -> & Hq)%list_elem_of_fmap. destruct (detach_same t name q) as (_ & Htab & Hrefs & _).
    unfold unled. rewrite Htab. intros Hh f Hf. eapply (proj1 (Forall_forall _ _) (sc_unled _ _ Hs)); eauto.
Qed.

Lemma same_row t r r' : key r = key r' -> rw_tenant r = rw_tenant r' -> rw_table r = rw_table r' /\ (of_tenant t r <-> of_tenant t r').
Proof. intros Hk Ht. unfold of_tenant, is_tenant_row. rewrite Hk, Ht. split; [by injection Hk|done]. Qed.

Section outcome.
Context (rt : Runtime).

(** C11: a tenant that a verification or a granted access request names is never
    erased: both tables refer to the tenant with a key that forbids its
    deletion, and no step deletes from them, so the purge fails at the mapping
    or at the tenant and leaves the database as it was, every time. *)
Theorem a_held_tenant_stays t now revocations db : schema t (db_rows db) -> Exists (is_held t) (db_rows db) ->
  purgeTenant rt t now revocations db = (inl "violates foreign key constraint", db).
Proof.
  intros Hs Hex. unfold purgeTenant.
  destruct (held_detached t (tenant_name t (db_rows db)) (db_rows db) Hs Hex) as [Hheld Hu].
  destruct (purge_tables _ _ _ _) as [[counts rows]|] eqn:Hp; [|done].
  apply held_tables in Hp as [Hheld' Hu']; [by rewrite (held_tenant t rows)|done| |done].
  apply Forall_forall. intros table Hin%purged_is_purged. tauto.
Qed.

Lemma tenant_row_table t r : is_tenant_row t r -> rw_table r = "tenant" /\ ~ holding (rw_table r).
Proof. intros Ho. injection Ho as Ho _. rewrite Ho. split; [done|]. unfold holding. set_solver. Qed.

Lemma only_purged_not_held t rows : Forall (fun r => rw_tenant r = Some t -> rw_table r ∈ PURGED_TABLES) rows ->
  Forall (fun r => of_tenant t r -> ~ holding (rw_table r)) rows.
Proof.
  intros H. eapply Forall_impl; [exact H|]. intros r Hr [Ho|Ho].
  - by apply purged_is_purged, Hr.
  - injection Ho as Ho _. rewrite Ho. unfold holding. set_solver.
Qed.

Lemma purge_all_tables t K rows0 : Forall (tidy t K) rows0 ->
  Forall (fun r => rw_tenant r = Some t -> rw_table r ∈ PURGED_TABLES) rows0 ->
  exists counts rows, purge_tables PURGED_TABLES t [] rows0 = Some (counts, rows) /\ Forall (tidy t K) rows /\
    base.filter (fun r => ~ of_tenant t r) rows = base.filter (fun r => ~ of_tenant t r) rows0 /\
    Forall (fun r => of_tenant t r -> is_tenant_row t r) rows.
Proof.
  intros Ht0 Hin0. pose proof (only_purged_not_held _ _ Hin0) as Hh0.
  destruct (purge_tables_go t K (take 18 PURGED_TABLES) [] rows0) as (c1 & rows1 & Hp1 & Ht1 & Hf1 & Hd1); [done|done|left|].
  { repeat constructor; unfold core; set_solver. }
  assert (Hin1 : Forall (fun r => rw_tenant r = Some t -> rw_table r ∈ PURGED_TABLES) rows1).
  { apply Forall_forall. intros r' (r & Hr & Hk & Hrt & _)%Hd1. destruct (same_row t r r' Hk Hrt) as [<- _]. rewrite <- Hrt.
    by apply (proj1 (Forall_forall _ _) Hin0). }
  destruct (purge_tables_go t K (drop 18 PURGED_TABLES) c1 rows1) as (c2 & rows2 & Hp2 & Ht2 & Hf2 & Hd2);
    [done|by apply only_purged_not_held|right|].
  { apply Forall_forall. intros r' (r & Hr & Hk & Hrt & Hn)%Hd1. destruct (same_row t r r' Hk Hrt) as [<- <-]. intros Ho Heq. apply Hn.
    destruct Ho as [Ho|Ho]; [|injection Ho as Ho _; by rewrite Heq in Ho]. split; [done|]. rewrite Heq. cbn. set_solver. }
  exists c2, rows2. split_and!; [|done|congruence|].
  - change PURGED_TABLES with (take 18 PURGED_TABLES ++ drop 18 PURGED_TABLES)%list. by rewrite purge_tables_app, Hp1.
  - apply Forall_forall. intros r' (r1 & Hr1 & Hk1 & Hrt1 & Hn1)%Hd2 [Htn|Ho]; [exfalso|done].
    assert (Hpt : rw_table r1 ∈ PURGED_TABLES) by (apply (proj1 (Forall_forall _ _) Hin1 r1 Hr1); congruence).
    apply Hd1 in Hr1 as (r & Hr & Hk & Hrt & Hn). destruct (same_row t r r1 Hk Hrt) as [Htab _].
    change PURGED_TABLES with (take 18 PURGED_TABLES ++ drop 18 PURGED_TABLES)%list in Hpt.
    apply elem_of_app in Hpt as [Hin|Hin]; [apply Hn|apply Hn1]; split; congruence.
Qed.

Lemma free_detached t name rows : schema t rows -> ~ Exists (is_held t) rows ->
  Forall (fun r => rw_tenant r = Some t -> rw_table r ∈ PURGED_TABLES) (detach t name <$> rows).
Proof.
  intros Hs Hno. apply Forall_forall. intros r' (r & -> & Hr)%list_elem_of_fmap. unfold detach. case_decide as Hi; [done|]. intros Ho.
  destruct (proj1 (Forall_forall _ _) (sc_tables _ _ Hs) r Hr Ho) as [|[Hh|Hinv]]; [done|exfalso..].
  - apply Hno, Exists_exists. by exists r.
  - by apply Hi.
Qed.

(** C10: erasing a tenant that nothing holds succeeds, and takes everything and
    nothing else: what is left is every row of everybody else, unchanged and in
    order, and the tenant's own invoices, which no longer name it and carry its
    name; the answer lists those invoices, and the receipt is written on the
    records that were waiting for it. *)
Theorem an_erasure_is_whole t now revocations db : schema t (db_rows db) -> ~ Exists (is_held t) (db_rows db) ->
  exists counts, purgeTenant rt t now revocations db =
    (inr (mkPurgeResult (tenantRef rt t) counts (rw_id <$> base.filter (invoice_of t) (db_rows db)) revocations),
     mkDb (base.filter (fun r => ~ of_tenant t r) (detach t (tenant_name t (db_rows db)) <$> db_rows db))
       (receipt (tenantRef rt t) now (rw_id <$> base.filter (invoice_of t) (db_rows db)) counts revocations <$> db_records db)).
Proof.
  intros Hs Hno. unfold purgeTenant. set (name := tenant_name t (db_rows db)).
  pose proof (tidy_detach t name _ Hs) as Ht0. pose proof (free_detached t name _ Hs Hno) as Hin0.
  destruct (purge_all_tables t _ _ Ht0 Hin0) as (counts & rows & -> & Ht & Hf & Htab).
  destruct (delete_step t _ (is_tenant_row t) rows Ht) as (n & rows' & -> & _ & Hf' & Hd).
  { eapply Forall_impl; [exact Htab|]. intros r Hr Ho. by eapply tenant_row_table, Hr. }
  { intros r Hr. by right. }
  { right. eapply Forall_impl; [exact Htab|]. intros r Hr Ho. by destruct (tenant_row_table _ _ (Hr Ho)) as [-> _]. }
  eexists. rewrite <- Hf, <- Hf'. repeat f_equal. symmetry.
  assert (Hall : Forall (fun r => ~ of_tenant t r) rows'); [|clear -Hall; induction Hall; [done|]; rewrite filter_cons_True by done; by f_equal].
  apply Forall_forall. intros r' (D & r & Hr & -> & Hn)%Hd Ho. apply Hn. by apply (proj1 (Forall_forall _ _) Htab r Hr).
Qed.
End outcome.

(** ** A pass that may be running *)

Section deferral.
Context (rt : Runtime) {Env : Type} (retrieve : string -> Env -> (string + RemoteRun) * Env) (cancel_run : string -> Env -> (string + unit) * Env)
  (revokeStoredCredentials : list Row -> string -> Env -> (string + list RevocationOutcome) * Env).

(** Whenever the orchestrator answers about this handle, it says that the run
    is under way, or at least not that it is over. *)
Definition never_over (ref : string) : Prop :=
  forall e, match (retrieve ref e).1 with
            | inr remote => isExecuting remote || isQueued remote || isWaiting remote = true \/
                            isCompleted remote || isFailed remote || isCancelled remote = false
            | inl _ => True
            end.

Lemma going_not_finished remote :
  isExecuting remote || isQueued remote || isWaiting remote = true \/ isCompleted remote || isFailed remote || isCancelled remote = false ->
  remote_verdict remote <> finished.
Proof. unfold remote_verdict. by intros [-> | ->]; [|destruct (_ || _)]. Qed.

Lemma run_verdict_of r (d : Db) e : exists v e',
  run (verdict_of retrieve r) (d, e) = (inr (mkQuiescing (lr_id r) (lr_ref r) (lr_status r) (lr_since r) v), (d, e')) /\
  (forall ref, truthy (lr_ref r) = Some ref -> never_over ref -> v <> finished).
Proof.
  unfold verdict_of. destruct (truthy (lr_ref r)) as [ref|] eqn:Href.
  - rewrite run_catch, run_bind. unfold ask_env. cbn. destruct (retrieve ref e) as [[err|remote] e'] eqn:Hask; cbn; eexists _, _; (split; [done|]).
    + done.
    + intros ref' [= <-] Hnev. specialize (Hnev e). rewrite Hask in Hnev. by apply going_not_finished.
  - eexists _, _. by split.
Qed.

Lemma run_verdictsFor rows (d : Db) e : exists runs e', run (verdictsFor retrieve rows) (d, e) = (inr runs, (d, e')) /\
  forall r ref, r ∈ rows -> truthy (lr_ref r) = Some ref -> never_over ref ->
  exists q, q ∈ runs /\ qr_orchestratorRef q = lr_ref r /\ qr_verdict q <> finished.
Proof.
  revert e; induction rows as [|r rows IH]; intros e; simpl.
  { eexists _, _. split; [done|]. by intros ? ? ?%not_elem_of_nil. }
  destruct (run_verdict_of r d e) as (v & e1 & Hv & Hnot). destruct (IH e1) as (runs & e2 & Hr & Hin).
  eexists _, _. split; [by rewrite run_bind, Hv, run_bind, Hr|]. intros q ref [->|Hq]%elem_of_cons Href Hnev.
  - eexists. split; [by left|]. split; [done|]. by apply (Hnot ref).
  - destruct (Hin q ref Hq Href Hnev) as (x & Hx & ?). exists x. split; [by right|done].
Qed.

Lemma run_cancels rows ids (d : Db) e : exists e', run (pfor (cancel_one cancel_run rows) ids) (d, e) = (inr tt, (d, e')).
Proof.
  revert e; induction ids as [|i ids IH]; intros e; [by eexists|]. simpl. rewrite run_bind. unfold cancel_one at 1.
  destruct (truthy _) as [ref|]; [|apply IH]. rewrite run_catch. unfold ask_env. cbn. destruct (cancel_run ref e) as [[err|u] e']; apply IH.
Qed.

Definition same_but_columns (r r' : Row) : Prop := key r = key r' /\ rw_tenant r = rw_tenant r' /\ rw_refs r = rw_refs r'.

Lemma run_landings sts (d : Db) (e : Env) : exists f, (forall r, same_but_columns r (f r)) /\
  run (pfor (fun st => on_rows (land_run st)) sts) (d, e) = (inr tt, (mkDb (f <$> db_rows d) (db_records d), e)).
Proof.
  revert d; induction sts as [|st sts IH]; intros d.
  { exists id. split; [done|]. simpl. destruct d as [rows recs]. simpl. by rewrite list_fmap_id. }
  destruct (IH (mkDb (land_run st (db_rows d)) (db_records d))) as (f & Hf & Hr). exists (fun r => f (landed st r)). split.
  - intros r. destruct (Hf (landed st r)) as (H1 & H2 & H3). unfold same_but_columns. rewrite <- H1, <- H2, <- H3.
    unfold landed. case_bool_decide; [|done]. by destruct (rw_columns r).
  - etransitivity; [exact Hr|]. simpl. unfold land_run. by rewrite <- list_fmap_compose.
Qed.

(** C12: while the ledger has a run of the tenant's that is not over and that the
    orchestrator does not call over, whatever else it answers, the pass erases
    nothing: no row leaves, none arrives, no receipt is written, and the tenant
    is counted as skipped. *)
Theorem a_running_pass_defers_the_erasure now t sum db e r run_row ref :
  r ∈ db_rows db -> in_table_of "run" t r -> live_run r = Some run_row -> truthy (lr_ref run_row) = Some ref -> never_over ref ->
  exists f sum' e', (forall r, same_but_columns r (f r)) /\
    run (purge_one rt retrieve cancel_run revokeStoredCredentials now t sum) (db, e) = (inr sum', (mkDb (f <$> db_rows db) (db_records db), e')) /\
    pu_purged sum' = pu_purged sum /\ pu_failed sum' = pu_failed sum /\ pu_skippedRunning sum' = Z.succ (pu_skippedRunning sum).
Proof.
  intros Hr Hrun Hlive Href Hnev. set (rows := live_runs t (db_rows db)).
  assert (Hin : run_row ∈ rows). { apply list_elem_of_omap. exists r. by rewrite list_elem_of_filter. }
  destruct (run_verdictsFor rows db e) as (runs & e1 & Hv & Hmiss). destruct (Hmiss run_row ref Hin Href Hnev) as (q & Hq & Hqref & Hqv).
  set (plan := quiescePlan runs now None).
  assert (Hmay : mayPurge plan = false).
  { apply not_true_iff_false. unfold plan. rewrite may_purge_spec. intros Hall. destruct (Hall q Hq) as [|(_ & Hnone & _)]; [done|]. by rewrite Hqref, Href in Hnone. }
  destruct (run_cancels rows (cancel plan) db e1) as (e2 & Hc). destruct (run_landings (landStale plan) db e2) as (f & Hf & Hl).
  exists f. do 2 eexists. split; [done|]. split.
  - unfold purge_one. rewrite run_bind. unfold on_db at 1. cbn -[quiescePlan verdictsFor]. fold rows.
    rewrite run_bind, Hv. fold plan. rewrite run_bind, Hc, run_bind, Hl, Hmay. cbn. done.
  - done.
Qed.
End deferral.

(** ** Samples *)

#[export] Instance owned_keys_dec t rows k : Decision (owned_keys t rows k).
Proof.
  destruct (decide (Exists (fun r => key r = k /\ of_tenant t r) rows)) as [H|H]; [left|right].
  - apply Exists_exists in H as (r & ?). by exists r.
  - intros (r & ?). apply H, Exists_exists. by exists r.
Defined.

Definition tidy_ref t K (r : Row) (f : Ref) : Prop :=
  (K (rf_names f) -> of_tenant t r) /\ (core (rw_table r) -> core (rf_names f).1) /\
  (rf_action f = on_delete_restrict -> core (rf_names f).1 /\ (rw_table r = "apply_receipt" \/ holding (rw_table r))).

Lemma tidy_alt t K r : tidy t K r <-> (K (key r) <-> of_tenant t r) /\ Forall (tidy_ref t K r) (rw_refs r).
Proof.
  unfold tidy_ref. rewrite Forall_forall. split; [intros []; naive_solver|]. intros [H1 H2]. split; [done|..]; intros f Hf; by apply H2.
Qed.

#[export] Instance tidy_dec t rows r : Decision (tidy t (owned_keys t rows) r).
Proof.
  destruct (decide ((owned_keys t rows (key r) <-> of_tenant t r) /\ Forall (fun f => (owned_keys t rows (rf_names f) -> of_tenant t r) /\
    (rw_table r ∈ ["tenant"; "connection"; "mailbox"; "mailbox_mapping"] -> (rf_names f).1 ∈ ["tenant"; "connection"; "mailbox"; "mailbox_mapping"]) /\
    (rf_action f = on_delete_restrict -> (rf_names f).1 ∈ ["tenant"; "connection"; "mailbox"; "mailbox_mapping"] /\
       (rw_table r = "apply_receipt" \/ rw_table r ∈ ["verification_run"; "access_request"]))) (rw_refs r))) as [H|H];
    [left; by apply tidy_alt|right; by rewrite tidy_alt].
Defined.

Definition sample_rows : list Row :=
  let owned table id refs columns := mkRow table id (Some "t1") refs columns in
  let tenant := mkRef ("tenant", "t1") on_delete_cascade in
  [mkRow "tenant" "t1" None [] (tenant_columns "Acme" tn_closed);
   mkRow "tenant" "t2" None [] (tenant_columns "Other" tn_active);
   owned "mailbox" "x1" [tenant] other_columns;
   owned "mailbox" "x2" [tenant] other_columns;
   owned "mailbox_mapping" "m1" [tenant; mkRef ("mailbox", "x1") on_delete_cascade; mkRef ("mailbox", "x2") on_delete_set_null] other_columns;
   owned "item" "i1" [mkRef ("mailbox_mapping", "m1") on_delete_cascade] other_columns;
   owned "run" "r1" [tenant; mkRef ("mailbox_mapping", "m1") on_delete_set_null] (run_columns (Some "o1") (run_live running) 0 None);
   owned "apply_receipt" "a1" [mkRef ("tenant", "t1") on_delete_restrict; mkRef ("mailbox_mapping", "m1") on_delete_restrict] other_columns;
   owned "invoice" "v1" [tenant] (invoice_columns None);
   owned "tenant_closure" "t1" [tenant] (closure_columns 0 0 "owner");
   mkRow "connection" "c2" (Some "t2") [mkRef ("tenant", "t2") on_delete_cascade] other_columns].

(** One verification of the mapping. *)
Definition verified_rows : list Row :=
  (sample_rows ++ [mkRow "verification_run" "q1" (Some "t1")
     [mkRef ("tenant", "t1") on_delete_restrict; mkRef ("mailbox_mapping", "m1") on_delete_restrict] other_columns])%list.

Definition open_text : Runtime := mkRuntime (fun s => s) (fun s => s).

#[local] Ltac each_row := repeat (apply Forall_cons; split); try exact (Forall_nil_2 _); cbn.

(** What the migrations promise holds of these rows. *)
Lemma schema_samples rows : rows = sample_rows \/ rows = verified_rows -> schema "t1" rows.
Proof.
  intros Hrows. split.
  - destruct Hrows as [-> | ->]; apply (bool_decide_unpack _); vm_compute; exact I.
  - destruct Hrows as [-> | ->]; each_row; unfold unled, holding; cbn; intros Hh f Hf Ha; set_solver.
  - destruct Hrows as [-> | ->]; apply (bool_decide_unpack _); vm_compute; exact I.
  - destruct Hrows as [-> | ->]; each_row; intros Hh f Hf; set_solver.
  - destruct Hrows as [-> | ->]; each_row; unfold holding; intros Hh Ht; set_solver.
  - exists (mkRow "tenant" "t1" None [] (tenant_columns "Acme" tn_closed)). split; [|done]. destruct Hrows as [-> | ->]; by left.
Qed.

Lemma an_erasure_is_whole_witness : exists counts,
  purgeTenant open_text "t1" 5 [] (mkDb sample_rows [mkErasure "t1" 0 0 7 0 None [] [] []]) =
  (inr (mkPurgeResult "t1" counts ["v1"] []),
   mkDb [mkRow "tenant" "t2" None [] (tenant_columns "Other" tn_active);
         mkRow "invoice" "v1" None [] (invoice_columns (Some "Acme"));
         mkRow "connection" "c2" (Some "t2") [mkRef ("tenant", "t2") on_delete_cascade] other_columns]
        [mkErasure "t1" 0 0 7 0 (Some 5) ["v1"] counts []]).
Proof.
  destruct (an_erasure_is_whole open_text "t1" 5 [] (mkDb sample_rows [mkErasure "t1" 0 0 7 0 None [] [] []])) as [counts H].
  - apply schema_samples. by left.
  - apply (bool_decide_unpack _); vm_compute; exact I.
  - exists counts. exact H.
Defined.

Lemma a_held_tenant_stays_witness :
  purgeTenant open_text "t1" 5 [] (mkDb verified_rows []) = (inl "violates foreign key constraint", mkDb verified_rows []).
Proof.
  apply a_held_tenant_stays; [apply schema_samples; by right|]. apply (bool_decide_unpack _); vm_compute; exact I.
Defined.

(** The orchestrator answers that every run waits. *)
Definition waiting_run (ref : string) (e : unit) : (string + RemoteRun) * unit := (inr (mkRemote false false true false false false), e).

Lemma a_running_pass_defers_the_erasure_witness : exists f sum' e', (forall r, same_but_columns r (f r)) /\
  run (purge_one open_text waiting_run (fun _ e => (inr tt, e)) (fun _ _ e => (inr [], e)) 5 "t1" (mkPurgeSummary 0 0 0 0 [])) (mkDb sample_rows [], tt)
  = (inr sum', (mkDb (f <$> sample_rows) [], e')) /\ pu_purged sum' = 0 /\ pu_failed sum' = [] /\ pu_skippedRunning sum' = 1.
Proof.
  destruct (a_running_pass_defers_the_erasure open_text waiting_run (fun _ e => (inr tt, e)) (fun _ _ e => (inr [], e)) 5 "t1"
    (mkPurgeSummary 0 0 0 0 []) (mkDb sample_rows []) tt
    (mkRow "run" "r1" (Some "t1") [mkRef ("tenant", "t1") on_delete_cascade; mkRef ("mailbox_mapping", "m1") on_delete_set_null] (run_columns (Some "o1") (run_live running) 0 None))
    (mkLiveRun "r1" (Some "o1") running 0) "o1") as (f & s & e & H); [set_solver|done|done|done|intros []; by left|].
  exists f, s, e. exact H.
Defined.

(** The due list is read once: a tenant closed again, with ninety days to go,
    while the pass was busy with others is erased all the same. *)
Example a_moved_date_is_not_seen :
  let '(closed_again, db) := closeTenant open_text "t1" 90 "owner" 1000 None (mkDb (base.filter (fun r => rw_table r <> "run") sample_rows) []) in
  let '(answer, (db', _)) := run (purge_one open_text waiting_run (fun _ e => (inr tt, e)) (fun _ _ e => (inr [], e)) 2000 "t1" (mkPurgeSummary 0 0 0 0 [])) (db, tt) in
  closed_again = inr (mkCloseResult 7776001000 90 8380801000 7) /\ due_tenants 2000 (db_rows db) = [] /\
  answer = inr (mkPurgeSummary 1 0 0 0 []) /\ rw_id <$> base.filter (fun r => rw_table r = "tenant") (db_rows db') = ["t2"].
Proof. vm_compute. repeat split; reflexivity. Qed.
